(* ===== verification/_CoqProject ===== *)
-Q . S2P
Prelude.v
CBuffer.v
ByteParser.v
Greeting.v
Auth.v
Request.v
Stm.v
Parser.v
Selector.v
Os.v
Trace.v
SelectorRules.v
Scripted.v
Inet.v
Netutils.v
SlotTable.v
Store.v
Users.v
AccessLog.v
Sessions.v
Acl.v
StoreInv.v
MonCommands.v
MonProtocol.v
MonText.v
SocksAuth.v
Program.v
Socks.v
SocksServer.v
Monitor.v
Flags.v
Proxy.v
IdleList.v
SocksInv.v
SocksRules.v
SocksClose.v
SocksTraffic.v
SocksFlush.v
SocksHandshake.v
SocksStates.v
SocksEvents.v
SocksAccept.v
SocksExpire.v
ProxySafe.v
MonitorInv.v
MonitorSafe.v
ServerRuns.v
ServerLife.v
ServerEnd.v
Samples.v
ServerSafe.v
ProxyFaults.v
SocksRelay.v
Client.v
Blocking.v
ClientWire.v
ClientAdmin.v
ClientUi.v
ClientMain.v
ClientKeys.v
ClientAnswers.v
ClientRuns.v
ClientSafe.v
Echo.v
EchoSafe.v
EchoRuns.v
Stress.v
StressSafe.v
StressRun.v
Backend.v
BackendSafe.v
