(* ===== verification/Prelude.v ===== *)
(** A verification of the SOCKS5 proxy of this repository: the server (a SOCKS
    proxy and an administration port in one process), its administration
    client, the echo server of its tests, its load generator and the back end of
    the load generator.

    * The program

    The server is one process with one thread of control, an epoll loop
    (src/server/main.c over src/shared/selector.c).  Both of its servers register
    descriptors with the selector and are called back: the proxy
    (src/server/socks/) negotiates SOCKS5 with a client, checks its credentials
    and the deny lists, resolves and connects to an origin, and relays; the
    monitor (src/server/monitor/monitor.c) speaks a line protocol with
    administrators (monitor_commands.c).  They meet in the store
    (src/server/monitor/store.c): users, configuration, metrics, sessions, access
    log, deny lists.  Names are resolved in threads that notify the selector.  A
    session of the proxy is a state machine (src/shared/stm.c) with two buffers
    (src/shared/buffer.c) and byte-at-a-time parsers.

    * Faults, integers, memory

    A computation that C gives no meaning to is a value: [res] is a result or a
    fault (a failed assert, an access out of bounds, through NULL or to released
    memory, a relock, or the model's own bound on a recursion run out).  No
    theorem treats a fault as vacuous: those about runs say that none happens.
    Machine integers are [Z] with their wrap-around written out; pointers into
    an array are offsets, pointers to objects are keys of a finite map from which
    [free] deletes, so that a dangling pointer is an absent key.  Addresses are
    not used twice.  What [realloc] and uninitialised memory hold is an argument
    ([garbage], [stale]).

    * The system

    Os is an interface of the system calls, whose answers come from an
    environment; OsLaws is what their manual pages promise.  Programs are
    functions in the state-and-fault monad [Os.M] over the selector, the
    program's own data, the environment and a trace of input and output;
    [Os.wp] is its weakest precondition.  Scripted is an instance with the
    answers in lists: it satisfies the laws and the sample runs use it.  Inet is
    the interface of inet_pton and inet_ntop.  [getopt] is not modelled: what it
    returns is an argument.

    * Files

    Shared code: CBuffer (buffer.c); ByteParser (the interface [Feed] of the
    parsers and the loop over it) with its instances Greeting, Auth and Request
    (greeting.c, auth.c, request.c); Stm (stm.c, over the interface [StmAccess]);
    Parser (parser.c, parser_utils.c); Selector (selector.c) with SelectorRules;
    Os, Trace, Scripted; Netutils (netutils.c); Flags (flags.c).

    The store: SlotTable (arrays of slots as finite maps), Store (store.h, its
    creation and configuration), Users, AccessLog, Sessions, Acl (store.c), and
    StoreInv, the store as one object.

    The monitor's protocol: MonCommands (monitor_commands.c), MonProtocol (its
    specification as a conversation), MonText (lines, words and numbers).

    The server: Program (the structures of socks.h, socks.c, monitor.h and
    monitor.c), Socks and SocksServer (socks.c), SocksAuth (auth.c and the
    store), Monitor (monitor.c), Proxy (main.c and the constant handlers).
    IdleList is the list of sessions by activity.

    The server's proofs: SocksInv (the invariant of the proxy, with what the
    rest of the process may do), SocksRules, SocksClose, SocksTraffic,
    SocksFlush, SocksHandshake, SocksStates, SocksEvents, SocksAccept,
    SocksExpire (a rule per function of socks.c), ProxySafe (rounds of the loop);
    MonitorInv and MonitorSafe (the same for monitor.c); ServerRuns (steps of the
    whole process), ServerLife (start, loop and exit), ServerEnd (how the loop
    ends), Samples (a sample process), ServerSafe (the theorems); SocksRelay (the
    relay as two streams); ProxyFaults (runs that fault).

    The client: Client (protocol.c), ClientUi (ui.c), ClientMain (client/main.c);
    ClientWire and ClientAdmin (client and server together), ClientKeys,
    ClientAnswers, ClientRuns and ClientSafe (the terminal and the program).

    The tests' server: Echo, EchoSafe, EchoRuns (echo.c).

    The tools of src/stress/: Blocking (blocking sockets, for them and the
    client); Stress (stress_client.c) with StressSafe (its sockets, clients and
    counters) and StressRun (whole runs); Backend (echo_backend.c) with
    BackendSafe.  Their threads are lists of workers, and a schedule says whose
    turn is next: a turn is one system call of a thread of the back end, and one
    client's input and output or one of its effects on shared counters in the
    load generator, whose clients talk on sockets of their own.

    * The theorems

    - Parsers: each decodes in any fragmentation what its RFC says and stays in
      its arrays ([request_parser_decodes], [auth_parser_decodes],
      [greeting_negotiates], [login_decided]; in Parser [strcmpi_compares]).
    - Data structures refine their specifications: the buffer a bounded queue,
      the user table a finite map, the log a journal, the session table a
      registry, the deny lists two sets, the idle list a list without
      repetition ([buffer_refines_queue], [users_refine_directory],
      [log_refines_journal], [sessions_refine_registry], [acl_refines_sets],
      [idle_list_refines]); [store_invariant] puts the store together.
    - The engine and the loop: [stm_brackets_states], [epoll_mirrors_table],
      [select_dispatches], [register_spec].
    - The server: [server_runs] (no event, in any order, breaks its invariant,
      leaks a descriptor or connects to what is denied), [servers_start],
      [main_safe], [shutdown_ends], [relay_streams].
    - Administration: [conversation_refines], [auth_gate], [admin_survives];
      with the client [commands_understood], [response_roundtrip],
      [stats_reach_client], [client_configures].
    - The client's program: [client_speaks], [client_returns], [menu_selects],
      [answers_read], [number_asked].
    - The echo server: [echo_serves], [echo_accounts].  Utilities:
      [blocking_copy], [flags_recorded]; in Netutils [human_readable].
    - The load generator: [stress_tunnels] (the proxy's decoders read what it was
      told), [stress_accounts] (every client counted and every socket closed,
      under every schedule), [stress_ends] (a fair schedule ends it).  Its back
      end: [backend_echoes].
    - Where the code does not do what it means to, a theorem says what it does:
      [long_host_overflows] of Acl, [wrapped_id_leaks_slot] of Sessions, and
      lemmas of ProxyFaults, MonText, Netutils and Selector.

    * Bounds

    Recursions that follow data are structural.  The others have fuel, and a
    lemma that it is enough: the accept loops [os_backlog] (which [accept_backlog]
    makes decrease), the idle timeout the number of sessions, the walk over
    [getaddrinfo]'s list its length, the loops over a buffer its size, the blocking
    loops one more than the bytes, the client's loops the reads its terminal and
    its socket will answer, the load generator's loops the bytes they move and
    what is still to come ([coming]).  A close callback may close one more descriptor, and
    that one none: [closing 2].  Only [number_loop] can run out of fuel, and
    [number_asked] shows that the program then loops for ever.

    * Hypotheses

    [descriptors_below N]: the system gives no descriptor from [N] on, with which
    the table never moves in a callback (selector.c keeps a pointer into it).
    [handed_out]: it gives none that is open.  [refusals_get_through]: the write of
    the reply that refuses a request does not fail for good.  [admissible], and
    for a whole life [turns_fit] and [options_fit]: what epoll reports is
    registered, a resolver thread and its notification find the session that
    waits for them ([jobs_fit]; where they do not, ProxyFaults shows the fault), and
    the lines of an administrator name no host too long for a rule and find
    memory ([digestible]).  [patient]: a blocking socket fails only by interruption;
    [progress]: a send takes something or sets errno.  [lists_addresses]:
    getaddrinfo's entries have an address.  [Finite]: bytes and interruptions come
    to an end, and a blocking write that takes nothing does not repeat for ever.  All are decided or proved for the
    sample runs, which the witnesses use.

    * Not modelled

    The wake-up signal of the selector (selector_init, selector_close) and
    SIGINT in the client, which end the process; [srv] and [store] as NULL, which
    the callers never pass; a resolver thread is one atomic step at any later
    time.  Of the load generator, the elapsed time and the rates computed from
    it in floating point; its waits (sleep, [live_stop]) are turns a schedule
    does not give.  What is printed for a person to read (usage texts, labels,
    log lines of main.c) is left out. *)
From Stdlib Require Export ZArith Lia.
From Stdlib Require Export Strings.Byte.
From stdpp Require Export base tactics option list list_numbers numbers strings gmap.

Declare Scope proxy_scope.
Delimit Scope proxy_scope with proxy.
Open Scope proxy_scope.

(** * Faulting computations

    A C function that hits an [assert], calls [abort], or touches memory it
    does not own has no meaningful result.  The model makes each of these an
    explicit value. *)
Inductive fault :=
| Aborted          (* assert() failed or abort() called *)
| OutOfBounds      (* array access outside its object *)
| UseAfterFree     (* access through a pointer to released memory *)
| NullDeref         (* access or call through a null pointer *)
| Deadlock         (* locking a mutex the thread already holds *)
| OutOfFuel.       (* the model's own recursion bound was too small *)

Inductive res (A : Type) :=
| Ok (a : A)
| Fault (f : fault).
Arguments Ok {A} _.
Arguments Fault {A} _.

#[export] Instance fault_eq_dec : EqDecision fault.
Proof. solve_decision. Defined.
#[export] Instance res_eq_dec `{EqDecision A} : EqDecision (res A).
Proof. solve_decision. Defined.

#[export] Instance res_ret : MRet res := fun A a => Ok a.
#[export] Instance res_bind : MBind res := fun A B f m =>
  match m with Ok a => f a | Fault e => Fault e end.
#[export] Instance res_fmap : FMap res := fun A B f m =>
  match m with Ok a => Ok (f a) | Fault e => Fault e end.

Definition is_ok {A} (r : res A) : bool :=
  match r with Ok _ => true | Fault _ => false end.

(** Dereference: [None] is the given fault. *)
Definition or_fault {A} (f : fault) (o : option A) : res A :=
  match o with Some a => Ok a | None => Fault f end.

(** [assert(c)]. *)
Definition c_assert (c : bool) : res unit := if c then Ok tt else Fault Aborted.

Lemma bind_ok {A B} (m : res A) (f : A -> res B) b :
  m ≫= f = Ok b <-> exists a, m = Ok a /\ f a = Ok b.
Proof.
  destruct m as [a|e]; cbn; split.
  - intros H; eauto.
  - intros (a' & [= <-] & H); exact H.
  - discriminate.
  - intros (a' & [=] & _).
Qed.

Lemma ok_bind {A B} (a : A) (f : A -> res B) : Ok a ≫= f = f a.
Proof. done. Qed.

Lemma res_step {A A'} (m : res A) a (f : A -> res A') (Q : A' -> Prop) : m = Ok a ->
  (exists b, f a = Ok b /\ Q b) -> exists b, m ≫= f = Ok b /\ Q b.
Proof. by intros ->. Qed.

Lemma or_fault_ok {A} e (o : option A) a : or_fault e o = Ok a <-> o = Some a.
Proof. destruct o; cbn; split; congruence. Qed.

(** * Record update

    [r <| f := v |>] is [r] with field [f] replaced.  A record supports it once
    its eta expansion is registered as an instance of [Eta]. *)
Class Eta (R : Type) := eta : R -> R.
Class Setter {R T : Type} (proj : R -> T) := set : (T -> T) -> R -> R.
Arguments set {R T} proj {_} _ _ : simpl nomatch.

Ltac build_setter :=
  lazymatch goal with
  | |- @Setter ?R ?T ?proj =>
    let i := constr:(_ : Eta R) in
    let i := eval hnf in i in
    let t := constr:(fun (upd : T -> T) (r : R) =>
      ltac:(let b := eval cbv beta in (i r) in
            let p := eval pattern (proj r) in b in
            lazymatch p with ?F _ =>
              let b' := eval cbv beta in (F (upd (proj r))) in exact b' end)) in
    exact t
  end.
#[export] Hint Extern 1 (Setter _) => build_setter : typeclass_instances.

Notation "r <| f := v |>" := (set f (fun _ => v) r)
  (at level 1, f at next level, left associativity) : proxy_scope.
Notation "r <| f ::= g |>" := (set f g r)
  (at level 1, f at next level, left associativity) : proxy_scope.

(** * Machine integers: values in [Z], wrap-around written out. *)
Local Open Scope Z_scope.

Definition u8 (z : Z) : Z := z mod 2 ^ 8.
Definition u16 (z : Z) : Z := z mod 2 ^ 16.
Definition u32 (z : Z) : Z := z mod 2 ^ 32.
Definition u64 (z : Z) : Z := z mod 2 ^ 64.

(** Keep the arithmetic folded while records are simplified. *)
#[global] Arguments u8 : simpl never.
#[global] Arguments u16 : simpl never.
#[global] Arguments u32 : simpl never.
#[global] Arguments u64 : simpl never.
#[global] Arguments Z.of_nat : simpl never.
#[global] Arguments Nat.sub : simpl never.

Lemma u8_small z : 0 <= z < 256 -> u8 z = z.
Proof. intros; unfold u8; apply Z.mod_small; lia. Qed.
Lemma u16_small z : 0 <= z < 65536 -> u16 z = z.
Proof. intros; unfold u16; apply Z.mod_small; lia. Qed.
Lemma u32_small z : 0 <= z < 2 ^ 32 -> u32 z = z.
Proof. intros; unfold u32; apply Z.mod_small; lia. Qed.
Lemma u64_small z : 0 <= z < 2 ^ 64 -> u64 z = z.
Proof. intros; unfold u64; apply Z.mod_small; lia. Qed.

Definition SIZE_MAX : Z := 2 ^ 64 - 1.

(** * Bytes and C strings

    A [uint8_t] or a [char] is a [Byte.byte]; [bz] is its value, [zb] the
    conversion to 8 bits.  The contents of a NUL-terminated string are the list
    of its bytes, without the terminator. *)
#[export] Instance byte_eq_dec : EqDecision byte := Byte.byte_eq_dec.
#[export] Program Instance byte_countable : Countable byte :=
  inj_countable Byte.to_N Byte.of_N _.
Next Obligation. apply Byte.of_to_N. Qed.
#[export] Instance byte_inhabited : Inhabited byte := populate x00.

Definition bz (b : byte) : Z := Z.of_N (Byte.to_N b).
Definition zb (z : Z) : byte := default x00 (Byte.of_N (Z.to_N (u8 z))).

Lemma bz_range b : 0 <= bz b < 256.
Proof. unfold bz. pose proof (Byte.to_N_bounded b). lia. Qed.

Lemma bz_zb z : bz (zb z) = u8 z.
Proof.
  unfold zb, bz.
  assert (Hr : 0 <= u8 z < 256) by (unfold u8; apply Z.mod_pos_bound; lia).
  destruct (Byte.of_N (Z.to_N (u8 z))) as [b|] eqn:E; cbn.
  - apply Byte.to_of_N in E. rewrite E. lia.
  - apply Byte.of_N_None_iff in E. lia.
Qed.

Lemma bz_inj a b : bz a = bz b -> a = b.
Proof.
  unfold bz. intros H%N2Z.inj.
  pose proof (Byte.of_to_N a). pose proof (Byte.of_to_N b). congruence.
Qed.

Lemma zb_bz b : zb (bz b) = b.
Proof. apply bz_inj. rewrite bz_zb. apply u8_small, bz_range. Qed.

Lemma zb_inj z1 z2 : 0 <= z1 < 256 -> 0 <= z2 < 256 -> zb z1 = zb z2 -> z1 = z2.
Proof. intros H1 H2 E%(f_equal bz). rewrite !bz_zb, !u8_small in E; done. Qed.

(** String literals. *)
Abbreviation cstring := (list byte).
Definition lit (s : String.string) : cstring := String.list_byte_of_string s.
Arguments lit s%_string_scope.

(** The C string that starts at the beginning of an array. *)
Fixpoint c_str (a : list byte) : cstring :=
  match a with
  | [] => []
  | c :: a' => if decide (c = x00) then [] else c :: c_str a'
  end.

Definition nul_free (s : cstring) : Prop := x00 ∉ s.

#[export] Instance nul_free_dec s : Decision (nul_free s).
Proof. unfold nul_free. apply _. Defined.

Lemma c_str_nul_free a : nul_free (c_str a).
Proof.
  unfold nul_free. induction a as [|c a IH]; cbn; [set_solver|].
  case_decide; [set_solver|]. rewrite not_elem_of_cons. split; [congruence|done].
Qed.

Lemma c_str_id s : nul_free s -> c_str s = s.
Proof.
  unfold nul_free. induction s as [|c s IH]; cbn; [done|].
  rewrite not_elem_of_cons. intros [Hc Hs].
  rewrite decide_False by congruence. by rewrite IH.
Qed.

Lemma c_str_app_nul s t : nul_free s -> c_str (s ++ x00 :: t) = s.
Proof.
  unfold nul_free. induction s as [|c s IH]; cbn; [done|].
  rewrite not_elem_of_cons. intros [Hc Hs].
  rewrite decide_False by congruence. by rewrite IH.
Qed.

Lemma c_str_stops s t : c_str (s ++ x00 :: t) = c_str s.
Proof. induction s as [|c s IH]; cbn; [done|]. case_decide; [done|]. by rewrite IH. Qed.

Lemma c_str_length a : (length (c_str a) <= length a)%nat.
Proof. induction a; cbn; [lia|]. case_decide; cbn; lia. Qed.

Lemma nul_free_take n s : nul_free s -> nul_free (take n s).
Proof. unfold nul_free. intros H Hin. apply H. by eapply elem_of_take in Hin as (?&?%list_elem_of_lookup_2&?). Qed.

Lemma nul_free_app s t : nul_free (s ++ t) <-> nul_free s /\ nul_free t.
Proof. unfold nul_free. rewrite elem_of_app. tauto. Qed.

(** [strncpy(dst, src, n); dst[n] = 0;] leaves this string in [dst]. *)
Definition strncpy_nul (n : nat) (src : cstring) : cstring := take n src.
#[global] Arguments strncpy_nul : simpl never.

(** A decidable proposition about concrete data. *)
Ltac by_decision := eapply bool_decide_unpack; vm_compute; exact I.

(** * Memory blocks: [memcpy] into, and [memmove] inside, an array. *)
Definition mem_write (off : nat) (bs : list byte) (m : list byte) : res (list byte) :=
  if decide (off + length bs <= length m)%nat
  then Ok (take off m ++ bs ++ drop (off + length bs) m)
  else Fault OutOfBounds.

Definition mem_read (off n : nat) (m : list byte) : res (list byte) :=
  if decide (off + n <= length m)%nat then Ok (take n (drop off m)) else Fault OutOfBounds.

Lemma mem_write_ok off bs m m' :
  mem_write off bs m = Ok m' ->
  (off + length bs <= length m)%nat /\
  m' = take off m ++ bs ++ drop (off + length bs) m /\ length m' = length m.
Proof.
  unfold mem_write. case_decide as H; [|discriminate]. intros [= <-].
  rewrite !length_app, length_take, length_drop. split_and!; [done..|lia].
Qed.

Lemma mem_write_fits off bs m :
  (off + length bs <= length m)%nat ->
  mem_write off bs m = Ok (take off m ++ bs ++ drop (off + length bs) m).
Proof. intros H. unfold mem_write. by rewrite decide_True. Qed.

Lemma mem_read_fits off n m :
  (off + n <= length m)%nat -> mem_read off n m = Ok (take n (drop off m)).
Proof. intros H. unfold mem_read. by rewrite decide_True. Qed.

(** The slice [m[from .. to)] of an array. *)
Definition slice (from to : nat) (m : list byte) : list byte := take (to - from) (drop from m).

Lemma slice_length from to m :
  (to <= length m)%nat -> length (slice from to m) = (to - from)%nat.
Proof. intros. unfold slice. rewrite length_take, length_drop. lia. Qed.

Lemma slice_empty i m : slice i i m = [].
Proof. unfold slice. rewrite Nat.sub_diag. done. Qed.

Lemma slice_drop k from to m : drop k (slice from to m) = slice (from + k) to m.
Proof. unfold slice. rewrite skipn_firstn_comm, drop_drop. f_equal; lia. Qed.

Lemma slice_take k from to m :
  (from + k <= to)%nat -> take k (slice from to m) = slice from (from + k) m.
Proof. intros. unfold slice. rewrite take_take. f_equal. lia. Qed.

Lemma slice_mem_write from off bs m m' :
  mem_write off bs m = Ok m' -> (from <= off)%nat ->
  slice from (off + length bs) m' = slice from off m ++ bs.
Proof.
  intros (Hle & -> & _)%mem_write_ok Hfrom. unfold slice.
  rewrite drop_app_le by (rewrite length_take; lia).
  rewrite skipn_firstn_comm, app_assoc.
  apply take_app_length'. rewrite length_app, length_take, length_drop. lia.
Qed.

(** * Decimal notation ([%u] and its longer forms); 20 digits hold a 64-bit
    value. *)
Fixpoint dec_digits (fuel : nat) (z : Z) : cstring :=
  match fuel with
  | O => []
  | S fuel =>
    if decide (z < 10) then [zb (48 + z)] else dec_digits fuel (z / 10) ++ [zb (48 + z mod 10)]
  end.
Definition dec (z : Z) : cstring := dec_digits 20 z.
#[global] Arguments dec : simpl never.

Definition is_digit (b : byte) : bool := bool_decide (48 <= bz b <= 57).

Lemma digit_ok d : 0 <= d < 10 -> is_digit (zb (48 + d)) = true /\ bz (zb (48 + d)) = 48 + d.
Proof.
  intros Hd. assert (E : bz (zb (48 + d)) = 48 + d) by (rewrite bz_zb, u8_small; lia).
  unfold is_digit. rewrite E. split; [apply bool_decide_true; lia|done].
Qed.

Lemma dec_digits_digits n : forall z, 0 <= z -> Forall (fun c => is_digit c = true) (dec_digits n z).
Proof.
  induction n as [|n IH]; intros z Hz; cbn [dec_digits]; [constructor|]. case_decide.
  - apply Forall_singleton. apply (proj1 (digit_ok z ltac:(lia))).
  - apply Forall_app. split; [by apply IH, Z.div_pos; lia|]. apply Forall_singleton.
    apply (proj1 (digit_ok (z mod 10) (Z.mod_pos_bound z 10 ltac:(lia)))).
Qed.

Lemma dec_digits_length n : forall z, (length (dec_digits n z) <= n)%nat.
Proof.
  induction n as [|n IH]; intros z; cbn [dec_digits]; [done|]. case_decide; [cbn; lia|].
  rewrite length_app. cbn. specialize (IH (z / 10)). lia.
Qed.

Lemma dec_free c v : 0 <= v -> is_digit c = false -> c ∉ dec v.
Proof.
  intros Hv Hc Hin. pose proof (dec_digits_digits 20 v Hv) as Hd. rewrite Forall_forall in Hd.
  specialize (Hd c Hin). congruence.
Qed.

Lemma dec_length v : (length (dec v) <= 20)%nat.
Proof. apply dec_digits_length. Qed.

Lemma dec_nul_free v : 0 <= v -> nul_free (dec v).
Proof. intros Hv. by apply dec_free. Qed.

(** * Loops *)

(** A [foreach] with a callback that returns false to stop. *)
Fixpoint foreach {X C} (fn : X -> C -> bool * C) (l : list X) (ctx : C) : C :=
  match l with
  | [] => ctx
  | x :: l => let '(go, ctx) := fn x ctx in if go : bool then foreach fn l ctx else ctx
  end.

(** A callback that only looks at the elements that satisfy [P]. *)
Lemma foreach_guard {X Y C} (P : X -> bool) (g : X -> Y) (fn : Y -> C -> bool * C) l c :
  foreach (fun x c => if P x then fn (g x) c else (true, c)) l c =
  foreach fn (g <$> List.filter P l) c.
Proof.
  revert c. induction l as [|x l IH]; intros c; [done|]. cbn. destruct (P x); cbn; [|apply IH].
  destruct (fn (g x) c) as [[] c']; [apply IH|done].
Qed.

(** A callback that notes that it was called. *)
Lemma foreach_any {X} (l : list X) :
  foreach (fun _ _ => (true, true)) l false = negb (bool_decide (l = [])).
Proof.
  destruct l as [|x l]; [done|]. cbn. induction l as [|y l IH]; [done|]. exact IH.
Qed.

(** A callback that steps a computation that may fault. *)
Lemma foreach_step {X W} (step : X -> W -> res W) x xs w :
  foreach (fun x w => (true, w ← w; step x w)) (x :: xs) (Ok w) =
  (w ← step x w; foreach (fun x w => (true, w ← w; step x w)) xs (Ok w)).
Proof.
  cbn. destruct (step x w) as [w1|e]; [done|]. cbn. induction xs as [|y xs IH]; [done|exact IH].
Qed.

(** How many elements satisfy [P]. *)
Definition count {X} (P : X -> bool) (l : list X) : nat := length (List.filter P l).
#[global] Arguments count : simpl never.

Lemma count_insert {X} (P : X -> bool) l i x y :
  l !! i = Some x ->
  (count P (<[i:=y]> l) + (if P x then 1 else 0) = count P l + (if P y then 1 else 0))%nat.
Proof.
  unfold count. revert i. induction l as [|z l IH]; intros [|i] H; [done..| |].
  - injection H as ->. cbn. destruct (P x), (P y); cbn; lia.
  - change (<[S i:=y]> (z :: l)) with (z :: <[i:=y]> l). specialize (IH i H).
    cbn [List.filter]. destruct (P z); cbn [length]; lia.
Qed.

Lemma count_app {X} (P : X -> bool) l k : count P (l ++ k) = (count P l + count P k)%nat.
Proof. unfold count. by rewrite List.filter_app, length_app. Qed.

Lemma count_le {X} (P : X -> bool) l : (count P l <= length l)%nat.
Proof. unfold count. induction l as [|x l IH]; cbn; [lia|]. destruct (P x); cbn; lia. Qed.

Lemma count_pos {X} (P : X -> bool) l :
  (0 < count P l)%nat <-> exists i x, l !! i = Some x /\ P x = true.
Proof.
  unfold count. induction l as [|z l IH]; cbn.
  - split; [lia|]. intros (i & x & ? & _). by rewrite lookup_nil in *.
  - destruct (P z) eqn:E; cbn.
    + split; [|lia]. intros _. by exists 0%nat, z.
    + rewrite IH. split.
      * intros (i & x & H & HP). by exists (S i), x.
      * intros ([|i] & x & H & HP); cbn in H; [congruence|eauto].
Qed.

(** [list_find] finds nothing when no element qualifies. *)
Lemma list_find_none_count {X} (P : X -> bool) l :
  list_find (fun x => P x = true) l = None -> count P l = 0%nat.
Proof.
  intros H. rewrite list_find_None in H. destruct (count P l) eqn:E; [done|].
  assert (0 < count P l)%nat as (i & x & Hx & HP)%count_pos by lia.
  rewrite Forall_lookup in H. by destruct (H _ _ Hx).
Qed.

(** Filters that keep nothing, one element, or everything. *)
Lemma filter_nothing {A} (P : A -> Prop) `{forall x, Decision (P x)} (l : list A) :
  (forall j y, l !! j = Some y -> ~ P y) -> filter P l = [].
Proof.
  induction l as [|y l IH]; intros Hn; [done|].
  rewrite filter_cons, decide_False by apply (Hn O y eq_refl).
  apply IH. intros j z Hj. by apply (Hn (S j)).
Qed.

Lemma filter_single {A} (P : A -> Prop) `{forall x, Decision (P x)} (l : list A) k x :
  l !! k = Some x -> P x -> (forall j y, l !! j = Some y -> P y -> j = k) -> filter P l = [x].
Proof.
  revert k. induction l as [|y l IH]; intros k Hk Hx Hu; [done|]. rewrite filter_cons.
  destruct k as [|k].
  - injection Hk as ->. rewrite decide_True by done. f_equal.
    apply filter_nothing. intros j y Hj Hy. discriminate (Hu (S j) y Hj Hy).
  - rewrite decide_False by (intros Hy; discriminate (Hu O y eq_refl Hy)).
    apply (IH k); [done..|]. intros j z Hj Hz. by injection (Hu (S j) z Hj Hz).
Qed.

Lemma filter_everything {A} (P : A -> Prop) `{forall x, Decision (P x)} (l : list A) :
  (forall y, y ∈ l -> P y) -> filter P l = l.
Proof.
  induction l as [|y l IH]; intros Hp; [done|].
  rewrite filter_cons, decide_True by (apply Hp; by left).
  f_equal. apply IH. intros z Hz. apply Hp. by right.
Qed.

(** * Lists without repetition, around one of their elements *)

Lemma last_middle {A} (L1 : list A) x L2 : last (L1 ++ x :: L2) = Some (default x (last L2)).
Proof.
  rewrite last_app. cbn. destruct L2 as [|y L2]; [done|]. cbn.
  by destruct (last (y :: L2)) eqn:El; [|apply last_None in El].
Qed.

Lemma middle_inj {A} (L1 L2 A1 A2 : list A) x : NoDup (L1 ++ x :: L2) ->
  L1 ++ x :: L2 = A1 ++ x :: A2 -> L1 = A1 /\ L2 = A2.
Proof.
  revert A1. induction L1 as [|y L1 IH]; intros [|z A1]; cbn.
  - by intros _ [= ->].
  - intros [Hn _]%NoDup_cons [= <- E]. rewrite E in Hn. set_solver.
  - intros [Hn _]%NoDup_cons [= -> <-]. set_solver.
  - intros [_ Hn]%NoDup_cons [= <- E]. destruct (IH _ Hn E) as [-> ->]. done.
Qed.

(** Who the neighbours of an element are, without [l] and with it. *)
Lemma neighbours {A} `{EqDecision A} (L1 : list A) l L2 A1 x A2 : NoDup (L1 ++ l :: L2) ->
  L1 ++ L2 = A1 ++ x :: A2 ->
  exists B1 B2, L1 ++ l :: L2 = B1 ++ x :: B2 /\
    last A1 = (if decide (head L2 = Some x) then last L1 else last B1) /\
    head A2 = (if decide (last L1 = Some x) then head L2 else head B2).
Proof.
  intros Hn E. assert (Hn' : NoDup (L1 ++ L2)).
  { apply NoDup_app in Hn as (H1 & H2 & H3). apply NoDup_app. split_and!; [done| |].
    - intros y Hy Hy2. apply (H2 y Hy). by right.
    - by apply NoDup_cons in H3 as [_ H3]. }
  assert (Hd : forall y, y ∈ L1 -> y ∉ L2).
  { apply NoDup_app in Hn' as (_ & H2 & _). exact H2. }
  pose proof E as E'. apply List.app_eq_app in E' as (K & [[-> E2]|[-> E2]]).
  - (* [A1] ends inside [L1] or at its end *)
    destruct K as [|y K]; cbn in E2.
    + subst L2. rewrite app_nil_r in *. exists (A1 ++ [l]), A2. split; [by rewrite <- app_assoc|].
      rewrite decide_True by done. split; [done|].
      rewrite decide_False; [done|]. intros Hl. apply (Hd x); [|by left].
      by apply last_Some_elem_of.
    + injection E2 as <- ->. exists A1, (K ++ l :: L2). split; [by rewrite <- app_assoc|]. split.
      * rewrite decide_False; [done|]. intros Hh. apply (Hd x); [set_solver|].
        destruct L2; [done|]. injection Hh as ->. by left.
      * rewrite last_middle. destruct (last K) as [z|] eqn:El; cbn.
        -- rewrite decide_False.
           ++ destruct K; [done|done].
           ++ intros [= ->]. apply NoDup_app in Hn' as (Hn1 & _ & _). apply NoDup_app in Hn1 as (_ & _ & Hn1).
              apply NoDup_cons in Hn1 as [Hx _]. apply Hx. by apply last_Some_elem_of.
        -- apply last_None in El as ->. by rewrite decide_True.
  - subst L2. exists (L1 ++ l :: K), A2. split; [by rewrite <- app_assoc|].
    rewrite last_middle, last_app. destruct K as [|y K]; cbn.
    + rewrite decide_True by done. split; [done|].
      rewrite decide_False; [done|]. intros Hl. apply (Hd x); [|set_solver]. by apply last_Some_elem_of.
    + split.
      * rewrite decide_False.
        -- by destruct (last (y :: K)) eqn:El; [|apply last_None in El].
        -- intros [= ->]. apply NoDup_app in Hn' as (_ & _ & Hn1). cbn in Hn1.
           apply NoDup_cons in Hn1 as [Hx _]. apply Hx. set_solver.
      * rewrite decide_False; [done|]. intros Hl. apply (Hd x); [|set_solver]. by apply last_Some_elem_of.
Qed.
