(* ===== verification/CBuffer.v ===== *)
(** The byte buffer of src/shared/buffer.c: a backing array with a read and a
    write pointer.  Pointers are offsets from [data]; the asserts of the code
    are [c_assert], so a violated one is [Fault Aborted]. *)
From S2P Require Import Prelude.

Module CBuffer.

Record buffer := mk_buffer {
  data : list byte;      (* the backing array, n bytes *)
  limit : nat;           (* one past its end *)
  read : nat;
  write : nat;
}.
#[export] Instance eta_buffer : Eta buffer := fun b =>
  mk_buffer b.(data) b.(limit) b.(read) b.(write).

Definition buffer_reset (b : buffer) : buffer := b <| read := 0 |> <| write := 0 |>.

Definition buffer_init (n : nat) (data : list byte) : buffer :=
  buffer_reset (mk_buffer data n 0 0).

Definition buffer_can_write (b : buffer) : bool := bool_decide (0 < b.(limit) - b.(write)).

(** The pointer is the write offset, [*nbyte] the space after it. *)
Definition buffer_write_ptr (b : buffer) : res (nat * nat) :=
  _ ← c_assert (bool_decide (b.(write) <= b.(limit)));
  Ok (b.(write), b.(limit) - b.(write)).

Definition buffer_can_read (b : buffer) : bool := bool_decide (0 < b.(write) - b.(read)).

Definition buffer_read_ptr (b : buffer) : res (nat * nat) :=
  _ ← c_assert (bool_decide (b.(read) <= b.(write)));
  Ok (b.(read), b.(write) - b.(read)).

Definition buffer_write_adv (b : buffer) (bytes : Z) : res buffer :=
  if decide (bytes > -1)%Z then
    let b := b <| write := b.(write) + Z.to_nat bytes |> in
    _ ← c_assert (bool_decide (b.(write) <= b.(limit)));
    Ok b
  else Ok b.

Definition buffer_compact (b : buffer) : res buffer :=
  if decide (b.(read) = 0) then Ok b
  else if decide (b.(read) = b.(write)) then Ok (b <| read := 0 |> <| write := 0 |>)
  else
    let n := b.(write) - b.(read) in
    bs ← mem_read b.(read) n b.(data);
    m ← mem_write 0 bs b.(data);
    Ok (b <| data := m |> <| read := 0 |> <| write := n |>).

Definition buffer_read_adv (b : buffer) (bytes : Z) : res buffer :=
  if decide (bytes > -1)%Z then
    let b := b <| read := b.(read) + Z.to_nat bytes |> in
    _ ← c_assert (bool_decide (b.(read) <= b.(write)));
    if decide (b.(read) = b.(write)) then buffer_compact b else Ok b
  else Ok b.

Definition buffer_read (b : buffer) : res (byte * buffer) :=
  if buffer_can_read b then
    c ← or_fault OutOfBounds (b.(data) !! b.(read));
    b ← buffer_read_adv b 1;
    Ok (c, b)
  else Ok (x00, b).

Definition buffer_write (b : buffer) (c : byte) : res buffer :=
  if buffer_can_write b then
    m ← mem_write b.(write) [c] b.(data);
    buffer_write_adv (b <| data := m |>) 1
  else Ok b.

(** How callers fill the space [buffer_write_ptr] returned ([memcpy], [read(2)]). *)
Definition buffer_store (b : buffer) (bs : list byte) : res buffer :=
  m ← mem_write b.(write) bs b.(data);
  Ok (b <| data := m |>).

(** How callers fetch [n] of the bytes [buffer_read_ptr] returned. *)
Definition buffer_peek (b : buffer) (n : nat) : res (list byte) :=
  mem_read b.(read) n b.(data).

(** * Invariant and contents *)

(** The invariant buffer.h documents: R <= W <= limit, inside the array. *)
Record wf (b : buffer) : Prop := {
  wf_rw : b.(read) <= b.(write);
  wf_wl : b.(write) <= b.(limit);
  wf_data : length b.(data) = b.(limit);
}.

Definition contents (b : buffer) : list byte := slice b.(read) b.(write) b.(data).

Definition space (b : buffer) : nat := b.(limit) - b.(write).

Lemma contents_length b : wf b -> length (contents b) = b.(write) - b.(read).
Proof. intros []. apply slice_length. lia. Qed.

Lemma can_read_spec b : wf b -> buffer_can_read b = bool_decide (contents b <> []).
Proof.
  intros H. pose proof (contents_length b H). unfold buffer_can_read.
  apply bool_decide_ext. destruct (contents b); cbn in *; split; try lia; done.
Qed.

Lemma can_read_nil b : wf b -> buffer_can_read b = false <-> contents b = [].
Proof. intros H. rewrite can_read_spec, bool_decide_eq_false by done. split; [apply dec_stable|auto]. Qed.

Lemma can_write_spec b : buffer_can_write b = bool_decide (0 < space b).
Proof. done. Qed.

Lemma init_wf n d : length d = n -> wf (buffer_init n d).
Proof. intros H. split; cbn; lia. Qed.

Lemma init_contents n d : contents (buffer_init n d) = [].
Proof. apply slice_empty. Qed.

Lemma write_ptr_wf b : wf b -> buffer_write_ptr b = Ok (b.(write), space b).
Proof. intros []. unfold buffer_write_ptr. by rewrite bool_decide_true. Qed.

Lemma read_ptr_wf b : wf b -> buffer_read_ptr b = Ok (b.(read), length (contents b)).
Proof.
  intros H. rewrite contents_length by done. destruct H.
  unfold buffer_read_ptr. by rewrite bool_decide_true.
Qed.

(** Storing and advancing appends to the contents. *)
Lemma append_spec b bs :
  wf b -> length bs <= space b ->
  exists b', (b1 ← buffer_store b bs; buffer_write_adv b1 (Z.of_nat (length bs))) = Ok b' /\
    wf b' /\ contents b' = contents b ++ bs /\
    b'.(read) = b.(read) /\ b'.(write) = b.(write) + length bs /\ b'.(limit) = b.(limit).
Proof.
  intros [Hrw Hwl Hd] Hsp. unfold space in Hsp.
  destruct (mem_write b.(write) bs b.(data)) as [m|] eqn:E.
  2:{ by rewrite mem_write_fits in E by lia. }
  unfold buffer_store. rewrite E. cbn. unfold buffer_write_adv.
  rewrite decide_True by lia. cbn. rewrite Nat2Z.id, bool_decide_true by lia. cbn.
  eexists. split; [done|]. cbn. split_and!; try done.
  - pose proof (mem_write_ok _ _ _ _ E) as (_ & _ & Hl). split; cbn; lia.
  - unfold contents; cbn. by apply slice_mem_write.
Qed.

(** Compacting moves the contents to the front and changes nothing else. *)
Lemma compact_spec b :
  wf b -> exists b', buffer_compact b = Ok b' /\ wf b' /\ contents b' = contents b /\
    b'.(read) = 0 /\ b'.(write) = b.(write) - b.(read) /\ b'.(limit) = b.(limit).
Proof.
  intros H. pose proof (contents_length b H) as Hcl. destruct H as [Hrw Hwl Hd].
  unfold buffer_compact. case_decide as H0.
  { exists b. split_and!; try done; lia. }
  case_decide as H1.
  { eexists. split; [done|]. cbn. split_and!; try done; [split; cbn; lia| |lia].
    unfold contents; cbn. by rewrite H1, !slice_empty. }
  rewrite mem_read_fits by lia. cbn.
  assert (Hlen : length (take (b.(write) - b.(read)) (drop b.(read) b.(data)))
                 = b.(write) - b.(read)) by (apply (slice_length _ _ _); lia).
  destruct (mem_write 0 _ b.(data)) as [m|] eqn:E.
  2:{ rewrite mem_write_fits in E by lia. done. }
  pose proof (mem_write_ok _ _ _ _ E) as (_ & _ & Hl).
  cbn. eexists. split; [done|]. cbn. split_and!; try done; [split; cbn; lia|].
  unfold contents; cbn.
  pose proof (slice_mem_write 0 0 _ _ _ E (le_n 0)) as Hs.
  rewrite slice_empty, Hlen in Hs. cbn [Nat.add app] in Hs. exact Hs.
Qed.

(** Advancing the read pointer drops from the front, and rewinds when empty. *)
Lemma read_adv_spec b n :
  wf b -> n <= length (contents b) ->
  exists b', buffer_read_adv b (Z.of_nat n) = Ok b' /\ wf b' /\
    contents b' = drop n (contents b) /\ b'.(limit) = b.(limit) /\
    b'.(read) = (if decide (n = length (contents b)) then 0 else b.(read) + n) /\
    b'.(write) = (if decide (n = length (contents b)) then 0 else b.(write)).
Proof.
  intros H Hn. pose proof (contents_length b H) as Hcl. destruct H as [Hrw Hwl Hd].
  unfold buffer_read_adv. rewrite decide_True by lia. cbn.
  rewrite Nat2Z.id, bool_decide_true by lia. cbn.
  set (b1 := b <| read := b.(read) + n |>).
  assert (Hwf1 : wf b1) by (split; cbn; lia).
  assert (Hc1 : contents b1 = drop n (contents b)).
  { unfold contents; cbn. by rewrite slice_drop. }
  case_decide as He.
  - destruct (compact_spec b1 Hwf1) as (b' & -> & Hwf' & Hc' & Hr & Hw & Hl).
    exists b'. rewrite !decide_True by lia. split_and!; try done.
    + by rewrite Hc', Hc1.
    + cbn in Hw. lia.
  - exists b1. rewrite !decide_False by lia. done.
Qed.

Lemma peek_spec b n : wf b -> n <= length (contents b) ->
  buffer_peek b n = Ok (take n (contents b)).
Proof.
  intros H Hn. pose proof (contents_length b H). destruct H.
  unfold buffer_peek, contents, slice. rewrite mem_read_fits by lia.
  rewrite take_take. do 2 f_equal. lia.
Qed.

(** * Refinement of a bounded queue

    The client's view of a buffer: bytes go in at the back while they fit after
    the gap the read pointer leaves, and come out at the front. *)
Record queue := mk_queue { cap : nat; gap : nat; items : list byte }.

Inductive op :=
| OpStore (bs : list byte)     (* memcpy/read(2) into buffer_write_ptr, then buffer_write_adv *)
| OpTake (n : nat)             (* memcpy/write(2) from buffer_read_ptr, then buffer_read_adv *)
| OpPutc (c : byte)            (* buffer_write *)
| OpGetc                       (* buffer_read *)
| OpCompact
| OpReset.

Definition step (o : op) (b : buffer) : res (list byte * buffer) :=
  match o with
  | OpStore bs => b ← buffer_store b bs; b ← buffer_write_adv b (Z.of_nat (length bs)); Ok ([], b)
  | OpTake n => bs ← buffer_peek b n; b ← buffer_read_adv b (Z.of_nat n); Ok (bs, b)
  | OpPutc c => b ← buffer_write b c; Ok ([], b)
  | OpGetc => '(c, b) ← buffer_read b; Ok ([c], b)
  | OpCompact => b ← buffer_compact b; Ok ([], b)
  | OpReset => Ok ([], buffer_reset b)
  end.

Fixpoint run (os : list op) (b : buffer) : res (list byte * buffer) :=
  match os with
  | [] => Ok ([], b)
  | o :: os => '(out, b) ← step o b; '(outs, b) ← run os b; Ok (out ++ outs, b)
  end.

(** Dropping the last byte rewinds the gap. *)
Definition spec_take (n : nat) (q : queue) : list byte * queue :=
  (take n (items q),
   mk_queue (cap q) (if decide (n = length (items q)) then 0 else gap q + n) (drop n (items q))).

Definition spec_append (bs : list byte) (q : queue) : queue :=
  mk_queue (cap q) (gap q) (items q ++ bs).

Definition room (q : queue) : nat := cap q - (gap q + length (items q)).

Definition spec_step (o : op) (q : queue) : option (list byte * queue) :=
  match o with
  | OpStore bs => if decide (length bs <= room q) then Some ([], spec_append bs q) else None
  | OpTake n => if decide (n <= length (items q)) then Some (spec_take n q) else None
  | OpPutc c => Some ([], if decide (0 < room q) then spec_append [c] q else q)
  | OpGetc => Some (match items q with [] => ([x00], q) | _ => spec_take 1 q end)
  | OpCompact => Some ([], mk_queue (cap q) 0 (items q))
  | OpReset => Some ([], mk_queue (cap q) 0 [])
  end.

Fixpoint spec_run (os : list op) (q : queue) : option (list byte * queue) :=
  match os with
  | [] => Some ([], q)
  | o :: os =>
    '(out, q) ← spec_step o q; '(outs, q) ← spec_run os q; Some (out ++ outs, q)
  end.

Definition abs (b : buffer) : queue := mk_queue b.(limit) b.(read) (contents b).

(** Agreement of a run of the code with a run of the specification. *)
Definition agrees (r : res (list byte * buffer)) (s : option (list byte * queue)) : Prop :=
  match r, s with
  | Ok (out, b), Some (out', q) => out = out' /\ wf b /\ abs b = q
  | Fault _, None => True
  | _, _ => False
  end.

Lemma room_abs b : wf b -> room (abs b) = space b.
Proof.
  intros H. unfold room, space, abs; cbn. rewrite contents_length by done.
  destruct H. lia.
Qed.

Lemma append_abs b bs :
  wf b -> length bs <= room (abs b) ->
  exists b', (b1 ← buffer_store b bs; buffer_write_adv b1 (Z.of_nat (length bs))) = Ok b' /\
    wf b' /\ abs b' = spec_append bs (abs b).
Proof.
  intros H Hle. rewrite room_abs in Hle by done.
  destruct (append_spec b bs H Hle) as (b' & E & Hwf & Hc & Hr & Hw & Hl).
  exists b'. split_and!; try done. unfold abs, spec_append; cbn. by rewrite Hl, Hr, Hc.
Qed.

Lemma take_abs b n :
  wf b -> n <= length (items (abs b)) ->
  exists b', buffer_read_adv b (Z.of_nat n) = Ok b' /\ wf b' /\ abs b' = (spec_take n (abs b)).2.
Proof.
  intros H Hn. destruct (read_adv_spec b n H Hn) as (b' & E & Hwf & Hc & Hl & Hr & Hw).
  exists b'. split_and!; try done. unfold abs, spec_take; cbn. by rewrite Hl, Hr, Hc.
Qed.

Lemma append_too_long b bs :
  wf b -> room (abs b) < length bs -> is_ok (buffer_store b bs) = false.
Proof.
  intros H Hlt. rewrite room_abs in Hlt by done. destruct H. unfold space in Hlt.
  unfold buffer_store, mem_write. by rewrite decide_False by lia.
Qed.

Lemma take_too_long b n :
  wf b -> length (contents b) < n -> buffer_read_adv b (Z.of_nat n) = Fault Aborted.
Proof.
  intros H Hlt. rewrite contents_length in Hlt by done. destruct H.
  unfold buffer_read_adv. rewrite decide_True by lia. cbn.
  by rewrite Nat2Z.id, bool_decide_false by lia.
Qed.

Lemma getc_abs b :
  wf b -> agrees (step OpGetc b) (spec_step OpGetc (abs b)).
Proof.
  intros H. cbn [step spec_step]. unfold buffer_read. rewrite can_read_spec by done. cbn.
  destruct (contents b) as [|c rest] eqn:E; [done|].
  rewrite bool_decide_true by done.
  destruct (take_abs b 1 H) as (b' & E1 & Hwf & Habs); [cbn; rewrite E; cbn; lia|].
  change (Z.of_nat 1) with 1%Z in E1.
  assert (Hc : data b !! read b = Some c).
  { pose proof (f_equal head E) as Eh. unfold contents, slice in Eh.
    rewrite head_lookup, lookup_take, lookup_drop, Nat.add_0_r in Eh.
    case_decide; done. }
  rewrite Hc. cbn [or_fault mbind res_bind]. rewrite E1. cbn. split_and!; try done. by rewrite E.
Qed.

Lemma step_refines o b : wf b -> agrees (step o b) (spec_step o (abs b)).
Proof.
  intros H. destruct o as [bs|n|c| | |]; [| | |by apply getc_abs| |].
  - cbn [step spec_step]. case_decide as Hd.
    + destruct (append_abs b bs H Hd) as (b' & E & Hwf & Habs).
      apply bind_ok in E as (b1 & -> & E). cbn. by rewrite E.
    + pose proof (append_too_long b bs H ltac:(lia)) as E.
      by destruct (buffer_store b bs).
  - cbn [step spec_step]. case_decide as Hd.
    + destruct (take_abs b n H Hd) as (b' & E & Hwf & Habs).
      rewrite peek_spec by done. cbn. by rewrite E.
    + cbn in Hd. destruct (buffer_peek b n); cbn; [|done].
      by rewrite take_too_long by (done || lia).
  - cbn [step spec_step]. unfold buffer_write. rewrite can_write_spec, <- room_abs by done.
    case_decide as Hd; [rewrite bool_decide_true by done|by rewrite bool_decide_false by done].
    destruct (append_abs b [c] H Hd) as (b' & E & Hwf & Habs).
    unfold buffer_store in E. apply bind_ok in E as (b1 & E1 & E).
    apply bind_ok in E1 as (m & -> & [= <-]). cbn [mbind res_bind].
    change (Z.of_nat (length [c])) with 1%Z in E. by rewrite E.
  - cbn [step spec_step]. destruct (compact_spec b H) as (b' & E & Hwf & Hc & Hr & _ & Hl).
    rewrite E. cbn. split_and!; try done. unfold abs. by rewrite Hc, Hr, Hl.
  - cbn. split_and!; [done| |].
    + destruct H. split; cbn; lia.
    + done.
Qed.

(** C21. Every sequence of buffer operations, from any state that
    satisfies the documented invariant R <= W <= limit, behaves as the bounded
    queue: it yields the same bytes, the invariant holds again, and it hits an
    assert or leaves the array exactly when the queue refuses the operation. *)
Theorem buffer_refines_queue os b :
  wf b -> agrees (run os b) (spec_run os (abs b)).
Proof.
  revert b. induction os as [|o os IH]; intros b H; [done|].
  cbn [run spec_run]. pose proof (step_refines o b H) as Hs. unfold agrees in Hs.
  destruct (step o b) as [[out b1]|e], (spec_step o (abs b)) as [[out' q]|]; try done.
  destruct Hs as (-> & Hwf & <-). specialize (IH b1 Hwf). unfold agrees in IH |- *. cbn.
  destruct (run os b1) as [[outs b2]|], (spec_run os (abs b1)) as [[outs' q2]|]; try done.
  by destruct IH as (-> & Hwf2 & <-).
Qed.

Definition test_ops : list op :=
  [OpStore (lit "HOLA"); OpGetc; OpTake 2; OpStore (lit " M"); OpCompact; OpStore (lit "UND")].

Lemma buffer_refines_queue_witness :
  wf (buffer_init 6 (replicate 6 x00)) /\
  agrees (run test_ops (buffer_init 6 (replicate 6 x00)))
    (spec_run test_ops (abs (buffer_init 6 (replicate 6 x00)))).
Proof.
  split; [apply init_wf; reflexivity|].
  apply buffer_refines_queue. apply init_wf; reflexivity.
Defined.

(** The unit test of the repository, step by step. *)
Example buffer_test :
  fst <$> run test_ops (buffer_init 6 (replicate 6 x00)) = Ok (lit "HOL").
Proof. reflexivity. Qed.

End CBuffer.
