(* ===== verification/ByteParser.v ===== *)
(** The interface of the byte-at-a-time parsers (greeting.c, auth.c, request.c):
    a [feed] function that consumes one byte and says whether it needs more, and
    the loop socks.c runs over it.  The client's theorems about fragmentation
    are proved here once, against the interface. *)
From S2P Require Import Prelude.

(** A parser with state [P] and statuses [R].  [progress p p'] holds of the
    states before and after any byte. *)
Class ByteParser (P R : Type) := {
  feed : P -> byte -> res (R * P);
  need_more : R;              (* NEED_MORE *)
  more : R -> bool;           (* status == NEED_MORE *)
  more_need_more : more need_more = true;
  more_eq : forall s, more s = true -> s = need_more;
}.

Section Drain.
Context `{BP : ByteParser P R}.

(** Feed bytes until a status other than NEED_MORE: the status, the parser and
    the bytes not consumed. *)
Fixpoint drain (p : P) (bs : list byte) : res (R * P * list byte) :=
  match bs with
  | [] => Ok (need_more, p, [])
  | b :: bs =>
    '(s, p) ← feed p b;
    if more s then drain p bs else Ok (s, p, bs)
  end.

(** Continue a finished or unfinished drain with further bytes. *)
Definition resume (r : res (R * P * list byte)) (bs : list byte) : res (R * P * list byte) :=
  '(s, p, rest) ← r;
  if more s then drain p bs else Ok (s, p, rest ++ bs).

Lemma drain_app p xs ys : drain p (xs ++ ys) = resume (drain p xs) ys.
Proof.
  revert p. induction xs as [|b xs IH]; intros p; cbn.
  - by rewrite more_need_more.
  - destruct (feed p b) as [[s p']|e]; cbn; [|done].
    destruct (more s) eqn:E; [apply IH|]. cbn. by rewrite E.
Qed.

(** Reading the same stream in any chunks gives the same result. *)
Lemma drain_chunks p chunks :
  foldl resume (drain p []) chunks = drain p (concat chunks).
Proof.
  rewrite <- (app_nil_l (concat chunks)). generalize (@nil byte) as pre.
  induction chunks as [|c cs IH]; intros pre; cbn.
  - by rewrite app_nil_r.
  - by rewrite <- drain_app, IH, <- app_assoc.
Qed.

Lemma drain_cons p b bs s p' :
  feed p b = Ok (s, p') ->
  drain p (b :: bs) = if more s then drain p' bs else Ok (s, p', bs).
Proof. intros E. cbn. by rewrite E. Qed.

(** An invariant of [feed] is an invariant of [drain]; a parser that never
    faults inside it never faults on any input. *)
Lemma drain_invariant (I : P -> Prop) :
  (forall p b, I p -> exists s p', feed p b = Ok (s, p') /\ (more s = true -> I p')) ->
  forall bs p, I p -> exists s p' rest, drain p bs = Ok (s, p', rest) /\ (more s = true -> I p').
Proof.
  intros Hstep bs. induction bs as [|b bs IH]; intros p Hp; [by eauto 6|].
  destruct (Hstep p b Hp) as (s & p' & E & Hi). rewrite (drain_cons _ _ _ _ _ E).
  destruct (more s) eqn:Es; [by apply IH, Hi|]. exists s, p', bs. split; [done|congruence].
Qed.

(** A status other than NEED_MORE always consumes at least one byte. *)
Lemma drain_consumes p bs s p' rest :
  drain p bs = Ok (s, p', rest) -> more s = false -> length rest < length bs.
Proof.
  revert p. induction bs as [|b bs IH]; intros p; cbn.
  - intros [= <- _ _]. by rewrite more_need_more.
  - destruct (feed p b) as [[s1 p1]|e]; cbn; [|discriminate].
    destruct (more s1) eqn:Es; intros E Hs.
    + specialize (IH _ E Hs). lia.
    + injection E as -> -> ->. lia.
Qed.

Lemma drain_suffix p bs s p' rest :
  drain p bs = Ok (s, p', rest) -> exists used, bs = used ++ rest.
Proof.
  revert p. induction bs as [|b bs IH]; intros p; cbn.
  - intros [= _ _ <-]. by exists [].
  - destruct (feed p b) as [[s1 p1]|e]; cbn; [|discriminate].
    destruct (more s1) eqn:Es; intros E.
    + destruct (IH _ E) as (used & ->). by exists (b :: used).
    + injection E as -> -> ->. by exists [b].
Qed.

Lemma drain_more p bs s p' rest :
  drain p bs = Ok (s, p', rest) -> more s = true -> s = need_more /\ rest = [].
Proof.
  revert p. induction bs as [|b bs IH]; intros p; cbn.
  - by intros [= <- _ <-].
  - destruct (feed p b) as [[s1 p1]|e]; cbn; [|discriminate].
    destruct (more s1) eqn:Es; intros E Hs; [eauto|]. injection E as -> -> ->. congruence.
Qed.

End Drain.

(** * Fixed arrays filled front to back

    The parsers store a counted field with [a[len - remaining] = byte]. *)
Lemma array_fill (a : list byte) (i : nat) (b : byte) :
  i < length a -> take (Datatypes.S i) (<[i:=b]> a) = take i a ++ [b].
Proof.
  intros H. erewrite take_S_r by by apply list_lookup_insert_eq.
  by rewrite take_insert_ge by lia.
Qed.

(** [a[i] = b], faulting outside the array. *)
Definition array_set (a : list byte) (i : Z) (b : byte) : res (list byte) :=
  if decide (0 <= i < Z.of_nat (length a))%Z then Ok (<[Z.to_nat i:=b]> a) else Fault OutOfBounds.

#[global] Arguments array_set : simpl never.

Lemma array_set_nat a (i : nat) b : i < length a -> array_set a (Z.of_nat i) b = Ok (<[i:=b]> a).
Proof. intros. unfold array_set. rewrite decide_True by lia. by rewrite Nat2Z.id. Qed.

(** [a] with [xs] stored from index [i] on. *)
Definition fill (a : list byte) (i : nat) (xs : list byte) : list byte :=
  take i a ++ xs ++ drop (i + length xs) a.

Lemma fill_nil a i : fill a i [] = a.
Proof. unfold fill. cbn. rewrite Nat.add_0_r. apply take_drop. Qed.

Lemma fill_length a i xs : i + length xs <= length a -> length (fill a i xs) = length a.
Proof. intros. unfold fill. rewrite !length_app, length_take, length_drop. lia. Qed.

Lemma fill_insert a i b xs :
  i + Datatypes.S (length xs) <= length a ->
  fill (<[i:=b]> a) (Datatypes.S i) xs = fill a i (b :: xs).
Proof.
  intros H. unfold fill. rewrite array_fill by lia.
  rewrite drop_insert_lt by (cbn; lia). cbn [length app].
  rewrite <- app_assoc. cbn. do 4 f_equal. lia.
Qed.

Lemma take_fill a i xs : i + length xs <= length a ->
  take (i + length xs) (fill a i xs) = take i a ++ xs.
Proof.
  intros. unfold fill. rewrite app_assoc. apply take_app_length'.
  rewrite length_app, length_take. lia.
Qed.

Section Counted.
Context `{BP : ByteParser P St}.

(** [at_ a n] is the parser with array [a] and [n] bytes of a field of length
    [l] still to come, [fin a] what it becomes, with its status, on the last. *)
Variables (at_ : list byte -> nat -> P) (fin : list byte -> res (St * P)) (l size : nat).
Hypothesis Hsize : l <= size.
Hypothesis Hstep : forall a n b, length a = size -> n < l ->
  feed (at_ a (Datatypes.S n)) b =
  let a' := <[l - Datatypes.S n:=b]> a in
  if decide (n = 0) then fin a' else Ok (need_more, at_ a' n).

(** The loop stores exactly the next [n] bytes, or waits if there are fewer. *)
Lemma drain_counted bs : forall a n,
  0 < n <= l -> length a = size ->
  drain (at_ a n) bs =
  if decide (n <= length bs)
  then '(s, p) ← fin (fill a (l - n) (take n bs));
       if more s then drain p (drop n bs) else Ok (s, p, drop n bs)
  else Ok (need_more, at_ (fill a (l - n) bs) (n - length bs), []).
Proof.
  induction bs as [|b bs IH]; intros a n Hn Ha.
  { rewrite decide_False by (cbn; lia). by rewrite fill_nil, Nat.sub_0_r. }
  destruct n as [|n]; [lia|]. cbn [drain]. rewrite (Hstep a n b) by lia. cbn [length take drop].
  destruct (decide (n = 0)) as [->|Hn0].
  - rewrite decide_True by lia. cbn [take drop].
    rewrite take_0, drop_0, <- fill_insert by (cbn [length]; lia). by rewrite fill_nil.
  - cbn. rewrite more_need_more. rewrite IH by (rewrite ?length_insert; lia).
    replace (l - n) with (Datatypes.S (l - Datatypes.S n)) by lia.
    destruct (decide (n <= length bs)) as [Hle|Hgt].
    + rewrite decide_True by lia. by rewrite fill_insert by (rewrite length_take; lia).
    + rewrite decide_False by lia. by rewrite fill_insert by lia.
Qed.

End Counted.
