(* ===== verification/Greeting.v ===== *)
(** SOCKS5 method negotiation parser of src/server/socks/greeting/greeting.c
    (RFC 1928, section 3): VER | NMETHODS | METHODS. *)
From S2P Require Import Prelude ByteParser.
Local Open Scope Z_scope.

Module Greeting.

Definition SOCKS_VERSION : byte := x05.
Definition SOCKS_METHOD_USERPASS : byte := x02.
Definition SOCKS_METHOD_NOAUTH : byte := x00.

Inductive greeting_state := GREETING_VER | GREETING_NMETHODS | GREETING_METHODS.

Inductive socks_greeting_status :=
| SOCKS_GREETING_NEED_MORE
| SOCKS_GREETING_ACCEPT
| SOCKS_GREETING_REJECT.

Record socks_greeting_parser := mk_parser {
  state : greeting_state;
  methods_remaining : Z;      (* uint8_t *)
  has_userpass : bool;
  has_noauth : bool;
  chosen_method : byte;
}.
#[export] Instance eta_parser : Eta socks_greeting_parser := fun p =>
  mk_parser p.(state) p.(methods_remaining) p.(has_userpass) p.(has_noauth) p.(chosen_method).

Definition socks_greeting_parser_init : socks_greeting_parser :=
  mk_parser GREETING_VER 0 false false xff.

Definition socks_greeting_parser_feed (p : socks_greeting_parser) (b : byte)
  : socks_greeting_status * socks_greeting_parser :=
  match p.(state) with
  | GREETING_VER =>
    if decide (b <> SOCKS_VERSION) then (SOCKS_GREETING_REJECT, p)
    else (SOCKS_GREETING_NEED_MORE, p <| state := GREETING_NMETHODS |>)
  | GREETING_NMETHODS =>
    if decide (bz b = 0) then (SOCKS_GREETING_REJECT, p)
    else (SOCKS_GREETING_NEED_MORE,
          p <| methods_remaining := bz b |> <| state := GREETING_METHODS |>)
  | GREETING_METHODS =>
    let p := if decide (b = SOCKS_METHOD_USERPASS) then p <| has_userpass := true |>
             else if decide (b = SOCKS_METHOD_NOAUTH) then p <| has_noauth := true |>
             else p in
    let p := p <| methods_remaining := u8 (p.(methods_remaining) - 1) |> in
    if decide (p.(methods_remaining) > 0) then (SOCKS_GREETING_NEED_MORE, p)
    else if p.(has_userpass) then
      (SOCKS_GREETING_ACCEPT, p <| chosen_method := SOCKS_METHOD_USERPASS |>)
    else if p.(has_noauth) then
      (SOCKS_GREETING_ACCEPT, p <| chosen_method := SOCKS_METHOD_NOAUTH |>)
    else (SOCKS_GREETING_REJECT, p)
  end.

Definition socks_greeting_chosen_method (p : option socks_greeting_parser) : byte :=
  match p with Some p => p.(chosen_method) | None => xff end.

#[export] Instance status_eq_dec : EqDecision socks_greeting_status.
Proof. solve_decision. Defined.

#[export] Program Instance greeting_parser
  : ByteParser socks_greeting_parser socks_greeting_status := {
  feed := fun p b => Ok (socks_greeting_parser_feed p b);
  need_more := SOCKS_GREETING_NEED_MORE;
  more := fun s => bool_decide (s = SOCKS_GREETING_NEED_MORE);
}.
Next Obligation. done. Qed.
Next Obligation. intros s ?%bool_decide_eq_true. done. Qed.

(** * Reference: the message of RFC 1928 *)

Definition encode (methods : list byte) : list byte :=
  SOCKS_VERSION :: zb (Z.of_nat (length methods)) :: methods.

(** The choice the server makes among the offered methods: username/password
    if offered, else no authentication if offered, else none. *)
Definition choose (methods : list byte) : option byte :=
  if decide (SOCKS_METHOD_USERPASS ∈ methods) then Some SOCKS_METHOD_USERPASS
  else if decide (SOCKS_METHOD_NOAUTH ∈ methods) then Some SOCKS_METHOD_NOAUTH
  else None.

(** The verdict on a complete message, [p] being the final parser. *)
Definition verdict (methods : list byte) (s : socks_greeting_status) (p : socks_greeting_parser) : Prop :=
  match choose methods with
  | Some m => s = SOCKS_GREETING_ACCEPT /\ p.(chosen_method) = m
  | None => s = SOCKS_GREETING_REJECT /\ p.(chosen_method) = xff
  end.

(** The flags record the methods seen so far. *)
Definition seen (p : socks_greeting_parser) (ms : list byte) : Prop :=
  p.(has_userpass) = bool_decide (SOCKS_METHOD_USERPASS ∈ ms) /\
  p.(has_noauth) = bool_decide (SOCKS_METHOD_NOAUTH ∈ ms) /\
  p.(chosen_method) = xff.

Lemma feed_method p b pre n :
  p.(state) = GREETING_METHODS -> p.(methods_remaining) = Z.of_nat n + 1 ->
  Z.of_nat n + 1 < 256 -> seen p pre ->
  exists s p', socks_greeting_parser_feed p b = (s, p') /\
    if decide (n = 0%nat) then verdict (pre ++ [b]) s p'
    else s = SOCKS_GREETING_NEED_MORE /\ p'.(state) = GREETING_METHODS /\
         p'.(methods_remaining) = Z.of_nat n /\ seen p' (pre ++ [b]).
Proof.
  intros Hst Hrem Hn (Hu & Ha & Hc). unfold socks_greeting_parser_feed. rewrite Hst.
  set (p1 := if decide (b = SOCKS_METHOD_USERPASS) then _ else _).
  assert (H1 : p1.(state) = GREETING_METHODS /\ p1.(methods_remaining) = Z.of_nat n + 1 /\
               seen p1 (pre ++ [b])).
  { subst p1. unfold seen.
    assert (SOCKS_METHOD_NOAUTH <> SOCKS_METHOD_USERPASS) by discriminate.
    destruct (decide (b = SOCKS_METHOD_USERPASS)) as [->|];
      [|destruct (decide (b = SOCKS_METHOD_NOAUTH)) as [->|]];
      cbn; split_and!; try done; rewrite ?Hu, ?Ha;
      first [symmetry; apply bool_decide_eq_true; set_solver
            |apply bool_decide_ext; set_solver]. }
  clearbody p1. destruct H1 as (Hst1 & Hrem1 & Hu1 & Ha1 & Hc1). cbn.
  rewrite Hrem1, Z.add_simpl_r, u8_small by lia. rewrite Hu1, Ha1.
  destruct (decide (n = 0%nat)) as [->|Hn0].
  - rewrite decide_False by lia. unfold verdict, choose.
    destruct (decide (SOCKS_METHOD_USERPASS ∈ _)) as [?|?];
      [rewrite bool_decide_true by done; eauto|rewrite bool_decide_false by done].
    destruct (decide (SOCKS_METHOD_NOAUTH ∈ _)) as [?|?];
      [rewrite bool_decide_true by done; eauto|rewrite bool_decide_false by done].
    eauto.
  - rewrite decide_True by lia. eexists _, _. split; [done|]. unfold seen. cbn. done.
Qed.

(** The methods list: [n] more bytes decide, fewer leave the parser waiting. *)
Lemma drain_methods bs : forall p pre n,
  p.(state) = GREETING_METHODS -> p.(methods_remaining) = Z.of_nat n ->
  (0 < n)%nat -> Z.of_nat n < 256 -> seen p pre ->
  exists s p', drain p bs = Ok (s, p', drop n bs) /\
    if decide (n <= length bs)%nat then verdict (pre ++ take n bs) s p'
    else s = SOCKS_GREETING_NEED_MORE.
Proof.
  induction bs as [|b bs IH]; intros p pre n Hst Hrem Hpos Hlen Hseen.
  { exists SOCKS_GREETING_NEED_MORE, p. rewrite drop_nil, decide_False by (cbn; lia). done. }
  destruct n as [|n]; [lia|].
  destruct (feed_method p b pre n Hst ltac:(lia) ltac:(lia) Hseen) as (s & p' & E & H).
  rewrite (drain_cons _ _ _ s p') by (cbn; by rewrite E). cbn [drop take length].
  destruct (decide (n = 0%nat)) as [->|Hn].
  - exists s, p'. rewrite decide_True by lia. split; [|done].
    unfold verdict in H. destruct (choose _); destruct H as [-> _]; done.
  - destruct H as (-> & Hst' & Hrem' & Hseen'). cbn.
    destruct (IH p' (pre ++ [b]) n Hst' Hrem' ltac:(lia) ltac:(lia) Hseen') as (s2 & p2 & E2 & Hv).
    exists s2, p2. split; [done|]. destruct (decide (n <= length bs)%nat).
    + rewrite decide_True by lia. by rewrite <- app_assoc in Hv.
    + by rewrite decide_False by lia.
Qed.

(** What RFC 1928 says of a byte stream: whether the message is complete, the
    method chosen if there is one, and the bytes after the message. *)
Definition negotiate (bs : list byte) : socks_greeting_status * option byte * list byte :=
  match bs with
  | [] => (SOCKS_GREETING_NEED_MORE, None, [])
  | v :: bs =>
    if decide (v <> SOCKS_VERSION) then (SOCKS_GREETING_REJECT, None, bs)
    else match bs with
    | [] => (SOCKS_GREETING_NEED_MORE, None, [])
    | n :: bs =>
      let n := Z.to_nat (bz n) in
      if decide (n = 0)%nat then (SOCKS_GREETING_REJECT, None, bs)
      else if decide (n <= length bs)%nat then
        match choose (take n bs) with
        | Some m => (SOCKS_GREETING_ACCEPT, Some m, drop n bs)
        | None => (SOCKS_GREETING_REJECT, None, drop n bs)
        end
      else (SOCKS_GREETING_NEED_MORE, None, [])
    end
  end.

(** The parser on a whole stream. *)
Lemma greeting_drains bs :
  exists s p rest, drain socks_greeting_parser_init bs = Ok (s, p, rest) /\
    (s, (if decide (s = SOCKS_GREETING_ACCEPT) then Some p.(chosen_method) else None), rest)
    = negotiate bs /\
    (s = SOCKS_GREETING_REJECT -> p.(chosen_method) = xff).
Proof.
  destruct bs as [|v bs]; [by eexists _, _, _|]. cbn [negotiate].
  case_decide as Hv.
  { exists SOCKS_GREETING_REJECT, socks_greeting_parser_init, bs. split; [|done].
    rewrite (drain_cons _ _ _ SOCKS_GREETING_REJECT socks_greeting_parser_init); [done|].
    cbn. by rewrite decide_True. }
  subst v.
  rewrite (drain_cons _ _ _ SOCKS_GREETING_NEED_MORE
             (socks_greeting_parser_init <| state := GREETING_NMETHODS |>)) by done.
  cbn [more greeting_parser]. rewrite bool_decide_true by done.
  destruct bs as [|n bs]; [by eexists _, _, _|].
  pose proof (bz_range n) as Hn.
  case_decide as Hz.
  { exists SOCKS_GREETING_REJECT,
      (socks_greeting_parser_init <| state := GREETING_NMETHODS |>), bs. split; [|done].
    rewrite (drain_cons _ _ _ SOCKS_GREETING_REJECT
               (socks_greeting_parser_init <| state := GREETING_NMETHODS |>)); [done|].
    cbn. by rewrite decide_True by lia. }
  erewrite (drain_cons _ _ _ SOCKS_GREETING_NEED_MORE) by (cbn; by rewrite decide_False by lia).
  cbn [more greeting_parser]. rewrite bool_decide_true by done.
  edestruct (drain_methods bs) with (pre := @nil byte) (n := Z.to_nat (bz n))
    as (s & p & E & H); [..|rewrite E]; try done; try lia; [cbn; lia|].
  exists s, p, (drop (Z.to_nat (bz n)) bs). split; [done|].
  case_decide as Hl; cbn [app] in H.
  - unfold verdict in H. destruct (choose _) as [m|]; destruct H as [-> H];
      (split; [cbn; by rewrite ?H|done]).
  - subst s. by rewrite skipn_all2 by lia.
Qed.

Example greeting_both_methods :
  negotiate (encode [x00; x02] ++ [x01]) = (SOCKS_GREETING_ACCEPT, Some x02, [x01]).
Proof. reflexivity. Qed.

(** C11. On every byte stream, delivered in any pieces, the parser fed one byte at a
    time reports what the RFC reading of the stream says: it waits exactly while
    the message is incomplete, consumes exactly the message, prefers
    username/password, then no authentication, and rejects everything else with
    method 0xFF. *)
Theorem greeting_negotiates chunks :
  exists s p rest, foldl resume (drain socks_greeting_parser_init []) chunks = Ok (s, p, rest) /\
    (s, (if decide (s = SOCKS_GREETING_ACCEPT) then Some p.(chosen_method) else None), rest)
    = negotiate (concat chunks) /\
    (s = SOCKS_GREETING_REJECT -> p.(chosen_method) = xff).
Proof. rewrite drain_chunks. apply greeting_drains. Qed.

End Greeting.
