(* ===== verification/Auth.v ===== *)
(** SOCKS5 username/password message parser of src/server/socks/auth/auth.c
    (RFC 1929): VER | ULEN | UNAME | PLEN | PASSWD. *)
From S2P Require Import Prelude ByteParser.
Local Open Scope Z_scope.

Module Auth.

Definition AUTH_VERSION : byte := x01.
Definition SOCKS_AUTH_MAX_LEN : nat := 255.

Inductive auth_state := AUTH_VER | AUTH_ULEN | AUTH_UNAME | AUTH_PLEN | AUTH_PASSWD.

Inductive socks_auth_status :=
| SOCKS_AUTH_NEED_MORE
| SOCKS_AUTH_PARSED
| SOCKS_AUTH_REJECT.

Record socks_auth_parser := mk_parser {
  state : auth_state;
  uname_len : Z;              (* uint8_t *)
  passwd_len : Z;
  uname_remaining : Z;
  passwd_remaining : Z;
  uname : list byte;          (* uint8_t[255] *)
  passwd : list byte;
}.
#[export] Instance eta_parser : Eta socks_auth_parser := fun p =>
  mk_parser p.(state) p.(uname_len) p.(passwd_len) p.(uname_remaining) p.(passwd_remaining)
    p.(uname) p.(passwd).

(** The arrays are not touched. *)
Definition socks_auth_parser_init (p : socks_auth_parser) : socks_auth_parser :=
  p <| state := AUTH_VER |> <| uname_len := 0 |> <| passwd_len := 0 |>
    <| uname_remaining := 0 |> <| passwd_remaining := 0 |>.

Definition socks_auth_username_len (p : option socks_auth_parser) : Z :=
  match p with Some p => p.(uname_len) | None => 0 end.
Definition socks_auth_password_len (p : option socks_auth_parser) : Z :=
  match p with Some p => p.(passwd_len) | None => 0 end.
Definition socks_auth_username (p : option socks_auth_parser) : option (list byte) :=
  uname <$> p.
Definition socks_auth_password (p : option socks_auth_parser) : option (list byte) :=
  passwd <$> p.

Definition socks_auth_parser_feed (p : socks_auth_parser) (b : byte)
  : res (socks_auth_status * socks_auth_parser) :=
  match p.(state) with
  | AUTH_VER =>
    if decide (b <> AUTH_VERSION) then Ok (SOCKS_AUTH_REJECT, p)
    else Ok (SOCKS_AUTH_NEED_MORE, p <| state := AUTH_ULEN |>)
  | AUTH_ULEN =>
    if decide (bz b = 0) then Ok (SOCKS_AUTH_REJECT, p)
    else Ok (SOCKS_AUTH_NEED_MORE,
      p <| uname_len := bz b |> <| uname_remaining := bz b |> <| state := AUTH_UNAME |>)
  | AUTH_UNAME =>
    a ← array_set p.(uname) (p.(uname_len) - p.(uname_remaining)) b;
    let p := p <| uname := a |> in
    let p := p <| uname_remaining := u8 (p.(uname_remaining) - 1) |> in
    if decide (p.(uname_remaining) > 0) then Ok (SOCKS_AUTH_NEED_MORE, p)
    else Ok (SOCKS_AUTH_NEED_MORE, p <| state := AUTH_PLEN |>)
  | AUTH_PLEN =>
    if decide (bz b = 0) then Ok (SOCKS_AUTH_REJECT, p)
    else Ok (SOCKS_AUTH_NEED_MORE,
      p <| passwd_len := bz b |> <| passwd_remaining := bz b |> <| state := AUTH_PASSWD |>)
  | AUTH_PASSWD =>
    a ← array_set p.(passwd) (p.(passwd_len) - p.(passwd_remaining)) b;
    let p := p <| passwd := a |> in
    let p := p <| passwd_remaining := u8 (p.(passwd_remaining) - 1) |> in
    if decide (p.(passwd_remaining) > 0) then Ok (SOCKS_AUTH_NEED_MORE, p)
    else Ok (SOCKS_AUTH_PARSED, p)
  end.

#[export] Instance status_eq_dec : EqDecision socks_auth_status.
Proof. solve_decision. Defined.

#[export] Program Instance auth_parser : ByteParser socks_auth_parser socks_auth_status := {
  feed := socks_auth_parser_feed;
  need_more := SOCKS_AUTH_NEED_MORE;
  more := fun s => bool_decide (s = SOCKS_AUTH_NEED_MORE);
}.
Next Obligation. done. Qed.
Next Obligation. intros s ?%bool_decide_eq_true. done. Qed.

(** The username and password received so far, as counted byte strings. *)
Definition user_of (p : socks_auth_parser) : list byte := take (Z.to_nat p.(uname_len)) p.(uname).
Definition pass_of (p : socks_auth_parser) : list byte := take (Z.to_nat p.(passwd_len)) p.(passwd).

(** * Reference: the message of RFC 1929 *)

Definition encode (user pass : list byte) : list byte :=
  AUTH_VERSION :: zb (Z.of_nat (length user)) :: user ++
  zb (Z.of_nat (length pass)) :: pass.

(** A counted, non-empty field at the front of a stream: [inl] when more bytes
    are needed, [inr None] when its length is 0. *)
Definition counted (bs : list byte) : unit + option (list byte) * list byte :=
  match bs with
  | [] => inl tt
  | n :: bs =>
    let n := Z.to_nat (bz n) in
    if decide (n = 0)%nat then inr (None, bs)
    else if decide (n <= length bs)%nat then inr (Some (take n bs), drop n bs) else inl tt
  end.

Definition decode (bs : list byte)
  : socks_auth_status * option (list byte * list byte) * list byte :=
  match bs with
  | [] => (SOCKS_AUTH_NEED_MORE, None, [])
  | v :: bs =>
    if decide (v <> AUTH_VERSION) then (SOCKS_AUTH_REJECT, None, bs)
    else match counted bs with
    | inl _ => (SOCKS_AUTH_NEED_MORE, None, [])
    | inr (None, rest) => (SOCKS_AUTH_REJECT, None, rest)
    | inr (Some user, bs) =>
      match counted bs with
      | inl _ => (SOCKS_AUTH_NEED_MORE, None, [])
      | inr (None, rest) => (SOCKS_AUTH_REJECT, None, rest)
      | inr (Some pass, rest) => (SOCKS_AUTH_PARSED, Some (user, pass), rest)
      end
    end
  end.

(** The arrays have their declared size, and the field being read fits. *)
Record wf (p : socks_auth_parser) : Prop := {
  wf_uname : length p.(uname) = SOCKS_AUTH_MAX_LEN;
  wf_passwd : length p.(passwd) = SOCKS_AUTH_MAX_LEN;
}.

(** The parser inside one of its two fields, [n] bytes before the end. *)
Definition at_uname (p : socks_auth_parser) (a : list byte) (n : nat) : socks_auth_parser :=
  p <| uname := a |> <| uname_remaining := Z.of_nat n |>.
Definition at_passwd (p : socks_auth_parser) (a : list byte) (n : nat) : socks_auth_parser :=
  p <| passwd := a |> <| passwd_remaining := Z.of_nat n |>.

(** Reading the user name: [l] bytes complete it. *)
Lemma drain_uname bs p (l : nat) :
  wf p -> p.(state) = AUTH_UNAME -> p.(uname_len) = Z.of_nat l ->
  p.(uname_remaining) = Z.of_nat l -> (0 < l < 256)%nat ->
  if decide (l <= length bs)%nat
  then exists p', drain p bs = drain p' (drop l bs) /\ wf p' /\ p'.(state) = AUTH_PLEN /\
         p'.(uname_len) = Z.of_nat l /\ user_of p' = take l bs
  else exists p', drain p bs = Ok (SOCKS_AUTH_NEED_MORE, p', []).
Proof.
  intros Hwf Hst Hl Hrem Hpos. pose proof (wf_uname _ Hwf) as Hu. unfold SOCKS_AUTH_MAX_LEN in Hu.
  assert (Heq : p = at_uname p p.(uname) l) by (destruct p; cbn in *; by subst).
  pose proof (drain_counted (at_uname p)
    (fun a => Ok (SOCKS_AUTH_NEED_MORE, (at_uname p a 0) <| state := AUTH_PLEN |>)) l 255) as Hd.
  rewrite Heq, Hd; [|lia| |lia|done].
  - rewrite Nat.sub_diag. case_decide as Hle; [|by eexists]. cbn.
    eexists. split; [done|]. split_and!; try done.
    + destruct Hwf. split; [|done]. cbn. rewrite fill_length; rewrite ?length_take; lia.
    + unfold user_of. cbn. rewrite Hl, Nat2Z.id.
      pose proof (take_fill p.(uname) 0 (take l bs)) as Ht.
      rewrite length_take in Ht. replace (0 + l `min` length bs)%nat with l in Ht by lia.
      apply Ht. lia.
  - intros a n b Ha Hn. cbn. unfold socks_auth_parser_feed. cbn. rewrite Hst, Hl.
    replace (Z.of_nat l - Z.of_nat (S n)) with (Z.of_nat (l - S n)) by lia.
    rewrite array_set_nat by lia. cbn.
    replace (Z.of_nat (S n) - 1) with (Z.of_nat n) by lia. rewrite u8_small by lia.
    destruct (decide (n = 0)%nat) as [->|]; [done|]. by rewrite decide_True by lia.
Qed.

(** Reading the password, which completes the message. *)
Lemma drain_passwd bs p (l : nat) :
  wf p -> p.(state) = AUTH_PASSWD -> p.(passwd_len) = Z.of_nat l ->
  p.(passwd_remaining) = Z.of_nat l -> (0 < l < 256)%nat ->
  if decide (l <= length bs)%nat
  then exists p', drain p bs = Ok (SOCKS_AUTH_PARSED, p', drop l bs) /\ wf p' /\
         p'.(uname_len) = p.(uname_len) /\ p'.(passwd_len) = p.(passwd_len) /\
         user_of p' = user_of p /\ pass_of p' = take l bs
  else exists p', drain p bs = Ok (SOCKS_AUTH_NEED_MORE, p', []).
Proof.
  intros Hwf Hst Hl Hrem Hpos. pose proof (wf_passwd _ Hwf) as Hu. unfold SOCKS_AUTH_MAX_LEN in Hu.
  assert (Heq : p = at_passwd p p.(passwd) l) by (destruct p; cbn in *; by subst).
  pose proof (drain_counted (at_passwd p)
    (fun a => Ok (SOCKS_AUTH_PARSED, at_passwd p a 0)) l 255) as Hd.
  rewrite Heq, Hd; [|lia| |lia|done].
  - rewrite Nat.sub_diag. case_decide as Hle; [|by eexists]. cbn.
    eexists. split; [done|]. split_and!; try done.
    + destruct Hwf. split; [done|]. cbn. rewrite fill_length; rewrite ?length_take; lia.
    + unfold pass_of. cbn. rewrite Hl, Nat2Z.id.
      pose proof (take_fill p.(passwd) 0 (take l bs)) as Ht.
      rewrite length_take in Ht. replace (0 + l `min` length bs)%nat with l in Ht by lia.
      apply Ht. lia.
  - intros a n b Ha Hn. cbn. unfold socks_auth_parser_feed. cbn. rewrite Hst, Hl.
    replace (Z.of_nat l - Z.of_nat (S n)) with (Z.of_nat (l - S n)) by lia.
    rewrite array_set_nat by lia. cbn.
    replace (Z.of_nat (S n) - 1) with (Z.of_nat n) by lia. rewrite u8_small by lia.
    destruct (decide (n = 0)%nat) as [->|]; [done|]. by rewrite decide_True by lia.
Qed.

(** After the length byte of the password, the message's end is decided. *)
Lemma drain_plen bs p :
  wf p -> p.(state) = AUTH_PLEN ->
  match counted bs with
  | inl _ => exists p', drain p bs = Ok (SOCKS_AUTH_NEED_MORE, p', [])
  | inr (None, rest) => exists p', drain p bs = Ok (SOCKS_AUTH_REJECT, p', rest)
  | inr (Some pass, rest) => exists p', drain p bs = Ok (SOCKS_AUTH_PARSED, p', rest) /\
      wf p' /\ p'.(uname_len) = p.(uname_len) /\ user_of p' = user_of p /\
      p'.(passwd_len) = Z.of_nat (length pass) /\ pass_of p' = pass
  end.
Proof.
  intros Hwf Hst. destruct bs as [|n bs]; [by eexists|]. cbn [counted].
  pose proof (bz_range n) as Hn. case_decide as H0.
  { eexists. erewrite drain_cons.
    2:{ cbn. unfold socks_auth_parser_feed. rewrite Hst, decide_True by lia. done. }
    done. }
  set (p1 := p <| passwd_len := bz n |> <| passwd_remaining := bz n |> <| state := AUTH_PASSWD |>).
  assert (E : socks_auth_parser_feed p n = Ok (SOCKS_AUTH_NEED_MORE, p1)).
  { unfold socks_auth_parser_feed. by rewrite Hst, decide_False by lia. }
  assert (Hwf1 : wf p1) by (destruct Hwf; by split).
  erewrite !drain_cons by exact E. cbn [more auth_parser].
  rewrite bool_decide_true by done.
  pose proof (drain_passwd bs p1 (Z.to_nat (bz n)) Hwf1 eq_refl) as Hd.
  cbn [p1] in Hd. specialize (Hd ltac:(cbn; lia) ltac:(cbn; lia) ltac:(lia)).
  destruct (decide (Z.to_nat (bz n) <= length bs)%nat) as [Hle|]; [|exact Hd].
  destruct Hd as (p' & E' & Hw & Hul & Hpl & Hus & Hpa). exists p'. split_and!; try done.
  rewrite Hpl, length_take. cbn. lia.
Qed.

(** The parser on a whole stream. *)
Lemma counted_length bs :
  match counted bs with inr (Some f, _) => (0 < length f <= 255)%nat | _ => True end.
Proof.
  destruct bs as [|n bs]; [done|]. cbn [counted]. pose proof (bz_range n).
  repeat case_decide; try done. rewrite length_take. lia.
Qed.

Lemma auth_drains bs p0 :
  wf p0 ->
  exists s p rest, drain (socks_auth_parser_init p0) bs = Ok (s, p, rest) /\
    (s, (if decide (s = SOCKS_AUTH_PARSED) then Some (user_of p, pass_of p) else None), rest)
    = decode bs /\
    (s = SOCKS_AUTH_PARSED -> wf p /\ 0 < p.(uname_len) <= 255 /\ 0 < p.(passwd_len) <= 255).
Proof.
  intros Hwf0. set (p := socks_auth_parser_init p0).
  assert (Hwf : wf p) by (destruct Hwf0; by split). assert (Hst : p.(state) = AUTH_VER) by done.
  clearbody p. destruct bs as [|v bs]; [by eexists _, _, _; split_and!|]. cbn [decode]. case_decide as Hv.
  { exists SOCKS_AUTH_REJECT, p, bs. split_and!; [|done|done].
    erewrite drain_cons by (cbn; unfold socks_auth_parser_feed; by rewrite Hst, decide_True).
    done. }
  subst v. erewrite drain_cons by
    (cbn; unfold socks_auth_parser_feed; rewrite Hst, decide_False by auto; done).
  cbn [more auth_parser]. rewrite bool_decide_true by done.
  destruct bs as [|n bs]; [by eexists _, _, _; split_and!|]. cbn [counted]. pose proof (bz_range n) as Hn.
  case_decide as H0.
  { eexists SOCKS_AUTH_REJECT, _, bs. split_and!; [|done|done].
    by erewrite drain_cons by (cbn; by rewrite decide_True by lia). }
  erewrite drain_cons by (cbn; by rewrite decide_False by lia). cbn [more auth_parser].
  rewrite bool_decide_true by done.
  match goal with |- context [drain ?q bs] => set (p1 := q) end.
  assert (Hwf1 : wf p1) by (destruct Hwf; by split).
  pose proof (drain_uname bs p1 (Z.to_nat (bz n)) Hwf1 eq_refl) as Hd.
  specialize (Hd ltac:(cbn; lia) ltac:(cbn; lia) ltac:(lia)).
  destruct (decide (Z.to_nat (bz n) <= length bs)%nat) as [Hle|].
  2:{ destruct Hd as (p' & E). eexists _, _, _. split_and!; [exact E|done|done]. }
  destruct Hd as (p2 & E & Hwf2 & Hst2 & Hl2 & Hu2).
  rewrite E.
  pose proof (drain_plen (drop (Z.to_nat (bz n)) bs) p2 Hwf2 Hst2) as Hp.
  pose proof (counted_length (drop (Z.to_nat (bz n)) bs)) as Hcl.
  destruct (counted (drop _ bs)) as [[]|[[pass|] rest]].
  - destruct Hp as (p' & E'). by eexists _, _, _; split_and!.
  - destruct Hp as (p' & E' & Hw & Hul & Hus & Hpl & Hpa).
    exists SOCKS_AUTH_PARSED, p', rest. split_and!; [done|cbn; by rewrite Hus, Hu2, Hpa|].
    intros _. rewrite Hul, Hl2, Hpl. split_and!; try done; lia.
  - destruct Hp as (p' & E'). by eexists _, _, _; split_and!.
Qed.

(** C10. Whatever the bytes and in whatever pieces they arrive, the parser
    stays inside its 255-byte arrays and reports what the RFC 1929 reading of
    the stream says: it waits exactly while the message is incomplete, rejects a
    wrong version and empty fields, and on a complete message holds exactly the
    user name and password sent, having consumed nothing after them. *)
Theorem auth_parser_decodes chunks p0 :
  wf p0 ->
  exists s p rest, foldl resume (drain (socks_auth_parser_init p0) []) chunks = Ok (s, p, rest) /\
    (s, (if decide (s = SOCKS_AUTH_PARSED) then Some (user_of p, pass_of p) else None), rest)
    = decode (concat chunks).
Proof.
  intros Hwf. rewrite drain_chunks. destruct (auth_drains (concat chunks) p0 Hwf) as (s & p & rest & E & Hd & _).
  by exists s, p, rest.
Qed.

Definition blank_parser : socks_auth_parser :=
  mk_parser AUTH_VER 0 0 0 0 (replicate 255 x00) (replicate 255 x00).

Lemma auth_parser_decodes_witness :
  let chunks := [encode (lit "admin") (lit "adm"); lit "in"; [x05]] in
  exists s p rest, foldl resume (drain (socks_auth_parser_init blank_parser) []) chunks = Ok (s, p, rest) /\
    (s, (if decide (s = SOCKS_AUTH_PARSED) then Some (user_of p, pass_of p) else None), rest)
    = decode (concat chunks).
Proof. apply auth_parser_decodes. split; reflexivity. Defined.

(** Decoding inverts encoding. *)
Lemma counted_encode f rest :
  f <> [] -> (length f < 256)%nat ->
  counted (zb (Z.of_nat (length f)) :: f ++ rest) = inr (Some f, rest).
Proof.
  intros Hne Hlen. cbn [counted]. rewrite bz_zb, u8_small, Nat2Z.id by lia.
  rewrite decide_False by (by destruct f). rewrite decide_True by (rewrite length_app; lia).
  by rewrite take_app_length, drop_app_length.
Qed.

Lemma decode_encode user pass rest :
  user <> [] -> pass <> [] -> (length user < 256)%nat -> (length pass < 256)%nat ->
  decode (encode user pass ++ rest) = (SOCKS_AUTH_PARSED, Some (user, pass), rest).
Proof.
  intros Hu Hp Hul Hpl. unfold encode. cbn [app decode]. rewrite decide_False by auto.
  rewrite <- app_assoc. cbn [app]. by rewrite !counted_encode.
Qed.

End Auth.
