(* ===== verification/Request.v ===== *)
(** SOCKS5 CONNECT request parser of src/server/socks/request/request.c
    (RFC 1928, section 4): VER | CMD | RSV | ATYP | DST.ADDR | DST.PORT. *)
From S2P Require Import Prelude ByteParser.
Local Open Scope Z_scope.

Module Request.

Definition SOCKS_VERSION : byte := x05.
Definition SOCKS_CMD_CONNECT : byte := x01.
Definition SOCKS_ATYP_IPV4 : byte := x01.
Definition SOCKS_ATYP_FQDN : byte := x03.
Definition SOCKS_ATYP_IPV6 : byte := x04.
Definition SOCKS_REQUEST_FQDN_MAX : nat := 255.

(** Address families of the C library (Linux values). *)
Definition AF_UNSPEC : Z := 0.
Definition AF_INET : Z := 2.
Definition AF_INET6 : Z := 10.
Definition sizeof_sockaddr_in : Z := 16.
Definition sizeof_sockaddr_in6 : Z := 28.

(** [struct sockaddr_storage] with its sockaddr_in and sockaddr_in6 views; each
    write through a view follows a memset and the choice of the family.  The
    port is kept as its two bytes in memory. *)
Record sockaddr_storage := mk_sockaddr {
  ss_family : Z;
  sin_port : list byte;      (* sin_port / sin6_port, network order *)
  sin_addr : list byte;      (* 4 bytes *)
  sin6_addr : list byte;     (* 16 bytes *)
}.
#[export] Instance eta_sockaddr : Eta sockaddr_storage := fun a =>
  mk_sockaddr a.(ss_family) a.(sin_port) a.(sin_addr) a.(sin6_addr).
#[export] Instance sockaddr_eq_dec : EqDecision sockaddr_storage.
Proof. solve_decision. Defined.

Definition sockaddr_zero : sockaddr_storage :=
  mk_sockaddr AF_UNSPEC [x00; x00] (replicate 4 x00) (replicate 16 x00).

Definition htons (port : Z) : list byte := [zb (Z.shiftr port 8); zb port].

Inductive request_state :=
| REQ_VER | REQ_CMD | REQ_RSV | REQ_ATYP | REQ_ADDR_IPV4 | REQ_ADDR_IPV6
| REQ_FQDN_LEN | REQ_FQDN | REQ_PORT_HI | REQ_PORT_LO.

Inductive socks_request_status :=
| SOCKS_REQUEST_NEED_MORE
| SOCKS_REQUEST_PARSED_ADDR
| SOCKS_REQUEST_PARSED_FQDN
| SOCKS_REQUEST_REJECT
| SOCKS_REQUEST_REJECT_CMD
| SOCKS_REQUEST_REJECT_ATYP.

Record socks_request_parser := mk_parser {
  state : request_state;
  cmd : byte;
  atyp : byte;
  addr_remaining : Z;        (* uint8_t *)
  fqdn_len : Z;
  fqdn_remaining : Z;
  fqdn : list byte;          (* char[256] *)
  port_hi : byte;
  dest_addr : sockaddr_storage;
  dest_addr_len : Z;
  dest_port : Z;             (* uint16_t, host order *)
}.
#[export] Instance eta_parser : Eta socks_request_parser := fun p =>
  mk_parser p.(state) p.(cmd) p.(atyp) p.(addr_remaining) p.(fqdn_len) p.(fqdn_remaining)
    p.(fqdn) p.(port_hi) p.(dest_addr) p.(dest_addr_len) p.(dest_port).

Definition socks_request_parser_init (p : socks_request_parser) : res socks_request_parser :=
  name ← array_set p.(fqdn) 0 x00;
  Ok (mk_parser REQ_VER x00 x00 0 0 0 name x00 sockaddr_zero 0 0).

Definition socks_request_dest_port (p : option socks_request_parser) : Z :=
  match p with Some p => p.(dest_port) | None => 0 end.

Definition socks_request_dest_addr (p : option socks_request_parser) : option sockaddr_storage :=
  match p with
  | Some p => if decide (p.(dest_addr_len) = 0) then None else Some p.(dest_addr)
  | None => None
  end.

Definition socks_request_dest_addr_len (p : option socks_request_parser) : Z :=
  match p with Some p => p.(dest_addr_len) | None => 0 end.

(** The C string callers see at [p->fqdn]. *)
Definition socks_request_fqdn (p : option socks_request_parser) : option cstring :=
  match p with Some p => Some (c_str p.(fqdn)) | None => None end.

Definition socks_request_parser_feed (p : socks_request_parser) (b : byte)
  : res (socks_request_status * socks_request_parser) :=
  match p.(state) with
  | REQ_VER =>
    if decide (b <> SOCKS_VERSION) then Ok (SOCKS_REQUEST_REJECT, p)
    else Ok (SOCKS_REQUEST_NEED_MORE, p <| state := REQ_CMD |>)
  | REQ_CMD =>
    if decide (b <> SOCKS_CMD_CONNECT) then Ok (SOCKS_REQUEST_REJECT_CMD, p)
    else Ok (SOCKS_REQUEST_NEED_MORE, p <| cmd := b |> <| state := REQ_RSV |>)
  | REQ_RSV =>
    if decide (b <> x00) then Ok (SOCKS_REQUEST_REJECT, p)
    else Ok (SOCKS_REQUEST_NEED_MORE, p <| state := REQ_ATYP |>)
  | REQ_ATYP =>
    let p := p <| atyp := b |> in
    if decide (b = SOCKS_ATYP_IPV4) then
      Ok (SOCKS_REQUEST_NEED_MORE,
          p <| addr_remaining := 4 |>
            <| dest_addr := sockaddr_zero <| ss_family := AF_INET |> |>
            <| dest_addr_len := sizeof_sockaddr_in |>
            <| state := REQ_ADDR_IPV4 |>)
    else if decide (b = SOCKS_ATYP_IPV6) then
      Ok (SOCKS_REQUEST_NEED_MORE,
          p <| addr_remaining := 16 |>
            <| dest_addr := sockaddr_zero <| ss_family := AF_INET6 |> |>
            <| dest_addr_len := sizeof_sockaddr_in6 |>
            <| state := REQ_ADDR_IPV6 |>)
    else if decide (b = SOCKS_ATYP_FQDN) then
      Ok (SOCKS_REQUEST_NEED_MORE, p <| state := REQ_FQDN_LEN |>)
    else Ok (SOCKS_REQUEST_REJECT_ATYP, p)
  | REQ_ADDR_IPV4 =>
    a ← array_set p.(dest_addr).(sin_addr) (4 - p.(addr_remaining)) b;
    let p := p <| dest_addr ::= fun s => s <| sin_addr := a |> |> in
    let p := p <| addr_remaining := u8 (p.(addr_remaining) - 1) |> in
    if decide (p.(addr_remaining) > 0) then Ok (SOCKS_REQUEST_NEED_MORE, p)
    else Ok (SOCKS_REQUEST_NEED_MORE, p <| state := REQ_PORT_HI |>)
  | REQ_ADDR_IPV6 =>
    a ← array_set p.(dest_addr).(sin6_addr) (16 - p.(addr_remaining)) b;
    let p := p <| dest_addr ::= fun s => s <| sin6_addr := a |> |> in
    let p := p <| addr_remaining := u8 (p.(addr_remaining) - 1) |> in
    if decide (p.(addr_remaining) > 0) then Ok (SOCKS_REQUEST_NEED_MORE, p)
    else Ok (SOCKS_REQUEST_NEED_MORE, p <| state := REQ_PORT_HI |>)
  | REQ_FQDN_LEN =>
    if decide (bz b = 0) then Ok (SOCKS_REQUEST_REJECT, p)
    else Ok (SOCKS_REQUEST_NEED_MORE,
      p <| fqdn_len := bz b |> <| fqdn_remaining := bz b |> <| state := REQ_FQDN |>)
  | REQ_FQDN =>
    a ← array_set p.(fqdn) (p.(fqdn_len) - p.(fqdn_remaining)) b;
    let p := p <| fqdn := a |> in
    let p := p <| fqdn_remaining := u8 (p.(fqdn_remaining) - 1) |> in
    if decide (p.(fqdn_remaining) > 0) then Ok (SOCKS_REQUEST_NEED_MORE, p)
    else
      a ← array_set p.(fqdn) p.(fqdn_len) x00;
      Ok (SOCKS_REQUEST_NEED_MORE, p <| fqdn := a |> <| state := REQ_PORT_HI |>)
  | REQ_PORT_HI =>
    Ok (SOCKS_REQUEST_NEED_MORE, p <| port_hi := b |> <| state := REQ_PORT_LO |>)
  | REQ_PORT_LO =>
    let p := p <| dest_port := u16 (Z.lor (Z.shiftl (bz p.(port_hi)) 8) (bz b)) |> in
    if decide (p.(atyp) = SOCKS_ATYP_FQDN) then Ok (SOCKS_REQUEST_PARSED_FQDN, p)
    else if decide (p.(dest_addr).(ss_family) = AF_INET) then
      Ok (SOCKS_REQUEST_PARSED_ADDR,
          p <| dest_addr ::= fun s => s <| sin_port := htons p.(dest_port) |> |>)
    else if decide (p.(dest_addr).(ss_family) = AF_INET6) then
      Ok (SOCKS_REQUEST_PARSED_ADDR,
          p <| dest_addr ::= fun s => s <| sin_port := htons p.(dest_port) |> |>)
    else Ok (SOCKS_REQUEST_PARSED_ADDR, p)
  end.

#[export] Instance status_eq_dec : EqDecision socks_request_status.
Proof. solve_decision. Defined.

#[export] Program Instance request_parser
  : ByteParser socks_request_parser socks_request_status := {
  feed := socks_request_parser_feed;
  need_more := SOCKS_REQUEST_NEED_MORE;
  more := fun s => bool_decide (s = SOCKS_REQUEST_NEED_MORE);
}.
Next Obligation. done. Qed.
Next Obligation. intros s ?%bool_decide_eq_true. done. Qed.

(** * Reference: the message of RFC 1928 *)

Inductive target :=
| T_ipv4 (a : list byte)
| T_ipv6 (a : list byte)
| T_name (n : list byte).

(** A field of [n] bytes, if the stream has them. *)
Definition field (n : nat) (bs : list byte) : option (list byte * list byte) :=
  if decide (n <= length bs)%nat then Some (take n bs, drop n bs) else None.

Definition port_value (hi lo : byte) : Z := bz hi * 256 + bz lo.

(** Destination and port at the end of the message. *)
Definition decode_port (t : target) (bs : list byte)
  : socks_request_status * option (target * Z) * list byte :=
  match bs with
  | hi :: lo :: bs =>
    (match t with T_name _ => SOCKS_REQUEST_PARSED_FQDN | _ => SOCKS_REQUEST_PARSED_ADDR end,
     Some (t, port_value hi lo), bs)
  | _ => (SOCKS_REQUEST_NEED_MORE, None, [])
  end.

Definition decode_field (mk : list byte -> target) (n : nat) (bs : list byte)
  : socks_request_status * option (target * Z) * list byte :=
  match field n bs with
  | Some (a, bs) => decode_port (mk a) bs
  | None => (SOCKS_REQUEST_NEED_MORE, None, [])
  end.

Definition decode_addr (t : byte) (bs : list byte)
  : socks_request_status * option (target * Z) * list byte :=
  if decide (t = SOCKS_ATYP_IPV4) then decode_field T_ipv4 4 bs
  else if decide (t = SOCKS_ATYP_IPV6) then decode_field T_ipv6 16 bs
  else if decide (t = SOCKS_ATYP_FQDN) then
    match bs with
    | [] => (SOCKS_REQUEST_NEED_MORE, None, [])
    | n :: bs => if decide (bz n = 0) then (SOCKS_REQUEST_REJECT, None, bs)
                 else decode_field T_name (Z.to_nat (bz n)) bs
    end
  else (SOCKS_REQUEST_REJECT_ATYP, None, bs).

Definition decode (bs : list byte)
  : socks_request_status * option (target * Z) * list byte :=
  match bs with
  | [] => (SOCKS_REQUEST_NEED_MORE, None, [])
  | v :: bs =>
    if decide (v <> SOCKS_VERSION) then (SOCKS_REQUEST_REJECT, None, bs) else
    match bs with
    | [] => (SOCKS_REQUEST_NEED_MORE, None, [])
    | c :: bs =>
      if decide (c <> SOCKS_CMD_CONNECT) then (SOCKS_REQUEST_REJECT_CMD, None, bs) else
      match bs with
      | [] => (SOCKS_REQUEST_NEED_MORE, None, [])
      | r :: bs =>
        if decide (r <> x00) then (SOCKS_REQUEST_REJECT, None, bs) else
        match bs with
        | [] => (SOCKS_REQUEST_NEED_MORE, None, [])
        | t :: bs => decode_addr t bs
        end
      end
    end
  end.

(** What a parser that has parsed [t] and a port holds. *)
Definition holds (p : socks_request_parser) (t : target) (port : Z) : Prop :=
  p.(dest_port) = port /\
  match t with
  | T_ipv4 a => p.(dest_addr) = mk_sockaddr AF_INET (htons port) a (replicate 16 x00) /\
                p.(dest_addr_len) = sizeof_sockaddr_in
  | T_ipv6 a => p.(dest_addr) = mk_sockaddr AF_INET6 (htons port) (replicate 4 x00) a /\
                p.(dest_addr_len) = sizeof_sockaddr_in6
  | T_name n => socks_request_fqdn (Some p) = Some (c_str n) /\ p.(dest_addr_len) = 0
  end.

(** The parser before the port: it holds the destination. *)
Definition ready (p : socks_request_parser) (t : target) : Prop :=
  p.(state) = REQ_PORT_HI /\
  match t with
  | T_ipv4 a => p.(atyp) = SOCKS_ATYP_IPV4 /\
      p.(dest_addr) = mk_sockaddr AF_INET [x00; x00] a (replicate 16 x00) /\
      p.(dest_addr_len) = sizeof_sockaddr_in
  | T_ipv6 a => p.(atyp) = SOCKS_ATYP_IPV6 /\
      p.(dest_addr) = mk_sockaddr AF_INET6 [x00; x00] (replicate 4 x00) a /\
      p.(dest_addr_len) = sizeof_sockaddr_in6
  | T_name n => p.(atyp) = SOCKS_ATYP_FQDN /\ c_str p.(fqdn) = c_str n /\
      p.(dest_addr_len) = 0
  end.

(** A run agrees with a reading of the same bytes. *)
Definition reads (r : res (socks_request_status * socks_request_parser * list byte))
  (d : socks_request_status * option (target * Z) * list byte) : Prop :=
  exists p, r = Ok (d.1.1, p, d.2) /\
    match d.1.2 with Some (t, port) => holds p t port | None => True end.

Lemma reads_more p : reads (Ok (SOCKS_REQUEST_NEED_MORE, p, [])) (SOCKS_REQUEST_NEED_MORE, None, []).
Proof. by exists p. Qed.

Lemma port_arith hi lo : u16 (Z.lor (Z.shiftl (bz hi) 8) (bz lo)) = port_value hi lo.
Proof.
  pose proof (bz_range hi). pose proof (bz_range lo). unfold port_value.
  assert (E : Z.land (Z.shiftl (bz hi) 8) (bz lo) = 0).
  { apply Z.bits_inj'. intros n Hn. rewrite Z.land_spec, Z.bits_0.
    destruct (decide (n < 8)).
    - by rewrite Z.shiftl_spec_low.
    - rewrite (Z.bits_above_log2 (bz lo)), andb_false_r; [done|lia|].
      destruct (decide (bz lo = 0)) as [->|]; [cbn; lia|].
      apply Z.log2_lt_pow2; [lia|]. apply Z.lt_le_trans with (2 ^ 8); [lia|].
      apply Z.pow_le_mono_r; lia. }
  pose proof (Z.add_lor_land (Z.shiftl (bz hi) 8) (bz lo)) as Ha.
  rewrite E, Z.shiftl_mul_pow2 in * by lia.
  replace (bz hi * 256 + bz lo) with (bz hi * 2 ^ 8 + bz lo) by lia.
  rewrite u16_small; lia.
Qed.

Ltac feed_byte := erewrite drain_cons by (cbn; unfold socks_request_parser_feed; cbn;
  repeat match goal with H : state _ = _ |- _ => rewrite H end;
  rewrite ?decide_False, ?decide_True by (done || lia || auto); reflexivity);
  cbn [more request_parser]; rewrite ?bool_decide_true, ?bool_decide_false by done.

Lemma drain_port bs p t : ready p t -> reads (drain p bs) (decode_port t bs).
Proof.
  intros [Hst Ht]. destruct bs as [|hi bs]; [apply reads_more|]. feed_byte.
  destruct bs as [|lo bs]; [apply reads_more|]. cbn [decode_port].
  set (p1 := p <| port_hi := hi |> <| state := REQ_PORT_LO |>).
  assert (E : exists p', socks_request_parser_feed p1 lo =
    Ok (match t with T_name _ => SOCKS_REQUEST_PARSED_FQDN | _ => SOCKS_REQUEST_PARSED_ADDR end, p')
    /\ holds p' t (port_value hi lo)).
  { unfold socks_request_parser_feed. cbn. rewrite port_arith.
    destruct t; destruct Ht as (-> & Ha & Hl);
      rewrite ?Ha; cbn; eexists; (split; [done|]); unfold holds; cbn;
      rewrite ?Ha, ?Hl; done. }
  destruct E as (p' & E & Hh). exists p'. erewrite drain_cons by exact E.
  by destruct t.
Qed.

(** The parser inside the destination, [n] bytes before its end. *)
Definition at_ipv4 (p : socks_request_parser) (a : list byte) (n : nat) : socks_request_parser :=
  p <| dest_addr ::= fun s => s <| sin_addr := a |> |> <| addr_remaining := Z.of_nat n |>.
Definition at_ipv6 (p : socks_request_parser) (a : list byte) (n : nat) : socks_request_parser :=
  p <| dest_addr ::= fun s => s <| sin6_addr := a |> |> <| addr_remaining := Z.of_nat n |>.
Definition at_fqdn (p : socks_request_parser) (a : list byte) (n : nat) : socks_request_parser :=
  p <| fqdn := a |> <| fqdn_remaining := Z.of_nat n |>.

Lemma take_fill_all a xs : length a = length xs -> fill a 0 xs = xs.
Proof.
  intros H. unfold fill. cbn. rewrite skipn_all2 by lia. apply app_nil_r.
Qed.

Ltac step_counted Hst := cbn; unfold socks_request_parser_feed; cbn; rewrite Hst;
  match goal with |- context [array_set _ (?l - Z.of_nat (S ?n)) _] =>
    replace (l - Z.of_nat (S n)) with (Z.of_nat (Z.to_nat l - S n)) by lia end;
  rewrite array_set_nat by lia; cbn;
  match goal with |- context [u8 (Z.of_nat (S ?n) - 1)] =>
    replace (Z.of_nat (S n) - 1) with (Z.of_nat n) by lia; rewrite u8_small by lia;
    destruct (decide (n = 0)%nat) as [->|];
      [rewrite ?decide_False by lia|rewrite decide_True by lia] end.

Lemma drain_ipv4 bs p :
  p.(state) = REQ_ADDR_IPV4 -> p.(addr_remaining) = 4 -> p.(atyp) = SOCKS_ATYP_IPV4 ->
  p.(dest_addr) = sockaddr_zero <| ss_family := AF_INET |> ->
  p.(dest_addr_len) = sizeof_sockaddr_in ->
  reads (drain p bs) (decode_field T_ipv4 4 bs).
Proof.
  intros Hst Hrem Hat Ha Hl.
  assert (Heq : p = at_ipv4 p (replicate 4 x00) 4) by (destruct p; cbn in *; by subst).
  rewrite Heq, (drain_counted (at_ipv4 p)
    (fun a => Ok (SOCKS_REQUEST_NEED_MORE, (at_ipv4 p a 0) <| state := REQ_PORT_HI |>)) 4 4);
    [|lia| |lia|done].
  - unfold decode_field, field. case_decide as Hle; [|apply reads_more]. cbn [mbind res_bind].
    cbn [more request_parser]. rewrite bool_decide_true by done. apply drain_port.
    split; [done|]. cbn. split_and!; [done| |done].
    rewrite Ha, take_fill_all by (rewrite length_take; cbn [length]; lia). done.
  - intros a n b Hlen Hn. by step_counted Hst.
Qed.

Lemma drain_ipv6 bs p :
  p.(state) = REQ_ADDR_IPV6 -> p.(addr_remaining) = 16 -> p.(atyp) = SOCKS_ATYP_IPV6 ->
  p.(dest_addr) = sockaddr_zero <| ss_family := AF_INET6 |> ->
  p.(dest_addr_len) = sizeof_sockaddr_in6 ->
  reads (drain p bs) (decode_field T_ipv6 16 bs).
Proof.
  intros Hst Hrem Hat Ha Hl.
  assert (Heq : p = at_ipv6 p (replicate 16 x00) 16) by (destruct p; cbn in *; by subst).
  rewrite Heq, (drain_counted (at_ipv6 p)
    (fun a => Ok (SOCKS_REQUEST_NEED_MORE, (at_ipv6 p a 0) <| state := REQ_PORT_HI |>)) 16 16);
    [|lia| |lia|done].
  - unfold decode_field, field. case_decide as Hle; [|apply reads_more]. cbn [mbind res_bind].
    cbn [more request_parser]. rewrite bool_decide_true by done. apply drain_port.
    split; [done|]. cbn. split_and!; [done| |done].
    rewrite Ha, take_fill_all by (rewrite length_take; cbn [length]; lia). done.
  - intros a n b Hlen Hn. by step_counted Hst.
Qed.

Lemma drain_fqdn bs p (l : nat) :
  p.(state) = REQ_FQDN -> p.(fqdn_len) = Z.of_nat l -> p.(fqdn_remaining) = Z.of_nat l ->
  (0 < l < 256)%nat -> length p.(fqdn) = 256%nat -> p.(atyp) = SOCKS_ATYP_FQDN ->
  p.(dest_addr_len) = 0 ->
  reads (drain p bs) (decode_field T_name l bs).
Proof.
  intros Hst Hfl Hrem Hpos Hlen Hat Hl.
  assert (Heq : p = at_fqdn p p.(fqdn) l) by (destruct p; cbn in *; by subst).
  rewrite Heq, (drain_counted (at_fqdn p)
    (fun a => Ok (SOCKS_REQUEST_NEED_MORE,
                  (at_fqdn p (<[l:=x00]> a) 0) <| state := REQ_PORT_HI |>)) l 256);
    [|lia| |lia|done].
  - unfold decode_field, field. case_decide as Hle; [|apply reads_more]. cbn [mbind res_bind].
    cbn [more request_parser]. rewrite bool_decide_true by done. apply drain_port.
    split; [done|]. cbn. split_and!; [done| |done].
    rewrite Nat.sub_diag. unfold fill. rewrite take_0. cbn [app Nat.add].
    assert (Ht : length (take l bs) = l) by (rewrite length_take; lia).
    rewrite insert_app_r_alt by (rewrite Ht; lia). rewrite Ht, Nat.sub_diag.
    destruct (drop l (fqdn p)) as [|c rest] eqn:Ed.
    { apply (f_equal length) in Ed. rewrite length_drop in Ed. cbn in Ed. lia. }
    cbn. apply c_str_stops.
  - intros a n b Hla Hn. step_counted Hst; rewrite Hfl, Nat2Z.id; [|done].
    rewrite array_set_nat by (rewrite length_insert; lia). done.
Qed.

Lemma drain_addr t bs p :
  p.(state) = REQ_ATYP -> p.(dest_addr_len) = 0 -> length p.(fqdn) = 256%nat ->
  reads (drain p (t :: bs)) (decode_addr t bs).
Proof.
  intros Hst Hl Hf. unfold decode_addr. case_decide as H4.
  { feed_byte. by apply drain_ipv4. }
  case_decide as H6.
  { feed_byte. by apply drain_ipv6. }
  case_decide as Hn.
  2:{ feed_byte. by eexists. }
  subst t. feed_byte. destruct bs as [|n bs]; [apply reads_more|]. pose proof (bz_range n).
  case_decide as H0.
  { feed_byte. by eexists. }
  feed_byte. apply drain_fqdn; cbn; try done; lia.
Qed.

(** The parser on a whole stream. *)
Lemma request_drains bs p0 :
  length p0.(fqdn) = 256%nat ->
  exists p, socks_request_parser_init p0 = Ok p /\ reads (drain p bs) (decode bs).
Proof.
  intros Hf. unfold socks_request_parser_init.
  change 0 with (Z.of_nat 0). rewrite array_set_nat by lia. cbn [mbind res_bind].
  eexists. split; [done|]. set (name := <[0%nat:=x00]> (fqdn p0)).
  assert (Hn : length name = 256%nat) by (by subst name; rewrite length_insert).
  clearbody name. destruct bs as [|v bs]; [apply reads_more|]. cbn [decode].
  case_decide; [feed_byte; by eexists|]. subst v. feed_byte.
  destruct bs as [|c bs]; [apply reads_more|].
  case_decide; [feed_byte; by eexists|]. subst c. feed_byte.
  destruct bs as [|r bs]; [apply reads_more|].
  case_decide; [feed_byte; by eexists|]. subst r. feed_byte.
  destruct bs as [|t bs]; [apply reads_more|]. by apply drain_addr.
Qed.

Definition blank_parser : socks_request_parser :=
  mk_parser REQ_VER x00 x00 0 0 0 (replicate 256 x00) x00 sockaddr_zero 0 0.

Definition sample : list byte :=
  [x05; x01; x00; x03; x0b] ++ lit "example.com" ++ [x00; x50; xff].

(** C9. Whatever the bytes and in whatever pieces they arrive, the parser
    stays inside its arrays and reports what the RFC 1928 reading of the stream
    says: it waits exactly while the request is incomplete, gives each malformed
    field its own status, and on a complete CONNECT holds the address or host
    name and the port (also in network order inside the sockaddr), having
    consumed nothing after them. *)
Theorem request_parser_decodes chunks p0 :
  length p0.(fqdn) = 256%nat ->
  exists p, socks_request_parser_init p0 = Ok p /\
    reads (foldl resume (drain p []) chunks) (decode (concat chunks)).
Proof.
  intros Hl. destruct (request_drains (concat chunks) p0 Hl) as (p & E & Hr).
  exists p. split; [done|]. by rewrite drain_chunks.
Qed.

Lemma request_parser_decodes_witness :
  exists p, socks_request_parser_init blank_parser = Ok p /\
    reads (foldl resume (drain p []) [take 3 sample; drop 3 sample]) (decode (concat [take 3 sample; drop 3 sample])).
Proof. apply request_parser_decodes. reflexivity. Defined.

Example decode_sample :
  decode sample = (SOCKS_REQUEST_PARSED_FQDN, Some (T_name (lit "example.com"), 80), [xff]).
Proof. reflexivity. Qed.

End Request.
