(* ===== verification/Stm.v ===== *)
(** The state-machine engine of src/shared/stm.c.  A machine is embedded in the
    owner's data, so the engine reaches its [current] field through the
    interface [StmAccess]; the owner may have been released, in which case the
    access faults. *)
From S2P Require Import Prelude.

(** Access to the [current] field of the machine behind a key: [None] is NULL,
    [Some i] is [states + i]. *)
Class StmAccess (K W : Type) := {
  stm_current : K -> W -> res (option nat);
  stm_set_current : K -> option nat -> W -> res W;
  stm_get_set : forall k c w w',
    stm_set_current k c w = Ok w' -> stm_current k w' = Ok c;
  stm_set_ok : forall k c c' w,
    stm_current k w = Ok c -> is_ok (stm_set_current k c' w) = true;
}.

Section Stm.
Context {K W : Type} `{SA : StmAccess K W}.

Record state_definition := mk_state_definition {
  sd_state : nat;
  on_arrival : option (nat -> K -> W -> res W);
  on_departure : option (nat -> K -> W -> res W);
  on_read_ready : option (K -> W -> res (nat * W));
  on_write_ready : option (K -> W -> res (nat * W));
  on_block_ready : option (K -> W -> res (nat * W));
}.

(** The constant part of [struct state_machine]. *)
Record machine := mk_machine {
  initial : nat;
  states : list state_definition;
  max_state : nat;
}.

Variable m : machine.

Definition state_at (i : nat) : res state_definition := or_fault OutOfBounds (m.(states) !! i).

(** [n] iterations of the checking loop from index [i]. *)
Fixpoint stm_check (n i : nat) : res unit :=
  match n with
  | 0 => Ok tt
  | S n =>
    d ← state_at i;
    _ ← c_assert (bool_decide (i = d.(sd_state)));
    stm_check n (S i)
  end.

Definition stm_init (k : K) (w : W) : res W :=
  _ ← stm_check (S m.(max_state)) 0;
  if decide (m.(initial) < m.(max_state)) then stm_set_current k None w else Fault Aborted.

Definition call_opt (f : option (nat -> K -> W -> res W)) (s : nat) (k : K) (w : W) : res W :=
  match f with Some f => f s k w | None => Ok w end.

Definition handle_first (k : K) (w : W) : res W :=
  cur ← stm_current k w;
  match cur with
  | None =>
    w ← stm_set_current k (Some m.(initial)) w;
    d ← state_at m.(initial);
    call_opt d.(on_arrival) d.(sd_state) k w
  | Some _ => Ok w
  end.

Definition jump (next : nat) (k : K) (w : W) : res W :=
  if decide (m.(max_state) < next) then Fault Aborted else
  cur ← stm_current k w;
  if decide (cur = Some next) then Ok w else
  w ← match cur with
      | Some c => d ← state_at c; call_opt d.(on_departure) d.(sd_state) k w
      | None => Ok w
      end;
  w ← stm_set_current k (Some next) w;
  d ← state_at next;
  call_opt d.(on_arrival) d.(sd_state) k w.

Inductive event := EvRead | EvWrite | EvBlock.

Definition ready (e : event) (d : state_definition) : option (K -> W -> res (nat * W)) :=
  match e with
  | EvRead => d.(on_read_ready)
  | EvWrite => d.(on_write_ready)
  | EvBlock => d.(on_block_ready)
  end.

(** The body the three handlers share: first arrival, the state's callback
    (its absence aborts), the jump. *)
Definition stm_handler (e : event) (k : K) (w : W) : res (nat * W) :=
  w ← handle_first k w;
  cur ← stm_current k w;
  c ← or_fault NullDeref cur;
  d ← state_at c;
  match ready e d with
  | None => Fault Aborted
  | Some f =>
    '(ret, w) ← f k w;
    w ← jump ret k w;
    Ok (ret, w)
  end.

Definition stm_handler_read := stm_handler EvRead.
Definition stm_handler_write := stm_handler EvWrite.
Definition stm_handler_block := stm_handler EvBlock.

Definition stm_handler_close (k : K) (w : W) : res W :=
  cur ← stm_current k w;
  match cur with
  | Some c => d ← state_at c; call_opt d.(on_departure) d.(sd_state) k w
  | None => Ok w
  end.

Definition stm_state (k : K) (w : W) : res nat :=
  cur ← stm_current k w;
  match cur with
  | Some c => d ← state_at c; Ok d.(sd_state)
  | None => Ok m.(initial)
  end.

(** * What [stm_init] checks *)

Definition well_formed : Prop :=
  (forall i, i <= m.(max_state) -> exists d, m.(states) !! i = Some d /\ d.(sd_state) = i) /\
  m.(initial) < m.(max_state).

Lemma stm_check_ok n : forall i,
  stm_check n i = Ok tt <->
  forall j, i <= j < i + n -> exists d, m.(states) !! j = Some d /\ d.(sd_state) = j.
Proof.
  induction n as [|n IH]; intros i; cbn.
  { split; [lia|done]. }
  unfold state_at. destruct (m.(states) !! i) as [d|] eqn:E; cbn.
  2:{ split; [done|]. intros H. destruct (H i) as (d & Hd & _); [lia|]. congruence. }
  destruct (decide (i = sd_state d)) as [Hi|Hi].
  - rewrite bool_decide_true by done. cbn. rewrite IH. split; intros H j Hj.
    + destruct (decide (j = i)) as [->|]; [by exists d|]. apply H. lia.
    + apply H. lia.
  - rewrite bool_decide_false by done. cbn. split; [done|].
    intros H. destruct (H i) as (d' & Hd & Hs); [lia|]. congruence.
Qed.

Lemma stm_check_unit n i : is_ok (stm_check n i) = true -> stm_check n i = Ok tt.
Proof. by destruct (stm_check n i) as [[]|]. Qed.

Lemma state_at_wf i : well_formed -> i <= m.(max_state) ->
  exists d, state_at i = Ok d /\ d.(sd_state) = i.
Proof.
  intros [H _] Hi. destruct (H i Hi) as (d & E & Hs). exists d. unfold state_at. by rewrite E.
Qed.

End Stm.

Arguments state_definition : clear implicits.
Arguments machine : clear implicits.

(** * Transitions are bracketed

    A machine whose callbacks are arbitrary state transformers [U -> nat * U]
    that do not touch the machine, and whose arrivals and departures are
    recorded. *)
Module Bracket.

Inductive mark := Arrive (s : nat) | Depart (s : nat).

Record world (U : Type) := mk_world { cur : option nat; log : list mark; user : U }.
Arguments mk_world {U} _ _ _.
Arguments cur {U} _.
Arguments log {U} _.
Arguments user {U} _.

#[export] Program Instance access U : StmAccess unit (world U) := {
  stm_current := fun _ w => Ok w.(cur);
  stm_set_current := fun _ c w => Ok (mk_world c w.(log) w.(user));
}.
Next Obligation. by intros U k c w w' [= <-]. Qed.
Next Obligation. done. Qed.

Definition emit {U} (e : mark) (w : world U) : world U :=
  mk_world w.(cur) (w.(log) ++ [e]) w.(user).

(** The user's part of a state: a callback per event, possibly absent. *)
Record behaviour (U : Type) := {
  b_read : option (U -> nat * U);
  b_write : option (U -> nat * U);
  b_block : option (U -> nat * U);
}.
Arguments b_read {U} _.
Arguments b_write {U} _.
Arguments b_block {U} _.

Definition lift {U} (f : option (U -> nat * U)) : option (unit -> world U -> res (nat * world U)) :=
  (fun f _ w => let '(n, u) := f w.(user) in Ok (n, mk_world w.(cur) w.(log) u)) <$> f.

Definition define {U} (i : nat) (b : behaviour U) : state_definition unit (world U) :=
  mk_state_definition i
    (Some (fun s _ w => Ok (emit (Arrive s) w)))
    (Some (fun s _ w => Ok (emit (Depart s) w)))
    (lift b.(b_read)) (lift b.(b_write)) (lift b.(b_block)).

Definition build {U} (init : nat) (bs : list (behaviour U)) : machine unit (world U) :=
  mk_machine init (imap define bs) (length bs - 1).

Fixpoint run {U} (m : machine unit (world U)) (es : list event) (w : world U) : res (world U) :=
  match es with
  | [] => Ok w
  | e :: es => '(_, w) ← stm_handler m e tt w; run m es w
  end.

(** The visits [s0; s1; ...; sn], each different from the one before, leave
    this log: every arrival but the last is followed by its departure. *)
Fixpoint visits (path : list nat) : list mark :=
  match path with
  | [] => []
  | [s] => [Arrive s]
  | s :: path => Arrive s :: Depart s :: visits path
  end.

Fixpoint moves (path : list nat) : Prop :=
  match path with
  | s :: (t :: _) as path' => s <> t /\ moves path'
  | _ => True
  end.
#[global] Arguments visits : simpl never.
#[global] Arguments moves : simpl never.

Definition traced {U} (init : nat) (w : world U) : Prop :=
  match w.(cur) with
  | None => w.(log) = []
  | Some c => exists path, last (init :: path) = Some c /\ moves (init :: path) /\
      w.(log) = visits (init :: path)
  end.

Lemma visits_snoc path c n :
  last path = Some c -> visits (path ++ [n]) = visits path ++ [Depart c; Arrive n].
Proof.
  induction path as [|s path IH]; [done|]. intros Hl. destruct path as [|t path].
  - cbn in Hl. by injection Hl as ->.
  - change (visits ((s :: t :: path) ++ [n])) with
      (Arrive s :: Depart s :: visits ((t :: path) ++ [n])).
    by rewrite IH.
Qed.

Lemma moves_snoc path c n :
  last path = Some c -> c <> n -> moves path -> moves (path ++ [n]).
Proof.
  induction path as [|s path IH]; [done|]. intros Hl Hne Hm. destruct path as [|t path].
  - cbn in Hl. injection Hl as ->. by repeat split.
  - destruct Hm as [Hst Hm]. split; [done|]. by apply IH.
Qed.

Lemma build_state {U} init (bs : list (behaviour U)) i d :
  state_at (build init bs) i = Ok d -> exists b, bs !! i = Some b /\ d = define i b.
Proof.
  unfold state_at. cbn. rewrite list_lookup_imap. destruct (bs !! i) as [b|]; cbn; [|done].
  intros [= <-]. eauto.
Qed.

Lemma jump_traced {U} init (bs : list (behaviour U)) next w w' :
  is_Some w.(cur) -> traced init w -> jump (build init bs) next tt w = Ok w' ->
  traced init w' /\ w'.(cur) = Some next /\ w'.(user) = w.(user).
Proof.
  intros [c Hc] Ht. unfold jump, traced in *. cbn [stm_current access] in *. rewrite Hc in *. cbn.
  case_decide; [done|]. cbn. case_decide as Heq.
  { intros [= <-]. rewrite Hc. injection Heq as ->. done. }
  destruct (state_at (build init bs) c) as [d|] eqn:Ed; cbn; [|done].
  apply build_state in Ed as (b & Hb & ->). cbn.
  destruct (state_at (build init bs) next) as [d'|] eqn:Ed'; cbn; [|done].
  apply build_state in Ed' as (b' & Hb' & ->). cbn. intros [= <-]. cbn.
  destruct Ht as (path & Hl & Hm & Hlog). split_and!; [|done|done].
  exists (path ++ [next]).
  change (init :: path ++ [next]) with ((init :: path) ++ [next]). split_and!.
  - apply last_snoc.
  - apply (moves_snoc _ c); [done|congruence|done].
  - rewrite (visits_snoc _ c), Hlog, <- app_assoc by done. done.
Qed.

Lemma first_traced {U} init (bs : list (behaviour U)) w w' :
  traced init w -> handle_first (build init bs) tt w = Ok w' ->
  traced init w' /\ is_Some w'.(cur) /\ w'.(user) = w.(user).
Proof.
  unfold handle_first, traced. cbn. destruct (cur w) as [c|] eqn:Hc; cbn.
  { intros Ht [= <-]. rewrite Hc. eauto. }
  intros Hlog. destruct (state_at (build init bs) init) as [d|] eqn:Ed; cbn; [|done].
  apply build_state in Ed as (b & Hb & ->). cbn. intros [= <-]. cbn.
  split_and!; [|eauto|done]. exists []. rewrite Hlog. by repeat split.
Qed.

Lemma handler_traced {U} init (bs : list (behaviour U)) e w n w' :
  traced init w -> stm_handler (build init bs) e tt w = Ok (n, w') ->
  traced init w' /\ w'.(cur) = Some n.
Proof.
  intros Ht. unfold stm_handler.
  destruct (handle_first (build init bs) tt w) as [w1|] eqn:E1; cbn; [|done].
  destruct (first_traced _ _ _ _ Ht E1) as (Ht1 & [c Hc] & Hu). rewrite Hc. cbn.
  destruct (state_at (build init bs) c) as [d|] eqn:Ed; cbn; [|done].
  apply build_state in Ed as (b & Hb & ->).
  assert (Hr : exists f, ready e (define c b) = lift f) by (destruct e; cbn; eauto).
  destruct Hr as [[f|] ->]; cbn; [|done].
  destruct (f (user w1)) as [ret u]; cbn.
  destruct (jump _ ret tt _) as [w2|] eqn:Ej; cbn; [|done]. intros [= <- <-].
  apply jump_traced in Ej as (Ht2 & Hc2 & _); [done| |].
  - cbn. rewrite Hc. eauto.
  - unfold traced in *. cbn. by rewrite Hc in *.
Qed.

(** C22. Whatever the callbacks return and in whatever order the
    events come, a run that does not abort arrives first at the initial state,
    departs from every state it leaves before arriving at the next, never
    brackets a stay in the same state, and ends with [current] at the state it
    arrived at last. *)
Theorem stm_brackets_states {U} init (bs : list (behaviour U)) es u w' :
  run (build init bs) es (mk_world None [] u) = Ok w' -> traced init w'.
Proof.
  assert (Ht : traced init (mk_world (U := U) None [] u)) by done.
  revert Ht. generalize (mk_world (U := U) None [] u) as w.
  induction es as [|e es IH]; intros w Ht; cbn [run].
  { intros [= <-]. exact Ht. }
  destruct (stm_handler (build init bs) e tt w) as [[n w1]|] eqn:E; cbn; [|done].
  apply IH. exact (proj1 (handler_traced _ _ _ _ _ _ Ht E)).
Qed.

(** A three-state machine that counts its events. *)
Definition counter : list (behaviour nat) :=
  let b := {| b_read := Some (fun n => (n mod 3, S n));
              b_write := Some (fun n => (0, n)); b_block := None |} in [b; b; b].

Lemma stm_brackets_states_witness : exists w,
  run (build 0 counter) [EvRead; EvRead; EvRead; EvWrite] (mk_world None [] 0) = Ok w /\
  traced 0 w.
Proof.
  eexists. split; [vm_compute; reflexivity|].
  apply (stm_brackets_states 0 counter [EvRead; EvRead; EvRead; EvWrite] 0).
  vm_compute; reflexivity.
Defined.

(** An event without a callback for the current state aborts the program. *)
Example block_without_handler :
  run (build 0 counter) [EvBlock] (mk_world None [] 0) = Fault Aborted.
Proof. reflexivity. Qed.

End Bracket.
