(* ===== verification/Parser.v ===== *)
(** The table-driven parser of src/shared/parser.c and the string comparator
    that src/shared/parser_utils.c builds on it.  A pointer into an array is the
    suffix of the array it points at. *)
From S2P Require Import Prelude.
Local Open Scope Z_scope.

Module Parser.

Record parser_event := mk_event {
  type : Z;                  (* unsigned *)
  data : list byte;          (* uint8_t[3] *)
  n : Z;                     (* uint8_t *)
  next : bool;               (* NULL, or &p->e2 *)
}.
#[export] Instance eta_event : Eta parser_event := fun e =>
  mk_event e.(type) e.(data) e.(n) e.(next).

Definition action := parser_event -> byte -> parser_event.

Record parser_state_transition := mk_transition {
  when : Z;                  (* int *)
  dest : nat;
  act1 : option action;
  act2 : option action;
}.
#[export] Instance eta_transition : Eta parser_state_transition := fun t =>
  mk_transition t.(when) t.(dest) t.(act1) t.(act2).

Definition ANY : Z := Z.shiftl 1 9.

Record parser_definition := mk_definition {
  states_count : nat;
  states : list (list parser_state_transition);
  states_n : list nat;
  start_state : nat;
}.

Record parser := mk_parser {
  classes : list Z;
  def : parser_definition;
  state : nat;
  e1 : parser_event;
  e2 : parser_event;
}.
#[export] Instance eta_parser : Eta parser := fun p =>
  mk_parser p.(classes) p.(def) p.(state) p.(e1) p.(e2).

Definition zero_event : parser_event := mk_event 0 (replicate 3 x00) 0 false.

(** [None] when malloc fails. *)
Definition parser_init (malloc_ok : bool) (cs : list Z) (d : parser_definition) : option parser :=
  if malloc_ok then Some (mk_parser cs d d.(start_state) zero_event zero_event) else None.

Definition parser_reset (p : parser) : parser := p <| state := p.(def).(start_state) |>.

Definition matches (type : Z) (t : parser_state_transition) (c : byte) : bool :=
  if decide (t.(when) <= 0xFF) then bool_decide (bz c = t.(when))
  else if decide (t.(when) = ANY) then true
  else if decide (t.(when) > 0xFF) then negb (bool_decide (Z.land type t.(when) = 0))
  else false.

(** The loop over the transitions of the current state, [k] of them left. *)
Fixpoint feed_loop (type : Z) (st : list parser_state_transition) (k i : nat) (p : parser) (c : byte)
  : res parser :=
  match k with
  | O => Ok p
  | Datatypes.S k =>
    t ← or_fault OutOfBounds (st !! i);
    if matches type t c then
      a1 ← or_fault NullDeref t.(act1);
      let p := p <| e1 := a1 p.(e1) c |> in
      let p := match t.(act2) with
               | Some a2 => p <| e1 ::= (fun e => e <| next := true |>) |> <| e2 := a2 p.(e2) c |>
               | None => p
               end in
      Ok (p <| state := t.(dest) |>)
    else feed_loop type st k (i + 1)%nat p c
  end.

(** The event returned is [e1] of the result. *)
Definition parser_feed (p : parser) (c : byte) : res parser :=
  type ← or_fault OutOfBounds (p.(classes) !! Z.to_nat (bz c));
  let p := p <| e1 ::= (fun e => e <| next := false |>) |>
             <| e2 ::= (fun e => e <| next := false |>) |> in
  st ← or_fault OutOfBounds (p.(def).(states) !! p.(state));
  k ← or_fault OutOfBounds (p.(def).(states_n) !! p.(state));
  feed_loop type st k 0 p c.

Definition parser_no_classes : list Z := replicate 0xFF 0.

(** * parser_utils.c *)

Definition STRING_CMP_MAYEQ : Z := 0.
Definition STRING_CMP_EQ : Z := 1.
Definition STRING_CMP_NEQ : Z := 2.

Definition parser_utils_strcmpi_event (type : Z) : option cstring :=
  if decide (type = STRING_CMP_MAYEQ) then Some (lit "wait(c)")
  else if decide (type = STRING_CMP_EQ) then Some (lit "eq(c)")
  else if decide (type = STRING_CMP_NEQ) then Some (lit "neq(c)")
  else None.

Definition set_event (ty : Z) : action := fun ret c =>
  ret <| type := ty |> <| n := 1 |> <| data ::= <[0%nat:=c]> |>.
Definition may_eq : action := set_event STRING_CMP_MAYEQ.
Definition eq : action := set_event STRING_CMP_EQ.
Definition neq : action := set_event STRING_CMP_NEQ.

(** [char] is signed; the C locale's case maps move only ASCII letters. *)
Definition char_z (c : byte) : Z := if decide (bz c < 128) then bz c else bz c - 256.
Definition tolower (z : Z) : Z := if decide (65 <= z <= 90) then z + 32 else z.
Definition toupper (z : Z) : Z := if decide (97 <= z <= 122) then z - 32 else z.

Definition zero_transition : parser_state_transition := mk_transition 0 0 None None.

Definition letter_transitions (len i : nat) (c : byte) : list parser_state_transition :=
  let d := if decide (i + 1 = len)%nat then len else (i + 1)%nat in
  let a := if decide (i + 1 = len)%nat then eq else may_eq in
  [ mk_transition (tolower (char_z c)) d (Some a) None;
    mk_transition (toupper (char_z c)) d (Some a) None;
    mk_transition ANY (len + 1) (Some neq) None ].

Definition sink_transitions (len : nat) : list parser_state_transition :=
  [ mk_transition ANY (len + 1) (Some neq) None; zero_transition; zero_transition ].

(** The array [transitions] as the loop and the two assignments after it leave
    it: three entries per state. *)
Definition transitions (s : cstring) : list parser_state_transition :=
  let len := length s in
  concat (imap (letter_transitions len) s) ++ sink_transitions len ++ sink_transitions len.

(** [alloc_ok]: the three [calloc]s succeed. *)
Definition parser_utils_strcmpi (alloc_ok : bool) (s : cstring) : parser_definition :=
  if alloc_ok then
    let len := length s in
    let tr := transitions s in
    mk_definition (len + 2)
      (map (fun i => drop (i * 3) tr) (seq 0 (len + 2)))
      (replicate len 3%nat ++ [1%nat; 1%nat])
      0
  else mk_definition 0 [] [] 0.

(** * The comparator compares *)

Fixpoint feed_all (p : parser) (bs : list byte) : res parser :=
  match bs with
  | [] => Ok p
  | c :: bs => p ← parser_feed p c; feed_all p bs
  end.

Definition ascii (s : cstring) : Prop := Forall (fun c => bz c < 128) s.

(** Equality up to case, byte by byte. *)
Definition ci_eq (a b : byte) : Prop := tolower (bz a) = tolower (bz b).
#[export] Instance ci_eq_dec a b : Decision (ci_eq a b).
Proof. unfold ci_eq. apply _. Defined.

(** Reference: compare what was received with the whole string. *)
Definition verdict (s t : cstring) : Z :=
  if decide (Forall2 ci_eq t s) then STRING_CMP_EQ
  else if decide (Forall2 ci_eq t (take (length t) s)) then STRING_CMP_MAYEQ
  else STRING_CMP_NEQ.

(** The state the comparator is in after [t]. *)
Definition state_after (s t : cstring) : nat :=
  if decide (Forall2 ci_eq t (take (length t) s)) then length t else length s + 1.

Lemma transitions_at s : forall i, (i < length s + 2)%nat ->
  take 3 (drop (i * 3) (transitions s)) =
  match s !! i with
  | Some c => letter_transitions (length s) i c
  | None => sink_transitions (length s)
  end.
Proof.
  intros i Hi. unfold transitions.
  assert (H : forall (f : nat -> byte -> list parser_state_transition) (l : list byte) (x : list parser_state_transition) j, (forall k c, length (f k c) = 3%nat) ->
    take 3 (drop (j * 3) (concat (imap f l) ++ x)) =
    match l !! j with Some c => f j c | None => take 3 (drop ((j - length l) * 3) x) end).
  { intros f l x j. revert f j. induction l as [|c l IH]; intros f j Hf; cbn.
    { by rewrite Nat.sub_0_r. }
    rewrite <- app_assoc. destruct j as [|j]; cbn [lookup list_lookup].
    - change (0 * 3)%nat with 0%nat. rewrite drop_0, <- (Hf 0%nat c). apply take_app_length.
    - replace (Datatypes.S j * 3)%nat with (length (f 0%nat c) + j * 3)%nat by (rewrite Hf; lia).
      rewrite drop_app_add. rewrite (IH (f ∘ Datatypes.S)) by (intros; apply Hf).
      destruct (l !! j); [done|]. by replace (Datatypes.S j - Datatypes.S (length l))%nat with (j - length l)%nat by lia. }
  rewrite H by done. destruct (s !! i) as [c|] eqn:E; [done|].
  apply lookup_ge_None in E.
  assert (i - length s = 0 \/ i - length s = 1)%nat as [->| ->] by lia; done.
Qed.

Lemma states_n_at (s : cstring) i : (i < length s + 2)%nat ->
  (replicate (length s) 3%nat ++ [1%nat; 1%nat]) !! i =
  Some (if decide (i < length s)%nat then 3%nat else 1%nat).
Proof.
  intros Hi. case_decide.
  - rewrite lookup_app_l by (by rewrite length_replicate). by apply lookup_replicate_2.
  - rewrite lookup_app_r by (rewrite length_replicate; lia). rewrite length_replicate.
    assert (i - length s = 0 \/ i - length s = 1)%nat as [->| ->] by lia; done.
Qed.

(** Of the transitions table only the first three entries are ever read. *)
Lemma feed_loop_take type st k i p c : (k + i <= 3)%nat ->
  feed_loop type st k i p c = feed_loop type (take 3 st) k i p c.
Proof.
  revert i. induction k as [|k IH]; intros i Hk; cbn [feed_loop]; [done|].
  rewrite lookup_take_lt by lia. rewrite IH by lia. done.
Qed.

Lemma letter_matches ty x c d a : bz x < 128 ->
  matches ty (mk_transition (tolower (char_z x)) d a None) c ||
  matches ty (mk_transition (toupper (char_z x)) d a None) c = bool_decide (ci_eq c x).
Proof.
  intros Hx. unfold matches, ci_eq, char_z; cbn. rewrite (decide_True _ _ Hx).
  pose proof (bz_range x). pose proof (bz_range c).
  rewrite !decide_True by (unfold tolower, toupper; repeat case_decide; lia).
  rewrite <- bool_decide_or. apply bool_decide_ext.
  unfold tolower, toupper; repeat case_decide; lia.
Qed.

Lemma letter_loop ty len i x p c : bz x < 128 ->
  feed_loop ty (letter_transitions len i x) 3 0 p c =
  Ok (if decide (ci_eq c x)
      then p <| e1 ::= (fun e => (if decide (i + 1 = len) then eq else may_eq) e c)%nat |>
             <| state := (i + 1)%nat |>
      else p <| e1 ::= (fun e => neq e c) |> <| state := (len + 1)%nat |>).
Proof.
  intros Hx. unfold letter_transitions. cbn zeta.
  set (d := if decide (i + 1 = len)%nat then len else (i + 1)%nat).
  assert (Hd : d = (i + 1)%nat) by (subst d; by case_decide). clearbody d. subst d.
  pose proof (letter_matches ty x c (i + 1)%nat
    (Some (if decide (i + 1 = len)%nat then eq else may_eq)) Hx) as Hm.
  cbn -[matches tolower toupper char_z eq may_eq neq].
  destruct (decide (ci_eq c x)) as [He|He].
  - rewrite bool_decide_true in Hm by done. apply orb_true_iff in Hm as [E|E]; rewrite E.
    + done.
    + match goal with |- (if ?b then _ else _) = _ => by destruct b end.
  - rewrite bool_decide_false in Hm by done. apply orb_false_iff in Hm as [-> ->]. done.
Qed.

Definition comparator (cs : list Z) (s : cstring) (p : parser) : Prop :=
  p.(classes) = cs /\ p.(def) = parser_utils_strcmpi true s /\ length p.(e1).(data) = 3%nat.

(** One byte: which state it leads to, and which event it gives. *)
Lemma feed_step cs s p c :
  length cs = 256%nat -> ascii s -> comparator cs s p -> (p.(state) < length s + 2)%nat ->
  exists p', parser_feed p c = Ok p' /\ comparator cs s p' /\
    (p'.(state), p'.(e1).(type)) =
    match s !! p.(state) with
    | Some x => if decide (ci_eq c x)
        then (p.(state) + 1, if decide (p.(state) + 1 = length s) then STRING_CMP_EQ else STRING_CMP_MAYEQ)
        else (length s + 1, STRING_CMP_NEQ)
    | None => (length s + 1, STRING_CMP_NEQ)
    end%nat /\ p'.(e1).(data) !! 0%nat = Some c /\ p'.(e1).(n) = 1.
Proof.
  intros Hcs Hs (Hc & Hd & Hl) Hi. unfold parser_feed.
  pose proof (bz_range c).
  destruct (lookup_lt_is_Some_2 cs (Z.to_nat (bz c))) as [ty Hty]; [lia|].
  rewrite Hc, Hty. cbn. rewrite Hd. cbn.
  rewrite list_lookup_fmap, lookup_seq_lt by lia. cbn.
  rewrite states_n_at by lia. cbn.
  rewrite feed_loop_take by (case_decide; lia).
  rewrite transitions_at by lia.
  destruct (s !! p.(state)) as [x|] eqn:Ex.
  - rewrite decide_True by (by eapply lookup_lt_Some).
    assert (Hx : bz x < 128) by (by eapply Forall_lookup_1 in Hs; [|exact Ex]).
    rewrite (letter_loop _ _ _ _ _ _ Hx). eexists. split; [done|].
    unfold comparator.
    destruct (decide (ci_eq c x)); split_and!; try done; cbn;
      repeat case_decide; cbn; rewrite ?length_insert; try done;
      by apply list_lookup_insert_eq; lia.
  - apply lookup_ge_None in Ex. rewrite decide_False by lia.
    cbn. eexists. split; [done|]. unfold comparator. split_and!; try done; cbn.
    + by rewrite length_insert.
    + by apply list_lookup_insert_eq; lia.
Qed.

(** The states of the comparator, by what was received. *)
Lemma state_after_snoc s t c :
  state_after s (t ++ [c]) =
  match s !! state_after s t with
  | Some x => if decide (ci_eq c x) then (state_after s t + 1)%nat else (length s + 1)%nat
  | None => (length s + 1)%nat
  end.
Proof.
  unfold state_after at 2 3. case_decide as Ht.
  - unfold state_after. rewrite length_app. cbn [length].
    destruct (s !! length t) as [x|] eqn:Ex.
    + rewrite Nat.add_1_r. rewrite (take_S_r s _ x Ex).
      destruct (decide (ci_eq c x)) as [Hc|Hc].
      * rewrite decide_True; [done|]. apply Forall2_app; auto.
      * rewrite decide_False; [lia|]. intros H. apply Forall2_app_inv in H as [_ H].
        { by inversion_clear H. }
        rewrite length_take. apply Forall2_length in Ht. rewrite length_take in Ht. lia.
    + apply lookup_ge_None in Ex. rewrite decide_False; [done|].
      intros H%Forall2_length. rewrite length_app, length_take in H. cbn [length] in H. lia.
  - rewrite (proj2 (lookup_ge_None s (length s + 1)%nat)) by lia.
    unfold state_after. rewrite decide_False; [done|]. intros H. apply Ht.
    apply Forall2_app_inv_l in H as (l1 & l2 & H1 & H2 & Heq).
    pose proof (Forall2_length _ _ _ H1) as Hl.
    replace (take (length t) s) with l1; [done|].
    apply (f_equal (take (length t))) in Heq.
    rewrite take_take, length_app, Nat.min_l in Heq by lia.
    rewrite Heq, take_app_le, take_ge by lia. done.
Qed.

Lemma verdict_state s t : t <> [] ->
  verdict s t =
  if decide (state_after s t = length s) then STRING_CMP_EQ
  else if decide (state_after s t < length s)%nat then STRING_CMP_MAYEQ else STRING_CMP_NEQ.
Proof.
  intros _. unfold verdict, state_after.
  destruct (decide (Forall2 ci_eq t (take (length t) s))) as [Ht|Ht].
  - pose proof (Forall2_length _ _ _ Ht) as Hl. rewrite length_take in Hl.
    destruct (decide (length t = length s)) as [E|E].
    + rewrite decide_True; [done|]. by rewrite E, take_ge in Ht by lia.
    + rewrite decide_False by (intros ?%Forall2_length; lia).
      by rewrite decide_True by lia.
  - rewrite decide_False.
    2:{ intros H. apply Ht. pose proof (Forall2_length _ _ _ H). by rewrite take_ge by lia. }
    rewrite !decide_False by lia. done.
Qed.

(** From a parser in the state for [t0], feeding [t] reaches the state for
    [t0 ++ t] and leaves the verdict on it. *)
Lemma feed_all_spec cs s : length cs = 256%nat -> ascii s -> forall t t0 p,
  comparator cs s p -> p.(state) = state_after s t0 -> t <> [] ->
  exists p', feed_all p t = Ok p' /\ comparator cs s p' /\
    p'.(e1).(type) = verdict s (t0 ++ t) /\ p'.(e1).(n) = 1 /\
    p'.(e1).(data) !! 0%nat = last t.
Proof.
  intros Hcs Hs t. induction t as [|c t IH]; intros t0 p Hp Hst Hne; [done|].
  cbn [feed_all].
  assert (Hlt : (p.(state) < length s + 2)%nat).
  { rewrite Hst. unfold state_after. case_decide as H; [|lia].
    apply Forall2_length in H. rewrite length_take in H. lia. }
  destruct (feed_step cs s p c Hcs Hs Hp Hlt) as (p1 & -> & Hp1 & Hev & Hd & Hn).
  cbn [mbind res_bind].
  assert (H1 : p1.(state) = state_after s (t0 ++ [c])).
  { rewrite state_after_snoc, <- Hst. destruct (s !! state p); [|congruence].
    case_decide; congruence. }
  destruct t as [|c' t].
  - exists p1. split; [done|]. split_and!; try done. rewrite verdict_state by (by destruct t0).
    rewrite <- H1. destruct (s !! p.(state)) as [x|] eqn:Ex; [|injection Hev as -> ->].
    + apply lookup_lt_Some in Ex. case_decide; injection Hev as -> ->.
      * case_decide; [done|]. by rewrite decide_True by lia.
      * by rewrite !decide_False by lia.
    + by rewrite !decide_False by lia.
  - destruct (IH (t0 ++ [c]) p1 Hp1 H1) as (p' & E & Hp' & Hty & Hn' & Hd'); [done|].
    exists p'. rewrite <- app_assoc in Hty. split_and!; done.
Qed.

(** The parser built for an ASCII string compares any bytes
    with it up to ASCII case: with a classes table of 256 entries no byte makes
    it leave its tables, and after each byte its event is "equal" exactly when
    what it received is the whole string, "may be equal" exactly when it is a
    proper prefix, and "different" otherwise; the event carries that byte. *)
Theorem strcmpi_compares cs s t p0 :
  length cs = 256%nat -> ascii s -> t <> [] ->
  parser_init true cs (parser_utils_strcmpi true s) = Some p0 ->
  exists p, feed_all p0 t = Ok p /\ p.(e1).(type) = verdict s t /\ p.(e1).(n) = 1 /\
    p.(e1).(data) !! 0%nat = last t.
Proof.
  intros Hcs Hs Ht [= <-].
  destruct (feed_all_spec cs s Hcs Hs t [] (mk_parser cs (parser_utils_strcmpi true s) 0
    zero_event zero_event)) as (p & E & _ & H); [by repeat split| |done|by exists p].
  unfold state_after. by rewrite decide_True by constructor.
Qed.

Lemma strcmpi_compares_witness :
  exists p, feed_all (mk_parser (replicate 256 0) (parser_utils_strcmpi true (lit "foo"))
      0 zero_event zero_event) (lit "fOO") = Ok p /\
    p.(e1).(type) = verdict (lit "foo") (lit "fOO") /\ p.(e1).(n) = 1 /\
    p.(e1).(data) !! 0%nat = last (lit "fOO").
Proof.
  apply (strcmpi_compares (replicate 256 0)).
  - reflexivity.
  - repeat constructor.
  - discriminate.
  - reflexivity.
Defined.

(** The table [parser_no_classes] returns is one entry short of what parser.h
    asks for: the byte 0xFF reads past its end, in any state. *)
Theorem no_classes_too_short d : exists p,
  parser_init true parser_no_classes d = Some p /\ parser_feed p xff = Fault OutOfBounds.
Proof. eexists. split; reflexivity. Qed.

End Parser.
