(* ===== verification/Selector.v ===== *)
(** The epoll multiplexer of src/shared/selector.c: a table of items indexed by
    file descriptor that grows by reallocation, callbacks through a handler, and
    notifications from other threads.  The calls to [epoll_ctl] are kept as a
    log; what [epoll_wait], the allocator and [fcntl] return is an argument.
    The selector pointer itself is never NULL here. *)
From S2P Require Import Prelude.
Local Open Scope Z_scope.

Module Selector.

Inductive selector_status :=
| SELECTOR_SUCCESS | SELECTOR_ENOMEM | SELECTOR_MAXFD | SELECTOR_IARGS
| SELECTOR_FDINUSE | SELECTOR_IO.

#[export] Instance status_eq_dec : EqDecision selector_status.
Proof. solve_decision. Defined.

Definition selector_error (status : selector_status) : cstring :=
  match status with
  | SELECTOR_SUCCESS => lit "Success"
  | SELECTOR_ENOMEM => lit "Not enough memory"
  | SELECTOR_MAXFD => lit "Can't handle any more file descriptors"
  | SELECTOR_IARGS => lit "Illegal argument"
  | SELECTOR_IO => lit "I/O error"
  | SELECTOR_FDINUSE => lit "something failed"
  end.

Definition OP_NOOP : Z := 0.
Definition OP_READ : Z := Z.shiftl 1 0.
Definition OP_WRITE : Z := Z.shiftl 1 2.
Definition EPOLLIN : Z := 1.
Definition EPOLLOUT : Z := 4.
Definition EPOLLERR : Z := 8.
Definition EPOLLHUP : Z := 16.

Definition ITEMS_MAX_SIZE : Z := 65536.
Definition FD_UNUSED : Z := -1.

(** [flags & mask], as a condition. *)
Definition has (flags mask : Z) : bool := negb (bool_decide (Z.land flags mask = 0)).

Section Selector.
(** Handlers are named by [H]; [D] is the attached data, [W] the rest of the
    program's state. *)
Context {H D W : Type}.

Record item := mk_item {
  fd : Z;
  interest : Z;
  handler : option H;
  data : option D;
}.
#[export] Instance eta_item : Eta item := fun i =>
  mk_item i.(fd) i.(interest) i.(handler) i.(data).

Inductive epoll_call :=
| EpollAdd (fd events : Z)
| EpollMod (fd events : Z)
| EpollDel (fd : Z).

Record selector := mk_selector {
  fds : option (list item);      (* None is NULL *)
  gen : nat;                     (* how often fds was reallocated *)
  fd_size : Z;
  resolution_mutex : bool;       (* held by the current thread *)
  resolution_jobs : list Z;      (* the fds of the jobs, newest first *)
  epoll_fd : Z;
  event_fd : Z;
  event_count : Z;               (* the eventfd's counter *)
  events_capacity : Z;
  epoll_log : list epoll_call;   (* newest first *)
}.
#[export] Instance eta_selector : Eta selector := fun s =>
  mk_selector s.(fds) s.(gen) s.(fd_size) s.(resolution_mutex) s.(resolution_jobs)
    s.(epoll_fd) s.(event_fd) s.(event_count) s.(events_capacity) s.(epoll_log).

Definition ITEM_USED (i : item) : bool := negb (bool_decide (i.(fd) = FD_UNUSED)).
Definition INVALID_FD (fd : Z) : bool := bool_decide (fd < 0) || bool_decide (fd >= ITEMS_MAX_SIZE).

(** The bit-counting loop of [next_capacity]; 64 iterations clear a size_t. *)
Fixpoint count_bits (fuel : nat) (tmp : Z) : res Z :=
  if decide (tmp = 0) then Ok 0
  else match fuel with
       | O => Fault OutOfFuel
       | S fuel => bits ← count_bits fuel (Z.shiftr tmp 1); Ok (bits + 1)
       end.

Definition next_capacity (n : Z) : res Z :=
  bits ← count_bits 64 n;
  let tmp := u64 (Z.shiftl 1 bits) in
  _ ← c_assert (bool_decide (tmp >= n));
  let tmp := if decide (tmp > ITEMS_MAX_SIZE) then ITEMS_MAX_SIZE else tmp in
  Ok (tmp + 1).

Definition item_init (i : item) : item := i <| fd := FD_UNUSED |>.
Definition zero_item : item := mk_item 0 0 None None.

(** [items_init] on the array [a]: from index [last] to the end. *)
Definition items_init (size last : Z) (a : list item) : res (list item) :=
  _ ← c_assert (bool_decide (last <= size));
  Ok (take (Z.to_nat last) a ++ map item_init (drop (Z.to_nat last) a)).

(** [alloc_ok]: calloc or realloc succeeds; [garbage]: the contents realloc
    leaves in the new elements.  [sizeof(struct item)] is 32. *)
Definition ensure_capacity (alloc_ok : bool) (garbage : item) (n : Z) (s : selector)
  : res (selector_status * selector) :=
  if decide (n < s.(fd_size)) then Ok (SELECTOR_SUCCESS, s)
  else if decide (n > ITEMS_MAX_SIZE) then Ok (SELECTOR_MAXFD, s)
  else match s.(fds) with
  | None =>
    new_size ← next_capacity n;
    if alloc_ok then
      a ← items_init new_size 0 (replicate (Z.to_nat new_size) zero_item);
      Ok (SELECTOR_SUCCESS, s <| fds := Some a |> <| fd_size := new_size |>)
    else Ok (SELECTOR_ENOMEM, s)
  | Some old =>
    new_size ← next_capacity n;
    if decide (new_size > SIZE_MAX `div` 32) then Ok (SELECTOR_ENOMEM, s)
    else if alloc_ok then
      let a := old ++ replicate (Z.to_nat new_size - length old) garbage in
      a ← items_init new_size s.(fd_size) a;
      Ok (SELECTOR_SUCCESS, s <| fds := Some a |> <| gen ::= S |> <| fd_size := new_size |>)
    else Ok (SELECTOR_ENOMEM, s)
  end.

Definition interest_to_epoll (i : Z) : Z :=
  let ev := 0 in
  let ev := if has i OP_READ then Z.lor ev EPOLLIN else ev in
  if has i OP_WRITE then Z.lor ev EPOLLOUT else ev.

(** * Pointers to items

    [s->fds + fd], taken when the table had this generation.  Once the table is
    reallocated the pointer dangles. *)
Definition item_ptr := (nat * Z)%type.
Definition item_at (s : selector) (fd : Z) : item_ptr := (s.(gen), fd).

Definition load (p : item_ptr) (s : selector) : res item :=
  let '(g, i) := p in
  if decide (g <> s.(gen)) then Fault UseAfterFree
  else if decide (i < 0) then Fault OutOfBounds
  else a ← or_fault OutOfBounds s.(fds); or_fault OutOfBounds (a !! Z.to_nat i).

Definition store (p : item_ptr) (it : item) (s : selector) : res selector :=
  _ ← load p s;
  Ok (s <| fds ::= fmap (fun a => <[Z.to_nat p.2:=it]> a) |>).

Definition epoll_ctl (c : epoll_call) (s : selector) : selector := s <| epoll_log ::= cons c |>.

Definition selector_register (alloc_ok : bool) (garbage : item) (s : selector) (fd_ : Z)
    (h : option H) (i : Z) (d : option D) : res (selector_status * selector) :=
  if INVALID_FD fd_ || bool_decide (h = None) then Ok (SELECTOR_IARGS, s) else
  '(ret, s) ← (if decide (fd_ > s.(fd_size)) then ensure_capacity alloc_ok garbage fd_ s
               else Ok (SELECTOR_SUCCESS, s));
  if decide (ret <> SELECTOR_SUCCESS) then Ok (ret, s) else
  let p := item_at s fd_ in
  it ← load p s;
  if ITEM_USED it then Ok (SELECTOR_FDINUSE, s)
  else
    s ← store p (mk_item fd_ i h d) s;
    Ok (SELECTOR_SUCCESS, epoll_ctl (EpollAdd fd_ (interest_to_epoll i)) s).

Definition selector_set_interest (s : selector) (fd : Z) (i : Z) : res (selector_status * selector) :=
  if INVALID_FD fd then Ok (SELECTOR_IARGS, s) else
  let p := item_at s fd in
  it ← load p s;
  if negb (ITEM_USED it) then Ok (SELECTOR_IARGS, s)
  else
    s ← store p (it <| interest := i |>) s;
    Ok (SELECTOR_SUCCESS, epoll_ctl (EpollMod fd (interest_to_epoll i)) s).

(** * Callbacks *)

Record selector_key := mk_key { key_fd : Z; key_data : option D }.

(** The selector and the state the callbacks work on. *)
Record state := mk_state { sel : selector; user : W }.
#[export] Instance eta_state : Eta state := fun st => mk_state st.(sel) st.(user).

Definition callback := selector_key -> state -> res state.

Record fd_handler := mk_handler {
  handle_read : option callback;
  handle_write : option callback;
  handle_block : option callback;
  handle_close : option callback;
}.

Variable impl : H -> fd_handler.

Definition selector_set_interest_key (key : option selector_key) (i : Z) (s : selector)
  : res (selector_status * selector) :=
  match key with
  | None => Ok (SELECTOR_IARGS, s)
  | Some key =>
    if INVALID_FD key.(key_fd) then Ok (SELECTOR_IARGS, s)
    else selector_set_interest s key.(key_fd) i
  end.

Definition selector_unregister_fd (fd_ : Z) (st : state) : res (selector_status * state) :=
  if INVALID_FD fd_ then Ok (SELECTOR_IARGS, st) else
  let p := item_at st.(sel) fd_ in
  it ← load p st.(sel);
  if negb (ITEM_USED it) then Ok (SELECTOR_IARGS, st) else
  let s := epoll_ctl (EpollDel fd_) st.(sel) in
  s ← store p (it <| interest := OP_NOOP |>) s;
  h ← or_fault NullDeref it.(handler);
  st ← (match (impl h).(handle_close) with
        | Some f => f (mk_key it.(fd) it.(data)) (st <| sel := s |>)
        | None => Ok (st <| sel := s |>)
        end);
  s ← store p (item_init zero_item) st.(sel);
  Ok (SELECTOR_SUCCESS, st <| sel := s |>).

(** One direction of one ready descriptor: the callback runs if the item, read
    again through its pointer, is interested; a missing callback is a failed
    assert. *)
Definition dispatch (get : fd_handler -> option callback) (op : Z) (p : item_ptr)
    (key : selector_key) (st : state) : res state :=
  it ← load p st.(sel);
  if has op it.(interest) then
    h ← or_fault NullDeref it.(handler);
    match get (impl h) with
    | None => Fault Aborted
    | Some f => f key st
    end
  else Ok st.

Definition READ_EVENTS : Z := Z.lor (Z.lor EPOLLIN EPOLLERR) EPOLLHUP.
Definition WRITE_EVENTS : Z := Z.lor (Z.lor EPOLLOUT EPOLLERR) EPOLLHUP.

Definition handle_event (events fd : Z) (st : state) : res state :=
  if decide (fd = st.(sel).(event_fd)) then Ok (st <| sel ::= (fun s => s <| event_count := 0 |>) |>)
  else
    let p := item_at st.(sel) fd in
    it ← load p st.(sel);
    if negb (ITEM_USED it) then Ok st else
    let key := mk_key fd it.(data) in
    st ← (if has events READ_EVENTS then dispatch handle_read OP_READ p key st else Ok st);
    if has events WRITE_EVENTS then dispatch handle_write OP_WRITE p key st else Ok st.

(** [s->events] as [epoll_wait] filled it: (events, fd). *)
Fixpoint handle_iteration (ready : list (Z * Z)) (st : state) : res state :=
  match ready with
  | [] => Ok st
  | (events, fd) :: ready => st ← handle_event events fd st; handle_iteration ready st
  end.

Definition lock (s : selector) : res selector :=
  if s.(resolution_mutex) then Fault Deadlock else Ok (s <| resolution_mutex := true |>).

(** The loop over the queued jobs, which runs with the mutex held. *)
Fixpoint run_jobs (jobs : list Z) (st : state) : res state :=
  match jobs with
  | [] => Ok st
  | j :: jobs =>
    it ← load (item_at st.(sel) j) st.(sel);
    st ← (if ITEM_USED it then
            h ← or_fault NullDeref it.(handler);
            f ← or_fault NullDeref (impl h).(handle_block);
            f (mk_key it.(fd) it.(data)) st
          else Ok st);
    run_jobs jobs st
  end.

Definition handle_block_notifications (st : state) : res state :=
  s ← lock st.(sel);
  st ← run_jobs s.(resolution_jobs) (st <| sel := s |>);
  Ok (st <| sel ::= (fun s => s <| resolution_jobs := [] |> <| resolution_mutex := false |>) |>).

(** Called by a thread other than the selector's. *)
Definition selector_notify_block (malloc_ok : bool) (s : selector) (fd : Z)
  : res (selector_status * selector) :=
  if malloc_ok then
    s ← lock s;
    let s := s <| resolution_jobs ::= cons fd |> <| resolution_mutex := false |> in
    Ok (SELECTOR_SUCCESS, s <| event_count ::= Z.add 1 |>)
  else Ok (SELECTOR_ENOMEM, s).

Inductive epoll_result :=
| Ready (events : list (Z * Z))
| WaitEINTR
| WaitEBADF
| WaitError.

Definition selector_select (r : epoll_result) (st : state) : res (selector_status * state) :=
  match r with
  | WaitError => Ok (SELECTOR_IO, st)
  | WaitEBADF => Ok (SELECTOR_IO, st)
  | WaitEINTR => st ← handle_block_notifications st; Ok (SELECTOR_SUCCESS, st)
  | Ready events =>
    st ← handle_iteration events st;
    st ← handle_block_notifications st;
    Ok (SELECTOR_SUCCESS, st)
  end.

(** The loop of [selector_destroy] over the table. *)
Fixpoint destroy_items (k : nat) (i : Z) (st : state) : res state :=
  match k with
  | O => Ok st
  | S k =>
    it ← load (item_at st.(sel) i) st.(sel);
    st ← (if ITEM_USED it then '(_, st) ← selector_unregister_fd i st; Ok st else Ok st);
    destroy_items k (i + 1) st
  end.

(** What outlives the selector is the user's state. *)
Definition selector_destroy (st : state) : res W :=
  match st.(sel).(fds) with
  | None => Ok st.(user)
  | Some _ => st ← destroy_items (Z.to_nat st.(sel).(fd_size)) 0 st; Ok st.(user)
  end.

(** The results of [epoll_create1], [eventfd], the two allocations and
    [epoll_ctl]; a failure destroys what was made and returns NULL. *)
Definition selector_new (ep ev : Z) (events_ok ctl_ok alloc_ok : bool) (garbage : item)
    (initial_elements : Z) : res (option selector) :=
  if decide (ep = -1) then Ok None else
  if decide (ev = -1) then Ok None else
  let ev_cap := if decide (initial_elements > 0) then initial_elements else 8 in
  if negb events_ok then Ok None else
  if negb ctl_ok then Ok None else
  let s := mk_selector None 0 0 false [] ep ev 0 ev_cap [EpollAdd ev EPOLLIN] in
  '(ret, s) ← ensure_capacity alloc_ok garbage initial_elements s;
  if decide (ret <> SELECTOR_SUCCESS) then Ok None else Ok (Some s).

End Selector.

(** [fcntl(F_GETFL)] and [fcntl(F_SETFL, flags | O_NONBLOCK)] as arguments. *)
Definition O_NONBLOCK : Z := 2048.
Definition selector_fd_set_nio (getfl : Z) (setfl : Z -> Z) : Z :=
  if decide (getfl = -1) then -1
  else if decide (setfl (Z.lor getfl O_NONBLOCK) = -1) then -1 else 0.

(** * The capacity that is asked for *)

Definition bit_length (n : Z) : Z := if decide (n = 0) then 0 else Z.log2 n + 1.

Lemma count_bits_spec fuel : forall n, 0 <= n < 2 ^ Z.of_nat fuel ->
  count_bits fuel n = Ok (bit_length n).
Proof.
  induction fuel as [|fuel IH]; intros n Hn; cbn [count_bits]; unfold bit_length;
    destruct (decide (n = 0)) as [->|Hnz]; try done.
  { cbn in Hn. lia. }
  rewrite Nat2Z.inj_succ, Z.pow_succ_r in Hn by lia.
  rewrite IH by (rewrite Z.shiftr_div_pow2 by lia; split; [apply Z.div_pos; lia|apply Z.div_lt_upper_bound; lia]).
  cbn. f_equal. unfold bit_length. rewrite Z.log2_shiftr by lia.
  pose proof (Z.log2_nonneg n). case_decide as Hs.
  - rewrite Z.shiftr_eq_0_iff in Hs. lia.
  - assert (Z.log2 n <> 0); [|lia]. intros H0. apply Hs, Z.shiftr_eq_0; lia.
Qed.

Lemma next_capacity_spec n : 0 <= n <= ITEMS_MAX_SIZE ->
  exists c, next_capacity n = Ok c /\ n < c <= ITEMS_MAX_SIZE + 1.
Proof.
  intros Hn. unfold ITEMS_MAX_SIZE in *. unfold next_capacity.
  rewrite count_bits_spec by (cbn; lia). cbn -[Z.gt Z.ge].
  assert (Hb : 0 <= bit_length n <= 17 /\ n < 2 ^ bit_length n).
  { unfold bit_length. case_decide; [subst; cbn; lia|].
    pose proof (Z.log2_spec n ltac:(lia)). pose proof (Z.log2_nonneg n).
    assert (Z.log2 n <= Z.log2 65536) by (apply Z.log2_le_mono; lia). cbn in *. lia. }
  assert (Hp : 2 ^ bit_length n <= 2 ^ 17) by (apply Z.pow_le_mono_r; lia).
  rewrite Z.shiftl_1_l, u64_small by lia. rewrite bool_decide_true by lia. cbn -[Z.gt].
  eexists. split; [done|]. unfold ITEMS_MAX_SIZE. case_decide; lia.
Qed.

#[global] Arguments load : simpl never.
#[global] Arguments has : simpl never.

Section Facts.
Context {H D W : Type}.
Implicit Types (s : @selector H D) (it : @item H D) (st : @state H D W).

(** * The table *)

Record wf s : Prop := {
  wf_size : 0 < s.(fd_size) <= ITEMS_MAX_SIZE + 1;
  wf_fds : exists a, s.(fds) = Some a /\ Z.of_nat (length a) = s.(fd_size) /\
    forall i it, a !! i = Some it -> ITEM_USED it = true ->
      it.(fd) = Z.of_nat i /\ it.(handler) <> None;
}.

(** A pointer just taken does not dangle. *)
Lemma load_at s k : load (item_at s k) s =
  if decide (k < 0) then Fault OutOfBounds
  else a ← or_fault OutOfBounds s.(fds); or_fault OutOfBounds (a !! Z.to_nat k).
Proof. unfold load, item_at. by rewrite decide_False by auto. Qed.

(** The item registered for a descriptor. *)
Definition entry s (k : Z) : option item :=
  match load (item_at s k) s with
  | Ok it => if ITEM_USED it then Some it else None
  | Fault _ => None
  end.

Lemma item_init_unused it : ITEM_USED (item_init it) = false.
Proof. done. Qed.

Lemma load_wf s k : wf s -> 0 <= k < s.(fd_size) ->
  exists a it, s.(fds) = Some a /\ a !! Z.to_nat k = Some it /\ load (item_at s k) s = Ok it.
Proof.
  intros [Hs (a & Ha & Hl & _)] Hk.
  destruct (lookup_lt_is_Some_2 a (Z.to_nat k)) as [it Hit]; [lia|].
  exists a, it. split_and!; [done..|]. rewrite load_at.
  rewrite decide_False by lia. rewrite Ha. cbn. by rewrite Hit.
Qed.

Lemma load_out s k : wf s -> (k < 0 \/ s.(fd_size) <= k) -> load (item_at s k) s = Fault OutOfBounds.
Proof.
  intros [Hs (a & Ha & Hl & _)] Hk. rewrite load_at.
  case_decide; [done|]. rewrite Ha. cbn. by rewrite lookup_ge_None_2 by lia.
Qed.

Lemma load_ok p s it : load p s = Ok it ->
  p.1 = s.(gen) /\ 0 <= p.2 /\ exists a, s.(fds) = Some a /\ a !! Z.to_nat p.2 = Some it.
Proof.
  destruct p as [g i]. unfold load. case_decide; [done|]. case_decide; [done|].
  destruct (fds s) as [a|]; cbn; [|done]. intros E%or_fault_ok. split_and!; [cbn|cbn; lia|eauto].
  done.
Qed.

Lemma entry_used s k it : wf s -> entry s k = Some it ->
  load (item_at s k) s = Ok it /\ ITEM_USED it = true /\ it.(fd) = k /\ it.(handler) <> None /\
  0 <= k < s.(fd_size).
Proof.
  intros [Hs (a & Ha & Hl & Hu)]. unfold entry.
  destruct (load (item_at s k) s) as [it'|] eqn:E; [|done].
  destruct (ITEM_USED it') eqn:Eu; [|done]. intros [= ->].
  destruct (load_ok _ _ _ E) as (_ & Hk & a' & Ha' & Hit). cbn in *.
  replace a' with a in * by congruence. destruct (Hu _ _ Hit Eu) as [Hfd Hh].
  apply lookup_lt_Some in Hit. split_and!; [done..| |done|done|]; lia.
Qed.

Lemma entry_none s k : wf s -> 0 <= k < s.(fd_size) -> entry s k = None ->
  exists it, load (item_at s k) s = Ok it /\ ITEM_USED it = false.
Proof.
  intros Hwf Hk. destruct (load_wf s k Hwf Hk) as (a & it & _ & _ & E). unfold entry.
  rewrite E. destruct (ITEM_USED it) eqn:Eu; [done|]. eauto.
Qed.

(** Storing an unused item, or one that belongs there, keeps the table and
    changes one entry. *)
Lemma store_spec s k it : wf s -> 0 <= k < s.(fd_size) ->
  (ITEM_USED it = true -> it.(fd) = k /\ it.(handler) <> None) ->
  exists s', store (item_at s k) it s = Ok s' /\ wf s' /\
    (forall j, entry s' j = if decide (j = k) then (if ITEM_USED it then Some it else None) else entry s j) /\
    s'.(epoll_log) = s.(epoll_log) /\ s'.(gen) = s.(gen) /\ s'.(fd_size) = s.(fd_size) /\
    s'.(event_fd) = s.(event_fd).
Proof.
  intros Hwf Hk Hit. destruct (load_wf s k Hwf Hk) as (a & it0 & Ha & Hlk & E).
  destruct (wf_fds s Hwf) as (a' & Ha' & Hl & Hu). replace a' with a in * by congruence.
  unfold store. rewrite E. cbn [mbind res_bind]. eexists. split; [done|]. split_and!; try done.
  - split; [apply Hwf|]. cbn. rewrite Ha. cbn. eexists. split; [done|].
    rewrite length_insert. split; [done|]. intros i it' Hi Hu'.
    destruct (decide (i = Z.to_nat k)) as [->|Hne].
    + rewrite list_lookup_insert_eq in Hi by lia. injection Hi as <-.
      destruct (Hit Hu'). split; [lia|done].
    + rewrite list_lookup_insert_ne in Hi by done. by apply Hu.
  - intros j. unfold entry. rewrite !load_at. cbn.
    rewrite Ha. cbn. destruct (decide (j < 0)) as [Hj|Hj].
    { by rewrite decide_False by lia. }
    destruct (decide (j = k)) as [->|Hne].
    + rewrite list_lookup_insert_eq by lia. done.
    + rewrite list_lookup_insert_ne by lia. done.
Qed.

Lemma entry_fds s s' : s'.(fds) = s.(fds) -> forall k, entry s' k = entry s k.
Proof. intros E k. unfold entry. rewrite !load_at. by rewrite E. Qed.

Lemma wf_fds_eq s s' : s'.(fds) = s.(fds) -> s'.(fd_size) = s.(fd_size) -> wf s -> wf s'.
Proof. intros E1 E2 [H1 H2]. split; [by rewrite E2|by rewrite E1, E2]. Qed.

Lemma map_item_init_unused (l : list (@item H D)) i it :
  map item_init l !! i = Some it -> ITEM_USED it = false.
Proof. rewrite list_lookup_fmap. destruct (l !! i); cbn; [|done]. by intros [= <-]. Qed.

(** Growing keeps every entry and makes room for [n]. *)
Lemma ensure_grow garbage n s : wf s -> s.(fd_size) <= n <= ITEMS_MAX_SIZE ->
  exists s', ensure_capacity true garbage n s = Ok (SELECTOR_SUCCESS, s') /\ wf s' /\
    n < s'.(fd_size) /\ s'.(gen) = S s.(gen) /\ (forall k, entry s' k = entry s k) /\
    s'.(epoll_log) = s.(epoll_log) /\ s'.(event_fd) = s.(event_fd).
Proof.
  intros Hwf Hn. destruct (wf_fds s Hwf) as (a & Ha & Hl & Hu). pose proof (wf_size s Hwf).
  unfold ensure_capacity. rewrite decide_False by lia. rewrite decide_False by lia. rewrite Ha.
  destruct (next_capacity_spec n) as (c & -> & Hc); [lia|]. cbn [mbind res_bind].
  unfold ITEMS_MAX_SIZE in *.
  rewrite decide_False by (unfold SIZE_MAX; change ((2 ^ 64 - 1) `div` 32) with 576460752303423487; lia).
  unfold items_init. rewrite bool_decide_true by lia. cbn [c_assert mbind res_bind].
  rewrite take_app_le, drop_app_ge by lia. rewrite take_ge, <- Hl, Nat2Z.id, Nat.sub_diag, drop_0 by lia.
  eexists. split; [done|]. split_and!; try done.
  - split; [cbn; unfold ITEMS_MAX_SIZE; lia|]. cbn. eexists. split; [done|].
    rewrite length_app, length_map, length_replicate. split; [lia|].
    intros i it Hi Hui. apply lookup_app_Some in Hi as [Hi|[_ Hi]]; [by apply Hu|].
    by rewrite (map_item_init_unused _ _ _ Hi) in Hui.
  - cbn. lia.
  - intros k. unfold entry. rewrite !load_at. cbn. rewrite Ha. cbn.
    case_decide; [done|]. destruct (a !! Z.to_nat k) as [it|] eqn:E.
    + by rewrite (lookup_app_l_Some _ _ _ _ E).
    + cbn. rewrite lookup_app_r by (by apply lookup_ge_None in E).
      destruct (map item_init _ !! _) as [it|] eqn:E'; [|done].
      cbn. by rewrite (map_item_init_unused _ _ _ E').
Qed.

(** * The operations *)

Lemma unregistered_out s k : wf s -> s.(fd_size) <= k -> entry s k = None.
Proof. intros Hwf Hk. unfold entry. by rewrite load_out by (done || lia). Qed.

(** Registering into a table with room. *)
Lemma register_room s fd_ (h : H) i (d : option D) : wf s -> 0 <= fd_ < s.(fd_size) ->
  entry s fd_ = None ->
  exists s', (it ← load (item_at s fd_) s;
     if ITEM_USED it then Ok (SELECTOR_FDINUSE, s)
     else s' ← store (item_at s fd_) (mk_item fd_ i (Some h) d) s;
       Ok (SELECTOR_SUCCESS, epoll_ctl (EpollAdd fd_ (interest_to_epoll i)) s'))
    = Ok (SELECTOR_SUCCESS, s') /\ wf s' /\
    (forall k, entry s' k = if decide (k = fd_) then Some (mk_item fd_ i (Some h) d) else entry s k) /\
    s'.(epoll_log) = EpollAdd fd_ (interest_to_epoll i) :: s.(epoll_log) /\
    s'.(gen) = s.(gen).
Proof.
  intros Hwf Hk He. destruct (entry_none s fd_ Hwf Hk He) as (it & -> & Hu). cbn [mbind res_bind].
  rewrite Hu.
  destruct (store_spec s fd_ (mk_item fd_ i (Some h) d) Hwf Hk) as (s' & -> & Hwf' & He' & Hl & Hg & _); [done|].
  cbn [mbind res_bind]. eexists. split; [done|]. split_and!.
  - by apply (wf_fds_eq s').
  - intros k. rewrite (entry_fds s') by done. rewrite He'. case_decide; [|done].
    unfold ITEM_USED. cbn. by rewrite bool_decide_false by (unfold FD_UNUSED; lia).
  - cbn. by rewrite Hl.
  - done.
Qed.

(** The outcome of a registration, branch by branch. *)
Lemma register_result ok garbage s fd_ (h : option H) i (d : option D) :
  wf s ->
  let r := selector_register ok garbage s fd_ h i d in
  if INVALID_FD fd_ || bool_decide (h = None) then r = Ok (SELECTOR_IARGS, s)
  else if decide (fd_ = s.(fd_size)) then r = Fault OutOfBounds
  else if decide (entry s fd_ <> None) then r = Ok (SELECTOR_FDINUSE, s)
  else if bool_decide (s.(fd_size) < fd_) && negb ok then r = Ok (SELECTOR_ENOMEM, s)
  else exists s', r = Ok (SELECTOR_SUCCESS, s') /\ wf s' /\
    (forall k, entry s' k = if decide (k = fd_) then Some (mk_item fd_ i h d) else entry s k) /\
    s'.(epoll_log) = EpollAdd fd_ (interest_to_epoll i) :: s.(epoll_log) /\
    s'.(gen) = if decide (s.(fd_size) < fd_) then S s.(gen) else s.(gen).
Proof.
  intros Hwf r. subst r. unfold selector_register.
  destruct (INVALID_FD fd_ || _) eqn:Hinv; [done|].
  apply orb_false_iff in Hinv as [Hfd Hh]. unfold INVALID_FD in Hfd.
  apply orb_false_iff in Hfd as [?%bool_decide_eq_false ?%bool_decide_eq_false].
  destruct h as [h|]; [clear Hh|done].
  pose proof (wf_size s Hwf). case_decide as Heq.
  { rewrite decide_False by lia. cbn [mbind res_bind]. rewrite decide_False by auto.
    by rewrite load_out by (done || lia). }
  destruct (decide (fd_ > fd_size s)) as [Hgt|Hgt].
  - rewrite (unregistered_out s fd_ Hwf) by lia. rewrite decide_False by auto.
    rewrite bool_decide_true by lia. rewrite decide_True by lia. destruct ok; cbn [andb negb].
    + destruct (ensure_grow garbage fd_ s Hwf) as (s1 & -> & Hwf1 & Hs1 & Hg1 & He1 & Hl1 & _); [lia|].
      cbn [mbind res_bind]. rewrite decide_False by auto.
      destruct (register_room s1 fd_ h i d Hwf1) as (s' & -> & Hwf' & He' & Hl' & Hg').
      { lia. } { by rewrite He1, unregistered_out by (done || lia). }
      exists s'. split_and!; [done..| | |].
      * intros k. rewrite He'. by rewrite He1.
      * by rewrite Hl', Hl1.
      * congruence.
    + destruct (wf_fds s Hwf) as (a & Ha & Hl & _). unfold ensure_capacity.
      rewrite !decide_False by lia. rewrite Ha.
      destruct (next_capacity_spec fd_) as (c & -> & Hc); [lia|]. cbn [mbind res_bind].
      unfold ITEMS_MAX_SIZE in *.
      by rewrite decide_False by (unfold SIZE_MAX; change ((2 ^ 64 - 1) `div` 32) with 576460752303423487; lia).
  - cbn [mbind res_bind].
    rewrite (decide_False (P := SELECTOR_SUCCESS <> SELECTOR_SUCCESS)) by auto.
    rewrite bool_decide_false by lia. cbn [andb].
    rewrite (decide_False (P := fd_size s < fd_)) by lia.
    case_decide as He.
    + destruct (entry s fd_) as [it|] eqn:Eit; [|done].
      destruct (entry_used s fd_ it Hwf Eit) as (-> & Hu & _). cbn. by rewrite Hu.
    + apply register_room; [done|lia|]. exact He.
Qed.

(** Changing the interest of a registered descriptor. *)
Lemma set_interest_spec s fd_ i : wf s -> fd_ < s.(fd_size) ->
  match entry s fd_ with
  | Some it => if INVALID_FD fd_ then selector_set_interest s fd_ i = Ok (SELECTOR_IARGS, s)
    else exists s', selector_set_interest s fd_ i = Ok (SELECTOR_SUCCESS, s') /\ wf s' /\
    (forall k, entry s' k = if decide (k = fd_) then Some (it <| interest := i |>) else entry s k) /\
    s'.(epoll_log) = EpollMod fd_ (interest_to_epoll i) :: s.(epoll_log) /\ s'.(gen) = s.(gen)
  | None => selector_set_interest s fd_ i = Ok (SELECTOR_IARGS, s)
  end.
Proof.
  intros Hwf Hlt. unfold selector_set_interest.
  destruct (INVALID_FD fd_) eqn:Hinv; [by destruct (entry s fd_)|].
  unfold INVALID_FD in Hinv.
  apply orb_false_iff in Hinv as [?%bool_decide_eq_false ?%bool_decide_eq_false].
  destruct (entry s fd_) as [it|] eqn:Eit.
  - destruct (entry_used s fd_ it Hwf Eit) as (-> & Hu & Hfd & Hh & Hb). cbn [mbind res_bind].
    rewrite Hu. cbn [negb].
    destruct (store_spec s fd_ (it <| interest := i |>) Hwf Hb) as (s' & -> & Hwf' & He' & Hl & Hg & _); [done|].
    cbn [mbind res_bind]. eexists. split; [done|]. split_and!.
    + by apply (wf_fds_eq s').
    + intros k. rewrite (entry_fds s') by done. rewrite He'. case_decide; [|done].
      unfold ITEM_USED in *. cbn. by rewrite Hu.
    + cbn. by rewrite Hl.
    + done.
  - destruct (entry_none s fd_ Hwf) as (it & -> & Hu); [lia|done|]. cbn. by rewrite Hu.
Qed.

(** * The kernel's interest list

    What the [epoll_ctl] calls amount to: adding a present descriptor and
    modifying or deleting an absent one fail and change nothing. *)
Fixpoint kernel (log : list epoll_call) (k : Z) : option Z :=
  match log with
  | [] => None
  | EpollAdd f e :: log =>
    if decide (f = k) then Some (default e (kernel log k)) else kernel log k
  | EpollMod f e :: log =>
    if decide (f = k) then (fun _ => e) <$> kernel log k else kernel log k
  | EpollDel f :: log => if decide (f = k) then None else kernel log k
  end.

(** The interest list agrees with the table, but for the descriptors [C] whose
    close callback is running: those are already out of it. *)
Record inv (C : gset Z) s : Prop := {
  inv_wf : wf s;
  inv_open : forall k, k <> s.(event_fd) -> k ∉ C ->
    kernel s.(epoll_log) k = (fun it => interest_to_epoll it.(interest)) <$> entry s k;
  inv_closing : forall k, k <> s.(event_fd) -> k ∈ C ->
    kernel s.(epoll_log) k = None /\ entry s k <> None;
}.

Lemma inv_same C s s' : s'.(fds) = s.(fds) -> s'.(fd_size) = s.(fd_size) ->
  s'.(event_fd) = s.(event_fd) -> s'.(epoll_log) = s.(epoll_log) -> inv C s -> inv C s'.
Proof.
  intros E1 E2 E3 E4 [H1 H2 H3]. split.
  - by apply (wf_fds_eq s).
  - intros k. rewrite E3, E4, (entry_fds s) by done. apply H2.
  - intros k. rewrite E3, E4, (entry_fds s) by done. apply H3.
Qed.

Lemma INVALID_FD_false k : INVALID_FD k = false -> 0 <= k < ITEMS_MAX_SIZE.
Proof.
  unfold INVALID_FD. intros [?%bool_decide_eq_false ?%bool_decide_eq_false]%orb_false_iff. lia.
Qed.

Lemma event_fd_ensure ok g n s r s' :
  ensure_capacity ok g n s = Ok (r, s') -> s'.(event_fd) = s.(event_fd).
Proof.
  unfold ensure_capacity. case_decide; [by intros [= <- <-]|]. case_decide; [by intros [= <- <-]|].
  destruct (fds s); intros (c & _ & Hb)%bind_ok.
  - case_decide; [by injection Hb as <- <-|]. destruct ok; [|by injection Hb as <- <-].
    apply bind_ok in Hb as (? & _ & Hb). by injection Hb as <- <-.
  - destruct ok; [|by injection Hb as <- <-].
    apply bind_ok in Hb as (? & _ & Hb). by injection Hb as <- <-.
Qed.

Lemma event_fd_store p it s s' : store p it s = Ok s' -> s'.(event_fd) = s.(event_fd).
Proof. unfold store. intros (? & _ & H1)%bind_ok. by injection H1 as <-. Qed.

Lemma event_fd_register ok g s fd_ (h : option H) i d r s' :
  selector_register ok g s fd_ h i d = Ok (r, s') -> s'.(event_fd) = s.(event_fd).
Proof.
  unfold selector_register. destruct (_ || _); [by intros [= _ <-]|]. intros H1.
  apply bind_ok in H1 as ([r1 s1] & H1 & H2).
  assert (E : s1.(event_fd) = s.(event_fd)).
  { destruct (decide (fd_ > fd_size s)); [by eapply event_fd_ensure|by injection H1 as <- <-]. }
  destruct (decide (r1 <> SELECTOR_SUCCESS)); [by injection H2 as <- <-|].
  apply bind_ok in H2 as (it & _ & H2).
  destruct (ITEM_USED it); [by injection H2 as <- <-|].
  apply bind_ok in H2 as (s2 & H2 & H3). injection H3 as <- <-. cbn.
  by rewrite (event_fd_store _ _ _ _ H2).
Qed.

Lemma register_inv C ok g s fd_ (h : option H) i d r s' :
  inv C s -> selector_register ok g s fd_ h i d = Ok (r, s') -> inv C s'.
Proof.
  intros Hi E. pose proof (event_fd_register _ _ _ _ _ _ _ _ _ E) as Hev.
  pose proof (register_result ok g s fd_ h i d (inv_wf _ _ Hi)) as Hr. cbn zeta in Hr.
  rewrite E in Hr. destruct Hi as [Hwf Ho Hc].
  destruct (INVALID_FD fd_ || _); [by injection Hr as _ ->|].
  case_decide; [done|]. case_decide as He; [by injection Hr as _ ->|].
  destruct (_ && _); [by injection Hr as _ ->|].
  destruct Hr as (s1 & E1 & Hwf1 & He1 & Hl1 & _). injection E1 as _ ->.
  split; [done| |]; intros k; rewrite Hev, Hl1, He1; intros Hk HC; cbn [kernel].
  - destruct (decide (fd_ = k)) as [->|Hne].
    + rewrite (decide_True (P := k = k)) by done. rewrite Ho by done. by rewrite He.
    + rewrite (decide_False (P := k = fd_)) by congruence. by apply Ho.
  - destruct (Hc k Hk HC) as [Hn Hs]. destruct (decide (fd_ = k)) as [->|Hne]; [congruence|].
    by rewrite (decide_False (P := k = fd_)) by congruence.
Qed.

Lemma set_interest_inv C s fd_ i r s' :
  inv C s -> selector_set_interest s fd_ i = Ok (r, s') -> inv C s'.
Proof.
  intros Hi E. destruct (decide (fd_ < s.(fd_size))) as [Hlt|Hge].
  2:{ unfold selector_set_interest in E. destruct (INVALID_FD fd_); [by injection E as _ <-|].
      rewrite load_out in E by (apply Hi || lia). done. }
  pose proof (set_interest_spec s fd_ i (inv_wf _ _ Hi) Hlt) as Hr. rewrite E in Hr.
  assert (Hev : s'.(event_fd) = s.(event_fd)).
  { clear Hr. unfold selector_set_interest in E. destruct (INVALID_FD fd_); [by injection E as _ <-|].
    apply bind_ok in E as (it & _ & E). destruct (ITEM_USED it); [|by injection E as _ <-].
    cbn [negb] in E. apply bind_ok in E as (s1 & E & E1). injection E1 as _ <-.
    exact (event_fd_store _ _ _ _ E). }
  destruct Hi as [Hwf Ho Hc].
  destruct (entry s fd_) as [it|] eqn:Eit; [|by injection Hr as _ ->].
  destruct (INVALID_FD fd_); [by injection Hr as _ ->|].
  destruct Hr as (s1 & E1 & Hwf1 & He1 & Hl1 & _). injection E1 as _ ->.
  split; [done| |]; intros k; rewrite Hev, Hl1, He1; intros Hk HC; cbn [kernel].
  - destruct (decide (fd_ = k)) as [->|Hne].
    + rewrite (decide_True (P := k = k)) by done. rewrite Ho by done. by rewrite Eit.
    + rewrite (decide_False (P := k = fd_)) by congruence. by apply Ho.
  - destruct (Hc k Hk HC) as [Hn Hs]. rewrite Hn. split; [by case_decide|].
    by case_decide.
Qed.

Lemma notify_inv C ok s fd_ r s' :
  inv C s -> selector_notify_block ok s fd_ = Ok (r, s') -> inv C s'.
Proof.
  intros Hi. unfold selector_notify_block, lock. destruct ok; [|by intros [= _ <-]].
  destruct (resolution_mutex s); cbn; [done|]. intros [= _ <-]. by apply (inv_same C s).
Qed.

(** ** Callbacks that keep the agreement *)

Variable impl : H -> @fd_handler H D W.

Definition keeps (f : @callback H D W) : Prop :=
  forall C key st st', inv C st.(sel) -> f key st = Ok st' ->
    inv C st'.(sel) /\ st'.(sel).(event_fd) = st.(sel).(event_fd).

(** Every callback of every handler, whichever descriptors are being closed.
    One built from the operations satisfies it as long as it does not close a
    descriptor that is being closed. *)
Hypothesis impl_keeps : forall h f,
  (impl h).(handle_read) = Some f \/ (impl h).(handle_write) = Some f \/
  (impl h).(handle_block) = Some f \/ (impl h).(handle_close) = Some f -> keeps f.

Lemma unregister_inv C fd_ st r st' :
  fd_ ∉ C -> inv C st.(sel) -> selector_unregister_fd impl fd_ st = Ok (r, st') ->
  inv C st'.(sel) /\ st'.(sel).(event_fd) = st.(sel).(event_fd).
Proof.
  intros HC Hi E. unfold selector_unregister_fd in E.
  destruct (INVALID_FD fd_) eqn:Hinv; [by injection E as _ <-|]. set (p := item_at _ _) in E.
  apply bind_ok in E as (it & Hld & E).
  destruct (ITEM_USED it) eqn:Hu; [|by injection E as _ <-]. cbn [negb] in E.
  assert (He : entry st.(sel) fd_ = Some it) by (unfold entry; fold p; by rewrite Hld, Hu).
  destruct (entry_used _ _ _ (inv_wf _ _ Hi) He) as (_ & _ & Hfd & Hh & Hb).
  set (s1 := epoll_ctl (EpollDel fd_) st.(sel)) in E.
  assert (Hwf1 : wf s1) by (apply (wf_fds_eq st.(sel)); [done..|apply Hi]).
  destruct (store_spec s1 fd_ (it <| interest := OP_NOOP |>) Hwf1 Hb)
    as (s2 & Es2 & Hwf2 & He2 & Hl2 & Hg2 & Hz2 & Hev2); [done|].
  change (item_at s1 fd_) with p in Es2. rewrite Es2 in E. cbn [mbind res_bind] in E.
  apply bind_ok in E as (h & _ & E). apply bind_ok in E as (st3 & Ecb & E).
  apply bind_ok in E as (s4 & Es4 & E). injection E as _ <-. cbn.
  assert (Hi2 : inv (C ∪ {[fd_]}) s2).
  { destruct Hi as [Hwf Ho Hc]. split; [done| |]; intros k; rewrite Hev2, Hl2, He2; cbn;
      intros Hk HkC.
    - apply not_elem_of_union in HkC as [HkC Hne]. rewrite elem_of_singleton in Hne.
      rewrite !decide_False by congruence. rewrite (entry_fds st.(sel)) by done. by apply Ho.
    - rewrite (entry_fds st.(sel)) by done. apply elem_of_union in HkC as [HkC|HkC].
      + rewrite !decide_False by set_solver. by apply Hc.
      + apply elem_of_singleton in HkC as ->. rewrite !decide_True by done. split; [done|].
        unfold ITEM_USED in *. cbn. by rewrite Hu. }
  assert (Hi3 : inv (C ∪ {[fd_]}) st3.(sel) /\ st3.(sel).(event_fd) = s2.(event_fd)).
  { destruct (handle_close (impl h)) as [f|] eqn:Ef; [|by injection Ecb as <-].
    exact (impl_keeps h f ltac:(auto) _ _ (st <| sel := s2 |>) _ Hi2 Ecb). }
  destruct Hi3 as [Hi3 Hev3].
  pose proof Es4 as Es4'. unfold store in Es4'. apply bind_ok in Es4' as (it3 & Hl3 & _).
  apply load_ok in Hl3 as (Hg3 & Hb3 & a3 & Ha3 & Hlk3). cbn in Hg3, Hb3, Hlk3.
  destruct (wf_fds _ (inv_wf _ _ Hi3)) as (a3' & Ha3' & Hlen3 & _).
  replace a3' with a3 in * by congruence. apply lookup_lt_Some in Hlk3.
  destruct (store_spec st3.(sel) fd_ (item_init zero_item) (inv_wf _ _ Hi3))
    as (s5 & Es5 & Hwf5 & He5 & Hl5 & _ & _ & Hev5); [lia|done|].
  replace (item_at (sel st3) fd_) with p in Es5 by (subst p; unfold item_at; congruence).
  rewrite Es5 in Es4. injection Es4 as <-.
  destruct Hi3 as [Hwf3 Ho3 Hc3]. split; [|by rewrite Hev5, Hev3, Hev2].
  split; [done| |]; intros k; rewrite Hev5, Hl5, He5; intros Hk HkC.
  - destruct (decide (k = fd_)) as [->|Hne].
    + rewrite item_init_unused. apply Hc3; [congruence|set_solver].
    + apply Ho3; [congruence|set_solver].
  - rewrite decide_False by congruence. apply Hc3; [congruence|set_solver].
Qed.

Definition same_loop st st' : Prop := st'.(sel).(event_fd) = st.(sel).(event_fd).

Lemma dispatch_inv C get op p key st st' :
  (forall h f, get (impl h) = Some f -> keeps f) ->
  inv C st.(sel) -> dispatch impl get op p key st = Ok st' ->
  inv C st'.(sel) /\ same_loop st st'.
Proof.
  intros Hget Hi. unfold dispatch. intros (it & _ & E)%bind_ok.
  destruct (has op (interest it)); [|by injection E as <-].
  apply bind_ok in E as (h & _ & E). destruct (get (impl h)) as [f|] eqn:Ef; [|done].
  exact (Hget h f Ef C key st st' Hi E).
Qed.

Lemma handle_event_inv C ev fd_ st st' :
  inv C st.(sel) -> handle_event impl ev fd_ st = Ok st' ->
  inv C st'.(sel) /\ same_loop st st'.
Proof.
  intros Hi. unfold handle_event. case_decide as He.
  { intros [= <-]. split; [|done]. by apply (inv_same C st.(sel)). }
  intros (it & _ & E)%bind_ok. destruct (ITEM_USED it); [|by injection E as <-].
  cbn [negb] in E. apply bind_ok in E as (st1 & E1 & E2).
  assert (H1 : inv C st1.(sel) /\ same_loop st st1).
  { destruct (has ev READ_EVENTS); [|by injection E1 as <-].
    eapply dispatch_inv; [|exact Hi|exact E1]. intros h f Hf. eapply impl_keeps; eauto. }
  destruct H1 as [Hi1 Hs1]. destruct (has ev WRITE_EVENTS); [|by injection E2 as <-].
  eapply dispatch_inv in E2 as [Hi2 Hs2]; [|intros h f Hf; eapply impl_keeps; eauto|exact Hi1].
  split; [done|]. unfold same_loop in *. congruence.
Qed.

Lemma handle_iteration_inv C evs : forall st st',
  inv C st.(sel) -> handle_iteration impl evs st = Ok st' -> inv C st'.(sel) /\ same_loop st st'.
Proof.
  induction evs as [|[ev fd_] evs IH]; intros st st' Hi; cbn [handle_iteration].
  { by intros [= <-]. }
  intros (st1 & E1 & E2)%bind_ok. destruct (handle_event_inv _ _ _ _ _ Hi E1) as [Hi1 Hs1].
  destruct (IH _ _ Hi1 E2) as [Hi2 Hs2]. split; [done|]. unfold same_loop in *. congruence.
Qed.

Lemma run_jobs_inv C js : forall st st',
  inv C st.(sel) -> run_jobs impl js st = Ok st' -> inv C st'.(sel) /\ same_loop st st'.
Proof.
  induction js as [|j js IH]; intros st st' Hi; cbn [run_jobs].
  { by intros [= <-]. }
  intros (it & _ & E)%bind_ok. apply bind_ok in E as (st1 & E1 & E2).
  assert (H1 : inv C st1.(sel) /\ same_loop st st1).
  { destruct (ITEM_USED it); [|by injection E1 as <-].
    apply bind_ok in E1 as (h & _ & E1). apply bind_ok in E1 as (f & Hf%or_fault_ok & E1).
    exact (impl_keeps h f ltac:(auto) C _ st st1 Hi E1). }
  destruct H1 as [Hi1 Hs1]. destruct (IH _ _ Hi1 E2) as [Hi2 Hs2].
  split; [done|]. unfold same_loop in *. congruence.
Qed.

Lemma notifications_inv C st st' :
  inv C st.(sel) -> handle_block_notifications impl st = Ok st' ->
  inv C st'.(sel) /\ same_loop st st'.
Proof.
  intros Hi. unfold handle_block_notifications, lock.
  destruct (resolution_mutex (sel st)); [done|]. cbn [mbind res_bind].
  intros (st1 & E1 & [= <-])%bind_ok.
  apply (run_jobs_inv C) in E1 as [Hi1 Hs1]; [|by apply (inv_same C st.(sel))].
  split; [by apply (inv_same C st1.(sel))|exact Hs1].
Qed.

Lemma select_inv C r st ret st' :
  inv C st.(sel) -> selector_select impl r st = Ok (ret, st') ->
  inv C st'.(sel) /\ same_loop st st'.
Proof.
  intros Hi. unfold selector_select. destruct r as [evs| | |]; [| |by intros [= _ <-]..].
  - intros (st1 & E1 & E)%bind_ok. apply bind_ok in E as (st2 & E2 & E). injection E as _ <-.
    destruct (handle_iteration_inv _ _ _ _ Hi E1) as [Hi1 Hs1].
    destruct (notifications_inv _ _ _ Hi1 E2) as [Hi2 Hs2].
    split; [done|]. unfold same_loop in *. congruence.
  - intros (st1 & E1 & E)%bind_ok. injection E as _ <-. by apply notifications_inv.
Qed.

(** The public operations, and whatever the rest of the program does to its own
    state. *)
Inductive step : @state H D W -> @state H D W -> Prop :=
| step_register ok g st fd_ h i d r s' :
    selector_register ok g st.(sel) fd_ h i d = Ok (r, s') -> step st (st <| sel := s' |>)
| step_unregister st fd_ r st' :
    selector_unregister_fd impl fd_ st = Ok (r, st') -> step st st'
| step_set_interest st fd_ i r s' :
    selector_set_interest st.(sel) fd_ i = Ok (r, s') -> step st (st <| sel := s' |>)
| step_notify ok st fd_ r s' :
    selector_notify_block ok st.(sel) fd_ = Ok (r, s') -> step st (st <| sel := s' |>)
| step_select st ready r st' :
    selector_select impl ready st = Ok (r, st') -> step st st'
| step_user st w : step st (st <| user := w |>).

Lemma event_fd_set_interest s fd_ i r s' :
  selector_set_interest s fd_ i = Ok (r, s') -> s'.(event_fd) = s.(event_fd).
Proof.
  unfold selector_set_interest. destruct (INVALID_FD fd_); [by intros [= _ <-]|].
  intros (it & _ & E)%bind_ok. destruct (ITEM_USED it); [|by injection E as _ <-].
  cbn [negb] in E. apply bind_ok in E as (s1 & E & E1). injection E1 as _ <-.
  exact (event_fd_store _ _ _ _ E).
Qed.

Lemma step_inv st st' : inv ∅ st.(sel) -> step st st' -> inv ∅ st'.(sel) /\ same_loop st st'.
Proof.
  intros Hi Hst. destruct Hst as [ok g st fd_ h i d r s' E|st fd_ r st' E|st fd_ i r s' E|
    ok st fd_ r s' E|st ready r st' E|st w].
  - split; [by eapply register_inv|]. by eapply event_fd_register.
  - eapply unregister_inv; [|done|exact E]. set_solver.
  - split; [by eapply set_interest_inv|]. by eapply event_fd_set_interest.
  - split; [by eapply notify_inv|]. unfold selector_notify_block, lock in E.
    destruct ok; [|by injection E as _ <-].
    destruct (resolution_mutex (sel st)); [done|]. cbn in E. by injection E as _ <-.
  - by eapply select_inv.
  - by split.
Qed.

Lemma new_inv ep ev e_ok c_ok a_ok g n s :
  0 <= n -> selector_new ep ev e_ok c_ok a_ok g n = Ok (Some s) ->
  inv ∅ s /\ s.(event_fd) = ev /\ forall k, entry s k = None.
Proof.
  intros Hn0. unfold selector_new. case_decide; [done|]. case_decide; [done|]. destruct e_ok, c_ok; try done.
  cbn [negb]. unfold ensure_capacity. cbn [fd_size].
  destruct (decide (n < 0)) as [Hn|Hn]; [lia|].
  destruct (decide (n > ITEMS_MAX_SIZE)) as [Hm|Hm]; cbn [mbind res_bind]; [by rewrite decide_True by done|].
  cbn [fds]. destruct (next_capacity_spec n) as (c & -> & Hc); [lia|]. cbn [mbind res_bind].
  destruct a_ok; cbn [mbind res_bind]; [|by rewrite decide_True by done].
  unfold items_init. rewrite bool_decide_true by lia. cbn [c_assert mbind res_bind].
  rewrite decide_False by auto. change (Z.to_nat 0) with 0%nat. rewrite take_0, drop_0.
  intros [= <-]. cbn.
  match goal with |- inv _ ?s0 /\ _ => set (s := s0) end.
  assert (Hnone : forall k, entry s k = None).
  { intros k. unfold entry. rewrite load_at. case_decide; [done|]. cbn.
    destruct (map item_init _ !! _) as [it|] eqn:E; [|done]. cbn.
    by rewrite (map_item_init_unused _ _ _ E). }
  split; [|done]. split.
  - split; [cbn; lia|]. eexists. split; [done|]. cbn. rewrite length_map, length_replicate.
    split; [lia|]. intros i it Hi Hu. by rewrite (map_item_init_unused _ _ _ Hi) in Hu.
  - intros k Hk _. rewrite Hnone. cbn. by rewrite decide_False by (cbn in Hk; congruence).
  - intros k _ HC. set_solver.
Qed.


End Facts.

(** * What one round dispatches

    With callbacks that work on the user's state only, [selector_select] is a
    fold over a list of calls computed from the events and the table. *)
Inductive kind := KRead | KWrite | KBlock.

Section Dispatch.
Context {H D W : Type}.
Implicit Types (s : @selector H D) (it : @item H D).
Variable act : kind -> H -> @selector_key D -> W -> W.

Definition on_user (k : kind) (h : H) : option (@callback H D W) :=
  Some (fun key st => Ok (mk_state st.(sel) (act k h key st.(user)))).

Definition user_handler (h : H) : @fd_handler H D W :=
  mk_handler (on_user KRead h) (on_user KWrite h) (on_user KBlock h) None.

(** The calls one descriptor's events lead to: readiness, error and hang-up wake
    both directions, a direction without interest is not called. *)
Definition event_calls s (e : Z * Z) : list (kind * H * @selector_key D) :=
  if decide (e.2 = s.(event_fd)) then [] else
  match entry s e.2 with
  | Some (mk_item fd i (Some h) d) =>
    (if has e.1 READ_EVENTS && has OP_READ i then [(KRead, h, mk_key fd d)] else []) ++
    (if has e.1 WRITE_EVENTS && has OP_WRITE i then [(KWrite, h, mk_key fd d)] else [])
  | _ => []
  end.

(** Finished jobs, newest first; a job whose descriptor was closed is dropped. *)
Definition job_calls s (j : Z) : list (kind * H * @selector_key D) :=
  match entry s j with
  | Some (mk_item fd _ (Some h) d) => [(KBlock, h, mk_key fd d)]
  | _ => []
  end.

Definition perform (w : W) (c : kind * H * @selector_key D) : W :=
  let '(k, h, key) := c in act k h key w.

Definition in_table s (k : Z) : Prop := 0 <= k < s.(fd_size).

Lemma handle_event_calls s w e : wf s -> e.2 = s.(event_fd) \/ in_table s e.2 ->
  exists s', handle_event user_handler e.1 e.2 (mk_state s w) =
      Ok (mk_state s' (foldl perform w (event_calls s e))) /\
    (s' = s \/ s' = s <| event_count := 0 |>).
Proof.
  destruct e as [ev k]. cbn [fst snd]. intros Hwf Hk. unfold handle_event, event_calls. cbn [fst snd sel].
  destruct (decide (k = event_fd s)) as [->|Hne]; [by eauto|]. destruct Hk as [?|Hk]; [done|].
  destruct (entry s k) as [it|] eqn:He.
  2:{ destruct (entry_none s k Hwf Hk He) as (it & -> & Hu). cbn. rewrite Hu. by eauto. }
  destruct (entry_used s k it Hwf He) as (Hl & Hu & Hfd & Hh & _).
  rewrite Hl. cbn [mbind res_bind]. rewrite Hu. cbn [negb]. destruct it as [f i [h|] d]; [|done].
  cbn in Hfd. subst f. cbn [data]. exists s. split; [|by left].
  destruct (has ev READ_EVENTS); unfold dispatch; cbn [mbind res_bind sel]; rewrite ?Hl;
    cbn [mbind res_bind interest].
  - destruct (has OP_READ i); cbn; destruct (has ev WRITE_EVENTS); cbn; rewrite ?Hl; cbn;
      by destruct (has OP_WRITE i).
  - destruct (has ev WRITE_EVENTS); cbn; rewrite ?Hl; cbn; by destruct (has OP_WRITE i).
Qed.

Lemma event_calls_count s n e : event_calls (s <| event_count := n |>) e = event_calls s e.
Proof. unfold event_calls. cbn [event_fd]. by rewrite (entry_fds s). Qed.

Lemma handle_iteration_calls evs : forall s w, wf s ->
  Forall (fun e => e.2 = s.(event_fd) \/ in_table s e.2) evs ->
  exists s', handle_iteration user_handler evs (mk_state s w) =
      Ok (mk_state s' (foldl perform w (evs ≫= event_calls s))) /\
    (s' = s \/ s' = s <| event_count := 0 |>).
Proof.
  induction evs as [|e evs IH]; intros s w Hwf Hall; [by eauto|].
  apply Forall_cons in Hall as [He Hall]. destruct e as [ev k]. cbn [handle_iteration].
  destruct (handle_event_calls s w (ev, k) Hwf He) as (s1 & E1 & Hs1). cbn [fst snd] in E1.
  rewrite E1. cbn [mbind res_bind].
  assert (Hwf1 : wf s1) by (destruct Hs1 as [->| ->]; [done|by apply (wf_fds_eq s)]).
  destruct (IH s1 (foldl perform w (event_calls s (ev, k))) Hwf1) as (s2 & -> & Hs2).
  { destruct Hs1 as [->| ->]; [done|]. eapply Forall_impl; [exact Hall|]. by intros. }
  exists s2. cbn [mbind list_bind]. rewrite foldl_app.
  assert (Hb : evs ≫= event_calls s1 = evs ≫= event_calls s).
  { destruct Hs1 as [->| ->]; [done|]. clear. induction evs as [|e evs IH]; [done|].
    cbn. by rewrite IH, event_calls_count. }
  rewrite Hb. split; [done|]. destruct Hs1 as [->| ->], Hs2 as [->| ->]; auto.
Qed.

Lemma run_jobs_calls js : forall s w, wf s -> Forall (in_table s) js ->
  run_jobs user_handler js (mk_state s w) =
  Ok (mk_state s (foldl perform w (js ≫= job_calls s))).
Proof.
  induction js as [|j js IH]; intros s w Hwf Hall; [done|].
  apply Forall_cons in Hall as [Hj Hall]. cbn [run_jobs mbind list_bind sel]. rewrite foldl_app.
  destruct (entry s j) as [it|] eqn:He.
  - destruct (entry_used s j it Hwf He) as (-> & Hu & Hfd & Hh & _).
    cbn [mbind res_bind]. rewrite Hu. destruct it as [f i [h|] d]; [|done].
    assert (Hj1 : job_calls s j = [(KBlock, h, mk_key f d)]) by (unfold job_calls; by rewrite He).
    rewrite Hj1. cbn [or_fault mbind res_bind user_handler handle_block on_user sel user handler fd data].
    by rewrite IH.
  - destruct (entry_none s j Hwf Hj He) as (it & -> & Hu). cbn [mbind res_bind]. rewrite Hu.
    assert (Hj1 : job_calls s j = []) by (unfold job_calls; by rewrite He).
    rewrite Hj1. cbn [mbind res_bind]. by rewrite IH.
Qed.

Lemma job_calls_ext s s' js : s'.(fds) = s.(fds) -> js ≫= job_calls s' = js ≫= job_calls s.
Proof.
  intros Hf. apply list_bind_ext; [|done]. intros j. unfold job_calls. by rewrite (entry_fds s).
Qed.


End Dispatch.

(** * Concrete selectors *)

Definition sample : @selector bool nat :=
  match selector_new 3 4 true true true zero_item 8 with Ok (Some s) => s | _ => mk_selector None 0 0 false [] 0 0 0 0 [] end.

Lemma sample_wf : wf sample.
Proof.
  destruct (new_inv 3 4 true true true zero_item 8 sample) as [[Hwf _ _] _]; [done| |exact Hwf].
  vm_compute. reflexivity.
Qed.

(** C33. The outcome of a registration, branch by branch: the
    arguments are refused, the descriptor is in use, memory is short, or exactly
    one entry is added to the table and one [EPOLL_CTL_ADD] issued, the table
    being reallocated if the descriptor lies beyond its end.  The branch that
    has no defined result is the descriptor that equals the size of the table:
    the guard lets it through without growing. *)
Theorem register_spec {H D : Type} ok garbage (s : @selector H D) fd_ (h : option H) i (d : option D) :
  wf s ->
  let r := selector_register ok garbage s fd_ h i d in
  if INVALID_FD fd_ || bool_decide (h = None) then r = Ok (SELECTOR_IARGS, s)
  else if decide (fd_ = s.(fd_size)) then r = Fault OutOfBounds
  else if decide (entry s fd_ <> None) then r = Ok (SELECTOR_FDINUSE, s)
  else if bool_decide (s.(fd_size) < fd_) && negb ok then r = Ok (SELECTOR_ENOMEM, s)
  else exists s', r = Ok (SELECTOR_SUCCESS, s') /\ wf s' /\
    (forall k, entry s' k = if decide (k = fd_) then Some (mk_item fd_ i h d) else entry s k) /\
    s'.(epoll_log) = EpollAdd fd_ (interest_to_epoll i) :: s.(epoll_log) /\
    s'.(gen) = if decide (s.(fd_size) < fd_) then S s.(gen) else s.(gen).
Proof. apply register_result. Qed.

Lemma register_spec_witness :
  wf sample /\ exists s', selector_register true zero_item sample 5 (Some true) OP_READ (Some 7%nat)
    = Ok (SELECTOR_SUCCESS, s') /\ wf s'.
Proof.
  split; [exact sample_wf|].
  destruct (register_spec true zero_item sample 5 (Some true) OP_READ (Some 7%nat) sample_wf)
    as (s' & E & H & _).
  exists s'. by split.
Defined.

(** Reads log the descriptor, a block callback changes the interest. *)
Definition sample_impl (b : bool) : @fd_handler bool nat (list Z) :=
  mk_handler (Some (fun key st => Ok (st <| user ::= cons key.(key_fd) |>)))
    (Some (fun key st => '(_, s) ← selector_set_interest st.(sel) key.(key_fd) OP_READ;
                         Ok (st <| sel := s |>)))
    None None.

Lemma sample_keeps h f :
  (sample_impl h).(handle_read) = Some f \/ (sample_impl h).(handle_write) = Some f \/
  (sample_impl h).(handle_block) = Some f \/ (sample_impl h).(handle_close) = Some f -> keeps f.
Proof.
  cbn. intros [[= <-]|[[= <-]|[?|?]]]; [| |done..]; intros C key st st' Hi E.
  - by injection E as <-.
  - apply bind_ok in E as ([r s] & E & [= <-]). cbn.
    split; [by eapply set_interest_inv|by eapply event_fd_set_interest].
Qed.



(** A handler whose read callback registers descriptor 40. *)
Definition accepting (b : bool) : @fd_handler bool nat unit :=
  mk_handler (Some (fun key st =>
      '(_, s) ← selector_register true zero_item st.(sel) 40 (Some true) OP_READ None;
      Ok (st <| sel := s |>)))
    (Some (fun _ st => Ok st)) None None.

(** A read callback that accepts a connection whose descriptor lies beyond the
    table has the table reallocated; when the same event also says "writable",
    [handle_iteration] then reads its item through the old pointer. *)
Theorem read_callback_dangles : exists s,
  selector_register true zero_item sample 5 (Some true) OP_READ None = Ok (SELECTOR_SUCCESS, s) /\
  handle_iteration accepting [(Z.lor EPOLLIN EPOLLHUP, 5)] (mk_state s tt) = Fault UseAfterFree.
Proof. eexists. split; vm_compute; reflexivity. Qed.

End Selector.
