(* ===== verification/Os.v ===== *)
(** The operating system under the servers: the calls they make as an
    interface whose answers come from an environment, and the state-and-fault
    monad of the callbacks, over the selector, the program's own data, the
    environment and a trace of the input and output done. *)
From S2P Require Import Prelude CBuffer Request Selector.
Local Open Scope Z_scope.

Module Os.

(** Linux values. *)
Definition EAGAIN : Z := 11.
Definition EWOULDBLOCK : Z := 11.
Definition EINPROGRESS : Z := 115.
Definition ENETUNREACH : Z := 101.
Definition EHOSTUNREACH : Z := 113.
Definition EHOSTDOWN : Z := 112.
Definition ECONNREFUSED : Z := 111.
Definition EAFNOSUPPORT : Z := 97.
Definition EPIPE : Z := 32.
Definition EAI_NONAME : Z := -2.
Definition EAI_NODATA : Z := -5.
Definition EAI_FAMILY : Z := -6.
Definition EAI_ADDRFAMILY : Z := -9.

(** [errno == EAGAIN || errno == EWOULDBLOCK]. *)
Definition would_block (errno : Z) : bool :=
  bool_decide (errno = EAGAIN) || bool_decide (errno = EWOULDBLOCK).

(** [read]: [RData []] is the return value 0. *)
Inductive read_result := RData (bs : list byte) | RError (errno : Z).
(** [write]: how many bytes were taken. *)
Inductive write_result := WDone (n : nat) | WError (errno : Z).

(** An entry of [getaddrinfo]'s list; [ai_next] is the rest of the list. *)
Record addrinfo := mk_addrinfo {
  ai_addr : option Request.sockaddr_storage;
  ai_addrlen : Z;
}.

(** The set-up calls on a listening socket. *)
Inductive setup := ReuseAddr | DualStack | Bind (port : Z) | Listen.

Class Os (E : Type) := {
  os_read : Z -> nat -> E -> read_result * E;
  os_write : Z -> list byte -> E -> write_result * E;
  os_accept : Z -> E -> Z * E;
  os_socket : Z -> E -> Z * E;
  os_fcntl : Z -> E -> (Z * (Z -> Z)) * E;           (* F_GETFL, F_SETFL *)
  os_connect : Z -> Request.sockaddr_storage -> Z -> E -> option Z * E;   (* errno *)
  os_so_error : Z -> E -> (Z + Z) * E;               (* errno of getsockopt, or SO_ERROR *)
  os_setup : setup -> Z -> E -> Z * E;
  os_sockport : Z -> E -> option Z * E;              (* getsockname *)
  os_time : E -> Z * E;
  os_timestamp : E -> cstring * E;
  os_alloc : E -> bool * E;                          (* calloc, realloc *)
  os_malloc : nat -> E -> option (list byte) * E;
  os_thread : E -> bool * E;                         (* pthread_create *)
  os_getaddrinfo : cstring -> cstring -> E -> (Z * list addrinfo) * E;
  os_backlog : E -> nat;     (* a bound on the connections waiting *)
}.

(** What the manual pages promise. *)
Class OsLaws (E : Type) `{Os E} := {
  read_fits : forall fd n e bs e', os_read fd n e = (RData bs, e') -> (length bs <= n)%nat;
  write_fits : forall fd bs e n e', os_write fd bs e = (WDone n, e') -> (n <= length bs)%nat;
  malloc_length : forall n e d e', os_malloc n e = (Some d, e') -> length d = n;
  accept_backlog : forall l e fd e', os_accept l e = (fd, e') -> 0 <= fd ->
    (os_backlog e' < os_backlog e)%nat;
  fcntl_backlog : forall fd e, (os_backlog (os_fcntl fd e).2 <= os_backlog e)%nat;
  time_backlog : forall e, (os_backlog (os_time e).2 <= os_backlog e)%nat;
  alloc_backlog : forall e, (os_backlog (os_alloc e).2 <= os_backlog e)%nat;
  malloc_backlog : forall n e, (os_backlog (os_malloc n e).2 <= os_backlog e)%nat;
}.

(** What a program did to the outside world. *)
Inductive io :=
| IoRead (fd : Z) (bs : list byte)
| IoWrite (fd : Z) (bs : list byte)     (* the bytes taken *)
| IoOpen (fd : Z)
| IoClose (fd : Z)
| IoConnect (fd : Z) (addr : Request.sockaddr_storage).

#[global] Existing Instance Selector.eta_state.
#[global] Existing Instance Selector.eta_selector.
#[global] Existing Instance Selector.eta_item.
#[global] Existing Instance Selector.status_eq_dec.

Section Monad.
(** [P] is the program's own data. *)
Context {H D P E : Type}.

Record sys := mk_sys {
  prog : P;
  env : E;
  trace : list io;     (* newest first *)
}.
#[global] Instance eta_sys : Eta sys := fun w => mk_sys w.(prog) w.(env) w.(trace).

Definition st : Type := @Selector.state H D sys.
Definition M (A : Type) : Type := st -> res (A * st).

#[global] Instance M_ret : MRet M := fun A a s => Ok (a, s).
#[global] Instance M_bind : MBind M := fun A B f m s =>
  match m s with Ok (a, s') => f a s' | Fault e => Fault e end.

Definition fail {A} (f : fault) : M A := fun _ => Fault f.
Definition lift {A} (r : res A) : M A := fun s => a ← r; Ok (a, s).
Definition gets {A} (f : P -> A) : M A := fun s => Ok (f s.(Selector.user).(prog), s).
Definition on_prog (f : P -> P) (s : st) : st := s <| Selector.user ::= set prog f |>.
Definition on_env (e : E) (s : st) : st := s <| Selector.user ::= set env (fun _ => e) |>.
Definition on_trace (i : io) (s : st) : st := s <| Selector.user ::= set trace (cons i) |>.
Definition on_sel (x : @Selector.selector H D) (s : st) : st := s <| Selector.sel := x |>.

Definition modify (f : P -> P) : M unit := fun s => Ok (tt, on_prog f s).
Definition emit (e : io) : M unit := fun s => Ok (tt, on_trace e s).
Definition os {A} (f : E -> A * E) : M A := fun s =>
  let '(a, e) := f s.(Selector.user).(env) in Ok (a, on_env e s).
Definition on_selector {A} (f : @Selector.selector H D -> res (A * @Selector.selector H D)) : M A :=
  fun s => '(a, s') ← f s.(Selector.sel); Ok (a, on_sel s' s).
Definition unless (b : bool) (m : M unit) : M unit := if b then mret tt else m.

(** * The calls *)
Context `{Os E}.

Definition read (fd : Z) (n : nat) : M read_result :=
  r ← os (os_read fd n);
  match r with RData bs => emit (IoRead fd bs) | RError _ => mret tt end ;;
  mret r.

Definition write (fd : Z) (bs : list byte) : M write_result :=
  r ← os (os_write fd bs);
  match r with WDone n => emit (IoWrite fd (take n bs)) | WError _ => mret tt end ;;
  mret r.

Definition close (fd : Z) : M unit := emit (IoClose fd).

Definition open (call : E -> Z * E) : M Z :=
  fd ← os call;
  (if decide (fd < 0) then mret tt else emit (IoOpen fd)) ;;
  mret fd.

Definition accept (listen_fd : Z) : M Z := open (os_accept listen_fd).
Definition socket (family : Z) : M Z := open (os_socket family).

Definition connect (fd : Z) (addr : Request.sockaddr_storage) (len : Z) : M (option Z) :=
  emit (IoConnect fd addr) ;; os (os_connect fd addr len).

Definition set_nio (fd : Z) : M Z :=
  '(getfl, setfl) ← os (os_fcntl fd); mret (Selector.selector_fd_set_nio getfl setfl).

(** * The selector from inside a callback *)

Definition register (garbage : @Selector.item H D) (fd : Z) (h : H) (interest : Z) (d : D)
  : M Selector.selector_status :=
  ok ← os os_alloc;
  on_selector (fun s => Selector.selector_register ok garbage s fd (Some h) interest (Some d)).

Definition set_interest (fd interest : Z) : M unit :=
  on_selector (fun s => Selector.selector_set_interest s fd interest) ;; mret tt.

Definition set_interest_key (key : @Selector.selector_key D) (interest : Z) : M unit :=
  on_selector (Selector.selector_set_interest_key (Some key) interest) ;; mret tt.

Definition unregister_fd (impl : H -> @Selector.fd_handler H D sys) (fd : Z) : M unit :=
  (Selector.selector_unregister_fd impl fd : M Selector.selector_status) ;; mret tt.

(** A callback. *)
Definition callback (f : @Selector.selector_key D -> M unit) : @Selector.callback H D sys :=
  fun key s => snd <$> f key s.

(** [create_listen_socket], the same text in socks.c, monitor.c and echo.c:
    [Some (fd, port)], or [None] when it returns -1. *)
Definition create_listen_socket (port : Z) : M (option (Z * Z)) :=
  fd ← socket Request.AF_INET6;
  if decide (fd < 0) then mret None else
  rc ← os (os_setup ReuseAddr fd);
  if decide (rc < 0) then close fd ;; mret None else
  rc ← os (os_setup DualStack fd);
  if decide (rc < 0) then close fd ;; mret None else
  rc ← os (os_setup (Bind port) fd);
  if decide (rc < 0) then close fd ;; mret None else
  rc ← os (os_setup Listen fd);
  if decide (rc < 0) then close fd ;; mret None else
  bound ← os (os_sockport fd);
  rc ← set_nio fd;
  if decide (rc < 0) then close fd ;; mret None else
  mret (Some (fd, default port bound)).

(** * Reasoning about actions

    [wp m Q w]: from [w] the action returns, and [Q] holds of what it returns
    and of the state it leaves.  A fault satisfies no [Q]. *)
Definition wp {A} (m : M A) (Q : A -> st -> Prop) (w : st) : Prop :=
  match m w with Ok (a, w') => Q a w' | Fault _ => False end.

Lemma wp_ok {A} (m : M A) Q w : wp m Q w <-> exists a w', m w = Ok (a, w') /\ Q a w'.
Proof.
  unfold wp. destruct (m w) as [[a w']|]; split; [eauto|by intros (? & ? & [= <- <-] & ?)|done|].
  by intros (? & ? & ? & _).
Qed.

Lemma wp_mono {A} (m : M A) (Q R : A -> st -> Prop) w :
  wp m Q w -> (forall a w', Q a w' -> R a w') -> wp m R w.
Proof. unfold wp. destruct (m w) as [[a w']|]; auto. Qed.

Lemma wp_ret {A} (a : A) Q w : Q a w -> wp (mret a) Q w.
Proof. done. Qed.
Lemma wp_bind {A B} (m : M A) (f : A -> M B) Q w :
  wp m (fun a => wp (f a) Q) w -> wp (m ≫= f) Q w.
Proof. unfold wp, mbind, M_bind. by destruct (m w) as [[a w']|]. Qed.
Lemma wp_lift {A} (r : res A) a Q w : r = Ok a -> Q a w -> wp (lift r) Q w.
Proof. by intros ->. Qed.
Lemma wp_gets {A} (f : P -> A) Q w : Q (f w.(Selector.user).(prog)) w -> wp (gets f) Q w.
Proof. done. Qed.
Lemma wp_modify f Q w : Q tt (on_prog f w) -> wp (modify f) Q w.
Proof. done. Qed.
Lemma wp_emit e Q w : Q tt (on_trace e w) -> wp (emit e) Q w.
Proof. done. Qed.
Lemma wp_os {A} (f : E -> A * E) Q w :
  (forall a e, f w.(Selector.user).(env) = (a, e) ->
    Q a (on_env e w)) -> wp (os f) Q w.
Proof. unfold wp, os. destruct (f _) as [a e]. auto. Qed.
Lemma wp_selector {A} (f : @Selector.selector H D -> res (A * @Selector.selector H D)) a s Q w :
  f w.(Selector.sel) = Ok (a, s) -> Q a (on_sel s w) -> wp (on_selector f) Q w.
Proof. unfold wp, on_selector. by intros ->. Qed.

End Monad.

Arguments sys : clear implicits.
Arguments st : clear implicits.
Arguments M : clear implicits.

End Os.
