(* ===== verification/Trace.v ===== *)
(** What a trace says: the descriptors it leaves open, and what was said on each
    since it was opened.  Traces have the newest event first. *)
From S2P Require Import Prelude Selector Os.
Local Open Scope Z_scope.

Module Trace.

(** The descriptors opened and not closed. *)
Fixpoint drop_one (fd : Z) (l : list Z) : list Z :=
  match l with [] => [] | k :: l => if decide (k = fd) then l else k :: drop_one fd l end.
Fixpoint held (tr : list Os.io) : list Z :=
  match tr with
  | [] => []
  | Os.IoOpen fd :: tr => fd :: held tr
  | Os.IoClose fd :: tr => drop_one fd (held tr)
  | _ :: tr => held tr
  end.

(** The system hands out descriptors that are not open. *)
Fixpoint handed_out (tr : list Os.io) : Prop :=
  match tr with
  | [] => True
  | Os.IoOpen fd :: tr => fd ∉ held tr /\ handed_out tr
  | _ :: tr => handed_out tr
  end.

(** The bytes read from a descriptor, and those written to it, since it was
    opened. *)
Fixpoint heard (fd : Z) (tr : list Os.io) : list byte :=
  match tr with
  | [] => []
  | Os.IoOpen k :: tr => if decide (k = fd) then [] else heard fd tr
  | Os.IoRead k bs :: tr => heard fd tr ++ (if decide (k = fd) then bs else [])
  | _ :: tr => heard fd tr
  end.
Fixpoint said (fd : Z) (tr : list Os.io) : list byte :=
  match tr with
  | [] => []
  | Os.IoOpen k :: tr => if decide (k = fd) then [] else said fd tr
  | Os.IoWrite k bs :: tr => said fd tr ++ (if decide (k = fd) then bs else [])
  | _ :: tr => said fd tr
  end.

Lemma drop_one_absent fd l : fd ∉ l -> drop_one fd l = l.
Proof.
  induction l as [|k l IH]; [done|]. intros [Hk Hl]%not_elem_of_cons. cbn. rewrite decide_False by congruence.
  by rewrite IH.
Qed.

Lemma drop_one_perm fd l k : l ≡ₚ fd :: k -> drop_one fd l ≡ₚ k.
Proof.
  intros Hp. assert (Hin : fd ∈ l) by (rewrite Hp; apply elem_of_cons; by left).
  assert (Hd : l ≡ₚ fd :: drop_one fd l).
  { clear Hp. induction l as [|x l IH]; [by apply not_elem_of_nil in Hin|]. cbn.
    case_decide as Hx; [by subst|]. apply elem_of_cons in Hin as [->|Hin]; [done|]. rewrite (IH Hin) at 1.
    apply Permutation_swap. }
  rewrite Hd in Hp. by apply Permutation_cons_inv in Hp.
Qed.

Lemma drop_one_elem fd l k : NoDup l -> k ∈ drop_one fd l <-> k ∈ l /\ k <> fd.
Proof.
  induction l as [|j l IH]; intros Hn; cbn; [set_solver|]. apply NoDup_cons in Hn as [Hj Hn]. specialize (IH Hn).
  case_decide as Hf; [set_solver|]. rewrite !elem_of_cons, IH. naive_solver.
Qed.

Lemma drop_one_NoDup fd l : NoDup l -> NoDup (drop_one fd l).
Proof.
  induction l as [|j l IH]; intros Hn; cbn; [constructor|]. apply NoDup_cons in Hn as [Hj Hn].
  case_decide; [done|]. apply NoDup_cons. split; [|auto]. rewrite drop_one_elem by done. naive_solver.
Qed.

Lemma handed_out_NoDup tr : handed_out tr -> NoDup (held tr).
Proof.
  induction tr as [|[| | | |] tr IH]; cbn; intros H; auto; [constructor|by apply NoDup_cons; naive_solver|].
  by apply drop_one_NoDup, IH.
Qed.

End Trace.
