(* ===== verification/SelectorRules.v ===== *)
(** The selector's table under single operations, for any program: what each
    leaves of the entries, and what unregistering does around its callback. *)
From S2P Require Import Prelude Request Selector Os Trace.
Import Trace.
Local Open Scope Z_scope.

Module SelectorRules.

(** * The selector's table under single operations *)

Section Table.
Context {H D : Type}.
Abbreviation selector := (@Selector.selector H D).
Abbreviation item := (@Selector.item H D).
Implicit Types (sl : selector) (it : item).

(** What no operation on a table with room changes. *)
Definition frame (sl : selector) :=
  (Selector.gen sl, Selector.fd_size sl, Selector.resolution_mutex sl,
   Selector.resolution_jobs sl, Selector.event_fd sl).

Lemma store_frame p it sl sl' : Selector.store p it sl = Ok sl' -> frame sl' = frame sl.
Proof. unfold Selector.store. intros (? & _ & Hs)%bind_ok. by injection Hs as <-. Qed.

Lemma set_interest_frame sl fd i r sl' :
  Selector.selector_set_interest sl fd i = Ok (r, sl') -> frame sl' = frame sl.
Proof.
  unfold Selector.selector_set_interest. destruct (Selector.INVALID_FD fd); [by intros [= _ <-]|].
  intros (it & _ & Hb)%bind_ok. destruct (Selector.ITEM_USED it); [|by injection Hb as _ <-].
  cbn [negb] in Hb. apply bind_ok in Hb as (s1 & H1 & H2). injection H2 as _ <-.
  exact (store_frame _ _ _ _ H1).
Qed.

(** An element that is not in use has no interest either. *)
Definition quiet (sl : selector) : Prop := forall k it,
  Selector.load (Selector.item_at sl k) sl = Ok it -> Selector.ITEM_USED it = false ->
  it.(Selector.interest) = Selector.OP_NOOP.

(** The table after writing one entry. *)
Record entries_set (sl sl' : selector) (k : Z) (o : option item) : Prop := {
  es_wf : Selector.wf sl';
  es_frame : frame sl' = frame sl;
  es_entry : forall j, Selector.entry sl' j = if decide (j = k) then o else Selector.entry sl j;
  es_quiet : quiet sl -> quiet sl';
}.

Lemma load_fds sl sl' : Selector.fds sl' = Selector.fds sl -> forall k,
  Selector.load (Selector.item_at sl' k) sl' = Selector.load (Selector.item_at sl k) sl.
Proof. intros He k. rewrite !Selector.load_at. by rewrite He. Qed.

Lemma store_quiet sl k it sl' : Selector.store (Selector.item_at sl k) it sl = Ok sl' ->
  (Selector.ITEM_USED it = false -> it.(Selector.interest) = Selector.OP_NOOP) -> quiet sl -> quiet sl'.
Proof.
  unfold Selector.store. intros (it0 & Hl & Hs)%bind_ok Hi Hq j it1.
  destruct (Selector.load_ok _ _ _ Hl) as (_ & Hk & a & Ha & Hak). cbn in Hk, Hak.
  injection Hs as <-. rewrite Selector.load_at. cbn. rewrite Ha. cbn. case_decide; [done|].
  destruct (decide (j = k)) as [->|Hne].
  - rewrite list_lookup_insert_eq by by eapply lookup_lt_Some. by intros [= <-].
  - rewrite list_lookup_insert_ne by lia. intros Hlk. apply (Hq j). rewrite Selector.load_at, Ha.
    by rewrite decide_False.
Qed.

Lemma set_interest_quiet sl fd i r sl' :
  Selector.selector_set_interest sl fd i = Ok (r, sl') -> quiet sl -> quiet sl'.
Proof.
  unfold Selector.selector_set_interest. destruct (Selector.INVALID_FD fd); [by intros [= _ <-]|].
  intros (it & _ & Hb)%bind_ok Hq. destruct (Selector.ITEM_USED it) eqn:Hu; [|by injection Hb as _ <-].
  cbn [negb] in Hb. apply bind_ok in Hb as (s1 & H1 & H2). injection H2 as _ <-.
  intros k it'. rewrite (load_fds s1) by done. revert k it'. apply (store_quiet _ _ _ _ H1); [|done].
  unfold Selector.ITEM_USED in *. cbn. congruence.
Qed.

Lemma in_range_valid sl k : Selector.wf sl -> 0 <= k < Selector.fd_size sl -> k < 65536 ->
  Selector.INVALID_FD k = false.
Proof.
  intros _ Hk Hm. unfold Selector.INVALID_FD, Selector.ITEMS_MAX_SIZE.
  by rewrite !bool_decide_false by lia.
Qed.

Lemma set_interest_entry sl fd i : Selector.wf sl -> 0 <= fd < Selector.fd_size sl -> fd < 65536 ->
  exists r sl', Selector.selector_set_interest sl fd i = Ok (r, sl') /\
    entries_set sl sl' fd ((fun it => it <| Selector.interest := i |>) <$> Selector.entry sl fd).
Proof.
  intros Hwf Hr Hm. pose proof (Selector.set_interest_spec sl fd i Hwf ltac:(lia)) as Hs.
  rewrite (in_range_valid sl fd Hwf Hr Hm) in Hs.
  destruct (Selector.entry sl fd) as [it|] eqn:He.
  - destruct Hs as (sl' & Heq & Hwf' & Hent & _). exists Selector.SELECTOR_SUCCESS, sl'.
    split; [done|]. split; [done|by eapply set_interest_frame|done|by eapply set_interest_quiet].
  - exists Selector.SELECTOR_IARGS, sl. split; [done|]. split; [done..| |done].
    intros j. case_decide; [by subst|done].
Qed.

(** Registering in a table with room never touches the allocator. *)
Lemma register_frame ok garbage sl fd h i d r sl' : Selector.wf sl -> 0 <= fd < Selector.fd_size sl ->
  Selector.selector_register ok garbage sl fd h i d = Ok (r, sl') -> frame sl' = frame sl.
Proof.
  intros Hwf Hr. unfold Selector.selector_register. destruct (_ || _); [by intros [= _ <-]|].
  rewrite decide_False by lia. cbn [mbind res_bind].
  destruct (decide (Selector.SELECTOR_SUCCESS <> _)); [by intros [= _ <-]|].
  intros (it & _ & Hb)%bind_ok. destruct (Selector.ITEM_USED it); [by injection Hb as _ <-|].
  apply bind_ok in Hb as (s1 & H1 & H2). injection H2 as _ <-. exact (store_frame _ _ _ _ H1).
Qed.

Lemma register_quiet ok garbage sl fd h i d r sl' : Selector.wf sl -> 0 <= fd < Selector.fd_size sl ->
  Selector.selector_register ok garbage sl fd h i d = Ok (r, sl') -> quiet sl -> quiet sl'.
Proof.
  intros Hwf Hr. unfold Selector.selector_register. destruct (_ || _); [by intros [= _ <-]|].
  rewrite decide_False by lia. cbn [mbind res_bind].
  destruct (decide (Selector.SELECTOR_SUCCESS <> _)); [by intros [= _ <-]|].
  intros (it & _ & Hb)%bind_ok Hq. destruct (Selector.ITEM_USED it); [by injection Hb as _ <-|].
  apply bind_ok in Hb as (s1 & H1 & H2). injection H2 as _ <-.
  intros k it'. rewrite (load_fds s1) by done. revert k it'. apply (store_quiet _ _ _ _ H1); [|done].
  unfold Selector.ITEM_USED. cbn. rewrite bool_decide_false; [done|]. unfold Selector.FD_UNUSED. lia.
Qed.

Lemma register_entry ok garbage sl fd h i d : Selector.wf sl -> 0 <= fd < Selector.fd_size sl ->
  fd < 65536 -> exists r sl',
    Selector.selector_register ok garbage sl fd (Some h) i (Some d) = Ok (r, sl') /\
    if decide (r = Selector.SELECTOR_SUCCESS)
    then Selector.entry sl fd = None /\ entries_set sl sl' fd (Some (Selector.mk_item fd i (Some h) (Some d)))
    else sl' = sl.
Proof.
  intros Hwf Hr Hm. pose proof (Selector.register_result ok garbage sl fd (Some h) i (Some d) Hwf) as Hs.
  cbn zeta in Hs. rewrite (in_range_valid sl fd Hwf Hr Hm) in Hs. cbn [orb bool_decide] in Hs.
  rewrite bool_decide_false in Hs by done. rewrite (decide_False (P := fd = _)) in Hs by lia.
  destruct (decide (Selector.entry sl fd <> None)) as [He|He].
  { exists Selector.SELECTOR_FDINUSE, sl. by rewrite decide_False. }
  rewrite bool_decide_false in Hs by lia. cbn [andb] in Hs.
  destruct Hs as (sl' & Heq & Hwf' & Hent & _). exists Selector.SELECTOR_SUCCESS, sl'.
  split; [done|]. rewrite decide_True by done. split; [by apply dec_stable|].
  split; [done| |done|]; [by eapply register_frame|by eapply register_quiet].
Qed.

Lemma entries_set_two sl sl' sl'' k o o' : entries_set sl sl' k o -> entries_set sl' sl'' k o' ->
  entries_set sl sl'' k o'.
Proof.
  intros [W1 F1 E1 Q1] [W2 F2 E2 Q2]. split; [done|congruence| |auto]. intros j.
  rewrite E2, E1. by repeat case_decide.
Qed.

End Table.

(** * A new selector, and one without entries *)

Section Fresh.
Context {H D : Type}.
Abbreviation selector := (@Selector.selector H D).

Lemma new_quiet garbage ep ev e_ok c_ok a_ok n (s : selector) :
  0 <= n -> Selector.selector_new ep ev e_ok c_ok a_ok garbage n = Ok (Some s) ->
  quiet s /\ Selector.resolution_mutex s = false.
Proof.
  intros Hn0. unfold Selector.selector_new. case_decide; [done|]. case_decide; [done|].
  destruct e_ok, c_ok; try done. cbn [negb]. unfold Selector.ensure_capacity. cbn [Selector.fd_size Selector.fds].
  case_decide; [lia|]. case_decide; [by rewrite ok_bind|].
  destruct (Selector.next_capacity n) as [c|]; [|done]. rewrite ok_bind.
  destruct a_ok; [|by rewrite ok_bind]. unfold Selector.items_init.
  destruct (bool_decide _); [|done]. change (c_assert true) with (@Ok unit tt). rewrite !ok_bind.
  rewrite decide_False by auto. change (Z.to_nat 0) with 0%nat. rewrite take_0, drop_0. intros [= <-].
  split; [|done]. intros k it. rewrite Selector.load_at. case_decide; [done|]. cbn.
  destruct (map _ _ !! _) as [it0|] eqn:Hlk; [|done]. intros [= <-] _.
  rewrite list_lookup_fmap in Hlk. destruct (replicate _ _ !! _) as [z|] eqn:Hz; [|done].
  apply lookup_replicate in Hz as [-> _]. by injection Hlk as <-.
Qed.

Definition vacant (sl : selector) : Prop := Selector.wf sl /\ forall k, Selector.entry sl k = None.

End Fresh.

(** * Unregistering *)

Section Unregister.
Context {H D P E : Type} {OS : Os.Os E}.
Abbreviation st := (Os.st H D P E).
Abbreviation fd_handler := (@Selector.fd_handler H D (Os.sys P E)).
Implicit Types (w : st).

(** Unregistering: the item is left without interest while its close callback
    runs, and is cleared afterwards. *)
Lemma wp_unregister (impl : H -> fd_handler) k it h f w (Q : unit -> st -> Prop) :
  Selector.wf w.(Selector.sel) -> k < 65536 -> Selector.entry w.(Selector.sel) k = Some it ->
  it.(Selector.handler) = Some h -> Selector.handle_close (impl h) = Some (Os.callback f) ->
  (forall sl1, entries_set w.(Selector.sel) sl1 k (Some (it <| Selector.interest := Selector.OP_NOOP |>)) ->
    Os.wp (f (Selector.mk_key k it.(Selector.data))) (fun _ w' =>
      Selector.wf w'.(Selector.sel) /\ frame w'.(Selector.sel) = frame w.(Selector.sel) /\
      forall sl3, entries_set w'.(Selector.sel) sl3 k None -> Q tt (Os.on_sel sl3 w'))
      (Os.on_sel sl1 w)) ->
  Os.wp (Os.unregister_fd impl k) Q w.
Proof.
  intros Hwf Hk He Hh Hf Hcb.
  destruct (Selector.entry_used _ _ _ Hwf He) as (Hld & Hu & Hfd & _ & Hr).
  apply Os.wp_bind. unfold Os.wp, Selector.selector_unregister_fd.
  rewrite (in_range_valid w.(Selector.sel) k) by done. rewrite Hld. cbn [mbind res_bind].
  rewrite Hu. cbn [negb].
  set (s0 := Selector.epoll_ctl (Selector.EpollDel k) w.(Selector.sel)).
  assert (Hwf0 : Selector.wf s0) by by apply (Selector.wf_fds_eq w.(Selector.sel)).
  destruct (Selector.store_spec s0 k (it <| Selector.interest := Selector.OP_NOOP |>) Hwf0)
    as (sl1 & Hst & Hwf1 & Hent1 & _); [done|cbn; rewrite Hh; done|].
  change (Selector.item_at w.(Selector.sel) k) with (Selector.item_at s0 k). rewrite Hst. cbn [mbind res_bind].
  rewrite Hh. cbn [or_fault mbind res_bind]. rewrite Hf.
  assert (Hset1 : entries_set w.(Selector.sel) sl1 k (Some (it <| Selector.interest := Selector.OP_NOOP |>))).
  { split; [done| | |].
    - rewrite (store_frame _ _ _ _ Hst). done.
    - intros j. rewrite Hent1. unfold Selector.ITEM_USED in *. cbn. rewrite Hu.
      by rewrite (Selector.entry_fds w.(Selector.sel) s0).
    - intros Hq. apply (store_quiet _ _ _ _ Hst); [done|]. intros j it'.
      rewrite (load_fds w.(Selector.sel) s0) by done. apply Hq. }
  specialize (Hcb sl1 Hset1). unfold Os.wp in Hcb. unfold Os.callback. rewrite Hfd.
  change (w <| Selector.sel := sl1 |>) with (Os.on_sel sl1 w).
  destruct (f _ _) as [[[] w']|]; [|done]. cbn [fmap res_fmap mbind res_bind snd].
  destruct Hcb as (Hwf' & Hfr & HQ).
  assert (Hsz : Selector.gen w'.(Selector.sel) = Selector.gen w.(Selector.sel) /\
    Selector.fd_size w'.(Selector.sel) = Selector.fd_size w.(Selector.sel)).
  { unfold frame in Hfr. by injection Hfr. }
  destruct Hsz as [Hg Hs].
  destruct (Selector.store_spec w'.(Selector.sel) k (Selector.item_init Selector.zero_item) Hwf')
    as (sl3 & Hst3 & Hwf3 & Hent3 & _); [lia|done|].
  replace (Selector.item_at s0 k) with (Selector.item_at w'.(Selector.sel) k)
    by (unfold Selector.item_at; by rewrite Hg).
  rewrite Hst3. cbn. apply HQ. split; [done|by eapply store_frame|done|by eapply store_quiet].
Qed.

End Unregister.

(** * Sockets *)

Section Sockets.
Context {H D P E : Type} {OS : Os.Os E}.
Abbreviation st := (Os.st H D P E).
Abbreviation M := (Os.M H D P E).
Implicit Types (w : st).

(** The process gets no descriptor the table has no room for. *)
Definition descriptors_below (N : Z) : Prop :=
  (forall family e fd e', Os.os_socket family e = (fd, e') -> fd < N) /\
  (forall listen e fd e', Os.os_accept listen e = (fd, e') -> fd < N).

Variable N : Z.
Hypothesis Hbelow : descriptors_below N.

Abbreviation trace w := (Os.trace (Selector.user w)).

Lemma wp_open call w Q : (forall fd e, call (Os.env (Selector.user w)) = (fd, e) ->
    Q fd (if decide (fd < 0) then Os.on_env e w else Os.on_trace (Os.IoOpen fd) (Os.on_env e w))) ->
  Os.wp (Os.open call : M Z) Q w.
Proof.
  intros HQ. apply Os.wp_bind, Os.wp_os. intros fd e Hc. specialize (HQ fd e Hc).
  apply Os.wp_bind. case_decide; [by apply Os.wp_ret, Os.wp_ret|by apply Os.wp_emit, Os.wp_ret].
Qed.

(** Only the environment and the trace differ. *)
Definition only_io w w' : Prop := Selector.sel w' = Selector.sel w /\ Os.prog (Selector.user w') = Os.prog (Selector.user w).

(** Without a result what [create_listen_socket] opened is closed again. *)
Definition listened w (r : option (Z * Z)) w' : Prop := only_io w w' /\
  match r with
  | Some (fd, _) => 0 <= fd < N /\ trace w' = Os.IoOpen fd :: trace w
  | None => held (trace w') = held (trace w)
  end.

Lemma listen_socket_spec port w : Os.wp (Os.create_listen_socket port : M (option (Z * Z))) (listened w) w.
Proof.
  unfold Os.create_listen_socket. apply Os.wp_bind, wp_open. intros fd e Hfd.
  pose proof (proj1 Hbelow _ _ _ _ Hfd) as Hlt. case_decide as Hneg; [by apply Os.wp_ret|].
  assert (Hclose : forall w1, only_io w w1 -> trace w1 = Os.IoOpen fd :: trace w ->
    Os.wp (Os.close fd ;; mret None : M (option (Z * Z))) (listened w) w1).
  { intros w1 Hio Htr. apply Os.wp_bind, Os.wp_emit, Os.wp_ret. split; [exact Hio|].
    change (drop_one fd (held (trace w1)) = held (trace w)). rewrite Htr. cbn. by rewrite decide_True. }
  apply Os.wp_bind, Os.wp_os. intros r1 e1 _. case_decide; [by apply Hclose|].
  apply Os.wp_bind, Os.wp_os. intros r2 e2 _. case_decide; [by apply Hclose|].
  apply Os.wp_bind, Os.wp_os. intros r3 e3 _. case_decide; [by apply Hclose|].
  apply Os.wp_bind, Os.wp_os. intros r4 e4 _. case_decide; [by apply Hclose|].
  apply Os.wp_bind, Os.wp_os. intros b e5 _.
  apply Os.wp_bind, Os.wp_bind, Os.wp_os. intros [g f] e6 _. apply Os.wp_ret.
  case_decide; [by apply Hclose|]. apply Os.wp_ret. split; [done|]. split; [lia|done].
Qed.

End Sockets.

End SelectorRules.
