(* ===== verification/Scripted.v ===== *)
(** A scripted operating system: the answers of each call in the order given,
    and a friendly answer once they run out.  It satisfies the laws of Os, and
    the development's concrete runs use it. *)
From S2P Require Import Prelude Request Selector Os SelectorRules.
Local Open Scope Z_scope.

Module Scripted.

Record script := mk_script {
  reads : list Os.read_result;       (* then EAGAIN *)
  writes : list Os.write_result;     (* then everything *)
  accepts : list Z;                  (* then -1 *)
  sockets : list Z;                  (* then -1 *)
  connects : list (option Z);        (* then EINPROGRESS *)
  so_errors : list Z;                (* then 0 *)
  names : list (Z * list Os.addrinfo);   (* then EAI_NONAME *)
  clock : Z;
}.
#[export] Instance eta_script : Eta script := fun e =>
  mk_script e.(reads) e.(writes) e.(accepts) e.(sockets) e.(connects) e.(so_errors)
    e.(names) e.(clock).

Definition quiet : script := mk_script [] [] [] [] [] [] [] 0.

Definition pop {A} (l : list A) (last : A) : A * list A :=
  match l with [] => (last, []) | a :: l => (a, l) end.

Definition clip (n : nat) (r : Os.read_result) : Os.read_result :=
  match r with Os.RData bs => Os.RData (take n bs) | r => r end.
Definition accept_up_to (n : nat) (r : Os.write_result) : Os.write_result :=
  match r with Os.WDone k => Os.WDone (Nat.min k n) | r => r end.

#[global] Instance os : Os.Os script := {|
  Os.os_read := fun _ n e =>
    let '(r, l) := pop e.(reads) (Os.RError Os.EAGAIN) in (clip n r, e <| reads := l |>);
  Os.os_write := fun _ bs e =>
    let '(r, l) := pop e.(writes) (Os.WDone (length bs)) in
    (accept_up_to (length bs) r, e <| writes := l |>);
  Os.os_accept := fun _ e => let '(fd, l) := pop e.(accepts) (-1) in (fd, e <| accepts := l |>);
  Os.os_socket := fun _ e => let '(fd, l) := pop e.(sockets) (-1) in (fd, e <| sockets := l |>);
  Os.os_fcntl := fun _ e => ((0, fun _ => 0), e);
  Os.os_connect := fun _ _ _ e =>
    let '(r, l) := pop e.(connects) (Some Os.EINPROGRESS) in (r, e <| connects := l |>);
  Os.os_so_error := fun _ e =>
    let '(r, l) := pop e.(so_errors) 0 in (inr r, e <| so_errors := l |>);
  Os.os_setup := fun _ _ e => (0, e);
  Os.os_sockport := fun _ e => (None, e);
  Os.os_time := fun e => (e.(clock), e);
  Os.os_timestamp := fun e => (lit "2026-06-01T12:00:00Z", e);
  Os.os_alloc := fun e => (true, e);
  Os.os_malloc := fun n e => (Some (replicate n x00), e);
  Os.os_thread := fun e => (true, e);
  Os.os_getaddrinfo := fun _ _ e =>
    let '(r, l) := pop e.(names) (Os.EAI_NONAME, []) in (r, e <| names := l |>);
  Os.os_backlog := fun e => length e.(accepts);
|}.

#[global] Instance laws : Os.OsLaws script.
Proof.
  split; cbn.
  - intros fd n [r] bs e'. cbn. destruct r as [|[b|?] r]; cbn; intros [= <- <-].
    rewrite length_take. lia.
  - intros fd bs [? w] n e'. cbn. destruct w as [|[k|?] w]; cbn; intros [= <- <-]; lia.
  - intros n e d e' [= <- <-]. by rewrite length_replicate.
  - intros l [? ? a] fd e'. cbn. destruct a as [|x a]; cbn; intros [= <- <-]; cbn; lia.
  - done.
  - done.
  - done.
  - done.
Qed.

(** The same script for a process that gets no descriptor from [N] on, whose
    writes fail only to be tried again, and for which names have addresses. *)
Definition below (N fd : Z) : Z := if decide (fd < N) then fd else -1.
Definition soft (r : Os.write_result) : Os.write_result :=
  match r with Os.WError _ => Os.WError Os.EAGAIN | r => r end.

Definition has_addr (ai : Os.addrinfo) : bool := match ai.(Os.ai_addr) with Some _ => true | None => false end.

Definition tame (N : Z) : Os.Os script := {|
  Os.os_read := Os.os_read;
  Os.os_write := fun fd bs e => let '(r, e) := Os.os_write fd bs e in (soft r, e);
  Os.os_accept := fun l e => let '(fd, e) := Os.os_accept l e in (below N fd, e);
  Os.os_socket := fun f e => let '(fd, e) := Os.os_socket f e in (below N fd, e);
  Os.os_fcntl := Os.os_fcntl;
  Os.os_connect := Os.os_connect;
  Os.os_so_error := Os.os_so_error;
  Os.os_setup := Os.os_setup;
  Os.os_sockport := Os.os_sockport;
  Os.os_time := Os.os_time;
  Os.os_timestamp := Os.os_timestamp;
  Os.os_alloc := Os.os_alloc;
  Os.os_malloc := Os.os_malloc;
  Os.os_thread := Os.os_thread;
  Os.os_getaddrinfo := fun host port e =>
    let '((rc, l), e) := Os.os_getaddrinfo host port e in ((rc, List.filter has_addr l), e);
  Os.os_backlog := Os.os_backlog;
|}.

Lemma tame_laws N : @Os.OsLaws script (tame N).
Proof.
  split; cbn [Os.os_read Os.os_write Os.os_accept Os.os_malloc Os.os_backlog Os.os_fcntl Os.os_time Os.os_alloc tame].
  - apply Os.read_fits.
  - intros fd bs e n e'. destruct (Os.os_write fd bs e) as [r e1] eqn:Hr. intros [= He <-].
    destruct r; [|done]. injection He as ->. by apply (Os.write_fits fd bs e n e1).
  - apply Os.malloc_length.
  - intros l e fd e'. destruct (Os.os_accept l e) as [x e1] eqn:Hx. intros [= <- <-] H0.
    apply (Os.accept_backlog l e x e1 Hx). unfold below in H0. case_decide; lia.
  - apply Os.fcntl_backlog.
  - apply Os.time_backlog.
  - apply Os.alloc_backlog.
  - apply Os.malloc_backlog.
Qed.

Lemma tame_below N : 0 <= N -> @SelectorRules.descriptors_below script (tame N) N.
Proof.
  intros HN. split; intros x e fd e'; cbn; destruct (pop _ _) as [y l]; intros [= <- <-];
    unfold below; case_decide; lia.
Qed.

End Scripted.
