(* ===== verification/Inet.v ===== *)
(** The address conversions of the C library that the program relies on,
    [inet_pton] and [inet_ntop], as an interface; addresses are byte strings. *)
From S2P Require Import Prelude.
Local Open Scope Z_scope.

(** [None] is the return value 0: not an address of that family. *)
Class Inet := {
  inet_pton4 : cstring -> option (list byte);
  inet_pton6 : cstring -> option (list byte);
  inet_ntop4 : list byte -> cstring;
  inet_ntop6 : list byte -> cstring;
}.

(** What the manual page promises. *)
Class InetLaws `{Inet} := {
  pton4_length : forall s a, inet_pton4 s = Some a -> length a = 4%nat;
  pton6_length : forall s a, inet_pton6 s = Some a -> length a = 16%nat;
  ntop4_pton : forall a, length a = 4%nat -> inet_pton4 (inet_ntop4 a) = Some a;
  ntop6_pton : forall a, length a = 16%nat ->
    inet_pton4 (inet_ntop6 a) = None /\ inet_pton6 (inet_ntop6 a) = Some a;
}.

(** * A small instance

    Dotted quads, and IPv6 as 32 hexadecimal digits after a colon: enough of a
    notation to satisfy the laws and to run the models on. *)
Module SampleInet.

Fixpoint digits_value (ds : cstring) (acc : Z) : option Z :=
  match ds with
  | [] => Some acc
  | d :: ds => if decide (48 <= bz d <= 57) then digits_value ds (10 * acc + (bz d - 48)) else None
  end.

Definition octet (ds : cstring) : option byte :=
  if decide (ds = [] \/ (3 < length ds)%nat) then None
  else v ← digits_value ds 0; if decide (v < 256) then Some (zb v) else None.

Fixpoint split_dots (s cur : cstring) : list cstring :=
  match s with
  | [] => [cur]
  | c :: s => if decide (c = "."%byte) then cur :: split_dots s [] else split_dots s (cur ++ [c])
  end.

Definition pton4 (s : cstring) : option (list byte) :=
  match split_dots s [] with
  | [a; b; c; d] => a ← octet a; b ← octet b; c ← octet c; d ← octet d; Some [a; b; c; d]
  | _ => None
  end.

Definition nibble (z : Z) : byte := zb (if decide (z < 10) then 48 + z else 87 + z).
Definition nibble_value (b : byte) : option Z :=
  if decide (48 <= bz b <= 57) then Some (bz b - 48)
  else if decide (97 <= bz b <= 102) then Some (bz b - 87) else None.

Fixpoint hex (a : list byte) : cstring :=
  match a with
  | [] => []
  | b :: a => nibble (bz b / 16) :: nibble (bz b mod 16) :: hex a
  end.

Fixpoint unhex (s : cstring) : option (list byte) :=
  match s with
  | [] => Some []
  | h :: l :: s => x ← nibble_value h; y ← nibble_value l; a ← unhex s; Some (zb (16 * x + y) :: a)
  | _ => None
  end.

Definition pton6 (s : cstring) : option (list byte) :=
  match s with
  | c :: s => if decide (c = ":"%byte) then
                a ← unhex s; if decide (length a = 16%nat) then Some a else None
              else None
  | [] => None
  end.

Definition ntop4 (a : list byte) : cstring :=
  match a with
  | [a; b; c; d] =>
    dec (bz a) ++ "."%byte :: dec (bz b) ++ "."%byte :: dec (bz c) ++ "."%byte :: dec (bz d)
  | _ => []
  end.

Definition ntop6 (a : list byte) : cstring := ":"%byte :: hex a.

#[export] Instance sample_inet : Inet := {
  inet_pton4 := pton4; inet_pton6 := pton6; inet_ntop4 := ntop4; inet_ntop6 := ntop6;
}.

(** The four notations agree; checked value by value. *)
Definition octet_ok (z : Z) : bool :=
  bool_decide (octet (dec z) = Some (zb z)) && bool_decide ("."%byte ∉ dec z).

Lemma octets_ok b : octet_ok (bz b) = true.
Proof. by destruct b; vm_compute. Qed.

Lemma octet_dec b : octet (dec (bz b)) = Some b /\ "."%byte ∉ dec (bz b).
Proof.
  pose proof (octets_ok b) as H. unfold octet_ok in H.
  apply andb_true_iff in H as [?%bool_decide_eq_true ?%bool_decide_eq_true]. by rewrite zb_bz in *.
Qed.

Lemma split_dots_dot s t : "."%byte ∉ s -> forall cur,
  split_dots (s ++ "."%byte :: t) cur = (cur ++ s) :: split_dots t [].
Proof.
  induction s as [|c s IH]; intros Hs cur; cbn.
  - by rewrite app_nil_r.
  - apply not_elem_of_cons in Hs as [Hc Hs]. rewrite decide_False by congruence.
    rewrite IH by done. by rewrite <- app_assoc.
Qed.

Lemma split_dots_last s : "."%byte ∉ s -> forall cur, split_dots s cur = [cur ++ s].
Proof.
  induction s as [|c s IH]; intros Hs cur; cbn; [by rewrite app_nil_r|].
  apply not_elem_of_cons in Hs as [Hc Hs]. rewrite decide_False by congruence.
  rewrite IH by done. by rewrite <- app_assoc.
Qed.

Lemma split_dots_head s : forall cur, exists t ts, split_dots s cur = (cur ++ t) :: ts.
Proof.
  induction s as [|c s IH]; intros cur; cbn.
  - exists [], []. by rewrite app_nil_r.
  - case_decide; [by exists [], (split_dots s []); rewrite app_nil_r|].
    destruct (IH (cur ++ [c])) as (t & ts & ->). exists (c :: t), ts. by rewrite <- app_assoc.
Qed.

Lemma nibble_ok z : 0 <= z < 16 -> nibble_value (nibble z) = Some z.
Proof.
  intros Hz. unfold nibble, nibble_value. rewrite bz_zb.
  rewrite u8_small by (case_decide; lia). repeat case_decide; f_equal; lia.
Qed.

Lemma unhex_hex a : unhex (hex a) = Some a.
Proof.
  induction a as [|b a IH]; [done|]. cbn. pose proof (bz_range b).
  rewrite !nibble_ok by (apply Z.mod_pos_bound || (split; [apply Z.div_pos|apply Z.div_lt_upper_bound]); lia).
  cbn. rewrite IH. cbn. do 2 f_equal.
  rewrite <- Z.div_mod by lia. apply zb_bz.
Qed.

Lemma pton4_colon s : pton4 (":"%byte :: s) = None.
Proof.
  unfold pton4. cbn [split_dots]. rewrite decide_False by done. cbn [app].
  destruct (split_dots_head s [":"%byte]) as (t & ts & ->).
  destruct ts as [|y [|z [|w [|]]]]; try done.
  assert (E : octet ([":"%byte] ++ t) = None) by (unfold octet; by case_decide). by rewrite E.
Qed.

#[export] Instance sample_laws : InetLaws.
Proof.
  split; cbn.
  - intros s a. unfold pton4. destruct (split_dots s []) as [|x [|y [|z [|w [|]]]]]; try done.
    destruct (octet x), (octet y), (octet z), (octet w); try done. by intros [= <-].
  - intros s a. unfold pton6. destruct s as [|c s]; [done|]. case_decide; [|done].
    destruct (unhex s) as [b|]; cbn; [|done]. case_decide; [|done]. by intros [= <-].
  - intros a Ha. destruct a as [|x [|y [|z [|w [|]]]]]; try done. unfold pton4, ntop4.
    destruct (octet_dec x) as [Ex Nx], (octet_dec y) as [Ey Ny], (octet_dec z) as [Ez Nz], (octet_dec w) as [Ew Nw].
    rewrite !split_dots_dot, split_dots_last by done. cbn. by rewrite Ex, Ey, Ez, Ew.
  - intros a Ha. unfold ntop6, pton6. rewrite decide_True by done. rewrite unhex_hex. cbn.
    rewrite decide_True by done. split; [|done]. apply pton4_colon.
Qed.

End SampleInet.
