(* ===== verification/Netutils.v ===== *)
(** The network utilities of src/shared/netutils.c: an address as text, and
    the loops that write a buffer, and copy a stream, over blocking sockets. *)
From S2P Require Import Prelude CBuffer Request Inet.
Local Open Scope Z_scope.

Module Netutils.

(** * The string functions it calls, on the array that starts at [buff] *)

Definition strlen (m : list byte) : res nat :=
  let n := length (c_str m) in if decide (n < length m)%nat then Ok n else Fault OutOfBounds.
Definition strncpy (m : list byte) (src : cstring) (n : nat) : res (list byte) :=
  mem_write 0 (take n src ++ replicate (n - length src) x00) m.
Definition strncat (m : list byte) (src : cstring) (n : nat) : res (list byte) :=
  len ← strlen m; mem_write len (take n src ++ [x00]) m.
(** [snprintf(buff + off, n, ...)]. *)
Definition snprintf (m : list byte) (off n : nat) (text : cstring) : res (list byte) :=
  match n with O => Ok m | S n => mem_write off (take n text ++ [x00]) m end.
(** [buff[buffsize - 1] = 0]. *)
Definition end_at (m : list byte) (buffsize : nat) : res (list byte) :=
  match buffsize with O => Fault OutOfBounds | S i => mem_write i [x00] m end.
(** [inet_ntop]: [None] when the text does not fit. *)
Definition ntop_into (m : list byte) (text : cstring) (size : nat) : res (option (list byte)) :=
  if decide (length text < size)%nat then Some <$> mem_write 0 (text ++ [x00]) m else Ok None.

Definition ntohs (port : list byte) : Z :=
  match port with [hi; lo] => 256 * bz hi + bz lo | _ => 0 end.

Section Human.
Context {IN : Inet}.

(** The address a known family has, as [inet_ntop] writes it. *)
Definition ip_text (a : Request.sockaddr_storage) : option cstring :=
  if decide (a.(Request.ss_family) = Request.AF_INET) then Some (inet_ntop4 a.(Request.sin_addr))
  else if decide (a.(Request.ss_family) = Request.AF_INET6) then Some (inet_ntop6 a.(Request.sin6_addr))
  else None.

(** What is in the array when it returns; [None] is a null pointer. *)
Definition sockaddr_to_human (buff : list byte) (buffsize : nat) (addr : option Request.sockaddr_storage)
  : res (list byte) :=
  match addr with
  | None => strncpy buff (lit "null") buffsize
  | Some addr =>
    buff ← (match ip_text addr with
            | Some text =>
              r ← ntop_into buff text buffsize;
              match r with
              | Some buff => Ok buff
              | None => buff ← strncpy buff (lit "unknown ip") buffsize; end_at buff buffsize
              end
            | None => strncpy buff (lit "unknown") buffsize
            end);
    buff ← strncat buff (lit ":") buffsize;
    buff ← end_at buff buffsize;
    len ← strlen buff;
    buff ← (match ip_text addr with
            | Some _ => snprintf buff len (buffsize - len) (dec (ntohs addr.(Request.sin_port)))
            | None => Ok buff
            end);
    end_at buff buffsize
  end.

End Human.

(** * Blocking sockets

    What each [recv] and each [send] will answer, [errno], and what was
    written.  When the answers run out the peer has closed its side, and sends
    take everything. *)
Inductive recv_result := Received (bs : list byte) | RecvError (e : Z).
Inductive send_result := Sent (n : nat) | SendError (e : Z).
Record sockets := mk_sockets {
  incoming : list recv_result;
  takes : list send_result;
  errno : Z;
  wire : list byte;
}.
#[export] Instance eta_sockets : Eta sockets := fun s =>
  mk_sockets s.(incoming) s.(takes) s.(errno) s.(wire).

(** -1 sets [errno]. *)
Definition send (bs : list byte) (s : sockets) : Z * sockets :=
  match s.(takes) with
  | [] => (Z.of_nat (length bs), s <| wire ::= (.++ bs) |>)
  | Sent n :: ts =>
    (Z.of_nat (length (take n bs)), s <| takes := ts |> <| wire ::= (.++ take n bs) |>)
  | SendError e :: ts => (-1, s <| takes := ts |> <| errno := e |>)
  end.

(** The do-while loop; each turn but the last takes bytes off the buffer. *)
Fixpoint blocking_write_loop (fuel : nat) (b : CBuffer.buffer) (s : sockets) : res (Z * CBuffer.buffer * sockets) :=
  match fuel with
  | O => Fault OutOfFuel
  | S fuel =>
    '(_, n) ← CBuffer.buffer_read_ptr b;
    bs ← CBuffer.buffer_peek b n;
    let '(nwritten, s) := send bs s in
    if decide (nwritten > 0) then
      b ← CBuffer.buffer_read_adv b nwritten;
      if CBuffer.buffer_can_read b then blocking_write_loop fuel b s else Ok (0, b, s)
    else Ok (s.(errno), b, s)
  end.
Definition sock_blocking_write (b : CBuffer.buffer) (s : sockets) : res (Z * CBuffer.buffer * sockets) :=
  blocking_write_loop (S (length (CBuffer.contents b))) b s.

(** The inner loop of [sock_blocking_copy]: [None] when everything was sent. *)
Fixpoint send_loop (fuel : nat) (out : list byte) (s : sockets) : res (option Z * sockets) :=
  match fuel with
  | O => Fault OutOfFuel
  | S fuel =>
    let '(nwritten, s) := send out s in
    if decide (nwritten > 0) then
      let out := drop (Z.to_nat nwritten) out in
      if decide (out = []) then Ok (None, s) else send_loop fuel out s
    else Ok (Some s.(errno), s)
  end.

(** The loop over [recv], whose answers are [inp]. *)
Fixpoint copy_loop (inp : list recv_result) (s : sockets) : res (Z * sockets) :=
  match inp with
  | [] => Ok (0, s <| incoming := [] |>)
  | Received [] :: inp => Ok (0, s <| incoming := inp |>)
  | RecvError e :: inp => Ok (0, s <| incoming := inp |> <| errno := e |>)
  | Received bs :: inp =>
    '(failed, s) ← send_loop (length bs) bs (s <| incoming := inp |>);
    match failed with Some ret => Ok (ret, s) | None => copy_loop inp s end
  end.
Definition sock_blocking_copy (s : sockets) : res (Z * sockets) := copy_loop s.(incoming) s.

(** * An address as text *)

Lemma strlen_c_str m : (length (c_str m) < length m)%nat -> strlen m = Ok (length (c_str m)).
Proof. intros. unfold strlen. by rewrite decide_True. Qed.

(** Writing a terminated string into an array. *)
Lemma write_string off text m : (off + length text + 1 <= length m)%nat -> nul_free (take off m) -> nul_free text ->
  exists m', mem_write off (text ++ [x00]) m = Ok m' /\ length m' = length m /\ c_str m' = take off m ++ text /\
    take off m' = take off m.
Proof.
  intros Hl Hf Ht. rewrite mem_write_fits by (rewrite length_app; cbn; lia). eexists. split; [done|].
  split; [|split].
  - rewrite !length_app, length_take, length_drop. cbn. lia.
  - rewrite <- app_assoc, app_assoc. apply c_str_app_nul, nul_free_app. done.
  - apply take_app_length'. rewrite length_take. lia.
Qed.

(** The string that [buff[n - 1] = 0] leaves. *)
Lemma c_str_cut i t : c_str (take i t ++ [x00] ++ drop (i + 1) t) = take i (c_str t).
Proof.
  revert t. induction i as [|i IH]; intros t; cbn; [done|].
  destruct t as [|c t]; cbn; [done|]. case_decide; [done|]. by rewrite IH.
Qed.

Lemma end_at_spec m n : (0 < n <= length m)%nat -> exists m', end_at m n = Ok m' /\ length m' = length m /\
  c_str m' = take (n - 1) (c_str m).
Proof.
  intros Hn. destruct n as [|i]; [lia|]. unfold end_at. rewrite mem_write_fits by (cbn; lia).
  eexists. split; [done|]. split.
  - rewrite !length_app, length_take, length_drop. cbn. lia.
  - rewrite c_str_cut. f_equal. lia.
Qed.

Lemma c_str_app s t : nul_free s -> c_str (s ++ t) = s ++ c_str t.
Proof.
  unfold nul_free. induction s as [|c s IH]; cbn; [done|]. rewrite not_elem_of_cons. intros [Hc Hs].
  rewrite decide_False by congruence. by rewrite IH.
Qed.

(** A copy whose end is then marked. *)
Lemma strncpy_cut m src n : (0 < n <= length m)%nat -> nul_free src -> exists m',
  (buff ← strncpy m src n; end_at buff n) = Ok m' /\ length m' = length m /\ c_str m' = take (n - 1) src.
Proof.
  intros Hn Hs. unfold strncpy.
  assert (Hl : length (take n src ++ replicate (n - length src) x00) = n)
    by (rewrite length_app, length_take, length_replicate; lia).
  rewrite mem_write_fits by (rewrite Hl; lia). rewrite Hl, ok_bind. cbn [take app Nat.add].
  set (m1 := _ ++ drop n m). assert (Hm1 : length m1 = length m) by (unfold m1; rewrite length_app, length_drop, Hl; lia).
  destruct (end_at_spec m1 n) as (m' & E & Hm' & Ht); [lia|]. exists m'. split; [done|]. split; [lia|].
  rewrite Ht. unfold m1. destruct (decide (length src < n)%nat) as [Hlt|Hge].
  - rewrite (take_ge src n) by lia. destruct (n - length src)%nat as [|k] eqn:Hk; [lia|]. cbn [replicate].
    rewrite <- app_assoc. cbn [app]. by rewrite c_str_app_nul.
  - replace (n - length src)%nat with O by lia. cbn [replicate]. rewrite app_nil_r, c_str_app by by apply nul_free_take.
    rewrite take_app_le by (rewrite length_take; lia). rewrite take_take. f_equal. lia.
Qed.

(** Appending a text to a terminated string. *)
Lemma strncat_spec m src n : (length src <= n)%nat -> nul_free src ->
  strncat m src n = if decide (length (c_str m) + length src + 1 <= length m)%nat
    then mem_write (length (c_str m)) (src ++ [x00]) m else Fault OutOfBounds.
Proof.
  intros Hn Hs. unfold strncat, strlen. pose proof (c_str_length m).
  case_decide; [|rewrite decide_False by lia; done]. rewrite ok_bind, take_ge by done. case_decide; [done|].
  unfold mem_write. rewrite decide_False; [done|]. rewrite length_app. cbn. lia.
Qed.

Lemma c_str_prefix m : take (length (c_str m)) m = c_str m.
Proof. induction m as [|c m IH]; [done|]. cbn. case_decide; [done|]. cbn. by rewrite IH. Qed.

Lemma append_string m text : (length (c_str m) + length text + 1 <= length m)%nat -> nul_free text ->
  exists m', mem_write (length (c_str m)) (text ++ [x00]) m = Ok m' /\ length m' = length m /\
    c_str m' = c_str m ++ text.
Proof.
  intros Hl Ht. destruct (write_string (length (c_str m)) text m) as (m' & E & H1 & H2 & _);
    [done|rewrite c_str_prefix; apply c_str_nul_free|done|].
  exists m'. by rewrite <- (c_str_prefix m) at 2.
Qed.

Lemma ntohs_range p : 0 <= ntohs p.
Proof.
  unfold ntohs. destruct p as [|a [|b [|]]]; try lia. pose proof (bz_range a). pose proof (bz_range b). lia.
Qed.

(** Cutting a text once, or as it grows. *)
Lemma cut_first {A} n (x y : list A) : take n (take n x ++ y) = take n (x ++ y).
Proof.
  rewrite !take_app, take_take, length_take, Nat.min_id. f_equal. f_equal. lia.
Qed.
Lemma cut_twice {A} n (t d : list A) : (length t <= n)%nat -> take n (t ++ take (n - length t) d) = take n (t ++ d).
Proof. intros Hn. rewrite !take_app, take_take, Nat.min_id. done. Qed.

Section Texts.
Context {IN : Inet}.

(** What is shown of the address: its text, if it fits in [n] bytes. *)
Definition shown (n : nat) (ip : cstring) : cstring :=
  if decide (length ip < n)%nat then ip else lit "unknown ip".

Lemma human_spec m n a ip : (0 < n <= length m)%nat -> ip_text a = Some ip -> nul_free ip ->
  let before := take (n - 1) (shown n ip) in
  if decide (length before + 2 <= length m)%nat then exists m',
    sockaddr_to_human m n (Some a) = Ok m' /\ length m' = length m /\
    c_str m' = take (n - 1) (shown n ip ++ lit ":" ++ dec (ntohs a.(Request.sin_port)))
  else sockaddr_to_human m n (Some a) = Fault OutOfBounds.
Proof.
  intros Hn Hip Hf before. cbn [sockaddr_to_human]. rewrite Hip.
  set (first := (r ← ntop_into m ip n; _) : res (list byte)).
  assert (Hfirst : exists m1, first = Ok m1 /\ length m1 = length m /\ c_str m1 = before).
  { unfold first, ntop_into, before, shown. case_decide as Hl.
    - destruct (write_string 0 ip m) as (m1 & -> & H1 & H2 & _); [lia|apply not_elem_of_nil|done|].
      exists m1. split; [done|]. split; [done|]. rewrite take_ge by lia. exact H2.
    - rewrite ok_bind. apply strncpy_cut; [done|]. by_decision. }
  destruct Hfirst as (m1 & -> & Hl1 & Ht1). rewrite ok_bind.
  rewrite strncat_spec by (cbn; (lia || by_decision)). rewrite Ht1, Hl1. change (length (lit ":")) with 1%nat.
  destruct (decide (length before + 2 <= length m)%nat) as [Hr|Hr]; [|rewrite decide_False by lia; done].
  rewrite decide_True by lia.
  destruct (append_string m1 (lit ":")) as (m2 & E2 & Hl2 & Ht2); [rewrite Ht1, Hl1; cbn; lia|by_decision|].
  rewrite Ht1 in E2, Ht2. rewrite E2, ok_bind.
  destruct (end_at_spec m2 n) as (m3 & -> & Hl3 & Ht3); [lia|]. rewrite ok_bind.
  assert (Hlen3 : (length (c_str m3) <= n - 1)%nat) by (rewrite Ht3, length_take; lia).
  rewrite strlen_c_str by lia. rewrite ok_bind.
  destruct (n - length (c_str m3))%nat as [|k] eqn:Hk; [lia|]. cbn [snprintf].
  destruct (append_string m3 (take k (dec (ntohs (Request.sin_port a))))) as (m4 & -> & Hl4 & Ht4);
    [rewrite length_take; lia|apply nul_free_take, dec_nul_free, ntohs_range|].
  rewrite ok_bind. destruct (end_at_spec m4 n) as (m5 & -> & Hl5 & Ht5); [lia|]. exists m5. split; [done|].
  split; [lia|]. rewrite Ht5, Ht4.
  replace k with (n - 1 - length (c_str m3))%nat by lia. rewrite cut_twice by done. rewrite Ht3, Ht2, cut_first.
  unfold before. by rewrite <- app_assoc, cut_first.
Qed.

(** [sockaddr_to_human] on any array of at least the size it is told: the
    text of the address - or that it is unknown, when it does not fit - with a
    colon and the port, cut to the size and terminated; but it needs two bytes
    after what it shows of the address, so that an address that just fits the
    size is written one byte past it, out of an array that ends there. *)
Theorem human_text m n a ip : (0 < n <= length m)%nat -> ip_text a = Some ip -> nul_free ip ->
  let before := take (n - 1) (shown n ip) in
  if decide (length before + 2 <= length m)%nat then exists m',
    sockaddr_to_human m n (Some a) = Ok m' /\ length m' = length m /\
    c_str m' = take (n - 1) (shown n ip ++ lit ":" ++ dec (ntohs a.(Request.sin_port)))
  else sockaddr_to_human m n (Some a) = Fault OutOfBounds.
Proof. apply human_spec. Qed.

(** What the manual page promises of the texts. *)
Class InetText := {
  ntop4_text : forall a, length a = 4%nat -> nul_free (inet_ntop4 a) /\ (length (inet_ntop4 a) <= 15)%nat;
  ntop6_text : forall a, length a = 16%nat -> nul_free (inet_ntop6 a) /\ (length (inet_ntop6 a) <= 45)%nat;
}.

(** [INET6_ADDRSTRLEN + 5 + 1]. *)
Definition SOCKADDR_TO_HUMAN_MIN : nat := 52.

Lemma dec_digits_short k : forall fuel v, v < 10 ^ Z.of_nat k -> (0 < k)%nat -> (length (dec_digits fuel v) <= k)%nat.
Proof.
  induction k as [|k IH]; intros [|fuel] v Hv Hk; cbn [dec_digits]; [lia..|cbn; lia|].
  case_decide as Hz; [cbn; lia|]. rewrite length_app. cbn [length].
  destruct k as [|k]; [lia|]. rewrite Nat2Z.inj_succ, Z.pow_succ_r in Hv by lia.
  specialize (IH fuel (v / 10) ltac:(apply Z.div_lt_upper_bound; lia) ltac:(lia)). lia.
Qed.

Lemma ntohs_small p : ntohs p < 65536.
Proof.
  unfold ntohs. destruct p as [|a [|b [|]]]; try lia. pose proof (bz_range a). pose proof (bz_range b). lia.
Qed.

Lemma port_digits p : ntohs p < 10 ^ Z.of_nat 5.
Proof. pose proof (ntohs_small p). change (10 ^ Z.of_nat 5) with 100000. lia. Qed.

(** In an array of the promised size nothing is cut: the text is the
    address, which reads back as the address, a colon and the port. *)
Theorem human_readable `{!InetLaws} `{!InetText} m n a : (SOCKADDR_TO_HUMAN_MIN <= n <= length m)%nat ->
  length a.(Request.sin_addr) = 4%nat -> length a.(Request.sin6_addr) = 16%nat ->
  a.(Request.ss_family) = Request.AF_INET \/ a.(Request.ss_family) = Request.AF_INET6 ->
  exists m' ip, sockaddr_to_human m n (Some a) = Ok m' /\ length m' = length m /\
    c_str m' = ip ++ lit ":" ++ dec (ntohs a.(Request.sin_port)) /\
    (a.(Request.ss_family) = Request.AF_INET -> inet_pton4 ip = Some a.(Request.sin_addr)) /\
    (a.(Request.ss_family) = Request.AF_INET6 -> inet_pton6 ip = Some a.(Request.sin6_addr)).
Proof.
  intros Hn H4 H6 Hfam. unfold SOCKADDR_TO_HUMAN_MIN in Hn.
  assert (Hip : exists ip, ip_text a = Some ip /\ nul_free ip /\ (length ip <= 45)%nat /\
    (a.(Request.ss_family) = Request.AF_INET -> inet_pton4 ip = Some a.(Request.sin_addr)) /\
    (a.(Request.ss_family) = Request.AF_INET6 -> inet_pton6 ip = Some a.(Request.sin6_addr))).
  { unfold ip_text. destruct Hfam as [E|E]; rewrite E.
    - rewrite decide_True by done. destruct (ntop4_text _ H4). eexists. split; [done|]. split; [done|].
      split; [lia|]. split; [by intros _; apply ntop4_pton|done].
    - rewrite decide_False, decide_True by done. destruct (ntop6_text _ H6). eexists. split; [done|]. split; [done|].
      split; [lia|]. split; [done|by intros _; apply ntop6_pton]. }
  destruct Hip as (ip & Hip & Hf & Hlen & Hr). pose proof (human_spec m n a ip ltac:(lia) Hip Hf) as Ht. cbn zeta in Ht.
  assert (Hs : shown n ip = ip) by (unfold shown; rewrite decide_True by lia; done). rewrite Hs in Ht.
  rewrite decide_True in Ht by (rewrite length_take; lia). destruct Ht as (m' & E & Hl & Hc).
  exists m', ip. split; [done|]. split; [done|]. split; [|done]. rewrite Hc, take_ge; [done|].
  pose proof (dec_digits_short 5 20 _ (port_digits (Request.sin_port a)) ltac:(lia)) as Hd.
  change (dec_digits 20 _) with (dec (ntohs (Request.sin_port a))) in Hd.
  rewrite !length_app. change (length (lit ":")) with 1%nat. lia.
Qed.

End Texts.

(** * The loops over sockets *)

(** [send] takes at least a byte of what is not empty, or says why not. *)
Definition progress (r : send_result) : Prop :=
  match r with Sent n => n <> 0%nat | SendError e => 0 < e end.

Lemma send_spec bs s nwritten s' : Forall progress s.(takes) -> bs <> [] -> send bs s = (nwritten, s') ->
  Forall progress s'.(takes) /\
  if decide (nwritten > 0) then (Z.to_nat nwritten <= length bs)%nat /\
    s'.(wire) = s.(wire) ++ take (Z.to_nat nwritten) bs
  else 0 < s'.(errno) /\ s'.(wire) = s.(wire).
Proof.
  intros Hp Hbs. assert (length bs <> 0)%nat by by destruct bs. unfold send.
  destruct (takes s) as [|[n|e] ts] eqn:Ht; intros [= <- <-]; cbn.
  - rewrite Ht. split; [done|]. rewrite decide_True, Nat2Z.id, firstn_all by lia. split; [lia|done].
  - apply Forall_cons in Hp as [Hn Hp]. cbn in Hn. split; [done|].
    rewrite length_take. rewrite decide_True, Nat2Z.id by lia. split; [lia|]. f_equal.
    rewrite Nat.min_comm. destruct (decide (n <= length bs)%nat); [by rewrite Nat.min_r by lia|].
    rewrite Nat.min_l, firstn_all, take_ge by lia. done.
  - apply Forall_cons in Hp as [He Hp]. split; [done|]. rewrite decide_False by lia. done.
Qed.

Lemma net_write_loop_spec fuel : forall b s, CBuffer.wf b -> Forall progress s.(takes) -> CBuffer.contents b <> [] ->
  (length (CBuffer.contents b) <= fuel)%nat ->
  exists ret b' s' done, blocking_write_loop fuel b s = Ok (ret, b', s') /\ CBuffer.wf b' /\
    s'.(wire) = s.(wire) ++ done /\ CBuffer.contents b = done ++ CBuffer.contents b' /\
    0 <= ret /\ (ret = 0 <-> CBuffer.contents b' = []).
Proof.
  induction fuel as [|fuel IH]; intros b s Hwf Hp Hne Hf; [destruct (CBuffer.contents b); [done|cbn in Hf; lia]|].
  cbn [blocking_write_loop]. rewrite CBuffer.read_ptr_wf, ok_bind by done.
  rewrite CBuffer.peek_spec, firstn_all, ok_bind by (done || lia).
  destruct (send (CBuffer.contents b) s) as [k s1] eqn:Hs. destruct (send_spec _ _ _ _ Hp Hne Hs) as [Hp1 Hk].
  case_decide as Hpos.
  - destruct Hk as [Hle Hw].
    destruct (CBuffer.read_adv_spec b (Z.to_nat k) Hwf Hle) as (b1 & Hb1 & Hwf1 & Hc1 & _).
    rewrite Z2Nat.id in Hb1 by lia. rewrite Hb1, ok_bind.
    rewrite CBuffer.can_read_spec by done. case_bool_decide as Hmore.
    + destruct (IH b1 s1 Hwf1 Hp1 Hmore) as (ret & b' & s' & d & -> & Hwf' & Hw' & Hc' & Hret);
        [rewrite Hc1, length_drop; lia|].
      exists ret, b', s', (take (Z.to_nat k) (CBuffer.contents b) ++ d). split; [done|]. split; [done|].
      split; [by rewrite Hw', Hw, app_assoc|]. split; [|done]. by rewrite <- app_assoc, <- Hc', Hc1, take_drop.
    + exists 0, b1, s1, (take (Z.to_nat k) (CBuffer.contents b)).
      split; [done|]. split; [done|]. split; [done|]. split; [by rewrite Hc1, take_drop|]. by split; [lia|].
  - destruct Hk as [He Hw]. exists (errno s1), b, s1, []. rewrite app_nil_r. split; [done|]. split; [done|].
    split; [done|]. split; [done|]. split; [lia|]. split; [lia|done].
Qed.

(** [sock_blocking_write] of what a buffer holds returns, however the
    sends split it: 0 with everything written and the buffer empty, or the
    error of the send that failed with the bytes before it written and the
    others still in the buffer. *)
Lemma blocking_write b s : CBuffer.wf b -> Forall progress s.(takes) -> CBuffer.contents b <> [] ->
  exists ret b' s' done, sock_blocking_write b s = Ok (ret, b', s') /\ CBuffer.wf b' /\
    s'.(wire) = s.(wire) ++ done /\ CBuffer.contents b = done ++ CBuffer.contents b' /\
    0 <= ret /\ (ret = 0 <-> CBuffer.contents b' = []).
Proof. intros Hwf Hp Hne. apply net_write_loop_spec; try done. lia. Qed.

(** With nothing to write it returns the error of an earlier call. *)
Lemma empty_write_stale b s : CBuffer.wf b -> s.(takes) = [] -> CBuffer.contents b = [] ->
  exists s', sock_blocking_write b s = Ok (s.(errno), b, s') /\ s'.(wire) = s.(wire).
Proof.
  intros Hwf Ht Hc. unfold sock_blocking_write. rewrite Hc. cbn [length blocking_write_loop].
  rewrite CBuffer.read_ptr_wf, ok_bind by done. rewrite CBuffer.peek_spec, Hc, ok_bind by (rewrite ?Hc; (done || lia)).
  unfold send. rewrite Ht. cbn. eexists. split; [done|]. cbn. by rewrite app_nil_r.
Qed.

Lemma send_loop_spec fuel : forall out s, Forall progress s.(takes) -> out <> [] -> (length out <= fuel)%nat ->
  exists failed s' done, send_loop fuel out s = Ok (failed, s') /\ Forall progress s'.(takes) /\
    s'.(wire) = s.(wire) ++ done /\ done `prefix_of` out /\
    match failed with None => done = out | Some ret => 0 < ret end.
Proof.
  induction fuel as [|fuel IH]; intros out s Hp Hne Hf; [destruct out; [done|cbn in Hf; lia]|]. cbn [send_loop].
  destruct (send out s) as [k s1] eqn:Hs. destruct (send_spec _ _ _ _ Hp Hne Hs) as [Hp1 Hk]. case_decide as Hpos.
  - destruct Hk as [Hle Hw]. case_decide as Hdone.
    + exists None, s1, out. split; [done|]. split; [done|]. split; [|by split; [exists []; rewrite app_nil_r|]].
      rewrite Hw. f_equal. rewrite <- (take_drop (Z.to_nat k) out) at 2. by rewrite Hdone, app_nil_r.
    + destruct (IH (drop (Z.to_nat k) out) s1 Hp1 Hdone) as (f & s' & d & -> & Hp' & Hw' & Hd & Hr);
        [rewrite length_drop; lia|].
      exists f, s', (take (Z.to_nat k) out ++ d). split; [done|]. split; [done|].
      split; [by rewrite Hw', Hw, app_assoc|]. split.
      * rewrite <- (take_drop (Z.to_nat k) out) at 2. by apply prefix_app.
      * destruct f; [done|]. by rewrite Hr, take_drop.
  - destruct Hk as [He Hw]. exists (Some (errno s1)), s1, []. rewrite app_nil_r. split; [done|]. split; [done|].
    split; [done|]. split; [apply prefix_nil|done].
Qed.

(** What the receives bring before the end of the stream or their first error. *)
Fixpoint received (inp : list recv_result) : list byte :=
  match inp with
  | Received (b :: bs) :: inp => b :: bs ++ received inp
  | _ => []
  end.

Lemma copy_loop_spec inp : forall s, Forall progress s.(takes) ->
  exists ret s' done, copy_loop inp s = Ok (ret, s') /\ s'.(wire) = s.(wire) ++ done /\
    done `prefix_of` received inp /\ 0 <= ret /\ (ret = 0 -> done = received inp).
Proof.
  induction inp as [|r inp IH]; intros s Hp; cbn [copy_loop received].
  { exists 0, (s <| incoming := [] |>), []. by rewrite app_nil_r. }
  destruct r as [[|b bs]|e]; [by eexists 0, _, []; rewrite app_nil_r| |by eexists 0, _, []; rewrite app_nil_r].
  destruct (send_loop_spec (length (b :: bs)) (b :: bs) (s <| incoming := inp |>)) as (f & s1 & d & -> & Hp1 & Hw & Hd & Hr);
    [done..|]. rewrite ok_bind. destruct f as [ret|].
  - exists ret, s1, d. split; [done|]. split; [done|]. split; [|split; [lia|lia]].
    change (b :: bs ++ received inp) with ((b :: bs) ++ received inp). by apply prefix_app_r.
  - destruct (IH s1 Hp1) as (ret & s' & d' & -> & Hw' & Hd' & Hret & H0). exists ret, s', (d ++ d').
    split; [done|]. split; [by rewrite Hw', Hw, app_assoc|]. subst d. split; [|split; [done|]].
    + change (b :: bs ++ received inp) with ((b :: bs) ++ received inp). by apply prefix_app.
    + intros Hz. rewrite (H0 Hz). done.
Qed.

(** C40. [sock_blocking_copy] returns, and what it wrote is a beginning of what
    it received; it is all of it when the result is 0.  A result other than 0
    is the error of a send: the error that ends the receiving is not reported,
    the result is then 0 as at the end of the stream. *)
Theorem blocking_copy s : Forall progress s.(takes) ->
  exists ret s' done, sock_blocking_copy s = Ok (ret, s') /\ s'.(wire) = s.(wire) ++ done /\
    done `prefix_of` received s.(incoming) /\ 0 <= ret /\ (ret = 0 -> done = received s.(incoming)) /\
    forall e inp, s.(incoming) = RecvError e :: inp -> ret = 0.
Proof.
  intros Hp. unfold sock_blocking_copy. destruct (copy_loop_spec s.(incoming) s Hp) as (ret & s' & d & E & Hs).
  exists ret, s', d. split; [done|]. destruct Hs as (H1 & H2 & H3 & H4). split; [done|]. split; [done|].
  split; [done|]. split; [done|]. intros e inp Hi. rewrite Hi in E. cbn [copy_loop] in E. by injection E as <- _.
Qed.

(** * Samples *)

Section Samples.
#[local] Existing Instances SampleInet.sample_inet SampleInet.sample_laws.

Lemma nibble_text z : 0 <= z < 16 -> x00 <> SampleInet.nibble z.
Proof.
  intros Hz H%(f_equal bz). unfold SampleInet.nibble in H. rewrite bz_zb in H. change (bz x00) with 0 in H.
  case_decide; rewrite u8_small in H; lia.
Qed.

Lemma hex_text a : nul_free (SampleInet.hex a) /\ length (SampleInet.hex a) = (2 * length a)%nat.
Proof.
  induction a as [|b a [IH Hl]]; [by split; [apply not_elem_of_nil|]|]. cbn [SampleInet.hex]. pose proof (bz_range b).
  split; [|cbn; lia]. apply not_elem_of_cons. split; [apply nibble_text; split; [apply Z.div_pos|apply Z.div_lt_upper_bound]; lia|].
  apply not_elem_of_cons. split; [apply nibble_text, Z.mod_pos_bound; lia|done].
Qed.

#[local] Instance sample_text : InetText.
Proof.
  split; cbn.
  - intros a Ha. destruct a as [|x [|y [|z [|w [|]]]]]; try done. unfold SampleInet.ntop4.
    assert (Hd : forall b, nul_free (dec (bz b)) /\ (length (dec (bz b)) <= 3)%nat).
    { intros b. pose proof (bz_range b). split; [apply dec_nul_free; lia|].
      apply (dec_digits_short 3 20); [change (10 ^ Z.of_nat 3) with 1000; lia|lia]. }
    destruct (Hd x), (Hd y), (Hd z), (Hd w). split; [|rewrite !length_app; cbn [length]; rewrite !length_app; cbn [length]; rewrite !length_app; cbn [length]; lia].
    repeat (apply nul_free_app; split; [done|]; apply not_elem_of_cons; split; [done|]). done.
  - intros a Ha. destruct (hex_text a) as [Hf Hl]. unfold SampleInet.ntop6. cbn [length]. split; [|lia].
    by apply not_elem_of_cons.
Qed.

(** 1.2.3.4:9090, in arrays of 50 bytes and of 8. *)
Definition somewhere : Request.sockaddr_storage :=
  Request.mk_sockaddr Request.AF_INET [x23; x82] [x01; x02; x03; x04] (replicate 16 x00).
Definition written (size n : nat) : res cstring := c_str <$> sockaddr_to_human (replicate size x00) n (Some somewhere).

Example human_sizes :
  (written 50 <$> [50; 5; 8; 9; 13]%nat) =
    [Ok (lit "1.2.3.4:9090"); Ok (lit "unkn"); Ok (lit "1.2.3.4"); Ok (lit "1.2.3.4:"); Ok (lit "1.2.3.4:9090")] /\
  written 8 8 = Fault OutOfBounds.
Proof. split; vm_compute; reflexivity. Qed.

Lemma human_text_witness :
  let before := take 7 (shown 8 (lit "1.2.3.4")) in
  if decide (length before + 2 <= length (replicate 8 x00))%nat then exists m',
    sockaddr_to_human (replicate 8 x00) 8 (Some somewhere) = Ok m' /\ length m' = length (replicate 8 x00) /\
    c_str m' = take 7 (shown 8 (lit "1.2.3.4") ++ lit ":" ++ dec (ntohs somewhere.(Request.sin_port)))
  else sockaddr_to_human (replicate 8 x00) 8 (Some somewhere) = Fault OutOfBounds.
Proof.
  apply (human_text (replicate 8 x00) 8 somewhere (lit "1.2.3.4")).
  - cbn. lia.
  - vm_compute. reflexivity.
  - by_decision.
Defined.

Lemma human_readable_witness : exists m' ip,
  sockaddr_to_human (replicate 52 x00) 52 (Some somewhere) = Ok m' /\ length m' = length (replicate 52 x00) /\
  c_str m' = ip ++ lit ":" ++ dec (ntohs somewhere.(Request.sin_port)) /\
  (somewhere.(Request.ss_family) = Request.AF_INET -> inet_pton4 ip = Some somewhere.(Request.sin_addr)) /\
  (somewhere.(Request.ss_family) = Request.AF_INET6 -> inet_pton6 ip = Some somewhere.(Request.sin6_addr)).
Proof.
  apply (human_readable (replicate 52 x00) 52 somewhere).
  - cbn. unfold SOCKADDR_TO_HUMAN_MIN. lia.
  - reflexivity.
  - reflexivity.
  - left. reflexivity.
Defined.

Definition a_copy : sockets :=
  mk_sockets [Received (lit "abc"); Received (lit "de"); RecvError 104] [Sent 2; Sent 5; SendError 32] 0 [].

Lemma blocking_copy_witness :
  exists ret s' done, sock_blocking_copy a_copy = Ok (ret, s') /\ s'.(wire) = a_copy.(wire) ++ done /\
    done `prefix_of` received a_copy.(incoming) /\ 0 <= ret /\ (ret = 0 -> done = received a_copy.(incoming)) /\
    forall e inp, a_copy.(incoming) = RecvError e :: inp -> ret = 0.
Proof. apply (blocking_copy a_copy). repeat constructor; discriminate. Defined.

End Samples.

End Netutils.
