(* ===== verification/SlotTable.v ===== *)
(** Fixed arrays of slots, some of them live and each then carrying a key: the
    shape of the store's user table and of its session table.  A table whose
    live keys are distinct represents a finite map, and the first-free and
    first-match searches of the code implement the map's operations. *)
From S2P Require Import Prelude.

Module SlotTable.

Section SlotTable.
Context {X V K : Type} `{Countable K}.
Variables (live : X -> bool) (key : X -> K) (val : X -> V).

Definition is_key (k : K) (x : X) : Prop := live x = true /\ key x = k.
#[export] Instance is_key_dec k x : Decision (is_key k x).
Proof. unfold is_key. apply _. Defined.

Fixpoint view (l : list X) : gmap K V :=
  match l with
  | [] => ∅
  | x :: l => if live x then <[key x := val x]> (view l) else view l
  end.

Lemma view_lookup l k : view l !! k = (fun ix => val ix.2) <$> list_find (is_key k) l.
Proof.
  induction l as [|x l IH]; [done|]. cbn.
  destruct (live x) eqn:Hu.
  - destruct (decide (key x = k)) as [<-|Hne].
    + rewrite lookup_insert_eq. by rewrite decide_True by done.
    + rewrite lookup_insert_ne by done. rewrite decide_False by (by intros [_ ?]).
      rewrite IH. by destruct (list_find (is_key k) l) as [[]|].
  - rewrite decide_False by (intros [? _]; congruence). rewrite IH.
    by destruct (list_find (is_key k) l) as [[]|].
Qed.

Definition unique (l : list X) : Prop :=
  forall i j x y, l !! i = Some x -> l !! j = Some y ->
    live x = true -> live y = true -> key x = key y -> i = j.

Lemma unique_cons x l : unique (x :: l) -> unique l.
Proof.
  intros Hq i j a b Hi Hj Ha Hb E. assert (S i = S j) as [= ->]; [|done].
  by apply (Hq (S i) (S j) a b).
Qed.

Lemma find_live l k i x : list_find (is_key k) l = Some (i, x) ->
  l !! i = Some x /\ live x = true /\ key x = k.
Proof. intros (Hi & [? ?] & _)%list_find_Some. done. Qed.

Lemma view_none l k : view l !! k = None <-> forall i x, l !! i = Some x -> ~ is_key k x.
Proof. rewrite view_lookup, fmap_None, list_find_None, Forall_lookup. done. Qed.

Lemma view_some l i x : unique l -> l !! i = Some x -> live x = true ->
  view l !! key x = Some (val x) /\ list_find (is_key (key x)) l = Some (i, x).
Proof.
  intros Hun Hi Hx.
  assert (E : list_find (is_key (key x)) l = Some (i, x)).
  { destruct (list_find (is_key (key x)) l) as [[j y]|] eqn:Ef.
    - apply find_live in Ef as (Hj & Hy & Hk).
      assert (j = i) as -> by (apply (Hun j i y x); congruence). congruence.
    - rewrite list_find_None, Forall_lookup in Ef. by destruct (Ef i x Hi). }
  split; [|done]. by rewrite view_lookup, E.
Qed.

Lemma unique_head x l : unique (x :: l) -> live x = true -> view l !! key x = None.
Proof.
  intros Hq Hu. apply view_none. intros i y Hi [Hy E].
  discriminate (Hq 0 (S i) x y eq_refl Hi Hu Hy ltac:(congruence)).
Qed.

(** Filling a slot that is not live. *)
Lemma view_fill l i x y :
  l !! i = Some x -> live x = false -> live y = true -> view l !! key y = None ->
  view (<[i:=y]> l) = <[key y := val y]> (view l).
Proof.
  revert i. induction l as [|z l IH]; intros [|i] Hi Hx Hy Hn; [done..| |].
  - injection Hi as ->. cbn in *. by rewrite Hx, Hy.
  - change (<[S i:=y]> (z :: l)) with (z :: <[i:=y]> l). cbn in *. destruct (live z).
    + destruct (decide (key z = key y)) as [E|E].
      { by rewrite E, lookup_insert_eq in Hn. }
      rewrite lookup_insert_ne in Hn by done. rewrite (IH i) by done. by apply insert_insert_ne.
    + by apply IH.
Qed.

(** Replacing the live slot a search found. *)
Lemma view_replace l k i x y :
  list_find (is_key k) l = Some (i, x) -> live y = true -> key y = k ->
  view (<[i:=y]> l) = <[k := val y]> (view l).
Proof.
  revert i. induction l as [|z l IH]; intros i Hf Hy Hyu; [done|]. cbn in Hf.
  destruct (decide (is_key k z)) as [[Hz E]|Hz].
  - injection Hf as <- <-. cbn. rewrite Hy, Hz, Hyu, E. by rewrite insert_insert_eq.
  - destruct (list_find (is_key k) l) as [[j x']|] eqn:El; [|done]. cbn in Hf.
    injection Hf as <- ->. change (<[S j:=y]> (z :: l)) with (z :: <[j:=y]> l). cbn.
    rewrite (IH j) by done. destruct (live z) eqn:Hu; [|done].
    apply insert_insert_ne. intros E. by apply Hz.
Qed.

(** Freeing it. *)
Lemma view_remove l k i x y :
  unique l -> list_find (is_key k) l = Some (i, x) -> live y = false ->
  view (<[i:=y]> l) = delete k (view l).
Proof.
  revert i. induction l as [|z l IH]; intros i Hun Hf Hy; [done|]. cbn in Hf.
  destruct (decide (is_key k z)) as [[Hz E]|Hz].
  - injection Hf as <- <-. cbn. rewrite Hy, Hz, E. rewrite delete_insert_eq.
    symmetry. apply delete_id. rewrite <- E. by apply unique_head.
  - destruct (list_find (is_key k) l) as [[j x']|] eqn:El; [|done]. cbn in Hf.
    injection Hf as <- ->. change (<[S j:=y]> (z :: l)) with (z :: <[j:=y]> l). cbn.
    rewrite (IH j) by (by apply unique_cons in Hun || done). destruct (live z) eqn:Hu; [|done].
    symmetry. apply delete_insert_ne. intros E. by apply Hz.
Qed.

Lemma size_view l : unique l -> size (view l) = count live l.
Proof.
  induction l as [|x l IH]; intros Hun; [done|]. unfold count in *. cbn.
  specialize (IH (unique_cons _ _ Hun)). destruct (live x) eqn:Hu; [|done].
  rewrite map_size_insert_None by (by apply unique_head). cbn. by rewrite IH.
Qed.

Lemma unique_insert l i y : unique l ->
  (live y = true -> forall j x, j <> i -> l !! j = Some x -> live x = true -> key x <> key y) ->
  unique (<[i:=y]> l).
Proof.
  intros Hun Hy j k a b Ha Hb Hua Hub E.
  destruct (decide (j = k)) as [|Hne]; [done|].
  apply list_lookup_insert_Some in Ha as [(<- & <- & _)|[Hj Ha]];
    apply list_lookup_insert_Some in Hb as [(<- & <- & _)|[Hk Hb]]; try done.
  - exfalso. by apply (Hy Hua k b).
  - exfalso. by apply (Hy Hub j a).
  - by apply (Hun j k a b).
Qed.

(** Filling with a new key, replacing under the same key and freeing keep the
    keys distinct. *)
Lemma unique_fill l i y : unique l -> view l !! key y = None -> unique (<[i:=y]> l).
Proof.
  intros Hun Hn. apply unique_insert; [done|]. intros _ j x _ Hj Hx E.
  rewrite view_none in Hn. by apply (Hn j x Hj).
Qed.

Lemma unique_replace l k i x y : unique l -> list_find (is_key k) l = Some (i, x) ->
  key y = k -> unique (<[i:=y]> l).
Proof.
  intros Hun Hf Hk. destruct (find_live _ _ _ _ Hf) as (Hi & Hx & Hkx).
  apply unique_insert; [done|]. intros _ j z Hne Hj Hz E. apply Hne.
  apply (Hun j i z x); congruence.
Qed.

Lemma unique_free l i y : unique l -> live y = false -> unique (<[i:=y]> l).
Proof. intros Hun Hy. apply unique_insert; [done|]. congruence. Qed.

Lemma unique_app_dead l l' : unique l -> Forall (fun x => live x = false) l' -> unique (l ++ l').
Proof.
  intros Hun Hd. rewrite Forall_lookup in Hd.
  assert (Hin : forall i x, (l ++ l') !! i = Some x -> live x = true -> l !! i = Some x).
  { intros i x [Hi|[_ Hi]]%lookup_app_Some Hx; [done|]. apply Hd in Hi. congruence. }
  intros i j x y Hi Hj Hx Hy. apply Hun; eauto.
Qed.

Lemma view_app_dead l l' : Forall (fun x => live x = false) l' -> view (l ++ l') = view l.
Proof.
  intros Hd. induction l as [|x l IH]; cbn; [|by rewrite IH].
  induction Hd as [|x l' Hx Hd IH]; [done|]. cbn. by rewrite Hx, IH.
Qed.

(** A full table has no dead slot. *)
Lemma full_count l : Forall (fun x => live x <> false) l -> count live l = length l.
Proof.
  intros Hd. unfold count. induction Hd as [|x l Hx Hd IH]; [done|]. cbn.
  destruct (live x); [|done]. cbn. by rewrite IH.
Qed.

End SlotTable.

End SlotTable.
