(* ===== verification/Store.v ===== *)
(** The data of src/server/monitor/store.h and store.c: the one structure the
    proxy and the monitor share, its creation and its runtime configuration.
    Its other operations are in Users, AccessLog, Sessions and Acl.

    A [char] array that holds a string is the string.  Store and string
    pointers are never NULL here. *)
From S2P Require Import Prelude.
Local Open Scope Z_scope.

Module Store.

Definition STORE_MAX_USERS : nat := 256.
Definition STORE_MAX_USERNAME : nat := 64.
Definition STORE_MAX_PASSWORD : nat := 255.
Definition STORE_LOG_CAPACITY : nat := Z.to_nat 4096.
Definition STORE_MAX_DEST_HOST : nat := 255.

Definition STORE_SESSIONS_CAP_MIN : Z := 1.
Definition SELECTOR_MAX_SOCKS_SESSIONS : Z := Z.shiftl 1 14.
Definition STORE_SESSIONS_CAP_MAX : Z := SELECTOR_MAX_SOCKS_SESSIONS.
Definition STORE_SESSIONS_CAP_DEFAULT : Z := 1024.

Inductive store_role := STORE_ROLE_USER | STORE_ROLE_ADMIN.

Inductive store_auth_result := STORE_AUTH_OK | STORE_AUTH_INVALID | STORE_AUTH_NOT_ADMIN.

Inductive store_user_result :=
| STORE_USER_OK | STORE_USER_EXISTS | STORE_USER_NOT_FOUND | STORE_USER_TABLE_FULL
| STORE_USER_LAST_ADMIN.

Inductive store_config_key := STORE_CFG_TIMEOUT | STORE_CFG_SESSIONS_CAP | STORE_CFG_IO_BUFFER_SIZE.

Inductive store_config_result := STORE_CFG_OK | STORE_CFG_UNKNOWN_KEY | STORE_CFG_INVALID_VALUE.

Inductive store_log_state :=
| STORE_LOG_CONNECTED | STORE_LOG_CLOSED | STORE_LOG_FAILED | STORE_LOG_TTL_EXPIRED.

Inductive store_session_phase :=
| STORE_SESSION_AUTH | STORE_SESSION_CONNECTING | STORE_SESSION_RELAY | STORE_SESSION_DONE.

#[export] Instance role_eq_dec : EqDecision store_role.
Proof. solve_decision. Defined.
#[export] Instance auth_result_eq_dec : EqDecision store_auth_result.
Proof. solve_decision. Defined.
#[export] Instance user_result_eq_dec : EqDecision store_user_result.
Proof. solve_decision. Defined.
#[export] Instance config_key_eq_dec : EqDecision store_config_key.
Proof. solve_decision. Defined.
#[export] Instance config_result_eq_dec : EqDecision store_config_result.
Proof. solve_decision. Defined.
#[export] Instance log_state_eq_dec : EqDecision store_log_state.
Proof. solve_decision. Defined.
#[export] Instance phase_eq_dec : EqDecision store_session_phase.
Proof. solve_decision. Defined.

(** Session and log ids are [uint32_t]. *)
Definition STORE_SESSION_INVALID : Z := 0.
Definition STORE_LOG_INVALID : Z := 0.

Record store_metrics := mk_metrics {
  total_connections : Z;        (* uint64_t, all four *)
  concurrent_connections : Z;
  m_bytes_up : Z;
  m_bytes_down : Z;
}.
#[export] Instance eta_metrics : Eta store_metrics := fun m =>
  mk_metrics m.(total_connections) m.(concurrent_connections) m.(m_bytes_up) m.(m_bytes_down).

Record store_log_entry := mk_entry {
  l_id : Z;
  l_username : cstring;
  l_host : cstring;
  l_port : Z;
  l_timestamp : cstring;
  l_state : store_log_state;
  l_bytes_up : Z;
  l_bytes_down : Z;
}.
#[export] Instance eta_entry : Eta store_log_entry := fun e =>
  mk_entry e.(l_id) e.(l_username) e.(l_host) e.(l_port) e.(l_timestamp) e.(l_state)
    e.(l_bytes_up) e.(l_bytes_down).

Record store_active_session := mk_session {
  s_id : Z;
  s_username : cstring;
  s_host : cstring;
  s_port : Z;
  s_phase : store_session_phase;
  s_bytes_up : Z;
  s_bytes_down : Z;
}.
#[export] Instance eta_session : Eta store_active_session := fun s =>
  mk_session s.(s_id) s.(s_username) s.(s_host) s.(s_port) s.(s_phase)
    s.(s_bytes_up) s.(s_bytes_down).

(** The union of an [acl_rule], tagged by its type and, for addresses, by
    [is_v4]; an address is its 4 or 16 bytes. *)
Inductive acl_target :=
| AclHost (host : cstring)
| AclAddress (is_v4 : bool) (addr : list byte).

#[export] Instance acl_target_eq_dec : EqDecision acl_target.
Proof. solve_decision. Defined.

(** The address of a rule in the heap. *)
Definition loc := positive.

Record acl_rule := mk_rule { rule_target : acl_target; next : option loc }.
#[export] Instance eta_rule : Eta acl_rule := fun r => mk_rule r.(rule_target) r.(next).

Record store_user := mk_user {
  used : bool;
  username : cstring;
  password : cstring;
  role : store_role;
}.
#[export] Instance eta_user : Eta store_user := fun u =>
  mk_user u.(used) u.(username) u.(password) u.(role).

Record store_session_node := mk_node {
  active : bool;
  info : store_active_session;
  log_id : Z;
}.
#[export] Instance eta_node : Eta store_session_node := fun n =>
  mk_node n.(active) n.(info) n.(log_id).

Record monitor_store := mk_store {
  users : list store_user;               (* [STORE_MAX_USERS] *)
  user_count : Z;

  metrics : store_metrics;

  log : list store_log_entry;            (* [STORE_LOG_CAPACITY] *)
  log_count : nat;
  log_head : nat;
  next_log_id : Z;

  timeout : Z;
  sessions_cap : Z;
  io_buffer_size : Z;

  denied_hosts : option loc;
  last_denied_host : option loc;
  denied_addresses : option loc;
  last_denied_addr : option loc;

  sessions : list store_session_node;
  sessions_slots : nat;
  next_session_id : Z;

  (* outside the struct: the rules malloc'ed, and the lines written to stdout *)
  heap : gmap loc acl_rule;
  stdout : list cstring;
}.
#[export] Instance eta_store : Eta monitor_store := fun s =>
  mk_store s.(users) s.(user_count) s.(metrics) s.(log) s.(log_count) s.(log_head)
    s.(next_log_id) s.(timeout) s.(sessions_cap) s.(io_buffer_size) s.(denied_hosts)
    s.(last_denied_host) s.(denied_addresses) s.(last_denied_addr) s.(sessions)
    s.(sessions_slots) s.(next_session_id) s.(heap) s.(stdout).

(** What [calloc] leaves. *)
Definition zero_user : store_user := mk_user false [] [] STORE_ROLE_USER.
Definition zero_session : store_active_session := mk_session 0 [] [] 0 STORE_SESSION_AUTH 0 0.
Definition zero_node : store_session_node := mk_node false zero_session 0.
Definition zero_entry : store_log_entry := mk_entry 0 [] [] 0 [] STORE_LOG_CONNECTED 0 0.

(** The store as [store_create] fills it in. *)
Definition initial_store : monitor_store := {|
  users := replicate STORE_MAX_USERS zero_user;
  user_count := 0;
  metrics := mk_metrics 0 0 0 0;
  log := replicate STORE_LOG_CAPACITY zero_entry;
  log_count := 0;
  log_head := 0;
  next_log_id := 1;
  timeout := 0;
  sessions_cap := STORE_SESSIONS_CAP_DEFAULT;
  io_buffer_size := 4096;
  denied_hosts := None;
  last_denied_host := None;
  denied_addresses := None;
  last_denied_addr := None;
  sessions := replicate (Z.to_nat STORE_SESSIONS_CAP_DEFAULT) zero_node;
  sessions_slots := Z.to_nat STORE_SESSIONS_CAP_DEFAULT;
  next_session_id := 1;
  heap := ∅;
  stdout := [];
|}.

(** [alloc_ok], [sessions_ok]: the two [calloc]s succeed. *)
Definition store_create (alloc_ok sessions_ok : bool) : option monitor_store :=
  if alloc_ok && sessions_ok then Some initial_store else None.

(** * Runtime configuration *)

Definition store_grow_sessions_slots (realloc_ok : bool) (store : monitor_store)
    (new_sessions_slots : nat) : store_config_result * monitor_store :=
  if decide (new_sessions_slots <= store.(sessions_slots))%nat then (STORE_CFG_OK, store)
  else if realloc_ok then
    (STORE_CFG_OK,
     store <| sessions ::= (fun l => l ++ replicate (new_sessions_slots - store.(sessions_slots)) zero_node) |>
           <| sessions_slots := new_sessions_slots |>)
  else (STORE_CFG_INVALID_VALUE, store).

Definition store_config_get (store : monitor_store) (key : store_config_key) : Z :=
  match key with
  | STORE_CFG_TIMEOUT => store.(timeout)
  | STORE_CFG_SESSIONS_CAP => store.(sessions_cap)
  | STORE_CFG_IO_BUFFER_SIZE => store.(io_buffer_size)
  end.

Definition store_config_set (realloc_ok : bool) (store : monitor_store) (key : store_config_key)
    (value : Z) : store_config_result * monitor_store :=
  match key with
  | STORE_CFG_TIMEOUT =>
    if decide (value > 86400) then (STORE_CFG_INVALID_VALUE, store)
    else (STORE_CFG_OK, store <| timeout := value |>)
  | STORE_CFG_SESSIONS_CAP =>
    if decide (value < STORE_SESSIONS_CAP_MIN \/ value > STORE_SESSIONS_CAP_MAX)
    then (STORE_CFG_INVALID_VALUE, store)
    else if decide (value < store.(metrics).(concurrent_connections))
    then (STORE_CFG_INVALID_VALUE, store)
    else
      let '(grow, store) :=
        if decide (value > store.(sessions_cap))
        then store_grow_sessions_slots realloc_ok store (Z.to_nat value)
        else (STORE_CFG_OK, store) in
      if decide (grow <> STORE_CFG_OK) then (grow, store)
      else (STORE_CFG_OK, store <| sessions_cap := value |>)
  | STORE_CFG_IO_BUFFER_SIZE =>
    if decide (value < 1024 \/ value > 65536) then (STORE_CFG_INVALID_VALUE, store)
    else (STORE_CFG_OK, store <| io_buffer_size := value |>)
  end.

Definition store_config_key_from_name (param : cstring) : option store_config_key :=
  if decide (param = lit "timeout") then Some STORE_CFG_TIMEOUT
  else if decide (param = lit "max_connections") then Some STORE_CFG_SESSIONS_CAP
  else if decide (param = lit "io_buffer_size") then Some STORE_CFG_IO_BUFFER_SIZE
  else None.

Definition store_metrics_get (store : monitor_store) : store_metrics := store.(metrics).

Definition store_log_state_str (state : store_log_state) : cstring :=
  match state with
  | STORE_LOG_CONNECTED => lit "CONNECTED"
  | STORE_LOG_CLOSED => lit "CLOSED"
  | STORE_LOG_FAILED => lit "FAILED"
  | STORE_LOG_TTL_EXPIRED => lit "TTL_EXPIRED"
  end.

Definition store_session_phase_str (phase : store_session_phase) : cstring :=
  match phase with
  | STORE_SESSION_AUTH => lit "AUTH"
  | STORE_SESSION_CONNECTING => lit "CONNECTING"
  | STORE_SESSION_RELAY => lit "RELAY"
  | STORE_SESSION_DONE => lit "DONE"
  end.

(** ** The configured values stay in their ranges *)

Record config_ok (s : monitor_store) : Prop := {
  ok_timeout : 0 <= s.(timeout) <= 86400;
  ok_cap : 1 <= s.(sessions_cap) <= STORE_SESSIONS_CAP_MAX;
  ok_io : 1024 <= s.(io_buffer_size) <= 65536;
}.

Lemma config_set_ok realloc_ok s key v r s' :
  config_ok s -> 0 <= v -> store_config_set realloc_ok s key v = (r, s') -> config_ok s'.
Proof.
  intros [Ht Hc Hi] Hv. unfold store_config_set, STORE_SESSIONS_CAP_MIN. destruct key.
  - case_decide; intros [= _ <-]; split; cbn; try done; lia.
  - repeat (case_decide; [by intros [= _ <-]|]).
    destruct (if decide _ then _ else _) as [grow s1] eqn:E.
    assert (Hs1 : config_ok s1).
    { case_decide; [|by injection E as _ <-]. unfold store_grow_sessions_slots in E.
      case_decide; [by injection E as _ <-|]. destruct realloc_ok; by injection E as _ <-. }
    destruct Hs1 as [Ht1 Hc1 Hi1].
    destruct (decide (grow <> STORE_CFG_OK)); intros [= _ <-]; split; cbn; try done; lia.
  - case_decide; intros [= _ <-]; split; cbn; try done; lia.
Qed.

Lemma initial_config : config_ok initial_store.
Proof. split; cbn; unfold STORE_SESSIONS_CAP_DEFAULT; try lia. done. Qed.

(** A value that was accepted is the value read back, and no other key moves. *)
Lemma config_set_get realloc_ok s key v s' k :
  store_config_set realloc_ok s key v = (STORE_CFG_OK, s') ->
  store_config_get s' k = if decide (k = key) then v else store_config_get s k.
Proof.
  unfold store_config_set. destruct key.
  - case_decide; [done|]. intros [= <-]. by destruct k.
  - repeat (case_decide; [done|]).
    destruct (if decide _ then _ else _) as [grow s1] eqn:E.
    assert (Hs1 : forall k, store_config_get s1 k = store_config_get s k).
    { intros k'. case_decide; [|by injection E as _ <-]. unfold store_grow_sessions_slots in E.
      case_decide; [by injection E as _ <-|]. destruct realloc_ok; by injection E as _ <-. }
    destruct (decide (grow <> STORE_CFG_OK)); [congruence|]. intros [= <-]. specialize (Hs1 k). by destruct k.
  - case_decide; [done|]. intros [= <-]. by destruct k.
Qed.

(** A value that was refused leaves the store as it was. *)
Lemma config_set_rejected realloc_ok s key v r s' :
  store_config_set realloc_ok s key v = (r, s') -> r <> STORE_CFG_OK -> s' = s.
Proof.
  unfold store_config_set. destruct key.
  - case_decide; by intros [= <- <-].
  - case_decide; [by intros [= <- <-]|]. case_decide; [by intros [= <- <-]|].
    destruct (if decide _ then _ else _) as [grow s1] eqn:E.
    destruct (decide (grow <> STORE_CFG_OK)) as [Hg|]; intros [= <- <-]; [|done]. intros _.
    unfold store_grow_sessions_slots in E.
    case_decide; [case_decide; [|destruct realloc_ok]|]; injection E as <- <-; done.
  - case_decide; by intros [= <- <-].
Qed.

End Store.
