(* ===== verification/Users.v ===== *)
(** The user table of src/server/monitor/store.c: a fixed array of 256 slots
    searched front to back. *)
From S2P Require Import Prelude SlotTable Store.
Import Store.
Local Open Scope Z_scope.

Module Users.

(** A used slot with this name. *)
Abbreviation is_user := (SlotTable.is_key used username).

Definition store_user_validate (store : monitor_store) (u p : cstring) : bool :=
  match list_find (fun x => is_user u x /\ x.(password) = p) store.(users) with
  | Some _ => true
  | None => false
  end.

Definition store_admin_authenticate (store : monitor_store) (u p : cstring) : store_auth_result :=
  match list_find (is_user u) store.(users) with
  | None => STORE_AUTH_INVALID
  | Some (_, x) =>
    if decide (x.(password) <> p) then STORE_AUTH_INVALID
    else match x.(role) with
         | STORE_ROLE_ADMIN => STORE_AUTH_OK
         | STORE_ROLE_USER => STORE_AUTH_NOT_ADMIN
         end
  end.

Definition store_user_exists (store : monitor_store) (u : cstring) : bool :=
  match list_find (is_user u) store.(users) with Some _ => true | None => false end.

Definition store_user_add (store : monitor_store) (u p : cstring) (is_admin : bool)
  : store_user_result * monitor_store :=
  if store_user_exists store u then (STORE_USER_EXISTS, store)
  else match list_find (fun x => x.(used) = false) store.(users) with
  | Some (i, _) =>
    let x := mk_user true (strncpy_nul STORE_MAX_USERNAME u) (strncpy_nul STORE_MAX_PASSWORD p)
               (if is_admin then STORE_ROLE_ADMIN else STORE_ROLE_USER) in
    (STORE_USER_OK, store <| users ::= <[i:=x]> |> <| user_count ::= (fun n => u64 (n + 1)) |>)
  | None => (STORE_USER_TABLE_FULL, store)
  end.

Definition is_admin_slot (x : store_user) : bool :=
  x.(used) && bool_decide (x.(role) = STORE_ROLE_ADMIN).

Definition store_admin_count (store : monitor_store) : nat := count is_admin_slot store.(users).

Definition store_user_delete (store : monitor_store) (u : cstring)
  : store_user_result * monitor_store :=
  match list_find (is_user u) store.(users) with
  | None => (STORE_USER_NOT_FOUND, store)
  | Some (i, x) =>
    if decide (x.(role) = STORE_ROLE_ADMIN /\ (store_admin_count store <= 1)%nat)
    then (STORE_USER_LAST_ADMIN, store)
    else
      let y := x <| used := false |> <| username := [] |> <| password := [] |> in
      (STORE_USER_OK,
       store <| users ::= <[i:=y]> |>
             <| user_count ::= (fun n => if decide (n > 0) then n - 1 else n) |>)
  end.

Definition store_user_set_password (store : monitor_store) (u p : cstring)
  : store_user_result * monitor_store :=
  match list_find (is_user u) store.(users) with
  | None => (STORE_USER_NOT_FOUND, store)
  | Some (i, x) =>
    let y := x <| password := strncpy_nul STORE_MAX_PASSWORD p |> in
    (STORE_USER_OK, store <| users ::= <[i:=y]> |>)
  end.

Definition store_users_foreach {C} (store : monitor_store)
    (fn : cstring -> store_role -> C -> bool * C) (ctx : C) : C :=
  foreach (fun x ctx => if x.(used) then fn x.(username) x.(role) ctx else (true, ctx))
    store.(users) ctx.

(** * Specification: a directory of at most 256 users *)

Abbreviation directory := (gmap cstring (cstring * store_role)).

(** The map a table represents: the first used slot of each name. *)
Abbreviation credentials := (fun x : store_user => (x.(password), x.(role))).
Abbreviation view := (SlotTable.view used username credentials).
Abbreviation unique_names := (SlotTable.unique used username).

Definition dir_admins (m : directory) : nat :=
  size (filter (fun kv => kv.2.2 = STORE_ROLE_ADMIN) m).

Inductive op :=
| Add (u p : cstring) (is_admin : bool)
| Delete (u : cstring)
| SetPassword (u p : cstring)
| Validate (u p : cstring)
| Authenticate (u p : cstring)
| Exists (u : cstring).

Inductive answer :=
| AUser (r : store_user_result)
| ABool (b : bool)
| AAuth (r : store_auth_result).

Definition perform (s : monitor_store) (o : op) : answer * monitor_store :=
  match o with
  | Add u p a => prod_map AUser id (store_user_add s u p a)
  | Delete u => prod_map AUser id (store_user_delete s u)
  | SetPassword u p => prod_map AUser id (store_user_set_password s u p)
  | Validate u p => (ABool (store_user_validate s u p), s)
  | Authenticate u p => (AAuth (store_admin_authenticate s u p), s)
  | Exists u => (ABool (store_user_exists s u), s)
  end.

Definition spec (m : directory) (o : op) : answer * directory :=
  match o with
  | Add u p a =>
    if decide (is_Some (m !! u)) then (AUser STORE_USER_EXISTS, m)
    else if decide (size m < STORE_MAX_USERS)%nat
    then (AUser STORE_USER_OK, <[u := (p, if a then STORE_ROLE_ADMIN else STORE_ROLE_USER)]> m)
    else (AUser STORE_USER_TABLE_FULL, m)
  | Delete u =>
    match m !! u with
    | None => (AUser STORE_USER_NOT_FOUND, m)
    | Some (_, r) =>
      if decide (r = STORE_ROLE_ADMIN /\ (dir_admins m <= 1)%nat)
      then (AUser STORE_USER_LAST_ADMIN, m) else (AUser STORE_USER_OK, delete u m)
    end
  | SetPassword u p =>
    match m !! u with
    | None => (AUser STORE_USER_NOT_FOUND, m)
    | Some (_, r) => (AUser STORE_USER_OK, <[u := (p, r)]> m)
    end
  | Validate u p =>
    (ABool (match m !! u with Some (q, _) => bool_decide (q = p) | None => false end), m)
  | Authenticate u p =>
    (AAuth (match m !! u with
            | Some (q, r) =>
              if decide (q <> p) then STORE_AUTH_INVALID
              else if decide (r = STORE_ROLE_ADMIN) then STORE_AUTH_OK else STORE_AUTH_NOT_ADMIN
            | None => STORE_AUTH_INVALID
            end), m)
  | Exists u => (ABool (bool_decide (is_Some (m !! u))), m)
  end.

(** A sequence of operations, with its answers. *)
Fixpoint run {S} (f : S -> op -> answer * S) (s : S) (os : list op) : list answer * S :=
  match os with
  | [] => ([], s)
  | o :: os => let '(a, s) := f s o in prod_map (cons a) id (run f s os)
  end.

(** The lengths the arrays hold without truncation. *)
Definition small (o : op) : Prop :=
  match o with
  | Add u p _ => (length u <= STORE_MAX_USERNAME /\ length p <= STORE_MAX_PASSWORD)%nat
  | SetPassword _ p => (length p <= STORE_MAX_PASSWORD)%nat
  | _ => True
  end.

(** * The view of the table *)

Lemma admins_view l : unique_names l -> dir_admins (view l) = count is_admin_slot l.
Proof.
  unfold dir_admins. induction l as [|x l IH]; intros Hun; [done|]. unfold count in *. cbn.
  specialize (IH (SlotTable.unique_cons _ _ _ _ Hun)). unfold is_admin_slot at 1.
  destruct (used x) eqn:Hu; cbn; [|done].
  pose proof (SlotTable.unique_head _ _ credentials x l Hun Hu) as Hn. case_bool_decide as Hr.
  - rewrite map_filter_insert_True by done. rewrite map_size_insert_None; [cbn; by rewrite IH|].
    apply map_lookup_filter_None. by left.
  - rewrite map_filter_insert_False by done. by rewrite delete_id by done.
Qed.

(** * Every operation implements the directory *)

(** The table's size and its two counters; this much holds whatever the lengths
    of the names. *)
Record counted (s : monitor_store) : Prop := {
  c_length : length s.(users) = STORE_MAX_USERS;
  c_count : s.(user_count) = Z.of_nat (count used s.(users));
}.

Record wf (s : monitor_store) : Prop := {
  wf_counted : counted s;
  wf_unique : unique_names s.(users);
}.

Lemma count_bound s : counted s -> (count used s.(users) <= 256)%nat.
Proof. intros [H _]. change 256%nat with STORE_MAX_USERS. rewrite <- H. apply count_le. Qed.

Lemma add_counted s u p a r s' : counted s -> store_user_add s u p a = (r, s') -> counted s'.
Proof.
  intros Hc. unfold store_user_add. destruct (store_user_exists s u); [by intros [= _ <-]|].
  destruct (list_find _ (users s)) as [[i x]|] eqn:Ef; [|by intros [= _ <-]].
  apply list_find_Some in Ef as (Hi & Hx & _). pose proof (count_bound s Hc) as Hb.
  destruct Hc as [Hl Hn]. intros [= _ <-].
  split; cbn; [by rewrite length_insert|]. rewrite Hn.
  pose proof (count_insert used (users s) i x
    (mk_user true (strncpy_nul STORE_MAX_USERNAME u) (strncpy_nul STORE_MAX_PASSWORD p)
       (if a then STORE_ROLE_ADMIN else STORE_ROLE_USER)) Hi) as Hci.
  rewrite Hx in Hci. cbn in Hci. rewrite u64_small by lia. lia.
Qed.

Lemma delete_counted s u r s' : counted s -> store_user_delete s u = (r, s') -> counted s'.
Proof.
  intros Hc. unfold store_user_delete.
  destruct (list_find _ (users s)) as [[i x]|] eqn:Ef; [|by intros [= _ <-]].
  apply SlotTable.find_live in Ef as (Hi & Hu & _). destruct Hc as [Hl Hn].
  case_decide; intros [= _ <-]; [by split|].
  split; cbn; [by rewrite length_insert|]. rewrite Hn.
  pose proof (count_insert used (users s) i x
    (x <| used := false |> <| username := [] |> <| password := [] |>) Hi) as Hci.
  rewrite Hu in Hci. cbn in Hci. case_decide; lia.
Qed.

Lemma set_password_counted s u p r s' :
  counted s -> store_user_set_password s u p = (r, s') -> counted s'.
Proof.
  intros Hc. unfold store_user_set_password.
  destruct (list_find _ (users s)) as [[i x]|] eqn:Ef; [|by intros [= _ <-]].
  apply SlotTable.find_live in Ef as (Hi & Hu & _). destruct Hc as [Hl Hn]. intros [= _ <-].
  split; cbn; [by rewrite length_insert|]. rewrite Hn.
  pose proof (count_insert used (users s) i x
    (x <| password := strncpy_nul STORE_MAX_PASSWORD p |>) Hi) as Hci.
  cbn in Hci. destruct (used x); lia.
Qed.

Lemma perform_counted s o a s' : counted s -> perform s o = (a, s') -> counted s'.
Proof.
  intros Hc. destruct o as [u p b|u|u p|u p|u p|u]; cbn; [..|by intros [= _ <-]|by intros [= _ <-]|by intros [= _ <-]].
  - destruct (store_user_add s u p b) eqn:E. intros [= _ <-]. by eapply add_counted.
  - destruct (store_user_delete s u) eqn:E. intros [= _ <-]. by eapply delete_counted.
  - destruct (store_user_set_password s u p) eqn:E. intros [= _ <-]. by eapply set_password_counted.
Qed.

Lemma exists_view s u : store_user_exists s u = bool_decide (is_Some (view s.(users) !! u)).
Proof.
  unfold store_user_exists. rewrite SlotTable.view_lookup. by destruct (list_find _ _) as [[i x]|].
Qed.

Lemma add_refines s u p b : wf s -> small (Add u p b) ->
  let '(a, s') := perform s (Add u p b) in
  spec (view s.(users)) (Add u p b) = (a, view s'.(users)) /\ wf s'.
Proof.
  intros [Hc Hun] [Hu Hp]. cbn. pose proof (add_counted s u p b) as Hcnt.
  unfold store_user_add in *. rewrite exists_view in *. case_bool_decide as He.
  { cbn. split; [by rewrite decide_True|]. by split. }
  rewrite decide_False by done. rewrite SlotTable.size_view by done.
  destruct (list_find _ (users s)) as [[i x]|] eqn:Ef.
  - apply list_find_Some in Ef as (Hi & Hx & _).
    unfold strncpy_nul in *. rewrite !take_ge in * by done. cbn.
    pose proof (count_insert used (users s) i x
      (mk_user true u p (if b then STORE_ROLE_ADMIN else STORE_ROLE_USER)) Hi) as Hci.
    rewrite Hx in Hci. cbn in Hci.
    pose proof (count_le used (<[i:=mk_user true u p (if b then STORE_ROLE_ADMIN else STORE_ROLE_USER)]> s.(users))) as Hle.
    rewrite length_insert, (c_length s Hc) in Hle.
    rewrite decide_True by lia. assert (Hn : view (users s) !! u = None) by (by apply eq_None_not_Some).
    split.
    + by rewrite (SlotTable.view_fill _ _ _ _ i x) by done.
    + split; [by eapply Hcnt|]. cbn. by eapply SlotTable.unique_fill.
  - rewrite decide_False; [by split|].
    rewrite list_find_None in Ef.
    assert (Hall : count used (users s) = length (users s)) by (by apply SlotTable.full_count).
    rewrite Hall, (c_length s Hc). lia.
Qed.

Lemma delete_refines s u : wf s ->
  let '(a, s') := perform s (Delete u) in
  spec (view s.(users)) (Delete u) = (a, view s'.(users)) /\ wf s'.
Proof.
  intros [Hc Hun]. cbn. pose proof (delete_counted s u) as Hcnt.
  unfold store_user_delete, store_admin_count in *. rewrite SlotTable.view_lookup, admins_view by done.
  destruct (list_find _ (users s)) as [[i x]|] eqn:Ef; cbn; [|by split].
  destruct (decide (_ /\ _)); cbn; [by split|].
  split; [by rewrite (SlotTable.view_remove _ _ _ _ u i x)|]. split; [by eapply Hcnt|].
  by apply SlotTable.unique_free.
Qed.

Lemma set_password_refines s u p : wf s -> small (SetPassword u p) ->
  let '(a, s') := perform s (SetPassword u p) in
  spec (view s.(users)) (SetPassword u p) = (a, view s'.(users)) /\ wf s'.
Proof.
  intros [Hc Hun] Hp. cbn in *. pose proof (set_password_counted s u p) as Hcnt.
  unfold store_user_set_password, strncpy_nul in *. rewrite take_ge in * by done.
  rewrite SlotTable.view_lookup. destruct (list_find _ (users s)) as [[i x]|] eqn:Ef; cbn; [|by split].
  destruct (SlotTable.find_live _ _ _ _ _ _ Ef) as (Hi & Hu & Hn).
  split; [by rewrite (SlotTable.view_replace _ _ _ _ u i x)|]. split; [by eapply Hcnt|].
  by eapply SlotTable.unique_replace.
Qed.

Lemma validate_view s u p : wf s ->
  store_user_validate s u p =
  match view s.(users) !! u with Some (q, _) => bool_decide (q = p) | None => false end.
Proof.
  intros [Hc Hun]. unfold store_user_validate. rewrite SlotTable.view_lookup.
  destruct (list_find (fun x => _ /\ _) (users s)) as [[i x]|] eqn:Ef.
  - apply list_find_Some in Ef as (Hi & [[Hu Hn] Hp] & _).
    destruct (list_find (is_user u) (users s)) as [[j y]|] eqn:Eg; cbn.
    + apply SlotTable.find_live in Eg as (Hj & Huy & Hny).
      assert (j = i) as -> by (apply (Hun j i y x); congruence).
      rewrite bool_decide_true; congruence.
    + rewrite list_find_None, Forall_lookup in Eg. by destruct (Eg i x Hi).
  - destruct (list_find (is_user u) (users s)) as [[j y]|] eqn:Eg; cbn; [|done].
    apply SlotTable.find_live in Eg as (Hj & Huy & Hny). rewrite list_find_None, Forall_lookup in Ef.
    rewrite bool_decide_false; [done|]. intros Hp. by destruct (Ef j y Hj).
Qed.

Lemma users_perform_refines s o : wf s -> small o ->
  let '(a, s') := perform s o in spec (view s.(users)) o = (a, view s'.(users)) /\ wf s'.
Proof.
  intros Hwf Hsm. destruct o as [u p b|u|u p|u p|u p|u].
  - by apply add_refines.
  - by apply delete_refines.
  - by apply set_password_refines.
  - cbn. by rewrite validate_view.
  - cbn. split; [|done]. unfold store_admin_authenticate. rewrite SlotTable.view_lookup.
    destruct (list_find _ _) as [[i x]|]; cbn; [|done]. case_decide; [done|]. by destruct (role x).
  - cbn. by rewrite exists_view.
Qed.

Lemma perform_wf s o : wf s -> small o -> wf (perform s o).2.
Proof.
  intros Hs Ho. pose proof (users_perform_refines s o Hs Ho) as H. destruct (perform s o). apply H.
Qed.

(** C17. The array of slots implements a directory: whatever the
    sequence of additions, deletions, password changes, log-ins and look-ups,
    as long as names and passwords fit their fields, every answer is the one a
    finite map of at most 256 users gives - duplicates, unknown users, a full
    table and the last administrator refused, exactly the right password
    accepted - the table still represents that map, its names are unique and
    [user_count] is its size. *)
Theorem users_refine_directory os : forall s,
  wf s -> Forall small os ->
  let '(answers, s') := run perform s os in
  run spec (view s.(users)) os = (answers, view s'.(users)) /\ wf s' /\
  s'.(user_count) = Z.of_nat (size (view s'.(users))).
Proof.
  induction os as [|o os IH]; intros s Hwf Hsm; cbn [run].
  { split_and!; [done..|]. destruct Hwf as [Hc Hun]. rewrite SlotTable.size_view by done. apply Hc. }
  apply Forall_cons in Hsm as [Ho Hsm]. pose proof (users_perform_refines s o Hwf Ho) as Hp.
  destruct (perform s o) as [a s1]. destruct Hp as [-> Hwf1]. specialize (IH s1 Hwf1 Hsm).
  destruct (run perform s1 os) as [answers s']. destruct IH as (-> & Hwf' & Hc). by split_and!.
Qed.

Lemma users_initial_wf : wf initial_store /\ view initial_store.(users) = ∅.
Proof.
  split; [split; [by split|]|done].
  intros i j x y Hi _ Hx. cbn [users initial_store] in Hi. apply lookup_replicate in Hi as [-> _]. done.
Qed.

Lemma users_refine_directory_witness :
  let os := [Add (lit "root") (lit "x") true; Delete (lit "root"); Validate (lit "root") (lit "x")] in
  wf initial_store /\ let '(answers, s') := run perform initial_store os in
  run spec (view initial_store.(users)) os = (answers, view s'.(users)) /\
  wf s' /\ s'.(user_count) = Z.of_nat (size (view s'.(users))).
Proof.
  split; [exact (proj1 users_initial_wf)|].
  apply users_refine_directory.
  - exact (proj1 users_initial_wf).
  - repeat constructor; vm_compute; lia.
Defined.

(** * The last administrator *)

Lemma perform_admins s o a s' :
  perform s o = (a, s') -> (0 < store_admin_count s)%nat -> (0 < store_admin_count s')%nat.
Proof.
  destruct o as [u p b|u|u p|u p|u p|u]; cbn; [..|by intros [= _ <-]|by intros [= _ <-]|by intros [= _ <-]].
  - destruct (store_user_add s u p b) as [r s1] eqn:E. intros [= _ <-]. revert E.
    unfold store_user_add. destruct (store_user_exists s u); [by intros [= _ <-]|].
    destruct (list_find _ (users s)) as [[i x]|] eqn:Ef; [|by intros [= _ <-]].
    apply list_find_Some in Ef as (Hi & Hx & _). intros [= _ <-].
    unfold store_admin_count. cbn.
    match goal with |- context [<[i:=?y]> _] => pose proof (count_insert is_admin_slot _ i x y Hi) as Hc end.
    assert (Hs : is_admin_slot x = false) by (unfold is_admin_slot; by rewrite Hx).
    rewrite Hs in Hc. lia.
  - destruct (store_user_delete s u) as [r s1] eqn:E. intros [= _ <-]. revert E.
    unfold store_user_delete.
    destruct (list_find _ (users s)) as [[i x]|] eqn:Ef; [|by intros [= _ <-]].
    apply SlotTable.find_live in Ef as (Hi & Hu & _). case_decide as Hlast; intros [= _ <-]; [done|].
    unfold store_admin_count in *. cbn.
    match goal with |- context [<[i:=?y]> _] => pose proof (count_insert is_admin_slot _ i x y Hi) as Hc end.
    assert (Hs : is_admin_slot x = true -> role x = STORE_ROLE_ADMIN).
    { unfold is_admin_slot. rewrite Hu. by intros ?%bool_decide_eq_true. }
    change (is_admin_slot (x <| used := false |> <| username := [] |> <| password := [] |>)) with false in Hc.
    destruct (is_admin_slot x); [|lia]. specialize (Hs eq_refl).
    destruct (decide (count is_admin_slot (users s) <= 1)%nat); [tauto|lia].
  - destruct (store_user_set_password s u p) as [r s1] eqn:E. intros [= _ <-]. revert E.
    unfold store_user_set_password.
    destruct (list_find _ (users s)) as [[i x]|] eqn:Ef; [|by intros [= _ <-]].
    apply SlotTable.find_live in Ef as (Hi & Hu & _). intros [= _ <-].
    unfold store_admin_count. cbn.
    match goal with |- context [<[i:=?y]> _] => pose proof (count_insert is_admin_slot _ i x y Hi) as Hc end.
    replace (is_admin_slot (x <| password := strncpy_nul STORE_MAX_PASSWORD p |>))
      with (is_admin_slot x) in Hc by done. lia.
Qed.

(** C32. Once the table has an administrator it always has one:
    no sequence of operations, with names and passwords of any length, removes
    the last. The slot counter is exact throughout. *)
Theorem admin_survives os : forall s,
  counted s -> (0 < store_admin_count s)%nat ->
  let s' := (run perform s os).2 in
  (0 < store_admin_count s')%nat /\ counted s'.
Proof.
  induction os as [|o os IH]; intros s Hc Ha; cbn [run]; [done|].
  destruct (perform s o) as [a s1] eqn:E.
  specialize (IH s1 (perform_counted _ _ _ _ Hc E) (perform_admins _ _ _ _ E Ha)).
  destruct (run perform s1 os). exact IH.
Qed.

Lemma admin_survives_witness :
  let s := (store_user_add initial_store (lit "root") (lit "x") true).2 in
  counted s /\ (0 < store_admin_count (run perform s [Delete (lit "root"); Delete (lit "root")]).2)%nat.
Proof.
  assert (Hc : counted (store_user_add initial_store (lit "root") (lit "x") true).2)
    by (split; vm_compute; reflexivity).
  split; [exact Hc|].
  exact (proj1 (admin_survives [Delete (lit "root"); Delete (lit "root")] _ Hc
    ltac:(vm_compute; lia))).
Defined.

(** The duplicate check compares the whole name, the table keeps 64 bytes of
    it: the same name longer than that can be added twice, and then the two
    entries are one user with two passwords. *)
Theorem long_names_duplicate :
  let u := replicate 65 "a"%byte in
  let '(r1, s1) := store_user_add initial_store u (lit "p") false in
  let '(r2, s2) := store_user_add s1 u (lit "q") false in
  r1 = STORE_USER_OK /\ r2 = STORE_USER_OK /\ ~ unique_names s2.(users).
Proof.
  split_and!; [reflexivity..|]. intros H.
  discriminate (H 0%nat 1%nat _ _ eq_refl eq_refl eq_refl eq_refl eq_refl).
Qed.

End Users.
