(* ===== verification/AccessLog.v ===== *)
(** The access log of src/server/monitor/store.c: a circular array of 4096
    entries, each also written to standard output when it is made and when it
    is closed.  The present time is an argument. *)
From S2P Require Import Prelude Store.
Import Store.
Local Open Scope Z_scope.

Module AccessLog.

Definition store_log_print (e : store_log_entry) : cstring :=
  e.(l_username) ++ lit ": " ++ e.(l_host) ++ lit ":" ++ dec e.(l_port) ++ lit " " ++
  e.(l_timestamp) ++ lit " " ++ store_log_state_str e.(l_state) ++
  lit " up=" ++ dec e.(l_bytes_up) ++ lit " down=" ++ dec e.(l_bytes_down) ++ [x0a].

Definition print (e : store_log_entry) (s : monitor_store) : monitor_store :=
  s <| stdout ::= (fun o => o ++ [store_log_print e]) |>.

(** The slot a new entry goes to. *)
Definition log_slot (s : monitor_store) : nat :=
  if decide (s.(log_count) < STORE_LOG_CAPACITY)%nat then s.(log_count) else s.(log_head).

Definition store_log_append (now : cstring) (s : monitor_store) (u h : cstring) (port : Z)
    (state : store_log_state) : Z * monitor_store :=
  let i := log_slot s in
  let s := if decide (s.(log_count) < STORE_LOG_CAPACITY)%nat then s <| log_count ::= S |>
           else s <| log_head ::= (fun h => (h + 1) `mod` STORE_LOG_CAPACITY)%nat |> in
  let e := mk_entry s.(next_log_id) (strncpy_nul STORE_MAX_USERNAME u)
             (strncpy_nul STORE_MAX_DEST_HOST h) port now state 0 0 in
  let s := s <| next_log_id ::= (fun n => u32 (n + 1)) |> in
  let s := s <| log ::= <[i:=e]> |> in
  (e.(l_id), print e s).

Definition store_log_update (s : monitor_store) (id : Z) (state : store_log_state) (up down : Z)
  : monitor_store :=
  if decide (id = STORE_LOG_INVALID \/ s.(log_count) = 0%nat) then s
  else match list_find (fun e => e.(l_id) = id) (take s.(log_count) s.(log)) with
  | None => s
  | Some (i, e) =>
    let e := e <| l_state := state |> <| l_bytes_up := up |> <| l_bytes_down := down |> in
    let s := s <| log ::= <[i:=e]> |> in
    if decide (state <> STORE_LOG_CONNECTED) then print e s else s
  end.

(** The entry the loop of [store_log_foreach] visits at this offset. *)
Definition log_index (s : monitor_store) (offset : nat) : nat :=
  if decide (s.(log_count) < STORE_LOG_CAPACITY)%nat then (s.(log_count) - 1 - offset)%nat
  else ((s.(log_head) + STORE_LOG_CAPACITY - 1 - offset) `mod` STORE_LOG_CAPACITY)%nat.

Definition entry_at (s : monitor_store) (offset : nat) : store_log_entry :=
  default zero_entry (s.(log) !! log_index s offset).

Definition store_log_foreach {C} (s : monitor_store) (username_filter : option cstring)
    (fn : store_log_entry -> C -> bool * C) (ctx : C) : C :=
  foreach (fun offset ctx =>
    let e := entry_at s offset in
    if decide (username_filter <> None /\ username_filter <> Some e.(l_username))
    then (true, ctx) else fn e ctx) (seq 0 s.(log_count)) ctx.

(** * Specification: the last 4096 entries, newest first *)

Definition recent (s : monitor_store) : list store_log_entry :=
  entry_at s <$> seq 0 s.(log_count).

Record wf (s : monitor_store) : Prop := {
  wf_length : length s.(log) = STORE_LOG_CAPACITY;
  wf_count : (s.(log_count) <= STORE_LOG_CAPACITY)%nat;
  wf_head : (s.(log_head) < STORE_LOG_CAPACITY)%nat;
  wf_filling : (s.(log_count) < STORE_LOG_CAPACITY)%nat -> s.(log_head) = 0%nat;
  wf_next : 0 <= s.(next_log_id) < 2 ^ 32;
  wf_ids : forall k, (k < s.(log_count))%nat ->
    (entry_at s k).(l_id) = u32 (s.(next_log_id) - 1 - Z.of_nat k);
}.

Inductive op :=
| Append (now u h : cstring) (port : Z) (state : store_log_state)
| Update (id : Z) (state : store_log_state) (up down : Z).

Definition perform (s : monitor_store) (o : op) : monitor_store :=
  match o with
  | Append now u h p st => (store_log_append now s u h p st).2
  | Update id st up down => store_log_update s id st up down
  end.

(** The list that grows at its head and forgets its tail, with the id of the
    next entry and the lines printed. *)
Record journal := mk_journal { kept : list store_log_entry; j_next : Z; printed : list cstring }.

Definition amend (id : Z) (st : store_log_state) (up down : Z) (e : store_log_entry)
  : store_log_entry :=
  if decide (e.(l_id) = id)
  then e <| l_state := st |> <| l_bytes_up := up |> <| l_bytes_down := down |> else e.

Definition spec (j : journal) (o : op) : journal :=
  match o with
  | Append now u h p st =>
    let e := mk_entry j.(j_next) (take STORE_MAX_USERNAME u) (take STORE_MAX_DEST_HOST h) p now st 0 0 in
    mk_journal (take STORE_LOG_CAPACITY (e :: j.(kept))) (u32 (j.(j_next) + 1))
      (j.(printed) ++ [store_log_print e])
  | Update id st up down =>
    if decide (id = STORE_LOG_INVALID) then j else
    mk_journal (amend id st up down <$> j.(kept)) j.(j_next)
      (j.(printed) ++
       if decide (st <> STORE_LOG_CONNECTED)
       then store_log_print <$> filter (fun e => e.(l_id) = id) (amend id st up down <$> j.(kept))
       else [])
  end.

Definition view (s : monitor_store) : journal := mk_journal (recent s) s.(next_log_id) s.(stdout).

Lemma mod_wrap a n : (a < n + n)%nat -> (a `mod` n)%nat = if decide (a < n)%nat then a else (a - n)%nat.
Proof.
  intros H. case_decide; [by apply Nat.mod_small|].
  replace a with ((a - n) + 1 * n)%nat at 1 by lia.
  rewrite Nat.Div0.mod_add. apply Nat.mod_small. lia.
Qed.

Lemma recent_lookup s k : recent s !! k =
  if decide (k < s.(log_count))%nat then Some (entry_at s k) else None.
Proof.
  unfold recent. rewrite list_lookup_fmap. case_decide.
  - by rewrite lookup_seq_lt.
  - by rewrite lookup_seq_ge by lia.
Qed.

Lemma recent_length s : length (recent s) = s.(log_count).
Proof. unfold recent. by rewrite length_fmap, length_seq. Qed.

Lemma capacity_pos : (0 < STORE_LOG_CAPACITY)%nat.
Proof. unfold STORE_LOG_CAPACITY. lia. Qed.
#[global] Opaque STORE_LOG_CAPACITY.

Lemma log_index_lt s k : wf s -> (k < s.(log_count))%nat -> (log_index s k < length s.(log))%nat.
Proof.
  intros H Hk. rewrite (wf_length s H). pose proof capacity_pos. unfold log_index. case_decide.
  - pose proof (wf_count s H). lia.
  - apply Nat.mod_upper_bound. lia.
Qed.

(** Different offsets are different slots. *)
Lemma log_index_inj s j k : wf s -> (j < s.(log_count))%nat -> (k < s.(log_count))%nat ->
  log_index s j = log_index s k -> j = k.
Proof.
  intros H Hj Hk. pose proof (wf_count s H). pose proof (wf_head s H). unfold log_index.
  case_decide; [lia|]. rewrite !mod_wrap by lia. repeat case_decide; lia.
Qed.

(** What an append does to the offsets. *)
Lemma log_index_append s s' : wf s ->
  s'.(log_count) = (if decide (s.(log_count) < STORE_LOG_CAPACITY)%nat then S s.(log_count) else s.(log_count)) ->
  s'.(log_head) = (if decide (s.(log_count) < STORE_LOG_CAPACITY)%nat then s.(log_head)
                   else ((s.(log_head) + 1) `mod` STORE_LOG_CAPACITY)%nat) ->
  log_index s' 0 = log_slot s /\
  forall k, (S k < s'.(log_count))%nat ->
    log_index s' (S k) = log_index s k /\ log_index s k <> log_slot s.
Proof.
  intros H Hc Hh. pose proof (wf_count s H). pose proof (wf_head s H). pose proof (wf_filling s H).
  pose proof capacity_pos. unfold log_index, log_slot. rewrite Hc, Hh.
  destruct (decide (log_count s < STORE_LOG_CAPACITY)%nat) as [Hlt|Hge].
  - assert (Hh0 : log_head s = 0%nat) by auto. rewrite Hh0.
    destruct (decide (S (log_count s) < STORE_LOG_CAPACITY)%nat) as [Hlt'|Hge'].
    + split; [lia|]. intros k Hk. lia.
    + rewrite mod_wrap by lia. rewrite decide_True by lia. split; [lia|].
      intros k Hk. rewrite mod_wrap by lia. rewrite decide_True by lia. lia.
  - rewrite (decide_False (P := (log_count s < STORE_LOG_CAPACITY)%nat)) by done.
    rewrite (mod_wrap (log_head s + 1)) by lia.
    rewrite mod_wrap by (case_decide; lia). split.
    + repeat case_decide; lia.
    + intros k Hk. rewrite !mod_wrap by (repeat case_decide; lia). repeat case_decide; lia.
Qed.

Lemma u32_sub a b : u32 (u32 a - b) = u32 (a - b).
Proof. unfold u32. apply Zminus_mod_idemp_l. Qed.

Lemma append_entries now s u h p st id s' :
  wf s -> store_log_append now s u h p st = (id, s') ->
  let e := mk_entry s.(next_log_id) (take STORE_MAX_USERNAME u) (take STORE_MAX_DEST_HOST h) p now st 0 0 in
  id = s.(next_log_id) /\ s'.(next_log_id) = u32 (s.(next_log_id) + 1) /\
  s'.(stdout) = s.(stdout) ++ [store_log_print e] /\
  length s'.(log) = STORE_LOG_CAPACITY /\
  s'.(log_count) = (if decide (s.(log_count) < STORE_LOG_CAPACITY)%nat then S s.(log_count) else s.(log_count)) /\
  s'.(log_head) = (if decide (s.(log_count) < STORE_LOG_CAPACITY)%nat then s.(log_head)
                   else ((s.(log_head) + 1) `mod` STORE_LOG_CAPACITY)%nat) /\
  entry_at s' 0 = e /\
  forall k, (S k < s'.(log_count))%nat -> entry_at s' (S k) = entry_at s k.
Proof.
  intros Hwf. unfold store_log_append.
  assert (Hslot : (log_slot s < length (log s))%nat).
  { rewrite (wf_length s Hwf). pose proof (wf_head s Hwf). unfold log_slot. case_decide; lia. }
  pose proof (log_index_append s) as Hidx.
  destruct (decide (log_count s < STORE_LOG_CAPACITY)%nat) as [Hd|Hd]; intros [<- <-]%pair_equal_spec; cbn zeta;
    (match goal with |- context [print ?e ?s0] => set (s' := print e s0) end);
    (destruct (Hidx s' Hwf eq_refl eq_refl) as [H0 HS]);
    (split_and!; try done;
     [cbn; rewrite length_insert; apply Hwf
     |unfold entry_at; rewrite H0; cbn; by rewrite list_lookup_insert_eq
     |intros k Hk; destruct (HS k Hk) as [E Hne]; unfold entry_at; rewrite E; cbn;
      by rewrite list_lookup_insert_ne]).
Qed.

Lemma append_refines now s u h p st : wf s ->
  let s' := (store_log_append now s u h p st).2 in
  view s' = spec (view s) (Append now u h p st) /\ wf s'.
Proof.
  intros Hwf. destruct (store_log_append now s u h p st) as [id s'] eqn:E. cbn [snd].
  pose proof (append_entries _ _ _ _ _ _ _ _ Hwf E) as H. cbn zeta in H.
  destruct H as (_ & Hn & Ho & Hl & Hc & Hh & H0 & HS).
  pose proof capacity_pos. pose proof (wf_count s Hwf). pose proof (wf_head s Hwf).
  pose proof (wf_next s Hwf) as Hnx.
  split.
  - unfold view, spec. rewrite Hn, Ho. cbn [kept j_next printed]. f_equal.
    apply list_eq. intros k. rewrite recent_lookup. destruct (decide (k < STORE_LOG_CAPACITY)%nat) as [Hk|Hk].
    + rewrite lookup_take_lt by done. destruct k as [|k]; cbn.
      * rewrite decide_True by (rewrite Hc; case_decide; lia). by rewrite H0.
      * rewrite recent_lookup. destruct (decide (k < log_count s)%nat) as [Hlt|Hlt].
        -- rewrite decide_True by (rewrite Hc; case_decide; lia).
           rewrite HS; [done|]. rewrite Hc; case_decide; lia.
        -- rewrite decide_False; [done|]. revert Hlt; rewrite Hc; case_decide; lia.
    + rewrite lookup_take_ge by lia. rewrite decide_False; [done|]. rewrite Hc. case_decide; lia.
  - split; [done|rewrite Hc; case_decide; lia| | | |].
    + rewrite Hh. case_decide; [done|]. apply Nat.mod_upper_bound. lia.
    + rewrite Hc, Hh. case_decide; [|lia]. intros _. by apply Hwf.
    + rewrite Hn. apply Z.mod_pos_bound. lia.
    + intros k Hk. rewrite Hn. destruct k as [|k].
      * rewrite H0. cbn. rewrite Z.sub_0_r, u32_sub.
        replace (next_log_id s + 1 - 1) with (next_log_id s) by lia. by rewrite u32_small.
      * rewrite HS by done. rewrite (wf_ids s Hwf) by (revert Hk; rewrite Hc; case_decide; lia).
        replace (u32 (next_log_id s + 1) - 1 - Z.of_nat (S k)) with (u32 (next_log_id s + 1) - (2 + Z.of_nat k)) by lia.
        rewrite u32_sub. f_equal. lia.
Qed.

(** Ids do not repeat inside the window, even when the counter wraps. *)
Lemma ids_inj s j k : wf s -> (j < s.(log_count))%nat -> (k < s.(log_count))%nat ->
  (entry_at s j).(l_id) = (entry_at s k).(l_id) -> j = k.
Proof.
  intros H Hj Hk. rewrite !(wf_ids s H) by done. pose proof (wf_count s H) as Hc.
  assert (Hcap : (STORE_LOG_CAPACITY <= 4096)%nat) by (with_strategy transparent [STORE_LOG_CAPACITY] unfold STORE_LOG_CAPACITY; lia).
  unfold u32. intros E.
  assert (Hd : (Z.of_nat k - Z.of_nat j) mod 2 ^ 32 = 0).
  { replace (Z.of_nat k - Z.of_nat j) with
      ((next_log_id s - 1 - Z.of_nat j) - (next_log_id s - 1 - Z.of_nat k)) by lia.
    rewrite Zminus_mod, E, Z.sub_diag. done. }
  apply Z.mod_divide in Hd as [q Hq]; [|lia]. assert (q = 0) by nia. lia.
Qed.

Lemma log_index_involutive s i : wf s -> (i < s.(log_count))%nat ->
  (log_index s i < s.(log_count))%nat /\ log_index s (log_index s i) = i.
Proof.
  intros H Hi. pose proof (wf_count s H). pose proof (wf_head s H). unfold log_index.
  case_decide; [lia|]. rewrite (mod_wrap (_ - i)) by lia.
  split; [case_decide; lia|]. rewrite mod_wrap by (case_decide; lia). repeat case_decide; lia.
Qed.

Lemma amend_id id st up down e : (amend id st up down e).(l_id) = e.(l_id).
Proof. unfold amend. by case_decide. Qed.

Lemma recent_ids s k e : recent s !! k = Some e -> (k < s.(log_count))%nat /\ e = entry_at s k.
Proof. rewrite recent_lookup. case_decide; [|done]. by intros [= <-]. Qed.

(** Updating an id that is not in the window changes nothing. *)
Lemma amend_absent s id st up down :
  (forall k, (k < s.(log_count))%nat -> (entry_at s k).(l_id) <> id) ->
  amend id st up down <$> recent s = recent s.
Proof.
  intros H. apply list_eq. intros k. rewrite list_lookup_fmap.
  destruct (recent s !! k) as [e|] eqn:E; [|done]. apply recent_ids in E as [Hk ->]. cbn.
  unfold amend. by rewrite decide_False by auto.
Qed.

(** An offset of the window and its slot. *)
Lemma slot_entry s i e : wf s -> take s.(log_count) s.(log) !! i = Some e ->
  exists k, (k < s.(log_count))%nat /\ log_index s k = i /\ entry_at s k = e.
Proof.
  intros Hwf Hi. apply lookup_take_Some in Hi as [Hi Hlt].
  destruct (log_index_involutive s i Hwf Hlt) as [Hk Hinv].
  exists (log_index s i). split_and!; [done..|]. unfold entry_at. by rewrite Hinv, Hi.
Qed.

Lemma entry_in_window s k : wf s -> (k < s.(log_count))%nat ->
  take s.(log_count) s.(log) !! log_index s k = Some (entry_at s k).
Proof.
  intros Hwf Hk. rewrite lookup_take_lt by (by apply log_index_involutive).
  destruct (lookup_lt_is_Some_2 _ _ (log_index_lt s k Hwf Hk)) as [e He].
  unfold entry_at. by rewrite He.
Qed.

Lemma update_refines s id st up down : wf s ->
  let s' := store_log_update s id st up down in
  view s' = spec (view s) (Update id st up down) /\ wf s' /\ s'.(next_log_id) = s.(next_log_id).
Proof.
  intros Hwf. unfold store_log_update. cbn zeta. cbn [spec].
  destruct (decide (id = STORE_LOG_INVALID)) as [Hz|Hz].
  { rewrite decide_True by auto. done. }
  assert (Habs : (forall k, (k < s.(log_count))%nat -> (entry_at s k).(l_id) <> id) ->
    view s = mk_journal (amend id st up down <$> kept (view s)) (j_next (view s)) (printed (view s) ++
       if decide (st <> STORE_LOG_CONNECTED)
       then store_log_print <$> filter (fun e => e.(l_id) = id) (amend id st up down <$> kept (view s)) else [])).
  { intros H. cbn. rewrite amend_absent by done. rewrite filter_nothing.
    - cbn. case_decide; by rewrite app_nil_r.
    - intros k e Hk. apply recent_ids in Hk as [Hk ->]. by apply H. }
  destruct (decide (log_count s = 0%nat)) as [Hc|Hc].
  { rewrite decide_True by auto. split; [|done]. apply Habs. lia. }
  rewrite decide_False by tauto.
  destruct (list_find _ _) as [[i e]|] eqn:Ef.
  2:{ split; [|done]. apply Habs. intros k Hk. rewrite list_find_None, Forall_lookup in Ef.
      by apply (Ef (log_index s k)), entry_in_window. }
  clear Habs. apply list_find_Some in Ef as (Hi & Hid & _).
  destruct (slot_entry s i e Hwf Hi) as (k & Hk & Hki & Hke).
  set (e' := e <| l_state := st |> <| l_bytes_up := up |> <| l_bytes_down := down |>).
  set (s1 := s <| log ::= <[i:=e']> |>).
  assert (Hat : forall j, (j < s.(log_count))%nat -> entry_at s1 j = amend id st up down (entry_at s j)).
  { intros j Hj. unfold amend. destruct (decide (l_id (entry_at s j) = id)) as [Ej|Ej].
    - assert (j = k) as -> by (apply (ids_inj s); congruence). rewrite Hke.
      unfold entry_at. change (log_index s1 k) with (log_index s k). rewrite Hki. cbn.
      by rewrite list_lookup_insert_eq by (rewrite <- Hki; by apply log_index_lt).
    - unfold entry_at. change (log_index s1 j) with (log_index s j). cbn.
      rewrite list_lookup_insert_ne; [done|]. intros E. rewrite <- Hki in E.
      apply log_index_inj in E as ->; congruence. }
  assert (Hrec : recent s1 = amend id st up down <$> recent s).
  { apply list_eq. intros j. rewrite list_lookup_fmap, !recent_lookup. cbn.
    case_decide; [|done]. cbn. by rewrite Hat. }
  assert (Hwf1 : wf s1).
  { split; cbn; [by rewrite length_insert; apply Hwf|apply Hwf..|].
    intros j Hj. rewrite Hat, amend_id by done. by apply (wf_ids s). }
  assert (Hfil : filter (fun e => e.(l_id) = id) (amend id st up down <$> recent s) = [e']).
  { rewrite <- Hrec. apply (filter_single _ _ k).
    - rewrite recent_lookup. cbn. rewrite decide_True by done. rewrite Hat by done.
      unfold amend. by rewrite Hke, decide_True.
    - done.
    - intros j y Hj Hy. apply recent_ids in Hj as [Hj ->].
      apply (ids_inj s1); [done..|]. rewrite Hy, Hat, amend_id by done. congruence. }
  destruct (decide (st <> STORE_LOG_CONNECTED)) as [Hst|Hst].
  - split_and!; [|by destruct Hwf1; split|done]. unfold view. cbn [kept printed j_next].
    rewrite Hfil. rewrite <- Hrec. done.
  - split_and!; [|done|done]. unfold view. cbn [kept printed j_next]. rewrite app_nil_r.
    rewrite <- Hrec. done.
Qed.

Lemma log_perform_refines s o : wf s -> view (perform s o) = spec (view s) o /\ wf (perform s o).
Proof.
  intros Hwf. destruct o; cbn [perform].
  - by apply append_refines.
  - destruct (update_refines s id state up down Hwf) as (? & ? & _). done.
Qed.

Lemma log_initial_wf : wf initial_store.
Proof.
  split; cbn [log log_count log_head next_log_id initial_store]; try lia.
  - by rewrite length_replicate.
  - apply capacity_pos.
Qed.

(** C18. The circular array is the journal that remembers the last
    4096 entries: after any sequence of appends and updates, reading it from
    [log_head] backwards gives the newest entries first, each with the state and
    byte counts last written to its id; an update of an id that has been
    overwritten touches nothing, ids in the window never repeat although the
    counter wraps at 2^32; and standard output got one line per append and per
    closing update. *)
Theorem log_refines_journal os : forall s, wf s ->
  view (foldl perform s os) = foldl spec (view s) os /\ wf (foldl perform s os).
Proof.
  induction os as [|o os IH]; intros s Hwf; cbn [foldl]; [done|].
  destruct (log_perform_refines s o Hwf) as [<- Hwf']. by apply IH.
Qed.

Lemma log_refines_journal_witness :
  let os := [Append (lit "now") (lit "u") (lit "h") 80 STORE_LOG_CONNECTED;
             Update 1 STORE_LOG_CLOSED 10 20] in
  view (foldl perform initial_store os) = foldl spec (view initial_store) os /\
  wf (foldl perform initial_store os).
Proof. apply (log_refines_journal _ initial_store log_initial_wf). Defined.

(** Iterating the log is iterating the kept entries, newest first, restricted
    to one user if a filter is given. *)
Definition selected (f : option cstring) (e : store_log_entry) : Prop :=
  match f with None => True | Some u => e.(l_username) = u end.
#[export] Instance selected_dec f e : Decision (selected f e).
Proof. destruct f; cbn; apply _. Defined.

Lemma log_foreach_spec {C} s f (fn : store_log_entry -> C -> bool * C) ctx :
  store_log_foreach s f fn ctx = foreach fn (filter (selected f) (recent s)) ctx.
Proof.
  unfold store_log_foreach, recent. revert ctx. induction (seq 0 (log_count s)) as [|k ks IH]; intros ctx; [done|].
  cbn [foreach fmap list_fmap]. rewrite filter_cons. cbn zeta.
  destruct (decide (selected f (entry_at s k))) as [Hs|Hs].
  - rewrite decide_False by (destruct f; cbn in Hs; naive_solver). cbn [foreach].
    destruct (fn (entry_at s k) ctx) as [[] ctx']; [apply IH|done].
  - rewrite decide_True by (destruct f; cbn in Hs; [split; congruence|done]). apply IH.
Qed.

#[global] Arguments store_log_append : simpl never.
#[global] Arguments store_log_update : simpl never.

End AccessLog.
