(* ===== verification/Sessions.v ===== *)
(** The table of active SOCKS sessions of src/server/monitor/store.c, with the
    metrics and the access-log entries that follow a session's life. *)
From S2P Require Import Prelude SlotTable Store AccessLog.
Import Store AccessLog.
Local Open Scope Z_scope.

Module Sessions.

#[local] Arguments Nat.max : simpl never.

Definition node_id (n : store_session_node) : Z := n.(info).(s_id).

(** The slot a session's id is found in. *)
Definition store_find_session (s : monitor_store) (id : Z) : option (nat * store_session_node) :=
  if decide (id = 0) then None
  else list_find (SlotTable.is_key active node_id id) s.(sessions).

Definition put (i : nat) (n : store_session_node) (s : monitor_store) : monitor_store :=
  s <| sessions ::= <[i:=n]> |>.
#[global] Arguments put : simpl never.

(** [node] is slot [i]. *)
Definition store_session_remove (s : monitor_store) (i : nat) (node : store_session_node)
  : monitor_store :=
  if negb node.(active) then s else
  (put i (node <| active := false |>) s)
    <| metrics ::= (fun m => m <| concurrent_connections ::=
         (fun c => if decide (c > 0) then c - 1 else c) |>) |>.

Definition store_session_begin (s : monitor_store) : Z * monitor_store :=
  if decide (s.(metrics).(concurrent_connections) >= s.(sessions_cap))
  then (STORE_SESSION_INVALID, s)
  else match list_find (fun n => n.(active) = false) s.(sessions) with
  | Some (i, _) =>
    let id := s.(next_session_id) in
    let node := mk_node true (mk_session id [] [] 0 STORE_SESSION_AUTH 0 0) STORE_LOG_INVALID in
    (id, (put i node s)
      <| next_session_id := u32 (id + 1) |>
      <| metrics ::= (fun m => m <| total_connections ::= (fun c => u64 (c + 1)) |>
                                <| concurrent_connections ::= (fun c => u64 (c + 1)) |>) |>)
  | None => (STORE_SESSION_INVALID, s)
  end.

Definition store_session_set_user (s : monitor_store) (id : Z) (u : cstring) : monitor_store :=
  match store_find_session s id with
  | None => s
  | Some (i, n) =>
    put i (n <| info ::= (fun x => x <| s_username := strncpy_nul STORE_MAX_USERNAME u |>) |>) s
  end.

Definition store_session_set_dest (now : cstring) (s : monitor_store) (id : Z) (host : cstring)
    (port : Z) : Z * monitor_store :=
  match store_find_session s id with
  | None => (STORE_LOG_INVALID, s)
  | Some (i, n) =>
    let n := n <| info ::= (fun x =>
      x <| s_host := strncpy_nul STORE_MAX_DEST_HOST host |> <| s_port := port |>
        <| s_phase := STORE_SESSION_RELAY |>) |> in
    let '(n, s) :=
      if decide (n.(info).(s_username) <> []) then
        let '(lid, s) := store_log_append now s n.(info).(s_username) host port STORE_LOG_CONNECTED in
        (n <| log_id := lid |>, s)
      else (n, s) in
    (n.(log_id), put i n s)
  end.

Definition store_session_set_phase (s : monitor_store) (id : Z) (phase : store_session_phase)
  : monitor_store :=
  match store_find_session s id with
  | None => s
  | Some (i, n) => put i (n <| info ::= (fun x => x <| s_phase := phase |>) |>) s
  end.

Definition store_session_add_bytes (s : monitor_store) (id up down : Z) : monitor_store :=
  match store_find_session s id with
  | None => s
  | Some (i, n) =>
    let n := n <| info ::= (fun x => x <| s_bytes_up ::= (fun b => u64 (b + up)) |>
                                       <| s_bytes_down ::= (fun b => u64 (b + down)) |>) |> in
    let s := (put i n s)
      <| metrics ::= (fun m => m <| m_bytes_up ::= (fun b => u64 (b + up)) |>
                                 <| m_bytes_down ::= (fun b => u64 (b + down)) |>) |> in
    if decide (n.(log_id) <> STORE_LOG_INVALID)
    then store_log_update s n.(log_id) STORE_LOG_CONNECTED n.(info).(s_bytes_up) n.(info).(s_bytes_down)
    else s
  end.

(** [info.username[0] != 0 && info.host[0] != 0]. *)
Definition has_user_and_host (x : store_active_session) : Prop :=
  x.(s_username) <> [] /\ x.(s_host) <> [].
#[export] Instance has_user_and_host_dec x : Decision (has_user_and_host x).
Proof. unfold has_user_and_host. apply _. Defined.

Definition store_session_mark_failed (now : cstring) (s : monitor_store) (id : Z) : monitor_store :=
  match store_find_session s id with
  | None => s
  | Some (i, n) =>
    let s := if decide (has_user_and_host n.(info))
      then (store_log_append now s n.(info).(s_username) n.(info).(s_host) n.(info).(s_port)
              STORE_LOG_FAILED).2
      else s in
    store_session_remove s i n
  end.

Definition store_session_end (s : monitor_store) (id : Z) : monitor_store :=
  match store_find_session s id with
  | None => s
  | Some (i, n) =>
    let s := if decide (n.(log_id) <> STORE_LOG_INVALID)
      then store_log_update s n.(log_id) STORE_LOG_CLOSED n.(info).(s_bytes_up) n.(info).(s_bytes_down)
      else s in
    store_session_remove s i n
  end.

Definition store_session_mark_ttl_expired (now : cstring) (s : monitor_store) (id : Z)
  : monitor_store :=
  match store_find_session s id with
  | None => s
  | Some (i, n) =>
    let s := if decide (n.(log_id) <> STORE_LOG_INVALID)
      then store_log_update s n.(log_id) STORE_LOG_TTL_EXPIRED n.(info).(s_bytes_up) n.(info).(s_bytes_down)
      else if decide (has_user_and_host n.(info))
      then (store_log_append now s n.(info).(s_username) n.(info).(s_host) n.(info).(s_port)
              STORE_LOG_TTL_EXPIRED).2
      else s in
    store_session_remove s i n
  end.

Definition store_sessions_foreach {C} (s : monitor_store)
    (fn : store_active_session -> C -> bool * C) (ctx : C) : C :=
  foreach (fun n ctx => if n.(active) then fn n.(info) ctx else (true, ctx)) s.(sessions) ctx.

(** * Specification: a registry of live sessions *)

Record registry := mk_registry {
  live : gmap Z (store_active_session * Z);   (* with the id of its log entry *)
  r_cap : Z;
  r_slots : nat;
  r_total : Z;
  r_up : Z;
  r_down : Z;
  r_next : Z;
  r_log : journal;
}.
#[export] Instance eta_registry : Eta registry := fun r =>
  mk_registry r.(live) r.(r_cap) r.(r_slots) r.(r_total) r.(r_up) r.(r_down) r.(r_next) r.(r_log).

Inductive op :=
| Begin
| SetUser (id : Z) (u : cstring)
| SetDest (now : cstring) (id : Z) (host : cstring) (port : Z)
| SetPhase (id : Z) (p : store_session_phase)
| AddBytes (id up down : Z)
| MarkFailed (now : cstring) (id : Z)
| End (id : Z)
| MarkTtlExpired (now : cstring) (id : Z)
| SetCap (realloc_ok : bool) (value : Z).

(** An operation of the code and the id it returns. *)
Definition perform (s : monitor_store) (o : op) : Z * monitor_store :=
  match o with
  | Begin => store_session_begin s
  | SetUser id u => (0, store_session_set_user s id u)
  | SetDest now id h p => store_session_set_dest now s id h p
  | SetPhase id p => (0, store_session_set_phase s id p)
  | AddBytes id u d => (0, store_session_add_bytes s id u d)
  | MarkFailed now id => (0, store_session_mark_failed now s id)
  | End id => (0, store_session_end s id)
  | MarkTtlExpired now id => (0, store_session_mark_ttl_expired now s id)
  | SetCap ok v => (0, (store_config_set ok s STORE_CFG_SESSIONS_CAP v).2)
  end.

Definition log_op (o : AccessLog.op) (r : registry) : registry :=
  r <| r_log ::= (fun j => AccessLog.spec j o) |>.

(** What each operation does to the session it names; nothing if there is none. *)
Definition on_live (r : registry) (id : Z)
    (f : store_active_session -> Z -> Z * registry) : Z * registry :=
  match r.(live) !! id with None => (0, r) | Some (x, lid) => f x lid end.

Definition spec (r : registry) (o : op) : Z * registry :=
  match o with
  | Begin =>
    if decide (Z.of_nat (size r.(live)) >= r.(r_cap)) then (STORE_SESSION_INVALID, r)
    else (r.(r_next),
      r <| live ::= <[r.(r_next) := (mk_session r.(r_next) [] [] 0 STORE_SESSION_AUTH 0 0, STORE_LOG_INVALID)]> |>
        <| r_next ::= (fun c => c + 1) |> <| r_total ::= (fun c => u64 (c + 1)) |>)
  | SetUser id u => on_live r id (fun x lid =>
      (0, r <| live ::= <[id := (x <| s_username := take STORE_MAX_USERNAME u |>, lid)]> |>))
  | SetPhase id p => on_live r id (fun x lid =>
      (0, r <| live ::= <[id := (x <| s_phase := p |>, lid)]> |>))
  | SetDest now id h p => on_live r id (fun x lid =>
      let x := x <| s_host := take STORE_MAX_DEST_HOST h |> <| s_port := p |>
                 <| s_phase := STORE_SESSION_RELAY |> in
      if decide (x.(s_username) <> []) then
        let lid := r.(r_log).(j_next) in
        (lid, (log_op (Append now x.(s_username) h p STORE_LOG_CONNECTED) r)
                <| live ::= <[id := (x, lid)]> |>)
      else (lid, r <| live ::= <[id := (x, lid)]> |>))
  | AddBytes id u d => on_live r id (fun x lid =>
      let x := x <| s_bytes_up ::= (fun b => u64 (b + u)) |>
                 <| s_bytes_down ::= (fun b => u64 (b + d)) |> in
      (0, (log_op (Update lid STORE_LOG_CONNECTED x.(s_bytes_up) x.(s_bytes_down)) r)
            <| live ::= <[id := (x, lid)]> |> <| r_up ::= (fun b => u64 (b + u)) |>
            <| r_down ::= (fun b => u64 (b + d)) |>))
  | MarkFailed now id => on_live r id (fun x lid =>
      let r := if decide (has_user_and_host x)
               then log_op (Append now x.(s_username) x.(s_host) x.(s_port) STORE_LOG_FAILED) r
               else r in
      (0, r <| live ::= delete id |>))
  | End id => on_live r id (fun x lid =>
      (0, (log_op (Update lid STORE_LOG_CLOSED x.(s_bytes_up) x.(s_bytes_down)) r)
            <| live ::= delete id |>))
  | MarkTtlExpired now id => on_live r id (fun x lid =>
      let r := if decide (lid <> STORE_LOG_INVALID)
               then log_op (Update lid STORE_LOG_TTL_EXPIRED x.(s_bytes_up) x.(s_bytes_down)) r
               else if decide (has_user_and_host x)
               then log_op (Append now x.(s_username) x.(s_host) x.(s_port) STORE_LOG_TTL_EXPIRED) r
               else r in
      (0, r <| live ::= delete id |>))
  | SetCap ok v =>
    (0, if decide (1 <= v <= STORE_SESSIONS_CAP_MAX /\ Z.of_nat (size r.(live)) <= v /\
                     (ok = true \/ v <= Z.of_nat r.(r_slots)))
        then r <| r_cap := v |> <| r_slots := Nat.max (Z.to_nat v) r.(r_slots) |> else r)
  end.

Abbreviation payload := (fun n : store_session_node => (n.(info), n.(log_id))).
Abbreviation table := (SlotTable.view active node_id payload).
Abbreviation distinct := (SlotTable.unique active node_id).

Definition view (s : monitor_store) : registry :=
  mk_registry (table s.(sessions)) s.(sessions_cap) s.(sessions_slots) s.(metrics).(total_connections)
    s.(metrics).(m_bytes_up) s.(metrics).(m_bytes_down) s.(next_session_id) (AccessLog.view s).

(** The relations between the table, its bounds and the counters. *)
Record wf (s : monitor_store) : Prop := {
  wf_slots : length s.(sessions) = s.(sessions_slots);
  wf_cap : 1 <= s.(sessions_cap) <= STORE_SESSIONS_CAP_MAX;
  wf_room : s.(sessions_cap) <= Z.of_nat s.(sessions_slots);
  wf_concurrent : s.(metrics).(concurrent_connections) = Z.of_nat (count active s.(sessions));
  wf_below_cap : s.(metrics).(concurrent_connections) <= s.(sessions_cap);
  wf_distinct : distinct s.(sessions);
  wf_ids : forall i n, s.(sessions) !! i = Some n -> n.(active) = true ->
    0 < node_id n < s.(next_session_id);
  wf_next : 0 < s.(next_session_id);
  wf_log : AccessLog.wf s;
}.

(** * Parts of an operation *)

(** The log is the same. *)
Definition same_log (s s' : monitor_store) : Prop :=
  s'.(log) = s.(log) /\ s'.(log_count) = s.(log_count) /\ s'.(log_head) = s.(log_head) /\
  s'.(next_log_id) = s.(next_log_id) /\ s'.(stdout) = s.(stdout).

Lemma same_log_view s s' : same_log s s' -> AccessLog.view s' = AccessLog.view s.
Proof.
  intros (E1 & E2 & E3 & E4 & E5). unfold AccessLog.view, recent. rewrite E2, E4, E5. f_equal.
  apply list_fmap_ext. intros ? k _. unfold entry_at, log_index. by rewrite E1, E2, E3.
Qed.

Lemma same_log_wf s s' : same_log s s' -> AccessLog.wf s -> AccessLog.wf s'.
Proof.
  intros (E1 & E2 & E3 & E4 & E5) [H1 H2 H3 H4 H5 H6].
  split; rewrite ?E1, ?E2, ?E3, ?E4; try done.
  intros k Hk. specialize (H6 k Hk). revert H6. unfold entry_at, log_index. by rewrite E1, E2, E3.
Qed.

(** Everything but the log is the same. *)
Definition same_table (s s' : monitor_store) : Prop :=
  s'.(sessions) = s.(sessions) /\ s'.(sessions_slots) = s.(sessions_slots) /\
  s'.(sessions_cap) = s.(sessions_cap) /\ s'.(metrics) = s.(metrics) /\
  s'.(next_session_id) = s.(next_session_id).

Lemma append_table now s u h p st : same_table s (store_log_append now s u h p st).2.
Proof. unfold store_log_append. by destruct (decide _). Qed.

Lemma update_table s id st up down : same_table s (store_log_update s id st up down).
Proof.
  unfold store_log_update. case_decide; [done|].
  destruct (list_find _ _) as [[i e]|]; [|done]. by destruct (decide _).
Qed.

Lemma same_table_wf s s' : same_table s s' -> AccessLog.wf s' -> wf s -> wf s'.
Proof. intros (E1 & E2 & E3 & E4 & E5) Hl []. split; rewrite ?E1, ?E2, ?E3, ?E4, ?E5; done. Qed.

Lemma append_step now s u h p st : wf s ->
  let s' := (store_log_append now s u h p st).2 in
  wf s' /\ view s' = log_op (Append now u h p st) (view s) /\ same_table s s' /\
  (store_log_append now s u h p st).1 = s.(next_log_id).
Proof.
  intros Hwf s'. destruct (append_refines now s u h p st (wf_log s Hwf)) as [Hv Hl].
  assert (Ht : same_table s s') by apply append_table.
  fold s' in Hv, Hl. split_and!;
    [by eapply same_table_wf| |done|unfold store_log_append; by destruct (decide _)].
  unfold view at 1. destruct Ht as (E1 & E2 & E3 & E4 & E5).
  by rewrite E1, E2, E3, E4, E5, Hv.
Qed.

Lemma registry_same r : r <| r_log ::= (fun j => j) |> = r.
Proof. by destruct r. Qed.

Lemma update_step s id st up down : wf s ->
  let s' := store_log_update s id st up down in
  wf s' /\ view s' = log_op (Update id st up down) (view s) /\ same_table s s'.
Proof.
  intros Hwf s'. destruct (update_refines s id st up down (wf_log s Hwf)) as (Hv & Hl & _).
  assert (Ht : same_table s s') by apply update_table.
  fold s' in Hv, Hl. split_and!; [by eapply same_table_wf| |done].
  unfold view at 1. destruct Ht as (E1 & E2 & E3 & E4 & E5).
  by rewrite E1, E2, E3, E4, E5, Hv.
Qed.

(** Closing entries are only written for an id that was given out. *)
Lemma update_step_if s id st up down : wf s ->
  let s' := if decide (id <> STORE_LOG_INVALID) then store_log_update s id st up down else s in
  wf s' /\ view s' = log_op (Update id st up down) (view s) /\ same_table s s'.
Proof.
  intros Hwf s'. destruct (update_step s id st up down Hwf) as (H1 & H2 & H3). subst s'.
  case_decide as E; [done|]. split_and!; [done| |done]. rewrite E.
  unfold log_op, AccessLog.spec. destruct (view s) as [? ? ? ? ? ? ? []]. done.
Qed.

Lemma find_view s id : wf s ->
  (view s).(live) !! id = (fun ix => payload ix.2) <$> store_find_session s id.
Proof.
  intros Hwf. cbn. unfold store_find_session. case_decide as H0.
  - subst id. cbn. apply SlotTable.view_none. intros i n Hi [Ha Hid].
    pose proof (wf_ids s Hwf i n Hi Ha). lia.
  - apply (SlotTable.view_lookup active node_id payload).
Qed.

Lemma find_some s id i n : store_find_session s id = Some (i, n) ->
  list_find (SlotTable.is_key active node_id id) s.(sessions) = Some (i, n) /\
  s.(sessions) !! i = Some n /\ n.(active) = true /\ node_id n = id /\ id <> 0.
Proof.
  unfold store_find_session. case_decide; [done|]. intros H'. split; [done|].
  apply SlotTable.find_live in H' as (? & ? & ?). done.
Qed.

Lemma find_same s s' id : same_table s s' -> store_find_session s' id = store_find_session s id.
Proof. intros (E & _). unfold store_find_session. by rewrite E. Qed.

(** Rewriting a live session in place. *)
Lemma put_step s id i n n' : wf s -> store_find_session s id = Some (i, n) ->
  n'.(active) = true -> node_id n' = id ->
  wf (put i n' s) /\ view (put i n' s) = (view s) <| live ::= <[id := payload n']> |>.
Proof.
  intros Hwf Hf Ha Hid. destruct (find_some _ _ _ _ Hf) as (Hl & Hi & Han & Hidn & H0).
  unfold put.
  assert (Hc : count active (<[i:=n']> (sessions s)) = count active (sessions s)).
  { pose proof (count_insert active _ i n n' Hi) as Hc. rewrite Ha, Han in Hc. lia. }
  split.
  - destruct Hwf. split; cbn; try done.
    + by rewrite length_insert.
    + by rewrite Hc.
    + by eapply SlotTable.unique_replace.
    + intros j m Hj Hm. apply list_lookup_insert_Some in Hj as [(<- & <- & _)|[_ Hj]]; [|by eapply wf_ids0].
      rewrite Hid, <- Hidn. by eapply wf_ids0.
    + by apply (same_log_wf s).
  - unfold view. cbn. rewrite (SlotTable.view_replace _ _ _ _ id i n n') by done. done.
Qed.

Lemma remove_step s id i n : wf s -> store_find_session s id = Some (i, n) ->
  wf (store_session_remove s i n) /\ view (store_session_remove s i n) = (view s) <| live ::= delete id |>.
Proof.
  intros Hwf Hf. destruct (find_some _ _ _ _ Hf) as (Hl & Hi & Han & Hidn & H0).
  unfold store_session_remove, put. rewrite Han. cbn [negb].
  assert (Hc : (count active (<[i:=n <| active := false |>]> (sessions s)) + 1)%nat = count active (sessions s)).
  { pose proof (count_insert active _ i n (n <| active := false |>) Hi) as Hc. rewrite Han in Hc. cbn in Hc. lia. }
  pose proof (wf_concurrent s Hwf) as Hcc. split.
  - destruct Hwf. split; cbn; try done.
    + by rewrite length_insert.
    + case_decide; lia.
    + case_decide; lia.
    + by apply SlotTable.unique_free.
    + intros j m Hj Hm. apply list_lookup_insert_Some in Hj as [(<- & <- & _)|[_ Hj]]; [done|by eapply wf_ids0].
    + by apply (same_log_wf s).
  - unfold view. cbn. by rewrite (SlotTable.view_remove _ _ _ _ id i n) by (done || apply Hwf).
Qed.

Lemma remove_next s i n : next_session_id (store_session_remove s i n) = next_session_id s.
Proof. unfold store_session_remove, put. by destruct (active n). Qed.

Lemma size_live s : wf s -> Z.of_nat (size (view s).(live)) = s.(metrics).(concurrent_connections).
Proof. intros Hwf. cbn. rewrite SlotTable.size_view by apply Hwf. by rewrite (wf_concurrent s Hwf). Qed.

(** * Each operation *)

Lemma begin_refines s : wf s -> s.(next_session_id) < 2 ^ 32 - 1 ->
  let '(a, s') := perform s Begin in spec (view s) Begin = (a, view s') /\ wf s' /\
  s'.(next_session_id) <= s.(next_session_id) + 1.
Proof.
  intros Hwf Hn. cbn [perform spec]. unfold store_session_begin, put. rewrite (size_live s Hwf).
  change (r_cap (view s)) with (sessions_cap s).
  destruct (decide (_ >= _)) as [Hge|Hlt]; [split_and!; [done|done|lia]|].
  destruct (list_find _ (sessions s)) as [[i n]|] eqn:Ef.
  2:{ exfalso. rewrite list_find_None in Ef. apply SlotTable.full_count in Ef.
      pose proof (wf_concurrent s Hwf). pose proof (wf_slots s Hwf). pose proof (wf_room s Hwf). lia. }
  apply list_find_Some in Ef as (Hi & Hd & _).
  set (n' := mk_node true (mk_session (next_session_id s) [] [] 0 STORE_SESSION_AUTH 0 0) STORE_LOG_INVALID).
  pose proof (wf_next s Hwf) as Hpos.
  assert (Hnone : table (sessions s) !! next_session_id s = None).
  { apply SlotTable.view_none. intros j m Hj [Hm E]. pose proof (wf_ids s Hwf j m Hj Hm). lia. }
  assert (Hc : count active (<[i:=n']> (sessions s)) = S (count active (sessions s))).
  { pose proof (count_insert active _ i n n' Hi) as Hc. rewrite Hd in Hc. cbn in Hc. lia. }
  pose proof (wf_concurrent s Hwf) as Hcc. pose proof (wf_cap s Hwf) as Hcap.
  unfold STORE_SESSIONS_CAP_MAX, SELECTOR_MAX_SOCKS_SESSIONS in Hcap. change (Z.shiftl 1 14) with 16384 in Hcap.
  split_and!.
  - unfold view. cbn. rewrite (SlotTable.view_fill _ _ _ _ i n n') by done.
    rewrite u32_small by lia. done.
  - destruct Hwf. split; cbn; try done.
    + by rewrite length_insert.
    + rewrite u64_small by lia. rewrite Hc. lia.
    + rewrite u64_small by lia. lia.
    + by apply (SlotTable.unique_fill _ _ payload).
    + rewrite u32_small by lia. intros j m Hj Hm.
      apply list_lookup_insert_Some in Hj as [(<- & <- & _)|[_ Hj]]; [cbn; lia|].
      specialize (wf_ids0 j m Hj Hm). lia.
    + rewrite u32_small by lia. lia.
    + by apply (same_log_wf s).
  - cbn. rewrite u32_small by lia. lia.
Qed.

(** An operation on a session that is not there does nothing. *)
Lemma on_live_spec s id f : wf s ->
  on_live (view s) id f =
  match store_find_session s id with
  | None => (0, view s)
  | Some (_, n) => f n.(info) n.(log_id)
  end.
Proof.
  intros Hwf. unfold on_live. rewrite find_view by done.
  by destruct (store_find_session s id) as [[i n]|].
Qed.

Definition refines_here (s : monitor_store) (o : op) : Prop :=
  let '(a, s') := perform s o in
  spec (view s) o = (a, view s') /\ wf s' /\ s'.(next_session_id) <= s.(next_session_id) + 1.

Lemma set_user_refines s id u : wf s -> refines_here s (SetUser id u).
Proof.
  intros Hwf. unfold refines_here. cbn [perform spec]. rewrite on_live_spec by done.
  unfold store_session_set_user. destruct (store_find_session s id) as [[i n]|] eqn:Ef; [|split_and!; done || lia].
  destruct (find_some _ _ _ _ Ef) as (_ & _ & Ha & Hid & _).
  match goal with |- context [put i ?n' s] => destruct (put_step s id i n n' Hwf Ef) as [Hw ->]; [done..|] end.
  split_and!; [done|done|unfold put; cbn; lia].
Qed.

Lemma set_phase_refines s id p : wf s -> refines_here s (SetPhase id p).
Proof.
  intros Hwf. unfold refines_here. cbn [perform spec]. rewrite on_live_spec by done.
  unfold store_session_set_phase. destruct (store_find_session s id) as [[i n]|] eqn:Ef; [|split_and!; done || lia].
  destruct (find_some _ _ _ _ Ef) as (_ & _ & Ha & Hid & _).
  match goal with |- context [put i ?n' s] => destruct (put_step s id i n n' Hwf Ef) as [Hw ->]; [done..|] end.
  split_and!; [done|done|unfold put; cbn; lia].
Qed.

Lemma set_dest_refines s now id h p : wf s -> refines_here s (SetDest now id h p).
Proof.
  intros Hwf. unfold refines_here. cbn [perform spec]. rewrite on_live_spec by done.
  unfold store_session_set_dest. destruct (store_find_session s id) as [[i n]|] eqn:Ef; [|split_and!; done || lia].
  destruct (find_some _ _ _ _ Ef) as (_ & _ & Ha & Hid & _). cbn [info s_username set].
  destruct n as [act inf lid]. destruct inf as [sid su sh sp sph sup sdn]. cbn. unfold node_id in Hid. cbn in Ha, Hid.
  destruct (decide (su <> [])) as [Hu|Hu].
  - destruct (append_step now s su h p STORE_LOG_CONNECTED Hwf) as (Hw1 & Hv1 & Ht1 & Hi1).
    destruct (store_log_append now s su h p STORE_LOG_CONNECTED) as [nid s1]. cbn in *. subst nid.
    match goal with |- context [put i ?n' s1] => destruct (put_step s1 id i
      (mk_node act (mk_session sid su sh sp sph sup sdn) lid) n' Hw1) as [Hw ->] end; [by rewrite (find_same s)|done..|].
    rewrite Hv1. destruct Ht1 as (_ & _ & _ & _ & Hn). split_and!; [done|done|unfold put; cbn; rewrite Hn; lia].
  - match goal with |- context [put i ?n' s] => destruct (put_step s id i _ n' Hwf Ef) as [Hw ->]; [done..|] end.
    split_and!; [done|done|unfold put; cbn; lia].
Qed.

Lemma add_bytes_refines s id u d : wf s -> refines_here s (AddBytes id u d).
Proof.
  intros Hwf. unfold refines_here. cbn [perform spec]. rewrite on_live_spec by done.
  unfold store_session_add_bytes. destruct (store_find_session s id) as [[i n]|] eqn:Ef; [|split_and!; done || lia].
  destruct (find_some _ _ _ _ Ef) as (_ & _ & Ha & Hid & _).
  match goal with |- context [put i ?n' s] => destruct (put_step s id i n n' Hwf Ef) as [Hw Hv]; [done..|]; set (n1 := n') in * end.
  cbn zeta.
  match goal with |- context [store_log_update ?s0 _ _ _ _] => set (s1 := s0) end.
  assert (Hw1 : wf s1).
  { destruct Hw. split; cbn; try done. by apply (same_log_wf (put i n1 s)). }
  assert (Hv1 : view s1 = (view s) <| live ::= <[id := payload n1]> |>
      <| r_up ::= (fun b => u64 (b + u)) |> <| r_down ::= (fun b => u64 (b + d)) |>).
  { rewrite <- Hv. done. }
  destruct (update_step_if s1 n1.(log_id) STORE_LOG_CONNECTED n1.(info).(s_bytes_up) n1.(info).(s_bytes_down) Hw1)
    as (Hw2 & Hv2 & (_ & _ & _ & _ & Hn)).
  split_and!; [|done|rewrite Hn; subst s1; unfold put; cbn; lia]. rewrite Hv2, Hv1. done.
Qed.

Lemma mark_failed_refines s now id : wf s -> refines_here s (MarkFailed now id).
Proof.
  intros Hwf. unfold refines_here. cbn [perform spec]. rewrite on_live_spec by done.
  unfold store_session_mark_failed. destruct (store_find_session s id) as [[i n]|] eqn:Ef; [|split_and!; done || lia].
  destruct (decide (has_user_and_host (info n))) as [Huh|Huh].
  - destruct (append_step now s n.(info).(s_username) n.(info).(s_host) n.(info).(s_port) STORE_LOG_FAILED Hwf)
      as (Hw1 & Hv1 & Ht1 & _).
    destruct (remove_step _ id i n Hw1) as [Hw Hv]; [by rewrite (find_same s)|].
    split_and!; [by rewrite Hv, Hv1|done|]. rewrite remove_next. destruct Ht1 as (_ & _ & _ & _ & ->). lia.
  - destruct (remove_step s id i n Hwf Ef) as [Hw Hv].
    split_and!; [by rewrite Hv|done|]. rewrite remove_next. lia.
Qed.

Lemma end_refines s id : wf s -> refines_here s (End id).
Proof.
  intros Hwf. unfold refines_here. cbn [perform spec]. rewrite on_live_spec by done.
  unfold store_session_end. destruct (store_find_session s id) as [[i n]|] eqn:Ef; [|split_and!; done || lia].
  destruct (update_step_if s n.(log_id) STORE_LOG_CLOSED n.(info).(s_bytes_up) n.(info).(s_bytes_down) Hwf)
    as (Hw1 & Hv1 & Ht1).
  destruct (remove_step _ id i n Hw1) as [Hw Hv]; [by rewrite (find_same s)|].
  split_and!; [by rewrite Hv, Hv1|done|]. rewrite remove_next. destruct Ht1 as (_ & _ & _ & _ & ->). lia.
Qed.

Lemma ttl_refines s now id : wf s -> refines_here s (MarkTtlExpired now id).
Proof.
  intros Hwf. unfold refines_here. cbn [perform spec]. rewrite on_live_spec by done.
  unfold store_session_mark_ttl_expired.
  destruct (store_find_session s id) as [[i n]|] eqn:Ef; [|split_and!; done || lia].
  destruct (decide (log_id n <> STORE_LOG_INVALID)) as [Hl|Hl].
  - destruct (update_step s n.(log_id) STORE_LOG_TTL_EXPIRED n.(info).(s_bytes_up) n.(info).(s_bytes_down) Hwf)
      as (Hw1 & Hv1 & Ht1).
    destruct (remove_step _ id i n Hw1) as [Hw Hv]; [by rewrite (find_same s)|].
    split_and!; [by rewrite Hv, Hv1|done|]. rewrite remove_next. destruct Ht1 as (_ & _ & _ & _ & ->). lia.
  - destruct (decide (has_user_and_host (info n))) as [Huh|Huh].
    + destruct (append_step now s n.(info).(s_username) n.(info).(s_host) n.(info).(s_port) STORE_LOG_TTL_EXPIRED Hwf)
        as (Hw1 & Hv1 & Ht1 & _).
      destruct (remove_step _ id i n Hw1) as [Hw Hv]; [by rewrite (find_same s)|].
      split_and!; [by rewrite Hv, Hv1|done|]. rewrite remove_next. destruct Ht1 as (_ & _ & _ & _ & ->). lia.
    + destruct (remove_step s id i n Hwf Ef) as [Hw Hv].
      split_and!; [by rewrite Hv|done|]. rewrite remove_next. lia.
Qed.

Lemma replicate_dead n : Forall (fun x => active x = false) (replicate n zero_node).
Proof. by apply Forall_replicate. Qed.

Lemma count_dead l n : count active (l ++ replicate n zero_node) = count active l.
Proof. rewrite count_app. unfold count at 2. induction n; cbn; lia. Qed.

Lemma set_cap_refines s ok v : wf s -> refines_here s (SetCap ok v).
Proof.
  intros Hwf. unfold refines_here. cbn [perform spec]. rewrite (size_live s Hwf).
  change (r_slots (view s)) with (sessions_slots s).
  pose proof (wf_room s Hwf) as Hroom. pose proof (wf_cap s Hwf) as Hcap. pose proof (wf_slots s Hwf) as Hslots.
  unfold store_config_set, STORE_SESSIONS_CAP_MIN.
  destruct (decide (v < 1 \/ v > STORE_SESSIONS_CAP_MAX)) as [Hr|Hr].
  { rewrite decide_False by lia. split_and!; [done|done|cbn; lia]. }
  destruct (decide (v < _)) as [Hc|Hc].
  { rewrite decide_False by lia. split_and!; [done|done|cbn; lia]. }
  unfold store_grow_sessions_slots.
  destruct (decide (v > sessions_cap s)) as [Hv|Hv]; [destruct (decide (Z.to_nat v <= _)%nat) as [Hs|Hs]|].
  2:{ destruct ok.
      - rewrite (decide_False (P := STORE_CFG_OK <> STORE_CFG_OK)) by auto.
        rewrite decide_True by (split_and!; lia || auto). cbn.
        split_and!; [| |lia].
        + unfold view. cbn. rewrite SlotTable.view_app_dead by apply replicate_dead. rewrite Nat.max_l by lia. done.
        + destruct Hwf. split; cbn; try done; try lia.
          * rewrite length_app, length_replicate. lia.
          * by rewrite count_dead.
          * apply SlotTable.unique_app_dead; [done|apply replicate_dead].
          * intros i n [Hi|[_ Hi]]%lookup_app_Some Ha; [by eapply wf_ids0|].
            apply lookup_replicate in Hi as [-> _]. done.
          * by apply (same_log_wf s).
      - rewrite (decide_True (P := STORE_CFG_INVALID_VALUE <> STORE_CFG_OK)) by done.
        rewrite decide_False by (intros (_ & _ & [?|?]); [done|lia]).
        split_and!; [done|done|cbn; lia]. }
  all: rewrite (decide_False (P := STORE_CFG_OK <> STORE_CFG_OK)) by auto;
    rewrite decide_True by (split_and!; lia || (right; lia)); cbn.
  all: split_and!; [unfold view; cbn; rewrite Nat.max_r by lia; done| |lia].
  all: destruct Hwf; split; cbn; try done; try lia; by apply (same_log_wf s).
Qed.

Lemma sessions_perform_refines s o : wf s -> s.(next_session_id) < 2 ^ 32 - 1 -> refines_here s o.
Proof.
  intros Hwf Hn. destruct o.
  - by apply begin_refines.
  - by apply set_user_refines.
  - by apply set_dest_refines.
  - by apply set_phase_refines.
  - by apply add_bytes_refines.
  - by apply mark_failed_refines.
  - by apply end_refines.
  - by apply ttl_refines.
  - by apply set_cap_refines.
Qed.

Fixpoint run {S} (f : S -> op -> Z * S) (s : S) (os : list op) : list Z * S :=
  match os with
  | [] => ([], s)
  | o :: os => let '(a, s) := f s o in prod_map (cons a) id (run f s os)
  end.

(** C15. The slot array, its counters and the log implement a
    registry of live sessions: whatever the sequence of calls the proxy and the
    monitor make, the ids returned are those of a finite map that hands out
    increasing ids and refuses beyond its limit, every session holds the user,
    destination, phase and byte counts of the calls that named it, calls with a
    dead id do nothing, [concurrent_connections] is the number of live sessions
    and never exceeds [sessions_cap], a free slot exists whenever the limit
    allows a session, and each session's log entry is opened, updated and closed
    with its own byte counts. *)
Theorem sessions_refine_registry os : forall s,
  wf s -> s.(next_session_id) + Z.of_nat (length os) < 2 ^ 32 ->
  let '(ids, s') := run perform s os in
  run spec (view s) os = (ids, view s') /\ wf s' /\
  s'.(metrics).(concurrent_connections) = Z.of_nat (size (view s').(live)).
Proof.
  induction os as [|o os IH]; intros s Hwf Hn; cbn [run].
  { split_and!; [done..|]. by rewrite size_live. }
  cbn [length] in Hn. pose proof (sessions_perform_refines s o Hwf ltac:(lia)) as Hp. unfold refines_here in Hp.
  destruct (perform s o) as [a s1]. destruct Hp as (-> & Hwf1 & Hn1).
  specialize (IH s1 Hwf1 ltac:(lia)).
  destruct (run perform s1 os) as [ids s']. destruct IH as (-> & Hwf' & Hc). by split_and!.
Qed.

Lemma sessions_initial_wf : wf initial_store.
Proof.
  assert (Hdead : forall i n, sessions initial_store !! i = Some n -> active n = false).
  { intros i n Hi. cbn [sessions initial_store] in Hi. apply lookup_replicate in Hi as [-> _]. done. }
  split.
  - cbn [sessions sessions_slots initial_store]. by rewrite length_replicate.
  - cbn [sessions_cap initial_store]. unfold STORE_SESSIONS_CAP_DEFAULT. split; [lia|done].
  - cbn [sessions_cap sessions_slots initial_store]. unfold STORE_SESSIONS_CAP_DEFAULT. lia.
  - cbn [metrics concurrent_connections sessions initial_store].
    rewrite <- (app_nil_l (replicate _ _)), count_dead. done.
  - cbn [metrics concurrent_connections sessions_cap initial_store]. unfold STORE_SESSIONS_CAP_DEFAULT. lia.
  - intros i j x y Hi _ Hx. rewrite (Hdead i x Hi) in Hx. done.
  - intros i n Hi Ha. rewrite (Hdead i n Hi) in Ha. done.
  - cbn [next_session_id initial_store]. lia.
  - exact AccessLog.log_initial_wf.
Qed.

Definition sample_session : list op :=
  [Begin; SetUser 1 (lit "ana"); SetDest (lit "2026-06-29T14:22:01Z") 1 (lit "example.org") 80;
   AddBytes 1 10 200; End 1; Begin].

Lemma sessions_refine_registry_witness :
  let '(ids, s') := run perform initial_store sample_session in
  run spec (view initial_store) sample_session = (ids, view s') /\ wf s' /\
  s'.(metrics).(concurrent_connections) = Z.of_nat (size (view s').(live)).
Proof.
  apply (sessions_refine_registry sample_session initial_store sessions_initial_wf).
  vm_compute. reflexivity.
Defined.

(** When the id counter wraps, the id handed out is the invalid one: the caller
    takes it for a refusal while the slot stays taken. *)
Theorem wrapped_id_leaks_slot s : wf s -> s.(metrics).(concurrent_connections) < s.(sessions_cap) ->
  let s0 := s <| next_session_id := 0 |> in
  let '(id, s') := store_session_begin s0 in
  id = STORE_SESSION_INVALID /\ count active s'.(sessions) = S (count active s.(sessions)).
Proof.
  intros Hwf Hlt. cbn zeta. unfold store_session_begin. cbn [metrics sessions_cap sessions set].
  rewrite decide_False by (cbn; lia).
  change (sessions (s <| next_session_id := 0 |>)) with (sessions s).
  destruct (list_find _ (sessions s)) as [[i n]|] eqn:Ef.
  - apply list_find_Some in Ef as (Hi & Hd & _). split; [done|].
    match goal with |- context [put i ?n' _] => pose proof (count_insert active _ i n n' Hi) as Hc end.
    rewrite Hd in Hc. cbn in Hc. cbn. unfold put. cbn. lia.
  - exfalso. rewrite list_find_None in Ef. apply SlotTable.full_count in Ef.
    pose proof (wf_concurrent s Hwf). pose proof (wf_slots s Hwf). pose proof (wf_room s Hwf). lia.
Qed.

Lemma wrapped_id_leaks_slot_witness :
  let s0 := initial_store <| next_session_id := 0 |> in
  let '(id, s') := store_session_begin s0 in
  id = STORE_SESSION_INVALID /\ count active s'.(sessions) = S (count active initial_store.(sessions)).
Proof.
  apply (wrapped_id_leaks_slot initial_store).
  - apply sessions_initial_wf.
  - reflexivity.
Defined.

End Sessions.
