(* ===== verification/Acl.v ===== *)
(** The two deny lists of src/server/monitor/store.c: singly linked lists in the
    heap, each with a pointer to its last rule so that a rule is added in
    constant time.  Following a pointer to a rule that was freed is a fault. *)
From S2P Require Import Prelude Inet Store.
Import Store.
Local Open Scope nat_scope.

Module Acl.

Section Acl.
Context `{Inet}.

(** Which of the two lists: the code is written once for each. *)
Inductive which := Hosts | Addresses.

Definition head (w : which) (s : monitor_store) : option loc :=
  match w with Hosts => s.(denied_hosts) | Addresses => s.(denied_addresses) end.
Definition tail (w : which) (s : monitor_store) : option loc :=
  match w with Hosts => s.(last_denied_host) | Addresses => s.(last_denied_addr) end.
Definition set_head (w : which) (p : option loc) (s : monitor_store) : monitor_store :=
  match w with Hosts => s <| denied_hosts := p |> | Addresses => s <| denied_addresses := p |> end.
Definition set_tail (w : which) (p : option loc) (s : monitor_store) : monitor_store :=
  match w with Hosts => s <| last_denied_host := p |> | Addresses => s <| last_denied_addr := p |> end.

Definition deref (l : loc) (s : monitor_store) : res acl_rule := or_fault UseAfterFree (s.(heap) !! l).

(** [p->next = q] *)
Definition set_next (l : loc) (q : option loc) (s : monitor_store) : res monitor_store :=
  r ← deref l s; Ok (s <| heap ::= (<[l := r <| next := q |>]>) |>).

Definition free (l : loc) (s : monitor_store) : res monitor_store :=
  _ ← deref l s; Ok (s <| heap ::= delete l |>).

(** [add_host_rule] and [add_ip_rule]; [l] is the rule. *)
Definition add_rule (w : which) (l : loc) (s : monitor_store) : res monitor_store :=
  match tail w s with
  | None => Ok (set_tail w (Some l) (set_head w (Some l) s))
  | Some t => s ← set_next t (Some l) s; Ok (set_tail w (Some l) s)
  end.
Definition add_host_rule := add_rule Hosts.
Definition add_ip_rule := add_rule Addresses.

Definition host_rule_match (r : acl_rule) (hostname : cstring) : bool :=
  match r.(rule_target) with
  | AclHost host => bool_decide (host = hostname)
  | AclAddress _ _ => false
  end.

Definition ip_rule_match (r : acl_rule) (ip : cstring) : bool :=
  match r.(rule_target) with
  | AclAddress is_v4 addr =>
    match inet_pton4 ip with
    | Some addr4 => is_v4 && bool_decide (addr = addr4)
    | None =>
      match inet_pton6 ip with
      | Some addr6 => negb is_v4 && bool_decide (addr = addr6)
      | None => false
      end
    end
  | AclHost _ => false
  end.

(** Every list walk visits at most the rules there are. *)
Definition fuel (s : monitor_store) : nat := S (size s.(heap)).

Fixpoint any_match (n : nat) (p : option loc) (f : acl_rule -> bool) (s : monitor_store) : res bool :=
  match p with
  | None => Ok false
  | Some l =>
    match n with
    | O => Fault OutOfFuel
    | S n => r ← deref l s; if f r then Ok true else any_match n r.(next) f s
    end
  end.

Definition is_host_denied (s : monitor_store) (hostname : cstring) : res bool :=
  any_match (fuel s) s.(denied_hosts) (fun r => host_rule_match r hostname) s.

Definition is_ip_denied (s : monitor_store) (ip : cstring) : res bool :=
  any_match (fuel s) s.(denied_addresses) (fun r => ip_rule_match r ip) s.

(** [calloc] for a rule; the first access through NULL is a fault. *)
Definition new_rule (alloc_ok : bool) (t : acl_target) (s : monitor_store) : res (loc * monitor_store) :=
  if alloc_ok then
    let l := fresh (dom s.(heap)) in Ok (l, s <| heap ::= (<[l := mk_rule t None]>) |>)
  else Fault NullDeref.

Definition store_deny_host (alloc_ok : bool) (s : monitor_store) (hostname : cstring)
  : res (bool * monitor_store) :=
  denied ← is_host_denied s hostname;
  if denied : bool then Ok (false, s)
  else if decide (is_Some (inet_pton4 hostname) \/ is_Some (inet_pton6 hostname)) then Ok (false, s)
  else
    '(l, s) ← new_rule alloc_ok (AclHost hostname) s;
    (* strcpy into host[STORE_MAX_DEST_HOST + 1] *)
    if decide (STORE_MAX_DEST_HOST < length hostname) then Fault OutOfBounds else
    s ← add_host_rule l s;
    Ok (true, s).

Definition store_deny_ip (alloc_ok : bool) (s : monitor_store) (ip : cstring)
  : res (bool * monitor_store) :=
  denied ← is_ip_denied s ip;
  if denied : bool then Ok (false, s)
  else if negb alloc_ok then Fault NullDeref
  else match inet_pton4 ip with
  | Some a => '(l, s) ← new_rule true (AclAddress true a) s; s ← add_ip_rule l s; Ok (true, s)
  | None =>
    match inet_pton6 ip with
    | Some a => '(l, s) ← new_rule true (AclAddress false a) s; s ← add_ip_rule l s; Ok (true, s)
    | None => Ok (false, s)         (* the rule is freed again *)
    end
  end.

(** [if (last == current) last = previous;] *)
Definition fix_tail (w : which) (current : loc) (previous : option loc) (s : monitor_store)
  : monitor_store :=
  if decide (tail w s = Some current) then set_tail w previous s else s.

(** The loop of [store_undeny_host] and [store_undeny_ip]. *)
Fixpoint undeny_loop (n : nat) (w : which) (previous current : option loc) (f : acl_rule -> bool)
    (s : monitor_store) : res (bool * monitor_store) :=
  match current with
  | None => Ok (false, s)
  | Some c =>
    match n with
    | O => Fault OutOfFuel
    | S n =>
      r ← deref c s;
      if f r then
        s ← (match previous with
             | None => Ok (set_head w r.(next) s)
             | Some p => set_next p r.(next) s
             end);
        s ← free c (fix_tail w c previous s);
        Ok (true, s)
      else undeny_loop n w current r.(next) f s
    end
  end.

Definition store_undeny_host (s : monitor_store) (hostname : cstring) : res (bool * monitor_store) :=
  undeny_loop (fuel s) Hosts None s.(denied_hosts) (fun r => host_rule_match r hostname) s.

Definition store_undeny_ip (s : monitor_store) (ip : cstring) : res (bool * monitor_store) :=
  undeny_loop (fuel s) Addresses None s.(denied_addresses) (fun r => ip_rule_match r ip) s.

Definition get_denied_hosts (s : monitor_store) : option loc := s.(denied_hosts).
Definition get_denied_ips (s : monitor_store) : option loc := s.(denied_addresses).

Definition acl_rule_to_string (rule : option acl_rule) : cstring :=
  match rule with
  | None => lit "NULL"
  | Some r =>
    match r.(rule_target) with
    | AclHost host => host
    | AclAddress is_v4 a => if is_v4 then inet_ntop4 a else inet_ntop6 a
    end
  end.

Fixpoint free_acl_list (n : nat) (p : option loc) (s : monitor_store) : res monitor_store :=
  match p with
  | None => Ok s
  | Some l =>
    match n with
    | O => Fault OutOfFuel
    | S n => r ← deref l s; s ← free l s; free_acl_list n r.(next) s
    end
  end.

(** The rules still allocated once the store is gone. *)
Definition store_destroy (s : monitor_store) : res (gmap loc acl_rule) :=
  s1 ← free_acl_list (fuel s) s.(denied_hosts) s;
  s2 ← free_acl_list (fuel s) s.(denied_addresses) s1;
  Ok s2.(heap).

(** * Linked lists in the heap *)

(** From [p] the rules [xs] lead to [q]. *)
Fixpoint seg (h : gmap loc acl_rule) (p : option loc) (xs : list (loc * acl_target)) (q : option loc)
  : Prop :=
  match xs with
  | [] => p = q
  | (l, t) :: xs => p = Some l /\ exists n, h !! l = Some (mk_rule t n) /\ seg h n xs q
  end.

Lemma seg_app h p xs ys q : seg h p (xs ++ ys) q <-> exists m, seg h p xs m /\ seg h m ys q.
Proof.
  revert p. induction xs as [|[l t] xs IH]; intros p; cbn.
  - split; [by eauto|]. by intros (m & -> & ?).
  - split.
    + intros (-> & n & Hl & Hs). apply IH in Hs as (m & ? & ?). eauto 6.
    + intros (m & (-> & n & Hl & Hs) & Hm). split; [done|]. exists n. split; [done|]. apply IH; eauto.
Qed.

Lemma seg_ext h h' p xs q : (forall l, l ∈ xs.*1 -> h' !! l = h !! l) ->
  seg h p xs q -> seg h' p xs q.
Proof.
  revert p. induction xs as [|[l t] xs IH]; intros p He; cbn; [done|].
  intros (-> & n & Hl & Hs). split; [done|]. exists n. split.
  - rewrite He; [done|]. cbn. by left.
  - apply IH; [|done]. intros l' Hl'. apply He. cbn. by right.
Qed.

Lemma seg_insert h p xs q l r : l ∉ xs.*1 -> seg h p xs q -> seg (<[l:=r]> h) p xs q.
Proof. intros Hl. apply seg_ext. intros l' Hl'. apply lookup_insert_ne. set_solver. Qed.

Lemma seg_delete h p xs q l : l ∉ xs.*1 -> seg h p xs q -> seg (delete l h) p xs q.
Proof. intros Hl. apply seg_ext. intros l' Hl'. apply lookup_delete_ne. set_solver. Qed.

Lemma seg_head h p xs q : xs <> [] -> seg h p xs q -> p = fst <$> List.hd_error xs.
Proof. destruct xs as [|[l t] xs]; [done|]. by intros _ (-> & _). Qed.

(** Redirecting the last [next]. *)
Lemma seg_relink h p xs l t q q' : l ∉ xs.*1 -> seg h p (xs ++ [(l, t)]) q ->
  h !! l = Some (mk_rule t q) /\ seg (<[l := mk_rule t q']> h) p (xs ++ [(l, t)]) q'.
Proof.
  intros Hl (m & H1 & (-> & n & Hn & ->))%seg_app. split; [done|].
  apply seg_app. exists (Some l). split; [by apply seg_insert|]. cbn. split; [done|].
  exists q'. by rewrite lookup_insert_eq.
Qed.

#[export] Instance which_eq_dec : EqDecision which.
Proof. solve_decision. Defined.

(** The rules of both lists, with their places. *)
Definition layout := which -> list (loc * acl_target).

Definition upd (L : layout) (w : which) (xs : list (loc * acl_target)) : layout :=
  fun w' => if decide (w' = w) then xs else L w'.

Lemma upd_same L w xs : upd L w xs w = xs.
Proof. unfold upd. by rewrite decide_True. Qed.
Lemma upd_other L w w' xs : w' <> w -> upd L w xs w' = L w'.
Proof. intros. unfold upd. by rewrite decide_False. Qed.

Record wf (s : monitor_store) (L : layout) : Prop := {
  wf_seg : forall w, seg s.(heap) (head w s) (L w) None;
  wf_tail : forall w, tail w s = fst <$> last (L w);
  wf_nodup : forall w, NoDup (L w).*1;
  wf_apart : forall w w' l, l ∈ (L w).*1 -> l ∈ (L w').*1 -> w = w';
  wf_heap : forall l, is_Some (s.(heap) !! l) <-> exists w, l ∈ (L w).*1;
}.

(** Layouts matter up to their values. *)
Lemma wf_eq s L L' : wf s L -> (forall w, L' w = L w) -> wf s L'.
Proof.
  intros [H1 H2 H3 H4 H5] E. split; setoid_rewrite E; done.
Qed.

Lemma wf_fuel s L w : wf s L -> length (L w) < fuel s.
Proof.
  intros Hwf. unfold fuel. apply Nat.lt_succ_r.
  rewrite <- (length_fmap fst), <- size_dom, <- (size_list_to_set (C := gset loc)) by apply (wf_nodup s L Hwf w).
  apply subseteq_size. intros l Hl. apply elem_of_list_to_set in Hl.
  apply elem_of_dom, (wf_heap s L Hwf). eauto.
Qed.

Lemma head_set_head w p s : head w (set_head w p s) = p.
Proof. by destruct w. Qed.
Lemma tail_set_tail w p s : tail w (set_tail w p s) = p.
Proof. by destruct w. Qed.

(** A walk that tests the rules finds whether one qualifies. *)
Lemma any_match_spec f g s xs : (forall r, f r = g r.(rule_target)) -> forall n p,
  seg s.(heap) p xs None -> length xs < n ->
  any_match n p f s = Ok (existsb (fun x => g x.2) xs).
Proof.
  intros Hf. induction xs as [|[l t] xs IH]; intros n p Hs Hn; cbn in Hs.
  - subst p. by destruct n.
  - destruct Hs as (-> & q & Hl & Hs). destruct n as [|n]; [cbn in Hn; lia|].
    cbn. unfold deref. rewrite Hl. cbn. rewrite Hf. cbn. destruct (g t); [done|].
    apply IH; [done|]. cbn in Hn. lia.
Qed.

(** ** Adding at the end *)

(** What a change must do to add [(l, t)] at the end of list [w]. *)
Lemma wf_added s L w l t s' : wf s L ->
  (forall w', l ∉ (L w').*1) ->
  heap s' !! l = Some (mk_rule t None) ->
  (forall k, k <> l -> is_Some (heap s' !! k) <-> is_Some (heap s !! k)) ->
  (forall w', w' <> w -> head w' s' = head w' s /\ tail w' s' = tail w' s /\
     forall k, k ∈ (L w').*1 -> heap s' !! k = heap s !! k) ->
  seg (heap s') (head w s') (L w ++ [(l, t)]) None -> tail w s' = Some l ->
  wf s' (upd L w (L w ++ [(l, t)])).
Proof.
  intros Hwf Hno Hnew Hdom Hoth Hseg Htl. split.
  - intros w'. destruct (decide (w' = w)) as [->|Hne]; [by rewrite upd_same|].
    rewrite upd_other by done. destruct (Hoth w' Hne) as (-> & _ & Hk).
    apply (seg_ext (heap s)); [done|]. apply (wf_seg s L Hwf).
  - intros w'. destruct (decide (w' = w)) as [->|Hne].
    + by rewrite upd_same, last_snoc.
    + rewrite upd_other by done. destruct (Hoth w' Hne) as (_ & -> & _). apply (wf_tail s L Hwf).
  - intros w'. destruct (decide (w' = w)) as [->|Hne].
    + rewrite upd_same, fmap_app. cbn. apply NoDup_app. split_and!; [apply (wf_nodup s L Hwf)| |apply NoDup_singleton].
      intros k Hk Hkl%list_elem_of_singleton. subst k. by apply (Hno w).
    + rewrite upd_other by done. apply (wf_nodup s L Hwf).
  - assert (Hin : forall w' k, k ∈ (upd L w (L w ++ [(l, t)]) w').*1 -> (k = l /\ w' = w) \/ k ∈ (L w').*1).
    { intros w' k. destruct (decide (w' = w)) as [->|Hne]; [|rewrite upd_other by done; auto].
      rewrite upd_same, fmap_app. intros [Hk|Hk%list_elem_of_singleton]%elem_of_app; auto. }
    intros w' w'' k [[-> ->]|Hk]%Hin [[Hk' ->]|Hk'']%Hin; try done.
    + exfalso. by apply (Hno w'').
    + subst k. exfalso. by apply (Hno w').
    + by apply (wf_apart s L Hwf w' w'' k).
  - intros k. destruct (decide (k = l)) as [->|Hne].
    + rewrite Hnew. split; [|done]. intros _. exists w. rewrite upd_same, fmap_app. set_solver.
    + rewrite Hdom, (wf_heap s L Hwf) by done. split; intros [w' Hw']; exists w'.
      * destruct (decide (w' = w)) as [->|]; [rewrite upd_same, fmap_app; set_solver|by rewrite upd_other].
      * destruct (decide (w' = w)) as [->|]; [|by rewrite upd_other in Hw'].
        rewrite upd_same, fmap_app in Hw'. set_solver.
Qed.

Lemma add_spec s L w t : wf s L ->
  exists s' l, ('(l, s1) ← new_rule true t s; add_rule w l s1) = Ok s' /\ wf s' (upd L w (L w ++ [(l, t)])).
Proof.
  intros Hwf. unfold new_rule. set (l := fresh (dom (heap s))).
  assert (Hl : heap s !! l = None) by (apply not_elem_of_dom, is_fresh).
  assert (Hno : forall w', l ∉ (L w').*1).
  { intros w' Hin. assert (is_Some (heap s !! l)) as [? ?]; [apply (wf_heap s L Hwf); eauto|congruence]. }
  cbn [mbind res_bind]. set (s1 := s <| heap ::= (<[l:=mk_rule t None]>) |>).
  assert (Hh1 : forall w', head w' s1 = head w' s) by (by intros []).
  assert (Ht1 : forall w', tail w' s1 = tail w' s) by (by intros []).
  unfold add_rule. rewrite Ht1, (wf_tail s L Hwf).
  assert (Hapart : forall w' k, w' <> w -> k ∈ (L w').*1 -> k ∉ (L w).*1).
  { intros w' k Hne Hk Hk'. apply Hne. by apply (wf_apart s L Hwf w' w k). }
  destruct (last (L w)) as [[tl tt']|] eqn:Elast; cbn [fmap option_fmap option_map fst].
  - apply last_Some in Elast as [xs Exs].
    pose proof (wf_seg s L Hwf w) as Hseg. rewrite Exs in Hseg.
    assert (Hnd : tl ∉ xs.*1).
    { pose proof (wf_nodup s L Hwf w) as Hnd. rewrite Exs, fmap_app in Hnd.
      apply NoDup_app in Hnd as (_ & Hnd & _). intros Hin. apply (Hnd tl Hin). cbn. by left. }
    assert (Htl : tl ∈ (L w).*1) by (rewrite Exs, fmap_app; set_solver).
    assert (Hne : tl <> l) by (intros ->; by apply (Hno w)).
    destruct (seg_relink (heap s1) (head w s) xs tl tt' None (Some l) Hnd) as [Hget Hseg'].
    { apply seg_insert; [|done]. rewrite <- Exs. apply Hno. }
    unfold set_next, deref. rewrite Hget. cbn [or_fault mbind res_bind].
    eexists _, l. split; [done|]. apply (wf_added s); [done|done| | | | |].
    + destruct w; cbn; by rewrite lookup_insert_ne, lookup_insert_eq by done.
    + intros k Hk. destruct w; cbn; (destruct (decide (k = tl)) as [->|Hkt];
        [rewrite lookup_insert_eq; split; [intros _; apply (wf_heap s L Hwf); eauto|done]
        |by rewrite !lookup_insert_ne by done]).
    + intros w' Hw'. split_and!; [by destruct w, w'..|]. intros k Hk.
      assert (k <> tl) by (intros ->; by apply (Hapart w' tl)).
      assert (k <> l) by (intros ->; by apply (Hno w')).
      destruct w; cbn; by rewrite !lookup_insert_ne by done.
    + rewrite Exs. apply seg_app. exists (Some l). split.
      * destruct w; exact Hseg'.
      * cbn. split; [done|]. exists None. split; [|done].
        destruct w; cbn; by rewrite lookup_insert_ne, lookup_insert_eq by done.
    + apply tail_set_tail.
  - apply last_None in Elast. eexists _, l. split; [done|]. apply (wf_added s); [done|done| | | | |].
    + destruct w; cbn; by rewrite lookup_insert_eq.
    + intros k Hk. destruct w; cbn; by rewrite lookup_insert_ne by done.
    + intros w' Hw'. split_and!; [by destruct w, w'..|]. intros k Hk.
      assert (k <> l) by (intros ->; by apply (Hno w')). destruct w; cbn; by rewrite lookup_insert_ne by done.
    + rewrite Elast. cbn. destruct w; cbn; (split; [done|]; exists None; split; [by rewrite lookup_insert_eq|done]).
    + apply tail_set_tail.
Qed.

(** ** Removing the first rule that qualifies *)

Fixpoint remove_first (g : acl_target -> bool) (xs : list (loc * acl_target)) : list (loc * acl_target) :=
  match xs with
  | [] => []
  | x :: xs => if g x.2 then xs else x :: remove_first g xs
  end.

Lemma wf_removed s L w pre l t post s' : wf s L -> L w = pre ++ (l, t) :: post ->
  heap s' !! l = None ->
  (forall k, k <> l -> is_Some (heap s' !! k) <-> is_Some (heap s !! k)) ->
  (forall w', w' <> w -> head w' s' = head w' s /\ tail w' s' = tail w' s /\
     forall k, k ∈ (L w').*1 -> heap s' !! k = heap s !! k) ->
  seg (heap s') (head w s') (pre ++ post) None -> tail w s' = fst <$> last (pre ++ post) ->
  wf s' (upd L w (pre ++ post)).
Proof.
  intros Hwf HL Hl Hdom Hoth Hseg Htl.
  assert (Hnd : NoDup (pre ++ post).*1 /\ l ∉ (pre ++ post).*1).
  { pose proof (wf_nodup s L Hwf w) as Hnd. rewrite HL, fmap_app in Hnd. cbn in Hnd.
    rewrite fmap_app. rewrite <- Permutation_middle in Hnd. by apply NoDup_cons in Hnd as [? ?]. }
  assert (Hsub : forall k, k ∈ (pre ++ post).*1 -> k ∈ (L w).*1).
  { intros k. rewrite HL, !fmap_app. cbn. set_solver. }
  assert (Hin : forall w' k, k ∈ (upd L w (pre ++ post) w').*1 -> k ∈ (L w').*1 /\ (w' = w -> k <> l)).
  { intros w' k. destruct (decide (w' = w)) as [->|Hne].
    - rewrite upd_same. intros Hk. split; [by apply Hsub|]. intros _ ->. by apply Hnd.
    - rewrite upd_other by done. done. }
  split.
  - intros w'. destruct (decide (w' = w)) as [->|Hne]; [by rewrite upd_same|].
    rewrite upd_other by done. destruct (Hoth w' Hne) as (-> & _ & Hk).
    apply (seg_ext (heap s)); [done|]. apply (wf_seg s L Hwf).
  - intros w'. destruct (decide (w' = w)) as [->|Hne]; [by rewrite upd_same|].
    rewrite upd_other by done. destruct (Hoth w' Hne) as (_ & -> & _). apply (wf_tail s L Hwf).
  - intros w'. destruct (decide (w' = w)) as [->|Hne]; [rewrite upd_same; by destruct Hnd|].
    rewrite upd_other by done. apply (wf_nodup s L Hwf).
  - intros w' w'' k [Hk _]%Hin [Hk' _]%Hin. by apply (wf_apart s L Hwf w' w'' k).
  - assert (Hlw : l ∈ (L w).*1) by (rewrite HL, fmap_app; set_solver).
    intros k. destruct (decide (k = l)) as [->|Hne].
    + rewrite Hl. split; [by intros [? ?]|]. intros (w' & Hk). apply Hin in Hk as [Hk Hk'].
      exfalso. by apply (Hk' (wf_apart s L Hwf w' w l Hk Hlw)).
    + rewrite Hdom, (wf_heap s L Hwf) by done. split; intros [w' Hw']; [|exists w'; by apply Hin].
      exists w'. destruct (decide (w' = w)) as [->|]; [|by rewrite upd_other].
      rewrite upd_same. rewrite HL, fmap_app in Hw'. rewrite fmap_app. cbn in Hw'. set_solver.
Qed.

Lemma head_heap w f s : head w (s <| heap ::= f |>) = head w s.
Proof. by destruct w. Qed.
Lemma tail_heap w f s : tail w (s <| heap ::= f |>) = tail w s.
Proof. by destruct w. Qed.

Lemma heap_fix_tail w l p s : heap (fix_tail w l p s) = heap s.
Proof. unfold fix_tail. case_decide; [|done]. by destruct w. Qed.
Lemma head_fix_tail w w' l p s : head w' (fix_tail w l p s) = head w' s.
Proof. unfold fix_tail. case_decide; [|done]. by destruct w, w'. Qed.
Lemma tail_fix_tail w w' l p s : w' <> w -> tail w' (fix_tail w l p s) = tail w' s.
Proof. unfold fix_tail. case_decide; [|done]. by destruct w, w'. Qed.

(** The tail pointer after a removal. *)
Lemma fix_tail_spec w (pre post : list (loc * acl_target)) l t s : l ∉ post.*1 ->
  tail w s = fst <$> last (pre ++ (l, t) :: post) ->
  tail w (fix_tail w l (fst <$> last pre) s) = fst <$> last (pre ++ post).
Proof.
  intros Hl E. unfold fix_tail. rewrite E. destruct post as [|y post _] using rev_ind.
  - rewrite last_snoc, decide_True by done. rewrite tail_set_tail. by rewrite app_nil_r.
  - rewrite app_comm_cons, app_assoc, last_snoc. rewrite decide_False.
    + by rewrite E, app_comm_cons, !app_assoc, !last_snoc.
    + cbn. intros [= E']. apply Hl. rewrite fmap_app, <- E'. set_solver.
Qed.

(** Unlinking the rule the walk stands on. *)
Lemma unlink_spec s L w pre l t post nx : wf s L -> L w = pre ++ (l, t) :: post ->
  heap s !! l = Some (mk_rule t nx) ->
  exists s',
    (s1 ← (match fst <$> last pre with None => Ok (set_head w nx s) | Some p => set_next p nx s end);
     free l (fix_tail w l (fst <$> last pre) s1)) = Ok s' /\ wf s' (upd L w (pre ++ post)).
Proof.
  intros Hwf HL Hl.
  pose proof (wf_seg s L Hwf w) as Hseg. rewrite HL in Hseg.
  apply seg_app in Hseg as (m & Hpre & (-> & q & Hq & Hpost)). replace q with nx in * by congruence. clear Hq.
  pose proof (wf_nodup s L Hwf w) as Hnd. rewrite HL, fmap_app in Hnd. cbn in Hnd.
  apply NoDup_app in Hnd as (Hndp & Hdis & [Hlpost Hndpost]%NoDup_cons).
  assert (Hlpre : l ∉ pre.*1) by (intros Hin; apply (Hdis l Hin); by left).
  assert (Hother : forall w' k, w' <> w -> k ∈ (L w').*1 -> k ∉ pre.*1 /\ k <> l).
  { intros w' k Hne Hk. assert (Hk' : k ∉ (L w).*1) by (intros Hk'; apply Hne; by apply (wf_apart s L Hwf w' w k)).
    rewrite HL, fmap_app in Hk'. cbn in Hk'. set_solver. }
  pose proof (wf_tail s L Hwf w) as Htl. rewrite HL in Htl.
  unfold free, deref. destruct (last pre) as [[pl pt]|] eqn:Elast; cbn [fmap option_fmap option_map fst].
  - apply last_Some in Elast as [pre0 ->].
    assert (Hpl : pl ∉ pre0.*1 /\ pl <> l /\ pl ∉ post.*1).
    { rewrite fmap_app in Hndp, Hdis, Hlpre. apply NoDup_app in Hndp as (_ & Hd & _).
      cbn in *. set_solver. }
    destruct Hpl as (Hpl & Hplne & Hplpost).
    destruct (seg_relink (heap s) (head w s) pre0 pl pt (Some l) nx Hpl Hpre) as [Hget Hpre'].
    unfold set_next, deref. rewrite Hget. cbn [or_fault mbind res_bind].
    match goal with |- context [fix_tail w l _ ?x] => set (s1 := x) in * end.
    pose proof (fix_tail_spec w (pre0 ++ [(pl, pt)]) post l t s1 Hlpost ltac:(by destruct w)) as Htl1.
    rewrite last_snoc in Htl1. cbn [fmap option_fmap option_map fst] in Htl1.
    rewrite heap_fix_tail. assert (Hl1 : heap s1 !! l = Some (mk_rule t nx)) by (cbn; by rewrite lookup_insert_ne).
    rewrite Hl1. cbn [or_fault mbind res_bind]. eexists. split; [done|].
    apply (wf_removed s L w _ l t post); [done|done|..].
    + cbn. rewrite heap_fix_tail. apply lookup_delete_eq.
    + intros k Hk. cbn. rewrite heap_fix_tail, lookup_delete_ne by done. cbn.
      destruct (decide (k = pl)) as [->|]; [by rewrite lookup_insert_eq, Hget|by rewrite lookup_insert_ne].
    + intros w' Hw'. rewrite head_heap, tail_heap, head_fix_tail, tail_fix_tail by done.
      split_and!; [by destruct w'..|]. intros k Hk. destruct (Hother w' k Hw' Hk) as [Hkp Hkl].
      cbn. rewrite heap_fix_tail, lookup_delete_ne by done. cbn. apply lookup_insert_ne.
      intros ->. apply Hkp. rewrite fmap_app. set_solver.
    + cbn. rewrite heap_fix_tail, head_heap, head_fix_tail. apply seg_app. exists nx.
      change (head w s1) with (head w (s <| heap ::= (<[pl:=mk_rule pt nx]>) |>)). rewrite head_heap.
      split; apply seg_delete; [done|done|done|]. cbn. by apply seg_insert.
    + by rewrite tail_heap.
  - apply last_None in Elast. subst pre. cbn [app] in *. cbn in Hpre.
    cbn [mbind res_bind]. set (s1 := set_head w nx s).
    assert (Hh : heap s1 = heap s) by (by destruct w).
    pose proof (fix_tail_spec w [] post l t s1 Hlpost ltac:(by destruct w)) as Htl1.
    rewrite heap_fix_tail, Hh, Hl. cbn [or_fault mbind res_bind]. eexists. split; [done|].
    apply (wf_removed s L w [] l t post); [done|done|..].
    + cbn. rewrite heap_fix_tail. apply lookup_delete_eq.
    + intros k Hk. cbn. by rewrite heap_fix_tail, Hh, lookup_delete_ne.
    + intros w' Hw'. rewrite head_heap, tail_heap, head_fix_tail, tail_fix_tail by done.
      split_and!; [by destruct w, w'..|]. intros k Hk. destruct (Hother w' k Hw' Hk) as [_ Hkl].
      cbn. by rewrite heap_fix_tail, Hh, lookup_delete_ne.
    + cbn. rewrite heap_fix_tail, head_heap, head_fix_tail, Hh. subst s1. rewrite head_set_head.
      by apply seg_delete.
    + by rewrite tail_heap.
Qed.

(** The walk: [pre] was passed over, [post] is ahead. *)
Lemma undeny_spec f g w : (forall r, f r = g r.(rule_target)) -> forall post pre s L n cur,
  wf s L -> L w = pre ++ post -> seg s.(heap) cur post None -> length post < n ->
  exists s', undeny_loop n w (fst <$> last pre) cur f s = Ok (existsb (fun x => g x.2) post, s') /\
    wf s' (upd L w (pre ++ remove_first g post)).
Proof.
  intros Hf post. induction post as [|[l t] post IH]; intros pre s L n cur Hwf HL Hs Hn; cbn in Hs.
  - subst cur. exists s. split; [by destruct n|]. cbn [remove_first]. rewrite <- HL.
    eapply wf_eq; [exact Hwf|]. intros w'. unfold upd. by case_decide; subst.
  - destruct Hs as (-> & nx & Hl & Hs). destruct n as [|n]; [cbn in Hn; lia|].
    cbn [undeny_loop existsb remove_first snd]. unfold deref at 1. rewrite Hl. cbn [or_fault mbind res_bind].
    rewrite Hf. cbn [rule_target]. destruct (g t).
    + destruct (unlink_spec s L w pre l t post nx Hwf HL Hl) as (s' & E & Hwf').
      apply bind_ok in E as (s1 & E1 & E2). cbn [next]. 
      replace (match fst <$> last pre with | Some p => set_next p nx s | None => Ok (set_head w nx s) end) with (Ok s1).
      cbn [mbind res_bind]. rewrite E2. cbn. by exists s'.
    + destruct (IH (pre ++ [(l, t)]) s L n nx Hwf) as (s' & E & Hwf').
      { by rewrite HL, <- app_assoc. } { done. } { cbn in Hn. lia. }
      exists s'. rewrite last_snoc in E. cbn [fmap option_fmap option_map fst] in E.
      cbn [next orb]. rewrite E. split; [done|]. by rewrite <- app_assoc in Hwf'.
Qed.

(** * Specification: two sets, kept in the order of insertion *)

Record acl := mk_acl { hosts : list cstring; addresses : list acl_target }.

(** What an address string denotes. *)
Definition parse_ip (ip : cstring) : option acl_target :=
  match inet_pton4 ip with
  | Some a => Some (AclAddress true a)
  | None => AclAddress false <$> inet_pton6 ip
  end.

Inductive op :=
| DenyHost (hostname : cstring)
| DenyIp (ip : cstring)
| UndenyHost (hostname : cstring)
| UndenyIp (ip : cstring)
| HostDenied (hostname : cstring)
| IpDenied (ip : cstring).

Definition perform (s : monitor_store) (o : op) : res (bool * monitor_store) :=
  match o with
  | DenyHost h => store_deny_host true s h
  | DenyIp ip => store_deny_ip true s ip
  | UndenyHost h => store_undeny_host s h
  | UndenyIp ip => store_undeny_ip s ip
  | HostDenied h => b ← is_host_denied s h; Ok (b, s)
  | IpDenied ip => b ← is_ip_denied s ip; Ok (b, s)
  end.

Definition spec (a : acl) (o : op) : bool * acl :=
  match o with
  | DenyHost h =>
    if decide (h ∈ a.(hosts) \/ is_Some (parse_ip h)) then (false, a)
    else (true, mk_acl (a.(hosts) ++ [h]) a.(addresses))
  | DenyIp ip =>
    match parse_ip ip with
    | None => (false, a)
    | Some t => if decide (t ∈ a.(addresses)) then (false, a)
                else (true, mk_acl a.(hosts) (a.(addresses) ++ [t]))
    end
  | UndenyHost h =>
    (bool_decide (h ∈ a.(hosts)), mk_acl (filter (fun h' => h' <> h) a.(hosts)) a.(addresses))
  | UndenyIp ip =>
    match parse_ip ip with
    | None => (false, a)
    | Some t => (bool_decide (t ∈ a.(addresses)), mk_acl a.(hosts) (filter (fun t' => t' <> t) a.(addresses)))
    end
  | HostDenied h => (bool_decide (h ∈ a.(hosts)), a)
  | IpDenied ip =>
    (match parse_ip ip with None => false | Some t => bool_decide (t ∈ a.(addresses)) end, a)
  end.

(** The heap holds exactly these two lists. *)
Definition rep (s : monitor_store) (a : acl) : Prop := exists L, wf s L /\
  (L Hosts).*2 = AclHost <$> a.(hosts) /\ (L Addresses).*2 = a.(addresses) /\
  NoDup a.(hosts) /\ NoDup a.(addresses) /\ Forall (fun t => forall h, t <> AclHost h) a.(addresses).

Definition host_match (h : cstring) (t : acl_target) : bool :=
  match t with AclHost host => bool_decide (host = h) | AclAddress _ _ => false end.
Definition ip_match (ip : cstring) (t : acl_target) : bool := bool_decide (parse_ip ip = Some t).

Lemma ip_rule_match_spec r ip :
  (forall h, r.(rule_target) <> AclHost h) \/ True -> ip_rule_match r ip = ip_match ip r.(rule_target).
Proof.
  intros _. unfold ip_rule_match, ip_match, parse_ip. destruct (rule_target r) as [h|v4 a].
  - symmetry. apply bool_decide_false. by destruct (inet_pton4 ip), (inet_pton6 ip).
  - destruct (inet_pton4 ip) as [x|]; [|destruct (inet_pton6 ip) as [x|]; [|by case_bool_decide]]; cbn.
    + destruct v4; cbn; [|by case_bool_decide]. apply bool_decide_ext. naive_solver.
    + destruct v4; cbn; [by case_bool_decide|]. apply bool_decide_ext. naive_solver.
Qed.

Lemma existsb_targets (g : acl_target -> bool) t (xs : list (loc * acl_target)) :
  (forall t', g t' = true <-> t' = t) ->
  existsb (fun x => g x.2) xs = bool_decide (t ∈ xs.*2).
Proof.
  intros Hg. induction xs as [|[l u] xs IH]; cbn.
  - symmetry. apply bool_decide_false, not_elem_of_nil.
  - rewrite IH. destruct (g u) eqn:E; cbn.
    + apply Hg in E as ->. symmetry. apply bool_decide_true. by left.
    + apply bool_decide_ext. rewrite elem_of_cons. split; [by right|]. intros [->|?]; [|done].
      rewrite (proj2 (Hg _)) in E; done.
Qed.

Lemma remove_first_filter (g : acl_target -> bool) t xs : (forall t', g t' = true <-> t' = t) ->
  NoDup xs.*2 -> (remove_first g xs).*2 = filter (fun t' => t' <> t) xs.*2.
Proof.
  intros Hg. induction xs as [|[l u] xs IH]; intros Hnd; [done|].
  cbn [remove_first fmap list_fmap snd] in *.
  apply NoDup_cons in Hnd as [Hu Hnd]. rewrite filter_cons. destruct (g u) eqn:E.
  - apply Hg in E as ->. rewrite decide_False by auto. symmetry. apply filter_everything. by intros u' Hu' ->.
  - rewrite decide_True by (intros ->; by rewrite (proj2 (Hg t)) in E). cbn. by rewrite <- IH.
Qed.

Lemma host_match_iff h t : host_match h t = true <-> t = AclHost h.
Proof. destruct t; cbn; [rewrite bool_decide_eq_true|]; naive_solver. Qed.

Lemma walk_fuel s L w : wf s L -> length (L w) < fuel s /\ seg s.(heap) (head w s) (L w) None.
Proof. intros Hwf. split; [by apply wf_fuel|apply (wf_seg s L Hwf)]. Qed.

Lemma host_denied_spec s a h : rep s a -> is_host_denied s h = Ok (bool_decide (h ∈ a.(hosts))).
Proof.
  intros (L & Hwf & Hh & _). unfold is_host_denied. destruct (walk_fuel s L Hosts Hwf) as [Hf Hs].
  rewrite (any_match_spec _ (host_match h) s (L Hosts)) by done.
  rewrite (existsb_targets (host_match h) (AclHost h)) by apply host_match_iff.
  rewrite Hh. f_equal. apply bool_decide_ext. rewrite list_elem_of_fmap. naive_solver.
Qed.

Lemma ip_denied_spec s a ip : rep s a -> is_ip_denied s ip =
  Ok (match parse_ip ip with None => false | Some t => bool_decide (t ∈ a.(addresses)) end).
Proof.
  intros (L & Hwf & _ & Ha & _). unfold is_ip_denied. destruct (walk_fuel s L Addresses Hwf) as [Hf Hs].
  rewrite (any_match_spec _ (ip_match ip) s (L Addresses)) by (done || intros; apply ip_rule_match_spec; auto).
  f_equal. destruct (parse_ip ip) as [t|] eqn:Ep.
  - rewrite (existsb_targets (ip_match ip) t), Ha; [done|].
    intros t'. unfold ip_match. rewrite Ep, bool_decide_eq_true. naive_solver.
  - generalize (L Addresses) as xs. unfold ip_match. rewrite Ep. clear. by induction xs.
Qed.

Lemma rep_add_host s a h : rep s a -> h ∉ a.(hosts) ->
  exists s', ('(l, s1) ← new_rule true (AclHost h) s; add_host_rule l s1) = Ok s' /\
    rep s' (mk_acl (a.(hosts) ++ [h]) a.(addresses)).
Proof.
  intros (L & Hwf & Hh & Ha & Hn1 & Hn2 & Hf) Hno.
  destruct (add_spec s L Hosts (AclHost h) Hwf) as (s' & l & E & Hwf'). exists s'. split; [exact E|].
  eexists. split; [exact Hwf'|]. rewrite upd_same, upd_other by done. cbn. rewrite !fmap_app, Hh.
  split_and!; try done. apply NoDup_app. split_and!; [done| |apply NoDup_singleton]. set_solver.
Qed.

Lemma rep_add_ip s a t : rep s a -> t ∉ a.(addresses) -> (forall h, t <> AclHost h) ->
  exists s', ('(l, s1) ← new_rule true t s; add_ip_rule l s1) = Ok s' /\
    rep s' (mk_acl a.(hosts) (a.(addresses) ++ [t])).
Proof.
  intros (L & Hwf & Hh & Ha & Hn1 & Hn2 & Hf) Hno Ht.
  destruct (add_spec s L Addresses t Hwf) as (s' & l & E & Hwf'). exists s'. split; [exact E|].
  eexists. split; [exact Hwf'|]. rewrite upd_same, upd_other by done. cbn. rewrite !fmap_app, Ha.
  split_and!; try done.
  - apply NoDup_app. split_and!; [done| |apply NoDup_singleton]. set_solver.
  - apply Forall_app. split; [done|]. by constructor.
Qed.

(** What a list loses when one target is undenied. *)
Lemma rep_undeny s a w f g t : rep s a -> (forall r, f r = g r.(rule_target)) ->
  (forall t', g t' = true <-> t' = t) ->
  exists s' L L', undeny_loop (fuel s) w None (head w s) f s = Ok (bool_decide (t ∈ (L w).*2), s') /\
    wf s' L' /\ (L Hosts).*2 = AclHost <$> a.(hosts) /\ (L Addresses).*2 = a.(addresses) /\
    (L' w).*2 = filter (fun t' => t' <> t) (L w).*2 /\ forall w', w' <> w -> L' w' = L w'.
Proof.
  intros (L & Hwf & Hh & Ha & Hn1 & Hn2 & Hf) Hfg Hg. destruct (walk_fuel s L w Hwf) as [Hfu Hs].
  destruct (undeny_spec f g w Hfg (L w) [] s L (fuel s) (head w s) Hwf eq_refl Hs Hfu) as (s' & E & Hwf').
  exists s', L, (upd L w (remove_first g (L w))). rewrite upd_same.
  rewrite (existsb_targets g t) in E by done. split_and!; try done.
  - apply remove_first_filter; [done|]. destruct w; [rewrite Hh; by apply NoDup_fmap; [intros ? ? [=]|]|by rewrite Ha].
  - intros w' Hne. by apply upd_other.
Qed.

Lemma filter_hosts h (hs : list cstring) :
  filter (fun t => t <> AclHost h) (AclHost <$> hs) = AclHost <$> filter (fun h' => h' <> h) hs.
Proof.
  induction hs as [|x hs IH]; [done|]. cbn [fmap list_fmap]. rewrite !filter_cons.
  destruct (decide (x = h)) as [->|Hne].
  - by rewrite !decide_False by auto.
  - rewrite !decide_True by congruence. cbn. by rewrite IH.
Qed.

Lemma undeny_host_rep s a h : rep s a ->
  exists s', store_undeny_host s h = Ok (bool_decide (h ∈ a.(hosts)), s') /\
    rep s' (mk_acl (filter (fun h' => h' <> h) a.(hosts)) a.(addresses)).
Proof.
  intros Hr. pose proof Hr as (_ & _ & _ & _ & Hn1 & Hn2 & Hf).
  destruct (rep_undeny s a Hosts (fun r => host_rule_match r h) (host_match h) (AclHost h) Hr)
    as (s' & L & L' & E & Hwf' & Hh & Ha & Hh' & Ho); [done|apply host_match_iff|].
  exists s'. split.
  - unfold store_undeny_host. cbn [head] in E. rewrite E, Hh. do 2 f_equal. apply bool_decide_ext.
    rewrite list_elem_of_fmap. naive_solver.
  - exists L'. split; [done|]. rewrite (Ho Addresses) by done. cbn. rewrite Hh', Hh, filter_hosts.
    split_and!; try done. by apply NoDup_filter.
Qed.

Lemma undeny_ip_rep s a ip : rep s a ->
  exists s', store_undeny_ip s ip = Ok ((spec a (UndenyIp ip)).1, s') /\ rep s' (spec a (UndenyIp ip)).2.
Proof.
  intros Hr. pose proof Hr as (L0 & Hwf0 & Hh0 & Ha0 & Hn1 & Hn2 & Hf). unfold store_undeny_ip. cbn [spec].
  destruct (parse_ip ip) as [t|] eqn:Ep; cbn [fst snd].
  - destruct (rep_undeny s a Addresses (fun r => ip_rule_match r ip) (ip_match ip) t Hr)
      as (s' & L & L' & E & Hwf' & Hh & Ha & Ha' & Ho).
    { intros. apply ip_rule_match_spec. auto. }
    { intros t'. unfold ip_match. rewrite Ep, bool_decide_eq_true. naive_solver. }
    cbn [head] in E. rewrite E, Ha. exists s'. split; [done|]. exists L'. split; [done|].
    rewrite (Ho Hosts) by done. cbn. rewrite Ha', Ha. split_and!; try done.
    + by apply NoDup_filter.
    + apply Forall_forall. intros t' Ht'. apply list_elem_of_filter in Ht' as [_ Ht'].
      by eapply Forall_forall in Hf.
  - destruct (walk_fuel s L0 Addresses Hwf0) as [Hfu Hs].
    destruct (undeny_spec (fun r => ip_rule_match r ip) (ip_match ip) Addresses
      ltac:(intros; apply ip_rule_match_spec; auto) (L0 Addresses) [] s L0 (fuel s) _ Hwf0 eq_refl Hs Hfu)
      as (s' & E & Hwf').
    assert (Hno : forall xs, existsb (fun x : loc * acl_target => ip_match ip x.2) xs = false /\
      remove_first (ip_match ip) xs = xs).
    { unfold ip_match. rewrite Ep. induction xs as [|x xs [IH1 IH2]]; [done|]. cbn. by rewrite IH1, IH2. }
    rewrite (proj1 (Hno _)) in E. rewrite (proj2 (Hno _)) in Hwf'. exists s'. split; [exact E|].
    exists L0. split; [|done]. eapply wf_eq; [exact Hwf'|]. intros w. unfold upd. by case_decide; subst.
Qed.

(** A hostname [strcpy] can copy. *)
Definition fits (o : op) : Prop :=
  match o with DenyHost h => length h <= STORE_MAX_DEST_HOST | _ => True end.

Lemma parse_ip_some h : is_Some (parse_ip h) <-> is_Some (inet_pton4 h) \/ is_Some (inet_pton6 h).
Proof. unfold parse_ip. destruct (inet_pton4 h), (inet_pton6 h); cbn; naive_solver. Qed.

Lemma deny_host_rep s a h : rep s a -> fits (DenyHost h) ->
  exists s', store_deny_host true s h = Ok ((spec a (DenyHost h)).1, s') /\ rep s' (spec a (DenyHost h)).2.
Proof.
  intros Hr Hfit. unfold store_deny_host. rewrite (host_denied_spec s a h Hr). cbn [mbind res_bind spec].
  case_bool_decide as Hin; [rewrite decide_True by auto; by exists s|].
  destruct (decide (is_Some (inet_pton4 h) \/ is_Some (inet_pton6 h))) as [Hp|Hp].
  { rewrite decide_True by (right; by apply parse_ip_some). by exists s. }
  rewrite decide_False by (rewrite parse_ip_some; tauto).
  destruct (rep_add_host s a h Hr Hin) as (s' & E & Hr'). exists s'. split; [|done].
  unfold new_rule in *. cbn [mbind res_bind] in *. cbn in Hfit.
  rewrite decide_False by lia. rewrite E. done.
Qed.

Lemma deny_ip_rep s a ip : rep s a ->
  exists s', store_deny_ip true s ip = Ok ((spec a (DenyIp ip)).1, s') /\ rep s' (spec a (DenyIp ip)).2.
Proof.
  intros Hr. unfold store_deny_ip. rewrite (ip_denied_spec s a ip Hr). cbn [mbind res_bind spec negb].
  unfold parse_ip. destruct (inet_pton4 ip) as [x|]; [|destruct (inet_pton6 ip) as [x|]; cbn [fmap option_fmap option_map]].
  - case_bool_decide as Hin; [rewrite decide_True by done; by exists s|]. rewrite decide_False by done.
    destruct (rep_add_ip s a _ Hr Hin) as (s' & E & Hr'); [done|]. exists s'. split; [|done].
    unfold new_rule in *. cbn [mbind res_bind] in *. by rewrite E.
  - case_bool_decide as Hin; [rewrite decide_True by done; by exists s|]. rewrite decide_False by done.
    destruct (rep_add_ip s a _ Hr Hin) as (s' & E & Hr'); [done|]. exists s'. split; [|done].
    unfold new_rule in *. cbn [mbind res_bind] in *. by rewrite E.
  - by exists s.
Qed.

Lemma perform_rep s a o : rep s a -> fits o ->
  exists s', perform s o = Ok ((spec a o).1, s') /\ rep s' (spec a o).2.
Proof.
  intros Hr Hfit. destruct o; cbn [perform].
  - by apply deny_host_rep.
  - by apply deny_ip_rep.
  - by apply undeny_host_rep.
  - by apply undeny_ip_rep.
  - rewrite (host_denied_spec s a) by done. by exists s.
  - rewrite (ip_denied_spec s a) by done. by exists s.
Qed.

Fixpoint run (s : monitor_store) (os : list op) : res (list bool * monitor_store) :=
  match os with
  | [] => Ok ([], s)
  | o :: os => '(b, s) ← perform s o; '(bs, s) ← run s os; Ok (b :: bs, s)
  end.

Fixpoint run_spec (a : acl) (os : list op) : list bool * acl :=
  match os with
  | [] => ([], a)
  | o :: os => let '(b, a) := spec a o in prod_map (cons b) id (run_spec a os)
  end.

(** ** Releasing the lists *)

Lemma free_list_spec xs : forall n p s, seg s.(heap) p xs None -> NoDup xs.*1 -> length xs < n ->
  exists s', free_acl_list n p s = Ok s' /\
    forall l, s'.(heap) !! l = if decide (l ∈ xs.*1) then None else s.(heap) !! l.
Proof.
  induction xs as [|[l t] xs IH]; intros n p s Hs Hnd Hn; cbn in Hs.
  - subst p. exists s. by destruct n.
  - destruct Hs as (-> & nx & Hl & Hs). destruct n as [|n]; [cbn in Hn; lia|].
    cbn [free_acl_list]. unfold free, deref. rewrite Hl. cbn [or_fault mbind res_bind next].
    apply NoDup_cons in Hnd as [Hlx Hnd].
    destruct (IH n nx (s <| heap ::= delete l |>)) as (s' & E & Hh); [|done|cbn in Hn; lia|].
    { cbn. by apply seg_delete. }
    exists s'. split; [done|]. intros k. rewrite Hh. cbn.
    destruct (decide (k ∈ xs.*1)) as [Hk|Hk]; [by rewrite decide_True by (by right)|].
    destruct (decide (k = l)) as [->|Hne].
    + rewrite decide_True by (by left). apply lookup_delete_eq.
    + rewrite decide_False by (by intros [?|?]%elem_of_cons). by apply lookup_delete_ne.
Qed.

Lemma destroy_spec s a : rep s a -> store_destroy s = Ok ∅.
Proof.
  intros (L & Hwf & _). unfold store_destroy.
  destruct (walk_fuel s L Hosts Hwf) as [Hf1 Hs1], (walk_fuel s L Addresses Hwf) as [Hf2 Hs2].
  destruct (free_list_spec (L Hosts) (fuel s) (denied_hosts s) s Hs1 (wf_nodup s L Hwf Hosts) Hf1) as (s1 & -> & Hh1).
  cbn [mbind res_bind].
  destruct (free_list_spec (L Addresses) (fuel s) (denied_addresses s) s1) as (s2 & -> & Hh2);
    [|apply (wf_nodup s L Hwf)|done|].
  { eapply seg_ext; [|exact Hs2]. intros l Hl. rewrite Hh1. apply decide_False.
    intros Hl'. by pose proof (wf_apart s L Hwf Hosts Addresses l Hl' Hl). }
  cbn. f_equal. apply map_empty. intros l. rewrite Hh2, Hh1.
  destruct (decide (l ∈ _)) as [|Ha]; [done|]. destruct (decide (l ∈ _)) as [|Hh]; [done|].
  destruct (heap s !! l) eqn:E; [|done]. destruct (proj1 (wf_heap s L Hwf l)) as [[] ?]; [by eexists|done..].
Qed.


Lemma initial_rep : rep initial_store (mk_acl [] []).
Proof.
  exists (fun _ => []). split; [|split_and!; constructor]. split; try done.
  - by intros [].
  - by intros [].
  - intros _. constructor.
  - intros w w' l Hl. by apply not_elem_of_nil in Hl.
  - intros l. cbn. rewrite lookup_empty. split; [by intros [? ?]|]. intros [_ Hl]. by apply not_elem_of_nil in Hl.
Qed.

End Acl.

Import SampleInet.


(** [strcpy] copies what it is given: a hostname of 256 bytes or more, denied
    for the first time, is written past the end of its rule. *)
Theorem long_host_overflows `{Inet} s a h : rep s a -> h ∉ a.(hosts) -> parse_ip h = None ->
  (STORE_MAX_DEST_HOST < length h)%nat -> store_deny_host true s h = Fault OutOfBounds.
Proof.
  intros Hr Hin Hp Hl. unfold store_deny_host. rewrite (host_denied_spec s a h Hr).
  rewrite bool_decide_false by done. cbn [mbind res_bind].
  rewrite decide_False by (rewrite <- parse_ip_some, Hp; by intros [? ?]).
  unfold new_rule. cbn [mbind res_bind]. by rewrite decide_True.
Qed.

Lemma long_host_overflows_witness :
  store_deny_host true initial_store (replicate 300 "a"%byte) = Fault OutOfBounds.
Proof.
  apply (long_host_overflows initial_store (mk_acl [] [])).
  - apply initial_rep.
  - apply not_elem_of_nil.
  - reflexivity.
  - vm_compute. lia.
Defined.

End Acl.
