(* ===== verification/StoreInv.v ===== *)
(** The store as one object: its user table, sessions, log, configuration and
    deny lists do not disturb each other, so the invariant of the whole is kept
    by every operation of any part, in any interleaving of the proxy's and the
    monitor's calls. *)
From S2P Require Import Prelude Inet SlotTable Store Users AccessLog Sessions Acl.
Import Store.
Local Open Scope Z_scope.

Module StoreInv.

(** ** The parts of the store *)
Definition users_part (s : monitor_store) := (s.(users), s.(user_count)).
Definition log_part (s : monitor_store) :=
  (s.(log), s.(log_count), s.(log_head), s.(next_log_id), s.(stdout)).
Definition session_part (s : monitor_store) :=
  (s.(sessions), s.(sessions_slots), s.(sessions_cap), s.(metrics), s.(next_session_id)).
Definition limits_part (s : monitor_store) := (s.(timeout), s.(io_buffer_size)).
Definition acl_part (s : monitor_store) :=
  (s.(heap), s.(denied_hosts), s.(last_denied_host), s.(denied_addresses), s.(last_denied_addr)).

(** Nothing but the user table, nothing but the deny lists, nothing but
    sessions and log. *)
Definition only_users (s s' : monitor_store) : Prop :=
  log_part s' = log_part s /\ session_part s' = session_part s /\
  limits_part s' = limits_part s /\ acl_part s' = acl_part s.
Definition only_acl (s s' : monitor_store) : Prop :=
  log_part s' = log_part s /\ session_part s' = session_part s /\
  limits_part s' = limits_part s /\ users_part s' = users_part s.
Definition only_sessions (s s' : monitor_store) : Prop :=
  limits_part s' = limits_part s /\ acl_part s' = acl_part s /\ users_part s' = users_part s.

Lemma only_acl_trans s1 s2 s3 : only_acl s1 s2 -> only_acl s2 s3 -> only_acl s1 s3.
Proof. unfold only_acl. intuition congruence. Qed.
Lemma only_sessions_trans s1 s2 s3 : only_sessions s1 s2 -> only_sessions s2 s3 -> only_sessions s1 s3.
Proof. unfold only_sessions. intuition congruence. Qed.

(** ** What depends on what *)

Lemma counted_same s s' : users_part s' = users_part s -> Users.counted s -> Users.counted s'.
Proof. intros [= E1 E2] [H1 H2]. split; by rewrite ?E1, ?E2. Qed.

Lemma sessions_wf_same s s' : session_part s' = session_part s -> log_part s' = log_part s ->
  Sessions.wf s -> Sessions.wf s'.
Proof.
  intros [= E1 E2 E3 E4 E5] [= F1 F2 F3 F4 F5] Hwf.
  apply (Sessions.same_table_wf s s'); [by repeat split| |exact Hwf].
  apply (Sessions.same_log_wf s); [by repeat split|apply Hwf].
Qed.

Lemma config_same s s' : session_part s' = session_part s -> limits_part s' = limits_part s ->
  config_ok s -> config_ok s'.
Proof. intros [= _ _ E _ _] [= E1 E2] [H1 H2 H3]. split; by rewrite ?E, ?E1, ?E2. Qed.

Lemma acl_same s s' a : acl_part s' = acl_part s -> Acl.rep s a -> Acl.rep s' a.
Proof.
  intros [= E1 E2 E3 E4 E5] (L & [W1 W2 W3 W4 W5] & R). exists L. split; [|exact R].
  split; rewrite ?E1; try done.
  - intros []; cbn; rewrite ?E2, ?E4; [apply (W1 Acl.Hosts)|apply (W1 Acl.Addresses)].
  - intros []; cbn; rewrite ?E3, ?E5; [apply (W2 Acl.Hosts)|apply (W2 Acl.Addresses)].
Qed.

(** The invariant of the whole. *)
Record store_ok (s : monitor_store) : Prop := {
  ok_users : Users.counted s;
  ok_sessions : Sessions.wf s;
  ok_config : config_ok s;
  ok_acl : exists a, Acl.rep s a;
}.

Lemma only_users_ok s s' : only_users s s' -> Users.counted s' -> store_ok s -> store_ok s'.
Proof.
  intros (E1 & E2 & E3 & E4) Hu [_ H2 H3 [a H4]].
  split; [done|by eapply sessions_wf_same|by eapply config_same|exists a; by eapply acl_same].
Qed.

Lemma only_acl_ok s s' a : only_acl s s' -> Acl.rep s' a -> store_ok s -> store_ok s'.
Proof.
  intros (E1 & E2 & E3 & E4) Ha [H1 H2 H3 _].
  split; [by eapply counted_same|by eapply sessions_wf_same|by eapply config_same|by exists a].
Qed.

(** ** Users *)

Lemma users_frame s o a s' : Users.perform s o = (a, s') -> only_users s s'.
Proof.
  destruct o as [u p b|u|u p|u p|u p|u]; cbn; [..|by intros [= _ <-]|by intros [= _ <-]|by intros [= _ <-]].
  - unfold Users.store_user_add. destruct (Users.store_user_exists s u); [by intros [= _ <-]|].
    destruct (list_find _ _) as [[i x]|]; by intros [= _ <-].
  - unfold Users.store_user_delete. destruct (list_find _ _) as [[i x]|]; [|by intros [= _ <-]].
    by destruct (decide _); intros [= _ <-].
  - unfold Users.store_user_set_password. destruct (list_find _ _) as [[i x]|]; by intros [= _ <-].
Qed.

Lemma users_ok s o a s' : store_ok s -> Users.perform s o = (a, s') -> store_ok s'.
Proof.
  intros Hs E. eapply only_users_ok; [by eapply users_frame| |done].
  eapply Users.perform_counted; [apply Hs|done].
Qed.

(** ** Deny lists *)

Section Acl.
Context `{Inet}.

Lemma set_next_frame l q s s' : Acl.set_next l q s = Ok s' -> only_acl s s'.
Proof. unfold Acl.set_next. intros (r & _ & [= <-])%bind_ok. done. Qed.

Lemma free_frame l s s' : Acl.free l s = Ok s' -> only_acl s s'.
Proof. unfold Acl.free. intros (r & _ & [= <-])%bind_ok. done. Qed.

Lemma set_tail_frame w p s : only_acl s (Acl.set_tail w p s).
Proof. by destruct w. Qed.
Lemma set_head_frame w p s : only_acl s (Acl.set_head w p s).
Proof. by destruct w. Qed.

Lemma add_rule_frame w l s s' : Acl.add_rule w l s = Ok s' -> only_acl s s'.
Proof.
  unfold Acl.add_rule. destruct (Acl.tail w s) as [t|].
  - intros (s1 & H1%set_next_frame & [= <-])%bind_ok.
    eapply only_acl_trans; [exact H1|apply set_tail_frame].
  - intros [= <-]. eapply only_acl_trans; [apply set_head_frame|apply set_tail_frame].
Qed.

Lemma undeny_frame n w f : forall p c s b s', Acl.undeny_loop n w p c f s = Ok (b, s') -> only_acl s s'.
Proof.
  induction n as [|n IH]; intros p c s b s'; cbn [Acl.undeny_loop]; destruct c as [c|]; try done;
    try by intros [= _ <-].
  intros (r & _ & E)%bind_ok. destruct (f r); [|by eapply IH].
  apply bind_ok in E as (s1 & E1 & E). apply bind_ok in E as (s2 & E2%free_frame & [= _ <-]).
  eapply only_acl_trans; [|exact E2]. eapply only_acl_trans with s1.
  - destruct p as [p|]; [by eapply set_next_frame|]. injection E1 as <-. apply set_head_frame.
  - unfold Acl.fix_tail. case_decide; [apply set_tail_frame|done].
Qed.

Lemma new_rule_frame ok t s l s' : Acl.new_rule ok t s = Ok (l, s') -> only_acl s s'.
Proof. unfold Acl.new_rule. destruct ok; [|done]. by intros [= _ <-]. Qed.

Lemma deny_frame w t s s' :
  ('(l, s1) ← Acl.new_rule true t s; Acl.add_rule w l s1) = Ok s' -> only_acl s s'.
Proof.
  intros ([l s1] & E1%new_rule_frame & E2%add_rule_frame)%bind_ok. by eapply only_acl_trans.
Qed.

Lemma acl_frame s o b s' : Acl.perform s o = Ok (b, s') -> only_acl s s'.
Proof.
  destruct o as [h|ip|h|ip|h|ip]; cbn [Acl.perform].
  - unfold Acl.store_deny_host. intros (d & _ & E)%bind_ok. destruct d; [by injection E as _ <-|].
    case_decide; [by injection E as _ <-|]. apply bind_ok in E as ([l s1] & E1%new_rule_frame & E).
    case_decide; [done|]. apply bind_ok in E as (s2 & E2%add_rule_frame & [= _ <-]).
    by eapply only_acl_trans.
  - unfold Acl.store_deny_ip. intros (d & _ & E)%bind_ok. destruct d; [by injection E as _ <-|].
    cbn [negb] in E. destruct (inet_pton4 ip); [|destruct (inet_pton6 ip); [|by injection E as _ <-]];
      apply bind_ok in E as ([lc s1] & E1%new_rule_frame & E);
      apply bind_ok in E as (s2 & E2%add_rule_frame & [= _ <-]); by eapply only_acl_trans.
  - apply undeny_frame.
  - apply undeny_frame.
  - by intros (d & _ & [= _ <-])%bind_ok.
  - by intros (d & _ & [= _ <-])%bind_ok.
Qed.

Lemma acl_ok s o : store_ok s -> Acl.fits o -> exists b s', Acl.perform s o = Ok (b, s') /\ store_ok s'.
Proof.
  intros Hs Hf. destruct (ok_acl s Hs) as [a Ha]. destruct (Acl.perform_rep s a o Ha Hf) as (s' & E & Ha').
  eexists _, s'. split; [exact E|]. eapply only_acl_ok; [by eapply acl_frame|exact Ha'|done].
Qed.

End Acl.

(** ** Sessions and log *)

Lemma put_frame i n s : only_sessions s (Sessions.put i n s).
Proof. done. Qed.

Lemma append_frame now s u h p st id s' :
  AccessLog.store_log_append now s u h p st = (id, s') -> only_sessions s s'.
Proof. unfold AccessLog.store_log_append. intros [_ <-]%pair_equal_spec. by destruct (decide _). Qed.

Lemma update_frame s id st up down : only_sessions s (AccessLog.store_log_update s id st up down).
Proof.
  unfold AccessLog.store_log_update. case_decide; [done|].
  destruct (list_find _ _) as [[i e]|]; [|done]. by destruct (decide _).
Qed.

Lemma remove_frame s i n : only_sessions s (Sessions.store_session_remove s i n).
Proof. unfold Sessions.store_session_remove. by destruct (active n). Qed.

Lemma sessions_frame s o id s' : Sessions.perform s o = (id, s') -> only_sessions s s'.
Proof.
  destruct o as [|i u|now i h p|i p|i u d|now i|i|now i|ok v]; cbn [Sessions.perform].
  - unfold Sessions.store_session_begin. case_decide; [by intros [= _ <-]|].
    destruct (list_find _ _) as [[j n]|]; by intros [= _ <-].
  - intros [= _ <-]. unfold Sessions.store_session_set_user.
    by destruct (Sessions.store_find_session s i) as [[j n]|].
  - unfold Sessions.store_session_set_dest.
    destruct (Sessions.store_find_session s i) as [[j n]|]; [|by intros [= _ <-]].
    destruct (decide _); [|by intros [= _ <-]].
    destruct (AccessLog.store_log_append _ _ _ _ _ _) as [lid s1] eqn:E. apply append_frame in E.
    intros [_ <-]%pair_equal_spec. exact E.
  - intros [= _ <-]. unfold Sessions.store_session_set_phase.
    by destruct (Sessions.store_find_session s i) as [[j n]|].
  - intros [= _ <-]. unfold Sessions.store_session_add_bytes.
    destruct (Sessions.store_find_session s i) as [[j n]|]; [|done]. cbn zeta.
    destruct (decide _); [|done]. eapply only_sessions_trans; [|apply update_frame]. done.
  - intros [= _ <-]. unfold Sessions.store_session_mark_failed.
    destruct (Sessions.store_find_session s i) as [[j n]|]; [|done].
    eapply only_sessions_trans; [|apply remove_frame]. destruct (decide _); [|done].
    destruct (AccessLog.store_log_append _ _ _ _ _ _) as [lid s1] eqn:E. by eapply append_frame.
  - intros [= _ <-]. unfold Sessions.store_session_end.
    destruct (Sessions.store_find_session s i) as [[j n]|]; [|done].
    eapply only_sessions_trans; [|apply remove_frame]. destruct (decide _); [apply update_frame|done].
  - intros [= _ <-]. unfold Sessions.store_session_mark_ttl_expired.
    destruct (Sessions.store_find_session s i) as [[j n]|]; [|done].
    eapply only_sessions_trans; [|apply remove_frame].
    destruct (decide _); [apply update_frame|]. destruct (decide _); [|done].
    destruct (AccessLog.store_log_append _ _ _ _ _ _) as [lid s1] eqn:E. by eapply append_frame.
  - intros [_ <-]%pair_equal_spec. unfold store_config_set, store_grow_sessions_slots.
    repeat case_decide; destruct ok; done.
Qed.

Lemma sessions_ok s o : store_ok s -> s.(next_session_id) < 2 ^ 32 - 1 ->
  exists id s', Sessions.perform s o = (id, s') /\ store_ok s' /\
    s'.(next_session_id) <= s.(next_session_id) + 1.
Proof.
  intros [H1 H2 H3 [a H4]] Hn. pose proof (Sessions.sessions_perform_refines s o H2 Hn) as Hp.
  unfold Sessions.refines_here in Hp. destruct (Sessions.perform s o) as [id s'] eqn:E.
  destruct Hp as (_ & Hwf' & Hle). exists id, s'. split_and!; [done| |done].
  destruct (sessions_frame _ _ _ _ E) as (F1 & F2 & F3).
  split; [by eapply counted_same|done| |exists a; by eapply acl_same].
  injection F1 as E1 E2. destruct H3. split; rewrite ?E1, ?E2; [done|apply Hwf'|done].
Qed.

(** ** Configuration *)

Lemma config_ok_step s ok key v r s' : store_ok s -> 0 <= v ->
  store_config_set ok s key v = (r, s') -> store_ok s' /\ s'.(next_session_id) = s.(next_session_id).
Proof.
  intros Hs Hv E. pose proof (config_set_ok _ _ _ _ _ _ (ok_config s Hs) Hv E) as Hc.
  destruct Hs as [H1 H2 H3 [a H4]]. destruct key.
  - cbn in E. case_decide; injection E as _ <-; (split; [|done]); (split;
      [by apply (counted_same s)|by apply (sessions_wf_same s)|done|exists a; by apply (acl_same s)]).
  - assert (E' : Sessions.perform s (Sessions.SetCap ok v) = (0, s')) by (cbn [Sessions.perform]; by rewrite E).
    pose proof (Sessions.set_cap_refines s ok v H2) as Hp. unfold Sessions.refines_here in Hp.
    rewrite E' in Hp. destruct Hp as (Hsp & Hwf' & _).
    destruct (sessions_frame _ _ _ _ E') as (F1 & F2 & F3).
    split; [split; [by eapply counted_same|done|done|exists a; by eapply acl_same]|].
    cbn [Sessions.spec] in Hsp. apply pair_equal_spec in Hsp as [_ Hsp].
    apply (f_equal Sessions.r_next) in Hsp. cbn in Hsp. rewrite <- Hsp. by case_decide.
  - cbn in E. case_decide; injection E as _ <-; (split; [|done]); (split;
      [by apply (counted_same s)|by apply (sessions_wf_same s)|done|exists a; by apply (acl_same s)]).
Qed.

(** * Any interleaving *)

Section Interleaving.
Context `{Inet}.

Inductive op :=
| OnUsers (o : Users.op)
| OnSessions (o : Sessions.op)
| OnAcl (o : Acl.op)
| SetConfig (realloc_ok : bool) (key : store_config_key) (value : Z).

Definition perform (s : monitor_store) (o : op) : res monitor_store :=
  match o with
  | OnUsers o => Ok (Users.perform s o).2
  | OnSessions o => Ok (Sessions.perform s o).2
  | OnAcl o => '(_, s) ← Acl.perform s o; Ok s
  | SetConfig ok k v => Ok (store_config_set ok s k v).2
  end.

(** Hostnames that fit their field, values that are unsigned. *)
Definition legal (o : op) : Prop :=
  match o with OnAcl o => Acl.fits o | SetConfig _ _ v => 0 <= v | _ => True end.

Fixpoint run (s : monitor_store) (os : list op) : res monitor_store :=
  match os with
  | [] => Ok s
  | o :: os => s ← perform s o; run s os
  end.

(** The operations of the monitor. *)
Definition administrative (o : op) : Prop := match o with OnSessions _ => False | _ => True end.

Lemma administrative_ok s o : store_ok s -> legal o -> administrative o ->
  exists s', perform s o = Ok s' /\ store_ok s' /\ s'.(next_session_id) = s.(next_session_id).
Proof.
  intros Hs Hl Ha. destruct o as [o|o|o|ok k v]; cbn [perform]; [|done|..].
  - destruct (Users.perform s o) as [a s'] eqn:E. exists s'. split_and!; [done|by eapply users_ok|].
    destruct (users_frame _ _ _ _ E) as (_ & F & _). by injection F as _ _ _ _ F.
  - destruct (acl_ok s o Hs Hl) as (b & s' & E & Hs'). rewrite E. exists s'. split_and!; [done|done|].
    destruct (acl_frame _ _ _ _ E) as (_ & F & _). by injection F as _ _ _ _ F.
  - destruct (store_config_set ok s k v) as [r s'] eqn:E. exists s'.
    by destruct (config_ok_step _ _ _ _ _ _ Hs Hl E) as [Hs' Hn'].
Qed.

Lemma administrative_run os : forall s, store_ok s -> Forall legal os -> Forall administrative os ->
  exists s', run s os = Ok s' /\ store_ok s'.
Proof.
  induction os as [|o os IH]; intros s Hs Hl Ha; cbn [run]; [by exists s|].
  apply Forall_cons in Hl as [Ho Hl]. apply Forall_cons in Ha as [Hoa Ha].
  destruct (administrative_ok s o Hs Ho Hoa) as (s1 & -> & Hs1 & _). by apply IH.
Qed.

(** No operation of the monitor makes the relay's buffers too small. *)
Lemma administrative_io os : forall s s', Forall administrative os -> 1024 <= s.(io_buffer_size) ->
  run s os = Ok s' -> 1024 <= s'.(io_buffer_size).
Proof.
  induction os as [|o os IH]; intros s s' Ha Hio; cbn [run]; [by intros [= <-]|].
  apply Forall_cons in Ha as [Ho Ha]. intros (s1 & E1 & E)%bind_ok. apply (IH s1 s'); [done| |done].
  destruct o as [o|o|o|ok k v]; cbn [perform] in E1; [|done|..].
  - destruct (Users.perform s o) as [a s2] eqn:Hp. injection E1 as <-.
    destruct (users_frame _ _ _ _ Hp) as (_ & _ & F & _). injection F as _ F. cbn. lia.
  - apply bind_ok in E1 as ([b s2] & Hp & [= <-]). destruct (acl_frame _ _ _ _ Hp) as (_ & _ & F & _).
    injection F as _ F. lia.
  - injection E1 as <-. unfold store_config_set, store_grow_sessions_slots.
    destruct k; [by case_decide| |case_decide; cbn; lia]. repeat case_decide; by destruct ok.
Qed.

Lemma perform_ok s o : store_ok s -> legal o -> s.(next_session_id) < 2 ^ 32 - 1 ->
  exists s', perform s o = Ok s' /\ store_ok s' /\ s'.(next_session_id) <= s.(next_session_id) + 1.
Proof.
  intros Hs Hl Hn. destruct o as [o|o|o|ok k v];
    try (edestruct administrative_ok as (s' & E & Hs' & Hid); [done|exact Hl|done|]; exists s'; split_and!; [done|done|lia]).
  destruct (sessions_ok s o Hs Hn) as (id & s' & E & Hs' & Hle). exists s'. cbn [perform]. by rewrite E.
Qed.


(** ** What a run does to the two deny sets *)
Definition acl_step (a : Acl.acl) (o : op) : Acl.acl :=
  match o with OnAcl o => (Acl.spec a o).2 | _ => a end.

Lemma config_acl s ok k v : acl_part (store_config_set ok s k v).2 = acl_part s.
Proof.
  unfold store_config_set, store_grow_sessions_slots.
  destruct k; [by case_decide| |by case_decide]. repeat case_decide; destruct ok; done.
Qed.

Lemma perform_acl s o a s' : Acl.rep s a -> legal o -> perform s o = Ok s' -> Acl.rep s' (acl_step a o).
Proof.
  intros Hr Hl. destruct o as [o|o|o|ok k v]; cbn [perform acl_step].
  - intros [= <-]. eapply acl_same; [|exact Hr].
    destruct (Users.perform s o) as [r s'] eqn:E. apply users_frame in E. apply E.
  - intros [= <-]. eapply acl_same; [|exact Hr].
    destruct (Sessions.perform s o) as [r s'] eqn:E. apply sessions_frame in E. apply E.
  - destruct (Acl.perform_rep s a o Hr Hl) as (s1 & -> & Hr1). by intros [= <-].
  - intros [= <-]. eapply acl_same; [|exact Hr]. apply config_acl.
Qed.

Lemma run_acl os : forall s a s', Acl.rep s a -> Forall legal os -> run s os = Ok s' ->
  Acl.rep s' (foldl acl_step a os).
Proof.
  induction os as [|o os IH]; intros s a s' Hr Hl; cbn [run foldl]; [by intros [= <-]|].
  apply Forall_cons in Hl as [Ho Hl]. intros (s1 & E1 & E)%bind_ok.
  eapply IH; [by eapply perform_acl|done|exact E].
Qed.

Lemma initial_ok : store_ok initial_store.
Proof.
  split; [apply Users.users_initial_wf|apply Sessions.sessions_initial_wf|apply initial_config|].
  eexists. apply Acl.initial_rep.
Qed.

End Interleaving.

Import SampleInet.


End StoreInv.
