(* ===== verification/MonCommands.v ===== *)
(** The administration protocol of src/server/monitor/monitor_commands.c: lines
    are collected from the bytes of a connection, split into words, and
    answered into an output buffer of 4096 bytes.  Allocation results are
    arguments of the section. *)
From S2P Require Import Prelude CBuffer Inet SlotTable Store Users AccessLog Sessions Acl.
From S2P Require Import StoreInv.
Import Store.
Local Open Scope Z_scope.

Module MonCommands.

Definition MONITOR_BUFFER_SIZE : nat := Z.to_nat 4096.
Definition MONITOR_LINE_MAX : nat := 512.
Definition MONITOR_COMMANDS_GREETING : cstring := lit "+OK ChungusMonitor v1.0" ++ [x0a].

Inductive monitor_commands_state := MONITOR_ST_AWAIT_AUTH | MONITOR_ST_AUTHENTICATED.
#[export] Instance state_eq_dec : EqDecision monitor_commands_state.
Proof. solve_decision. Defined.

Record monitor_commands_session := mk_session {
  state : monitor_commands_state;
  wb : CBuffer.buffer;
  line_buf : list byte;          (* char[MONITOR_LINE_MAX + 1] *)
  line_len : nat;
  close_after_flush : bool;
}.
#[export] Instance eta_session : Eta monitor_commands_session := fun s =>
  mk_session s.(state) s.(wb) s.(line_buf) s.(line_len) s.(close_after_flush).

(** The session and the store it points at. *)
Record world := mk_world { ses : monitor_commands_session; sto : monitor_store }.
#[export] Instance eta_world : Eta world := fun w => mk_world w.(ses) w.(sto).

(** * Output *)

Definition commands_wb_append (text : cstring) (w : world) : res (bool * world) :=
  let b := w.(ses).(wb) in
  '(_, available) ← CBuffer.buffer_write_ptr b;
  if decide (available < length text)%nat then Ok (false, w)
  else
    b ← CBuffer.buffer_store b text;
    b ← CBuffer.buffer_write_adv b (Z.of_nat (length text));
    Ok (true, w <| ses ::= (fun s => s <| wb := b |>) |>).

(** [text] is what the format and its arguments expand to. *)
Definition commands_wb_appendf (text : cstring) (w : world) : res (bool * world) :=
  if decide (MONITOR_BUFFER_SIZE <= length text)%nat then Ok (false, w)
  else commands_wb_append text w.

(** The handlers ignore whether the text fitted. *)
Definition append (text : cstring) (w : world) : res world := snd <$> commands_wb_append text w.
Definition appendf (text : cstring) (w : world) : res world := snd <$> commands_wb_appendf text w.

Definition nl : cstring := [x0a].
Definition ok_line : cstring := lit "+OK" ++ nl.
Definition err (what : String.string) : cstring := lit "-ERR " ++ lit what ++ nl.
Arguments err what%_string_scope.
Definition dot_line : cstring := lit "." ++ nl.

Definition monitor_commands_session_init (backing line : list byte) : monitor_commands_session :=
  mk_session MONITOR_ST_AWAIT_AUTH (CBuffer.buffer_init MONITOR_BUFFER_SIZE backing) line 0 false.

Definition monitor_commands_queue_greeting (w : world) : res world :=
  w ← append MONITOR_COMMANDS_GREETING w; append dot_line w.

(** The bytes are the ones copied to [out]. *)
Definition monitor_commands_wb_read (max : nat) (w : world) : res (list byte * world) :=
  let b := w.(ses).(wb) in
  '(_, pending) ← CBuffer.buffer_read_ptr b;
  let n := if decide (pending < max)%nat then pending else max in
  if decide (0 < n)%nat then
    out ← CBuffer.buffer_peek b n;
    b ← CBuffer.buffer_read_adv b (Z.of_nat n);
    b ← CBuffer.buffer_compact b;
    Ok (out, w <| ses ::= (fun s => s <| wb := b |>) |>)
  else Ok ([], w).

Definition monitor_commands_should_close (s : monitor_commands_session) : bool :=
  s.(close_after_flush) && negb (CBuffer.buffer_can_read s.(wb)).

(** * Words of a line *)

(** The tokens [strtok_r] finds with the delimiter " ": [cur] is the one being
    read. *)
Fixpoint tokens (s cur : cstring) : list cstring :=
  match s with
  | [] => if decide (cur = []) then [] else [cur]
  | c :: s =>
    if decide (c = " "%byte) then (if decide (cur = []) then tokens s [] else cur :: tokens s [])
    else tokens s (cur ++ [c])
  end.

(** The arguments, the command first: at most 8. *)
Definition split_line (line : cstring) : list cstring := take 8 (tokens line []).

Definition argc (args : list cstring) : nat := length args.
Definition arg (args : list cstring) (i : nat) : cstring := default [] (args !! i).

(** [strtol(s, &end, 10)]: the value, whether digits were found and whether
    [*end] is the terminator.  Out of range it saturates. *)
Definition LONG_MAX : Z := 2 ^ 63 - 1.
Definition is_space (b : byte) : bool := bool_decide (bz b = 32 \/ 9 <= bz b <= 13).

Fixpoint skip_space (s : cstring) : cstring :=
  match s with
  | c :: s' => if is_space c then skip_space s' else s
  | [] => []
  end.

Fixpoint strtol_digits (s : cstring) (acc : Z) (any : bool) : Z * bool * cstring :=
  match s with
  | c :: s' => if is_digit c then strtol_digits s' (acc * 10 + (bz c - 48)) true else (acc, any, s)
  | [] => (acc, any, [])
  end.

Definition strtol (s : cstring) : Z * bool * cstring :=
  let s := skip_space s in
  let '(neg, s) := match s with
    | c :: s' => if decide (c = "-"%byte) then (true, s')
                 else if decide (c = "+"%byte) then (false, s') else (false, s)
    | [] => (false, s)
    end in
  let '(v, any, rest) := strtol_digits s 0 false in
  let v := if neg : bool then - v else v in
  (if decide (v > LONG_MAX) then LONG_MAX else if decide (v < - LONG_MAX - 1) then - LONG_MAX - 1 else v,
   any, rest).

Section Commands.
Context `{Inet}.
(** Whether [calloc] and [realloc] succeed. *)
Variables (alloc_ok realloc_ok : bool).

Abbreviation handler := (list cstring -> world -> res world).

Definition handle_auth : handler := fun args w =>
  if decide (w.(ses).(state) = MONITOR_ST_AUTHENTICATED) then append (err "already authenticated") w
  else if decide (argc args < 3)%nat then append (err "syntax error") w
  else match Users.store_admin_authenticate w.(sto) (arg args 1) (arg args 2) with
  | STORE_AUTH_OK =>
    append ok_line (w <| ses ::= (fun s => s <| state := MONITOR_ST_AUTHENTICATED |>) |>)
  | STORE_AUTH_NOT_ADMIN => append (err "not admin") w
  | STORE_AUTH_INVALID => append (err "invalid credentials") w
  end.

Definition stats_line (m : store_metrics) : cstring :=
  lit "+OK total_connections=" ++ dec m.(total_connections) ++
  lit " concurrent_connections=" ++ dec m.(concurrent_connections) ++
  lit " bytes_up=" ++ dec m.(m_bytes_up) ++ lit " bytes_down=" ++ dec m.(m_bytes_down) ++ nl.

Definition handle_stats (w : world) : res world := appendf (stats_line (store_metrics_get w.(sto))) w.

Definition or_dash (s : cstring) : cstring := if decide (s <> []) then s else lit "-".

Definition connection_line (s : store_active_session) : cstring :=
  lit "+OK " ++ or_dash s.(s_username) ++ lit " " ++ or_dash s.(s_host) ++ lit ":" ++ dec s.(s_port) ++
  lit " " ++ store_session_phase_str s.(s_phase) ++ lit " " ++ dec s.(s_bytes_up) ++ lit " " ++
  dec s.(s_bytes_down) ++ nl.

(** A foreach callback that appends a line and goes on. *)
Definition append_each {X} (line : X -> cstring) (x : X) (w : res world) : bool * res world :=
  (true, w ← w; appendf (line x) w).
Definition append_connection := append_each connection_line.
Definition count_connection (_ : store_active_session) (_ : bool) : bool * bool := (true, true).

Definition handle_connections (w : world) : res world :=
  if Sessions.store_sessions_foreach w.(sto) count_connection false
  then Sessions.store_sessions_foreach w.(sto) append_connection (Ok w)
  else append ok_line w.

Definition user_line (u : cstring) (r : store_role) : cstring :=
  lit "+OK " ++ u ++ lit " (" ++
  match r with STORE_ROLE_ADMIN => lit "admin" | STORE_ROLE_USER => lit "user" end ++ lit ")" ++ nl.
Definition append_user (u : cstring) (r : store_role) (w : res world) : bool * res world :=
  (true, w ← w; appendf (user_line u r) w).
Definition count_user (_ : cstring) (_ : store_role) (_ : bool) : bool * bool := (true, true).

Definition handle_users (w : world) : res world :=
  if Users.store_users_foreach w.(sto) count_user false
  then Users.store_users_foreach w.(sto) append_user (Ok w)
  else append ok_line w.

Definition out_of_range (param : cstring) (value : Z) : Prop :=
  (param = lit "timeout" /\ value > 86400) \/
  (param = lit "max_connections" /\ (value < STORE_SESSIONS_CAP_MIN \/ value > STORE_SESSIONS_CAP_MAX)) \/
  (param = lit "io_buffer_size" /\ (value < 1024 \/ value > 65536)).
#[export] Instance out_of_range_dec p v : Decision (out_of_range p v).
Proof. unfold out_of_range. apply _. Defined.

Definition handle_config : handler := fun args w =>
  if decide (argc args < 2)%nat then append (err "syntax error") w
  else match store_config_key_from_name (arg args 1) with
  | None => append (err "unknown param") w
  | Some key =>
    if decide (argc args = 2)%nat
    then appendf (lit "+OK " ++ dec (store_config_get w.(sto) key) ++ nl) w
    else
      let '(value, any, rest) := strtol (arg args 2) in
      if decide (any = false \/ rest <> [] \/ value < 0) then append (err "invalid value") w
      else if decide (out_of_range (arg args 1) value) then append (err "invalid value") w
      else
        let '(r, s) := store_config_set realloc_ok w.(sto) key (u32 value) in
        let w := w <| sto := s |> in
        match r with
        | STORE_CFG_OK => append ok_line w
        | STORE_CFG_UNKNOWN_KEY => append (err "unknown param") w
        | STORE_CFG_INVALID_VALUE => append (err "invalid value") w
        end
  end.

Definition log_line (e : store_log_entry) : cstring := lit "+OK " ++ AccessLog.store_log_print e.
Definition append_log_entry := append_each log_line.

Definition handle_access_log : handler := fun args w =>
  let filter := if decide (2 <= argc args)%nat then Some (arg args 1) else None in
  match filter with
  | None =>
    w ← append (lit "+OK Access log for all users:" ++ nl) w;
    AccessLog.store_log_foreach w.(sto) None append_log_entry (Ok w)
  | Some u =>
    if negb (Users.store_user_exists w.(sto) u) then append (err "user not found") w
    else
      w ← appendf (lit "+OK Access log for user " ++ u ++ lit ":" ++ nl) w;
      AccessLog.store_log_foreach w.(sto) (Some u) append_log_entry (Ok w)
  end.

Definition handle_add_user : handler := fun args w =>
  let is_admin := bool_decide (4 <= argc args)%nat && bool_decide (arg args 3 = lit "admin") in
  if decide (argc args < 3)%nat then append (err "syntax error") w
  else
    let '(r, s) := Users.store_user_add w.(sto) (arg args 1) (arg args 2) is_admin in
    let w := w <| sto := s |> in
    match r with
    | STORE_USER_OK => append ok_line w
    | STORE_USER_EXISTS => append (err "user exists") w
    | STORE_USER_TABLE_FULL => append (err "user table full") w
    | _ => append (err "syntax error") w
    end.

Definition handle_del_user : handler := fun args w =>
  if decide (argc args < 2)%nat then append (err "syntax error") w
  else
    let '(r, s) := Users.store_user_delete w.(sto) (arg args 1) in
    let w := w <| sto := s |> in
    match r with
    | STORE_USER_OK => append ok_line w
    | STORE_USER_NOT_FOUND => append (err "user not found") w
    | STORE_USER_LAST_ADMIN => append (err "cannot delete last admin") w
    | _ => append (err "syntax error") w
    end.

Definition handle_set_password : handler := fun args w =>
  if decide (argc args < 3)%nat then append (err "syntax error") w
  else
    let '(r, s) := Users.store_user_set_password w.(sto) (arg args 1) (arg args 2) in
    let w := w <| sto := s |> in
    if decide (r = STORE_USER_OK) then append ok_line w else append (err "user not found") w.

Definition handle_deny_host : handler := fun args w =>
  if decide (argc args < 2)%nat then append (err "syntax error") w
  else
    denied ← Acl.is_host_denied w.(sto) (arg args 1);
    if denied : bool then append (err "host already denied") w
    else
      '(added, s) ← Acl.store_deny_host alloc_ok w.(sto) (arg args 1);
      let w := w <| sto := s |> in
      if added : bool then append ok_line w else append (err "failed to add rule") w.

Definition handle_deny_ip : handler := fun args w =>
  if decide (argc args < 2)%nat then append (err "syntax error") w
  else
    denied ← Acl.is_ip_denied w.(sto) (arg args 1);
    if denied : bool then append (err "address already denied") w
    else
      '(added, s) ← Acl.store_deny_ip alloc_ok w.(sto) (arg args 1);
      let w := w <| sto := s |> in
      if added : bool then append ok_line w else append (err "failed to add rule") w.

Definition handle_undeny : handler := fun args w =>
  if decide (argc args < 2)%nat then append (err "syntax error") w
  else
    '(removed, s) ← Acl.store_undeny_host w.(sto) (arg args 1);
    '(removed, s) ← (if removed : bool then Ok (true, s) else Acl.store_undeny_ip s (arg args 1));
    let w := w <| sto := s |> in
    if removed : bool then append ok_line w else append (err "rule not present") w.

(** The loop over a deny list. *)
Fixpoint append_rules (n : nat) (p : option loc) (w : world) : res world :=
  match p with
  | None => Ok w
  | Some l =>
    match n with
    | O => Fault OutOfFuel
    | S n =>
      r ← Acl.deref l w.(sto);
      w ← appendf (lit "+OK " ++ Acl.acl_rule_to_string (Some r) ++ nl) w;
      append_rules n r.(next) w
    end
  end.

Definition handle_deny_list : handler := fun args w =>
  let '(show_hosts, show_ips) :=
    if decide (2 <= argc args)%nat then
      if decide (arg args 1 = lit "host") then (true, false)
      else if decide (arg args 1 = lit "ip") then (false, true) else (false, false)
    else (true, true) in
  w ← (if show_hosts : bool then
         let hosts := Acl.get_denied_hosts w.(sto) in
         w ← append (lit "+OK Denied hosts:" ++ nl) w;
         append_rules (Acl.fuel w.(sto)) hosts w
       else Ok w);
  if show_ips : bool then
    let ips := Acl.get_denied_ips w.(sto) in
    w ← append (lit "+OK Denied IPs:" ++ nl) w;
    append_rules (Acl.fuel w.(sto)) ips w
  else Ok w.

Definition handle_quit (w : world) : res world :=
  w ← append ok_line w;
  Ok (w <| ses ::= (fun s => s <| close_after_flush := true |>) |>).

(** * Dispatch *)

Definition run_command (cmd : cstring) : handler := fun args w =>
  if decide (cmd = lit "STATS") then handle_stats w
  else if decide (cmd = lit "CONNECTIONS") then handle_connections w
  else if decide (cmd = lit "USERS") then handle_users w
  else if decide (cmd = lit "CONFIG") then handle_config args w
  else if decide (cmd = lit "ACCESS_LOG") then handle_access_log args w
  else if decide (cmd = lit "ADD_USER") then handle_add_user args w
  else if decide (cmd = lit "DEL_USER") then handle_del_user args w
  else if decide (cmd = lit "SET_PASSWORD") then handle_set_password args w
  else if decide (cmd = lit "DENY_HOST") then handle_deny_host args w
  else if decide (cmd = lit "DENY_IP") then handle_deny_ip args w
  else if decide (cmd = lit "UNDENY") then handle_undeny args w
  else if decide (cmd = lit "DENY_LIST") then handle_deny_list args w
  else if decide (cmd = lit "QUIT") then handle_quit w
  else append (err "unknown command") w.

Definition dispatch_line (line : cstring) (w : world) : res world :=
  let args := split_line line in
  match args with
  | [] => Ok w
  | cmd :: _ =>
    if decide (w.(ses).(state) = MONITOR_ST_AWAIT_AUTH) then
      w ← (if decide (cmd = lit "AUTH") then handle_auth args w
           else append (err "not authenticated") w);
      append dot_line w
    else if decide (cmd = lit "AUTH") then
      w ← append (err "already authenticated") w; append dot_line w
    else w ← run_command cmd args w; append dot_line w
  end.

(** [line_buf[i] = c] *)
Definition set_char (i : nat) (c : byte) (w : world) : res world :=
  b ← mem_write i [c] w.(ses).(line_buf);
  Ok (w <| ses ::= (fun s => s <| line_buf := b |>) |>).
Definition get_char (i : nat) (w : world) : res byte :=
  or_fault OutOfBounds (w.(ses).(line_buf) !! i).
Definition set_len (n : nat) (w : world) : world := w <| ses ::= (fun s => s <| line_len := n |>) |>.

Definition process_byte (ch : byte) (w : world) : res world :=
  let len := w.(ses).(line_len) in
  if decide (MONITOR_LINE_MAX <= len)%nat then
    w ← append (err "line too long") (set_len 0 w); append dot_line w
  else if decide (ch = x0a) then
    w ← set_char len x00 w;
    w ← (if decide (0 < len)%nat then
           c ← get_char (len - 1) w;
           if decide (c = x0d) then set_char (len - 1) x00 w else Ok w
         else Ok w);
    c0 ← get_char 0 w;
    w ← (if decide ((0 < len)%nat \/ c0 <> x00) then dispatch_line (c_str w.(ses).(line_buf)) w else Ok w);
    Ok (set_len 0 w)
  else
    w ← set_char len ch w;
    Ok (set_len (len + 1) w).

Fixpoint monitor_commands_feed (data : list byte) (w : world) : res world :=
  match data with
  | [] => Ok w
  | b :: data => w ← process_byte b w; monitor_commands_feed data w
  end.

Definition monitor_commands_flush_on_eof (w : world) : res world :=
  let len := w.(ses).(line_len) in
  if decide (0 < len)%nat then
    w ← set_char len x00 w;
    w ← dispatch_line (c_str w.(ses).(line_buf)) w;
    Ok (set_len 0 w)
  else Ok w.

(** * What is written

    Each piece of a response is written whole or, when it does not fit in the
    space left, not at all; a formatted one must also fit the 4096 bytes it is
    formatted in. *)
Inductive piece := Lit (text : cstring) | Fmt (text : cstring).

Definition piece_text (p : piece) : cstring := match p with Lit t | Fmt t => t end.
Definition piece_fits (space : nat) (p : piece) : Prop :=
  (length (piece_text p) <= space)%nat /\
  match p with Lit _ => True | Fmt t => (length t < MONITOR_BUFFER_SIZE)%nat end.
#[export] Instance piece_fits_dec n p : Decision (piece_fits n p).
Proof. destruct p; unfold piece_fits; apply _. Defined.

Fixpoint fit (space : nat) (ps : list piece) : cstring :=
  match ps with
  | [] => []
  | p :: ps =>
    if decide (piece_fits space p) then piece_text p ++ fit (space - length (piece_text p)) ps
    else fit space ps
  end.

Lemma fit_length n ps : (length (fit n ps) <= n)%nat.
Proof.
  revert n. induction ps as [|p ps IH]; intros n; cbn; [lia|].
  case_decide as Hp; [|done]. rewrite length_app. destruct Hp as [Hp _].
  specialize (IH (n - length (piece_text p))%nat). lia.
Qed.

Lemma fit_app n ps qs : fit n (ps ++ qs) = fit n ps ++ fit (n - length (fit n ps)) qs.
Proof.
  revert n. induction ps as [|p ps IH]; intros n; cbn; [by rewrite Nat.sub_0_r|].
  case_decide; [|done]. rewrite IH, length_app, app_assoc. do 2 f_equal. lia.
Qed.

(** With room for everything, everything is written. *)
Lemma fit_all n ps : (length (concat (piece_text <$> ps)) <= n)%nat ->
  Forall (fun p => match p with Lit _ => True | Fmt t => (length t < MONITOR_BUFFER_SIZE)%nat end) ps ->
  fit n ps = concat (piece_text <$> ps).
Proof.
  revert n. induction ps as [|p ps IH]; intros n Hn Hf; [done|].
  apply Forall_cons in Hf as [Hp Hf]. cbn in *. rewrite length_app in Hn.
  rewrite decide_True by (split; [lia|done]). f_equal. apply IH; [lia|done].
Qed.

Definition out (s : monitor_commands_session) : cstring := CBuffer.contents s.(wb).
Definition room (s : monitor_commands_session) : nat := CBuffer.space s.(wb).

Record good (s : monitor_commands_session) : Prop := {
  g_wb : CBuffer.wf s.(wb);
  g_limit : CBuffer.limit s.(wb) = MONITOR_BUFFER_SIZE;
  g_line : length s.(line_buf) = S MONITOR_LINE_MAX;
  g_len : (s.(line_len) <= MONITOR_LINE_MAX)%nat;
}.

(** [s'] is [s] after the pieces [ps]. *)
Definition wrote (s s' : monitor_commands_session) (ps : list piece) : Prop :=
  exists b, s' = s <| wb := b |> /\ CBuffer.wf b /\ CBuffer.limit b = CBuffer.limit s.(wb) /\
    CBuffer.contents b = out s ++ fit (room s) ps /\
    CBuffer.space b = (room s - length (fit (room s) ps))%nat.

Lemma wrote_good s s' ps : wrote s s' ps -> good s -> good s'.
Proof. intros (b & -> & Hb & Hl & _) [H1 H2 H3 H4]. split; cbn; try done. by rewrite Hl. Qed.

Lemma wrote_trans s1 s2 s3 ps qs : wrote s1 s2 ps -> wrote s2 s3 qs -> wrote s1 s3 (ps ++ qs).
Proof.
  intros (b & -> & Hb & Hl & Hc & Hs) (c & -> & Hb' & Hl' & Hc' & Hs').
  exists c. split_and!; [done|done| | |].
  - by rewrite Hl'.
  - rewrite Hc'. unfold out, room in *. cbn in *. rewrite Hc, fit_app, <- app_assoc. by rewrite Hs.
  - rewrite Hs'. unfold out, room in *. cbn in *. rewrite fit_app, length_app, Hs. lia.
Qed.

Lemma wrote_nothing s : good s -> wrote s s [].
Proof.
  intros [H1 H2 H3 H4]. exists s.(wb). split_and!; try done.
  - by destruct s.
  - cbn. by rewrite app_nil_r.
  - cbn. by rewrite Nat.sub_0_r.
Qed.

(** The result of a handler: what is said, what is done to the store, and what
    becomes of the session apart from its output. *)
Definition answers (w : world) (r : res world) (ps : list piece) (os : list StoreInv.op)
    (f : monitor_commands_session -> monitor_commands_session) : Prop :=
  exists w', r = Ok w' /\ StoreInv.run w.(sto) os = Ok w'.(sto) /\ wrote (f w.(ses)) w'.(ses) ps.

Lemma append_wrote t w : good w.(ses) ->
  exists s', append t w = Ok (mk_world s' w.(sto)) /\ wrote w.(ses) s' [Lit t].
Proof.
  intros Hg. pose proof (g_wb _ Hg) as Hwf. unfold append, commands_wb_append.
  rewrite CBuffer.write_ptr_wf by done. cbn [mbind res_bind].
  destruct (decide (CBuffer.space (wb (ses w)) < length t)%nat) as [Hlt|Hge].
  - exists w.(ses). split; [by destruct w|]. destruct (wrote_nothing _ Hg) as (b & E & H1 & H2 & H3 & H4).
    exists b. split_and!; try done.
    + rewrite H3. cbn [fit]. rewrite decide_False by (intros [? _]; cbn in *; unfold room in *; lia). done.
    + rewrite H4. cbn [fit]. rewrite decide_False by (intros [? _]; cbn in *; unfold room in *; lia). done.
  - destruct (CBuffer.append_spec (wb (ses w)) t Hwf ltac:(lia)) as (b & E & Hb & Hc & Hr & Hw & Hl).
    apply bind_ok in E as (b1 & -> & E). cbn [mbind res_bind]. rewrite E. cbn.
    eexists. split; [done|]. exists b. split_and!; try done.
    + cbn [fit]. rewrite decide_True by (split; [cbn; unfold room; lia|done]). cbn. by rewrite app_nil_r.
    + cbn [fit]. rewrite decide_True by (split; [cbn; unfold room; lia|done]). cbn. rewrite app_nil_r.
      unfold room, CBuffer.space. lia.
Qed.

Lemma appendf_wrote t w : good w.(ses) ->
  exists s', appendf t w = Ok (mk_world s' w.(sto)) /\ wrote w.(ses) s' [Fmt t].
Proof.
  intros Hg. unfold appendf, commands_wb_appendf.
  destruct (decide (MONITOR_BUFFER_SIZE <= length t)%nat) as [Hlt|Hge].
  - exists w.(ses). split; [by destruct w|]. destruct (wrote_nothing _ Hg) as (b & E & H1 & H2 & H3 & H4).
    exists b. split_and!; try done.
    + rewrite H3. cbn [fit]. rewrite decide_False by (intros [_ ?]; cbn in *; lia). done.
    + rewrite H4. cbn [fit]. rewrite decide_False by (intros [_ ?]; cbn in *; lia). done.
  - destruct (append_wrote t w Hg) as (s' & E & b & -> & H1 & H2 & H3 & H4). unfold append in E.
    exists (w.(ses) <| wb := b |>). split; [exact E|]. exists b.
    assert (Hf : fit (room w.(ses)) [Fmt t] = fit (room w.(ses)) [Lit t]).
    { cbn [fit]. destruct (decide (piece_fits (room (ses w)) (Lit t))) as [[Hp _]|Hp].
      - rewrite decide_True; [done|]. split; [done|lia].
      - rewrite decide_False; [done|]. intros [Hp' _]. by apply Hp. }
    rewrite Hf. by split_and!.
Qed.

#[local] Arguments append : simpl never.
#[local] Arguments appendf : simpl never.

Lemma answer_append t w : good w.(ses) -> answers w (append t w) [Lit t] [] id.
Proof. intros Hg. destruct (append_wrote t w Hg) as (s' & E & Hw). by exists (mk_world s' w.(sto)). Qed.

Lemma answer_appendf t w : good w.(ses) -> answers w (appendf t w) [Fmt t] [] id.
Proof. intros Hg. destruct (appendf_wrote t w Hg) as (s' & E & Hw). by exists (mk_world s' w.(sto)). Qed.

(** First something is done to the store, then it is reported. *)
Lemma answers_after w os s r ps f : StoreInv.run w.(sto) os = Ok s ->
  answers (w <| sto := s |>) r ps [] f -> answers w r ps os f.
Proof. intros E (w' & Hr & Hs & Hw). exists w'. split_and!; [done| |done]. cbn in Hs. injection Hs as <-. exact E. Qed.

Lemma answers_bind w r k ps qs os f : good (f w.(ses)) ->
  answers w r ps os f ->
  (forall w', StoreInv.run w.(sto) os = Ok w'.(sto) -> good w'.(ses) -> answers w' (k w') qs [] id) ->
  answers w (w' ← r; k w') (ps ++ qs) os f.
Proof.
  intros Hg (w1 & -> & Hs & Hw) Hk. destruct (Hk w1 Hs (wrote_good _ _ _ Hw Hg)) as (w2 & E & Hs2 & Hw2).
  exists w2. split_and!; [done| |by eapply wrote_trans]. cbn in Hs2. injection Hs2 as E2. by rewrite <- E2.
Qed.

Lemma answers_nothing w : good w.(ses) -> answers w (Ok w) [] [] id.
Proof. intros Hg. exists w. split_and!; [done|done|]. by apply wrote_nothing. Qed.

(** Line after line. *)
Lemma answers_cons w r k p qs : good w.(ses) -> answers w r [p] [] id ->
  (forall w', StoreInv.run w.(sto) [] = Ok w'.(sto) -> good w'.(ses) -> answers w' (k w') qs [] id) ->
  answers w (w' ← r; k w') (p :: qs) [] id.
Proof. intros. by apply (answers_bind w r k [p] qs [] id). Qed.

Lemma each_lines {X} (line : X -> cstring) xs : forall w, good w.(ses) ->
  answers w (foreach (append_each line) xs (Ok w)) (Fmt ∘ line <$> xs) [] id.
Proof.
  induction xs as [|x xs IH]; intros w Hg; [by apply answers_nothing|].
  unfold append_each. rewrite (foreach_step (fun x => appendf (line x))), fmap_cons. apply answers_cons; [done|by apply answer_appendf|].
  intros w' _ Hg'. by apply IH.
Qed.

#[local] Existing Instance AccessLog.selected_dec.

(** * Specification of the commands

    What a command line of an authenticated session says and does, as a function
    of the store and of the two deny sets [a]. *)
Definition infos (s : monitor_store) : list store_active_session :=
  info <$> List.filter active s.(sessions).
Definition accounts (s : monitor_store) : list store_user := List.filter used s.(users).

(** "+OK" alone, or a line each. *)
Definition listing {X} (line : X -> cstring) (xs : list X) : list piece :=
  match xs with [] => [Lit ok_line] | _ => Fmt ∘ line <$> xs end.

Definition rule_line (t : acl_target) : cstring :=
  lit "+OK " ++ Acl.acl_rule_to_string (Some (mk_rule t None)) ++ nl.

Definition says_user (r : Users.answer) (texts : store_user_result -> cstring) : list piece :=
  match r with Users.AUser r => [Lit (texts r)] | _ => [] end.

Definition syntax_error : list piece * list StoreInv.op := ([Lit (err "syntax error")], []).

Definition reply_config (s : monitor_store) (args : list cstring) : list piece * list StoreInv.op :=
  if decide (argc args < 2)%nat then syntax_error
  else match store_config_key_from_name (arg args 1) with
  | None => ([Lit (err "unknown param")], [])
  | Some key =>
    if decide (argc args = 2)%nat then ([Fmt (lit "+OK " ++ dec (store_config_get s key) ++ nl)], [])
    else
      let '(value, any, rest) := strtol (arg args 2) in
      if decide (any = false \/ rest <> [] \/ value < 0 \/ out_of_range (arg args 1) value)
      then ([Lit (err "invalid value")], [])
      else ([Lit (if decide ((store_config_set realloc_ok s key value).1 = STORE_CFG_OK)
                  then ok_line else err "invalid value")],
            [StoreInv.SetConfig realloc_ok key value])
  end.

Definition reply_access_log (s : monitor_store) (args : list cstring) : list piece :=
  if decide (2 <= argc args)%nat then
    let u := arg args 1 in
    if Users.store_user_exists s u then
      Fmt (lit "+OK Access log for user " ++ u ++ lit ":" ++ nl) ::
      (Fmt ∘ log_line <$> filter (AccessLog.selected (Some u)) (AccessLog.recent s))
    else [Lit (err "user not found")]
  else Lit (lit "+OK Access log for all users:" ++ nl) :: (Fmt ∘ log_line <$> AccessLog.recent s).

Definition reply_user (s : monitor_store) (o : Users.op) (texts : store_user_result -> cstring)
  : list piece * list StoreInv.op :=
  (says_user (Users.perform s o).1 texts, [StoreInv.OnUsers o]).

Definition reply_deny (a : Acl.acl) (o : Acl.op) (present : bool) (what : String.string)
  : list piece * list StoreInv.op :=
  if present then ([Lit (err what)], [])
  else ([Lit (if (Acl.spec a o).1 then ok_line else err "failed to add rule")], [StoreInv.OnAcl o]).

Definition reply_undeny (a : Acl.acl) (args : list cstring) : list piece * list StoreInv.op :=
  if decide (argc args < 2)%nat then syntax_error
  else
    let x := arg args 1 in
    let o1 := Acl.UndenyHost x in let o2 := Acl.UndenyIp x in
    if (Acl.spec a o1).1 then ([Lit ok_line], [StoreInv.OnAcl o1])
    else ([Lit (if (Acl.spec a o2).1 then ok_line else err "rule not present")],
          [StoreInv.OnAcl o1; StoreInv.OnAcl o2]).

Definition reply_deny_list (a : Acl.acl) (args : list cstring) : list piece :=
  let all := bool_decide (argc args < 2)%nat in
  (if all || bool_decide (arg args 1 = lit "host")
   then Lit (lit "+OK Denied hosts:" ++ nl) :: (Fmt ∘ rule_line <$> (AclHost <$> Acl.hosts a)) else []) ++
  (if all || bool_decide (arg args 1 = lit "ip")
   then Lit (lit "+OK Denied IPs:" ++ nl) :: (Fmt ∘ rule_line <$> Acl.addresses a) else []).

Definition add_texts (r : store_user_result) : cstring :=
  match r with
  | STORE_USER_OK => ok_line
  | STORE_USER_EXISTS => err "user exists"
  | STORE_USER_TABLE_FULL => err "user table full"
  | _ => err "syntax error"
  end.
Definition delete_texts (r : store_user_result) : cstring :=
  match r with
  | STORE_USER_OK => ok_line
  | STORE_USER_NOT_FOUND => err "user not found"
  | STORE_USER_LAST_ADMIN => err "cannot delete last admin"
  | _ => err "syntax error"
  end.
Definition password_texts (r : store_user_result) : cstring :=
  if decide (r = STORE_USER_OK) then ok_line else err "user not found".

(** Commands that need [n] words. *)
Definition needs (n : nat) (args : list cstring) (r : list piece * list StoreInv.op)
  : list piece * list StoreInv.op :=
  if decide (argc args < n)%nat then syntax_error else r.

Definition reply (s : monitor_store) (a : Acl.acl) (cmd : cstring) (args : list cstring)
  : list piece * list StoreInv.op :=
  if decide (cmd = lit "STATS") then ([Fmt (stats_line s.(metrics))], [])
  else if decide (cmd = lit "CONNECTIONS") then (listing connection_line (infos s), [])
  else if decide (cmd = lit "USERS") then (listing (fun x => user_line x.(username) x.(role)) (accounts s), [])
  else if decide (cmd = lit "CONFIG") then reply_config s args
  else if decide (cmd = lit "ACCESS_LOG") then (reply_access_log s args, [])
  else if decide (cmd = lit "ADD_USER") then
    needs 3 args (reply_user s (Users.Add (arg args 1) (arg args 2) (bool_decide (arg args 3 = lit "admin"))) add_texts)
  else if decide (cmd = lit "DEL_USER") then needs 2 args (reply_user s (Users.Delete (arg args 1)) delete_texts)
  else if decide (cmd = lit "SET_PASSWORD") then
    needs 3 args (reply_user s (Users.SetPassword (arg args 1) (arg args 2)) password_texts)
  else if decide (cmd = lit "DENY_HOST") then
    needs 2 args (reply_deny a (Acl.DenyHost (arg args 1)) (Acl.spec a (Acl.HostDenied (arg args 1))).1 "host already denied")
  else if decide (cmd = lit "DENY_IP") then
    needs 2 args (reply_deny a (Acl.DenyIp (arg args 1)) (Acl.spec a (Acl.IpDenied (arg args 1))).1 "address already denied")
  else if decide (cmd = lit "UNDENY") then reply_undeny a args
  else if decide (cmd = lit "DENY_LIST") then (reply_deny_list a args, [])
  else if decide (cmd = lit "QUIT") then ([Lit ok_line], [])
  else ([Lit (err "unknown command")], []).

(** The session after a command. *)
Definition authenticated (s : monitor_commands_session) : monitor_commands_session :=
  s <| state := MONITOR_ST_AUTHENTICATED |>.
Definition closing (s : monitor_commands_session) : monitor_commands_session :=
  s <| close_after_flush := true |>.

Inductive change := Stays | LogsIn | Leaves.
Definition become (c : change) : monitor_commands_session -> monitor_commands_session :=
  match c with Stays => id | LogsIn => authenticated | Leaves => closing end.

(** What a line is answered: what is said, done to the store, and done to the
    session. *)
Record response := mk_response {
  says : list piece;
  does : list StoreInv.op;
  becomes : change;
}.

Definition reply_auth (s : monitor_store) (args : list cstring) : response :=
  if decide (argc args < 3)%nat then mk_response [Lit (err "syntax error")] [] Stays
  else match Users.store_admin_authenticate s (arg args 1) (arg args 2) with
  | STORE_AUTH_OK => mk_response [Lit ok_line] [] LogsIn
  | STORE_AUTH_NOT_ADMIN => mk_response [Lit (err "not admin")] [] Stays
  | STORE_AUTH_INVALID => mk_response [Lit (err "invalid credentials")] [] Stays
  end.

Definition respond (st : monitor_commands_state) (s : monitor_store) (a : Acl.acl) (line : cstring)
  : response :=
  match split_line line with
  | [] => mk_response [] [] Stays
  | (cmd :: _) as args =>
    let r :=
      match st with
      | MONITOR_ST_AWAIT_AUTH =>
        if decide (cmd = lit "AUTH") then reply_auth s args
        else mk_response [Lit (err "not authenticated")] [] Stays
      | MONITOR_ST_AUTHENTICATED =>
        if decide (cmd = lit "AUTH") then mk_response [Lit (err "already authenticated")] [] Stays
        else mk_response (reply s a cmd args).1 (reply s a cmd args).2
               (if decide (cmd = lit "QUIT") then Leaves else Stays)
      end in
    mk_response (says r ++ [Lit dot_line]) (does r) (becomes r)
  end.

(** The hostname of a DENY_HOST line fits its field. *)
Definition host_fits (line : cstring) : Prop :=
  arg (split_line line) 0 = lit "DENY_HOST" ->
  (length (arg (split_line line) 1) <= STORE_MAX_DEST_HOST)%nat.

(** ** The handlers meet it *)

#[local] Arguments reply_config : simpl never.

Lemma answers_ops w r os ps f qs : answers w r qs os f -> qs = ps -> answers w r ps os f.
Proof. by intros ? <-. Qed.

(** A reply to an operation on the store. *)
Lemma answers_op w o s t : good w.(ses) -> StoreInv.perform w.(sto) o = Ok s ->
  answers w (append t (w <| sto := s |>)) [Lit t] [o] id.
Proof.
  intros Hg E. apply (answers_after w [o] s); [cbn [StoreInv.run]; by rewrite E|].
  by apply (answer_append t (w <| sto := s |>)).
Qed.

(** A reply that depends on a test. *)
Lemma answer_needs w n args r c : good w.(ses) ->
  ((n <= argc args)%nat -> answers w r c.1 c.2 id) ->
  answers w (if decide (argc args < n)%nat then append (err "syntax error") w else r)
    (needs n args c).1 (needs n args c).2 id.
Proof. intros Hg Hr. unfold needs. case_decide; [by apply answer_append|apply Hr; lia]. Qed.

Lemma connections_answers w : good w.(ses) ->
  answers w (handle_connections w) (listing connection_line (infos w.(sto))) [] id.
Proof.
  intros Hg. unfold handle_connections, Sessions.store_sessions_foreach, infos, append_connection.
  rewrite !foreach_guard. unfold count_connection. rewrite foreach_any.
  destruct (info <$> _) as [|x xs]; [by apply answer_append|by apply each_lines].
Qed.

Lemma users_answers w : good w.(ses) ->
  answers w (handle_users w)
    (listing (fun x => user_line x.(username) x.(role)) (accounts w.(sto))) [] id.
Proof.
  intros Hg. unfold handle_users, Users.store_users_foreach, accounts.
  pose proof (fun C fn => foreach_guard (C := C) used (fun x : store_user => x) fn) as Hgd.
  rewrite (Hgd bool (fun x ctx => count_user x.(username) x.(role) ctx)).
  rewrite (Hgd _ (fun x ctx => append_user x.(username) x.(role) ctx)), list_fmap_id.
  unfold count_user. rewrite foreach_any.
  destruct (List.filter used _) as [|x xs]; [by apply answer_append|].
  by apply (each_lines (fun x => user_line x.(username) x.(role)) (x :: xs)).
Qed.

Lemma access_log_answers w args : good w.(ses) ->
  answers w (handle_access_log args w) (reply_access_log w.(sto) args) [] id.
Proof.
  intros Hg. unfold handle_access_log, reply_access_log, append_log_entry.
  destruct (decide (2 <= argc args)%nat).
  - destruct (Users.store_user_exists _ _); [|by apply answer_append]. cbn [negb].
    apply answers_cons; [done|by apply answer_appendf|].
    intros w' [= E] Hg'. rewrite AccessLog.log_foreach_spec, E. by apply each_lines.
  - apply answers_cons; [done|by apply answer_append|].
    intros w' [= E] Hg'. rewrite AccessLog.log_foreach_spec, E.
    rewrite filter_everything by done. by apply each_lines.
Qed.

Lemma rules_answers n : forall p xs w, good w.(ses) -> Acl.seg w.(sto).(heap) p xs None ->
  (length xs < n)%nat -> answers w (append_rules n p w) (Fmt ∘ rule_line <$> xs.*2) [] id.
Proof.
  induction n as [|n IH]; intros p [|[l t] xs] w Hg Hs Hn; cbn [length] in Hn; try lia; cbn in Hs.
  - subst p. by apply answers_nothing.
  - destruct Hs as (-> & nx & Hl & Hs). cbn [append_rules]. unfold Acl.deref. rewrite Hl.
    cbn [or_fault]. rewrite ok_bind, !fmap_cons. apply answers_cons; [done|by apply answer_appendf|].
    intros w' [= E] Hg'. apply IH; [done|by rewrite <- E|lia].
Qed.

Lemma config_set_result s k v : (store_config_set realloc_ok s k v).1 <> STORE_CFG_UNKNOWN_KEY.
Proof.
  unfold store_config_set. destruct k; [by case_decide| |by case_decide].
  case_decide; [done|]. case_decide; [done|].
  destruct (if decide _ then _ else _) as [g s'] eqn:E. destruct (decide (g <> STORE_CFG_OK)); [|done].
  unfold store_grow_sessions_slots in E. repeat case_decide; destruct realloc_ok; by injection E as <- _.
Qed.

(** A value that passes the checks fits its 32 bits. *)
Lemma accepted_value name key v : store_config_key_from_name name = Some key -> 0 <= v ->
  ~ out_of_range name v -> u32 v = v.
Proof.
  unfold store_config_key_from_name, out_of_range, STORE_SESSIONS_CAP_MAX, SELECTOR_MAX_SOCKS_SESSIONS. intros Hk Hv Ho.
  change (Z.shiftl 1 14) with 16384 in Ho.
  apply u32_small. destruct (decide (v < 2 ^ 32)) as [|Hbig]; [done|]. exfalso. revert Hk.
  repeat (destruct (decide _); [intros _; apply Ho; (left; split; [done|lia]) || (right; left; split; [done|lia]) || (right; right; split; [done|lia])|]). done.
Qed.

Lemma config_answers w args : good w.(ses) ->
  answers w (handle_config args w) (reply_config w.(sto) args).1 (reply_config w.(sto) args).2 id.
Proof.
  intros Hg. unfold handle_config, reply_config.
  destruct (decide (argc args < 2)%nat); [by apply answer_append|].
  destruct (store_config_key_from_name _) as [key|] eqn:Ek; [|by apply answer_append].
  destruct (decide (argc args = 2%nat)); [by apply answer_appendf|].
  destruct (strtol (arg args 2)) as [[v any] rest].
  destruct (decide (any = false \/ rest <> [] \/ v < 0)) as [Hbad|Hok].
  { rewrite decide_True by tauto. by apply answer_append. }
  destruct (decide (out_of_range (arg args 1) v)) as [Hbad|Hr].
  { rewrite decide_True by tauto. by apply answer_append. }
  rewrite decide_False by tauto. rewrite (accepted_value _ _ v Ek ltac:(apply Z.nlt_ge; tauto) Hr).
  pose proof (config_set_result w.(sto) key v) as Hk.
  pose proof (fun s t => answers_op w (StoreInv.SetConfig realloc_ok key v) s t Hg) as Ha.
  cbn [StoreInv.perform] in Ha. destruct (store_config_set _ _ _ _) as [r s']. cbn [fst snd] in *.
  destruct r; [apply Ha; done|done|apply Ha; done].
Qed.

(** The user commands. *)
Lemma user_answers w o texts t : good w.(ses) ->
  says_user (Users.perform w.(sto) o).1 texts = [Lit t] ->
  answers w (append t (w <| sto := (Users.perform w.(sto) o).2 |>))
    (reply_user w.(sto) o texts).1 (reply_user w.(sto) o texts).2 id.
Proof.
  intros Hg E. unfold reply_user. cbn [fst snd]. rewrite E. by apply answers_op.
Qed.

Lemma add_user_answers w args : good w.(ses) -> let c := reply_user w.(sto)
    (Users.Add (arg args 1) (arg args 2) (bool_decide (arg args 3 = lit "admin"))) add_texts in
  answers w (handle_add_user args w) (needs 3 args c).1 (needs 3 args c).2 id.
Proof.
  intros Hg c. unfold handle_add_user. apply answer_needs; [done|]. intros Hn.
  assert (Ha : bool_decide (4 <= argc args)%nat && bool_decide (arg args 3 = lit "admin") =
    bool_decide (arg args 3 = lit "admin")).
  { case_bool_decide as H4; [done|]. symmetry. apply bool_decide_false. unfold arg.
    rewrite lookup_ge_None_2; [done|]. unfold argc in H4. lia. }
  rewrite Ha. pose proof (fun t => user_answers w
    (Users.Add (arg args 1) (arg args 2) (bool_decide (arg args 3 = lit "admin"))) add_texts t Hg) as Hu.
  fold c in Hu. cbn [Users.perform] in Hu. destruct (Users.store_user_add _ _ _ _) as [r s'].
  destruct r; by apply Hu.
Qed.

Lemma del_user_answers w args : good w.(ses) ->
  let c := reply_user w.(sto) (Users.Delete (arg args 1)) delete_texts in
  answers w (handle_del_user args w) (needs 2 args c).1 (needs 2 args c).2 id.
Proof.
  intros Hg c. unfold handle_del_user. apply answer_needs; [done|]. intros Hn.
  pose proof (fun t => user_answers w (Users.Delete (arg args 1)) delete_texts t Hg) as Hu.
  fold c in Hu. cbn [Users.perform] in Hu. destruct (Users.store_user_delete _ _) as [r s'].
  destruct r; by apply Hu.
Qed.

Lemma set_password_answers w args : good w.(ses) ->
  let c := reply_user w.(sto) (Users.SetPassword (arg args 1) (arg args 2)) password_texts in
  answers w (handle_set_password args w) (needs 3 args c).1 (needs 3 args c).2 id.
Proof.
  intros Hg c. unfold handle_set_password. apply answer_needs; [done|]. intros Hn.
  pose proof (fun t => user_answers w (Users.SetPassword (arg args 1) (arg args 2)) password_texts t Hg) as Hu.
  fold c in Hu. cbn [Users.perform] in Hu. destruct (Users.store_user_set_password _ _ _) as [r s'].
  destruct r; by apply Hu.
Qed.

(** The deny lists. *)
Lemma acl_answers w o b s t : good w.(ses) -> Acl.perform w.(sto) o = Ok (b, s) ->
  answers w (append t (w <| sto := s |>)) [Lit t] [StoreInv.OnAcl o] id.
Proof. intros Hg E. apply answers_op; [done|]. cbn [StoreInv.perform]. by rewrite E. Qed.

Lemma deny_host_answers w a args : good w.(ses) -> Acl.rep w.(sto) a -> alloc_ok = true ->
  (length (arg args 1) <= STORE_MAX_DEST_HOST)%nat ->
  let c := reply_deny a (Acl.DenyHost (arg args 1)) (Acl.spec a (Acl.HostDenied (arg args 1))).1
             "host already denied" in
  answers w (handle_deny_host args w) (needs 2 args c).1 (needs 2 args c).2 id.
Proof.
  intros Hg Hr Hal Hl c. unfold handle_deny_host. apply answer_needs; [done|]. intros Hn.
  rewrite (Acl.host_denied_spec _ a) by done. rewrite ok_bind. subst c. unfold reply_deny.
  change ((Acl.spec a (Acl.HostDenied (arg args 1))).1) with (bool_decide (arg args 1 ∈ Acl.hosts a)).
  destruct (bool_decide (arg args 1 ∈ Acl.hosts a)); [by apply answer_append|].
  destruct (Acl.deny_host_rep _ a (arg args 1) Hr Hl) as (s' & E & _). rewrite Hal, E, ok_bind.
  destruct ((Acl.spec a (Acl.DenyHost (arg args 1))).1) eqn:Es; by apply (acl_answers w (Acl.DenyHost _) _ _ _ Hg E).
Qed.

Lemma deny_ip_answers w a args : good w.(ses) -> Acl.rep w.(sto) a -> alloc_ok = true ->
  let c := reply_deny a (Acl.DenyIp (arg args 1)) (Acl.spec a (Acl.IpDenied (arg args 1))).1
             "address already denied" in
  answers w (handle_deny_ip args w) (needs 2 args c).1 (needs 2 args c).2 id.
Proof.
  intros Hg Hr Hal c. unfold handle_deny_ip. apply answer_needs; [done|]. intros Hn.
  rewrite (Acl.ip_denied_spec _ a) by done. rewrite ok_bind. subst c. unfold reply_deny.
  change ((Acl.spec a (Acl.IpDenied (arg args 1))).1) with
    (match Acl.parse_ip (arg args 1) with None => false | Some t => bool_decide (t ∈ Acl.addresses a) end).
  destruct (match Acl.parse_ip (arg args 1) with None => false | Some t => _ end); [by apply answer_append|].
  destruct (Acl.deny_ip_rep _ a (arg args 1) Hr) as (s' & E & _). rewrite Hal, E, ok_bind.
  destruct ((Acl.spec a (Acl.DenyIp (arg args 1))).1) eqn:Es; by apply (acl_answers w (Acl.DenyIp _) _ _ _ Hg E).
Qed.

Lemma undeny_answers w a args : good w.(ses) -> Acl.rep w.(sto) a ->
  answers w (handle_undeny args w) (reply_undeny a args).1 (reply_undeny a args).2 id.
Proof.
  intros Hg Hr. unfold handle_undeny, reply_undeny. apply answer_needs; [done|]. intros Hn.
  destruct (Acl.undeny_host_rep _ a (arg args 1) Hr) as (s1 & E1 & Hr1). rewrite E1, ok_bind.
  change ((Acl.spec a (Acl.UndenyHost (arg args 1))).1) with (bool_decide (arg args 1 ∈ Acl.hosts a)).
  destruct (bool_decide (arg args 1 ∈ Acl.hosts a)) eqn:Eh.
  - rewrite ok_bind. by eapply (acl_answers w (Acl.UndenyHost (arg args 1))).
  - apply bool_decide_eq_false in Eh.
    assert (Ef : filter (fun h => h <> arg args 1) (Acl.hosts a) = Acl.hosts a).
    { apply filter_everything. by intros y Hy ->. }
    rewrite Ef in Hr1. destruct (Acl.undeny_ip_rep _ _ (arg args 1) Hr1) as (s2 & E2 & _). rewrite E2, ok_bind.
    apply (answers_after w [StoreInv.OnAcl (Acl.UndenyHost _); StoreInv.OnAcl (Acl.UndenyIp _)] s2).
    { cbn [StoreInv.run StoreInv.perform]. unfold Acl.perform. rewrite E1, !ok_bind, E2. by rewrite !ok_bind. }
    assert (Es : forall b, (Acl.spec (Acl.mk_acl (Acl.hosts a) (Acl.addresses a)) (Acl.UndenyIp (arg args 1))).1 = b ->
      (Acl.spec a (Acl.UndenyIp (arg args 1))).1 = b) by (by destruct a).
    destruct ((Acl.spec (Acl.mk_acl _ _) _).1) eqn:E; rewrite (Es _ eq_refl);
      by apply (answer_append _ (w <| sto := s2 |>)).
Qed.

Lemma list_answers w a wh text : good w.(ses) -> Acl.rep w.(sto) a ->
  answers w (w1 ← append text w; append_rules (Acl.fuel w1.(sto)) (Acl.head wh w.(sto)) w1)
    (Lit text :: (Fmt ∘ rule_line <$>
       match wh with Acl.Hosts => AclHost <$> Acl.hosts a | Acl.Addresses => Acl.addresses a end)) [] id.
Proof.
  intros Hg (L & Hwf & Hh & Ha & _). apply answers_cons; [done|by apply answer_append|].
  intros w' [= E] Hg'. destruct (Acl.walk_fuel _ L wh Hwf) as [Hf Hs]. rewrite <- E.
  replace (match wh with Acl.Hosts => _ | Acl.Addresses => _ end) with ((L wh).*2) by (by destruct wh).
  apply rules_answers; [done|by rewrite <- E|done].
Qed.

Lemma deny_list_answers w a args : good w.(ses) -> Acl.rep w.(sto) a ->
  answers w (handle_deny_list args w) (reply_deny_list a args) [] id.
Proof.
  intros Hg Hr. unfold handle_deny_list, reply_deny_list.
  assert (Hboth : forall (b1 b2 : bool),
    answers w
      (w ← (if b1 then w1 ← append (lit "+OK Denied hosts:" ++ nl) w;
              append_rules (Acl.fuel w1.(sto)) (Acl.get_denied_hosts w.(sto)) w1 else Ok w);
       if b2 then w1 ← append (lit "+OK Denied IPs:" ++ nl) w;
         append_rules (Acl.fuel w1.(sto)) (Acl.get_denied_ips w.(sto)) w1 else Ok w)
      ((if b1 then Lit (lit "+OK Denied hosts:" ++ nl) :: (Fmt ∘ rule_line <$> (AclHost <$> Acl.hosts a)) else []) ++
       (if b2 then Lit (lit "+OK Denied IPs:" ++ nl) :: (Fmt ∘ rule_line <$> Acl.addresses a) else [])) [] id).
  { intros b1 b2. apply answers_bind; [done| |].
    - destruct b1; [|by apply answers_nothing]. by apply (list_answers w a Acl.Hosts).
    - intros w' [= E] Hg'. destruct b2; [|by apply answers_nothing].
      apply (list_answers w' a Acl.Addresses); [done|by rewrite <- E]. }
  destruct (decide (2 <= argc args)%nat) as [Hn|Hn].
  - rewrite (bool_decide_false (argc args < 2)%nat) by lia. cbn [orb].
    destruct (decide (arg args 1 = lit "host")) as [->|Hh]; [apply (Hboth true false)|].
    rewrite (bool_decide_false (arg args 1 = lit "host")) by done.
    destruct (decide (arg args 1 = lit "ip")) as [->|Hi]; [apply (Hboth false true)|].
    rewrite (bool_decide_false (arg args 1 = lit "ip")) by done. apply (Hboth false false).
  - rewrite (bool_decide_true (argc args < 2)%nat) by lia. apply (Hboth true true).
Qed.

Lemma quit_answers w : good w.(ses) -> answers w (handle_quit w) [Lit ok_line] [] closing.
Proof.
  intros Hg. unfold handle_quit. destruct (append_wrote ok_line w Hg) as (s' & -> & b & -> & Hw).
  rewrite ok_bind. eexists. split_and!; [done|done|]. by exists b.
Qed.

Lemma run_command_answers w a cmd args : good w.(ses) -> Acl.rep w.(sto) a -> alloc_ok = true ->
  (cmd = lit "DENY_HOST" -> (length (arg args 1) <= STORE_MAX_DEST_HOST)%nat) ->
  answers w (run_command cmd args w) (reply w.(sto) a cmd args).1 (reply w.(sto) a cmd args).2
    (become (if decide (cmd = lit "QUIT") then Leaves else Stays)).
Proof.
  intros Hg Hr Hal Hh. unfold run_command, reply.
  destruct (decide (cmd = lit "QUIT")) as [->|Hq]; [by apply quit_answers|].
  destruct (decide (cmd = lit "STATS")); [by apply answer_appendf|].
  destruct (decide (cmd = lit "CONNECTIONS")); [by apply connections_answers|].
  destruct (decide (cmd = lit "USERS")); [by apply users_answers|].
  destruct (decide (cmd = lit "CONFIG")); [by apply config_answers|].
  destruct (decide (cmd = lit "ACCESS_LOG")); [by apply access_log_answers|].
  destruct (decide (cmd = lit "ADD_USER")); [by apply add_user_answers|].
  destruct (decide (cmd = lit "DEL_USER")); [by apply del_user_answers|].
  destruct (decide (cmd = lit "SET_PASSWORD")); [by apply set_password_answers|].
  destruct (decide (cmd = lit "DENY_HOST")); [by apply deny_host_answers; auto|].
  destruct (decide (cmd = lit "DENY_IP")); [by apply deny_ip_answers|].
  destruct (decide (cmd = lit "UNDENY")); [by apply undeny_answers|].
  destruct (decide (cmd = lit "DENY_LIST")); [by apply deny_list_answers|].
  by apply answer_append.
Qed.

Lemma auth_answers w args : good w.(ses) -> w.(ses).(state) = MONITOR_ST_AWAIT_AUTH ->
  let r := reply_auth w.(sto) args in answers w (handle_auth args w) (says r) (does r) (become (becomes r)).
Proof.
  intros Hg Hs. unfold handle_auth, reply_auth. rewrite decide_False by congruence.
  destruct (decide (argc args < 3)%nat); [by apply answer_append|].
  destruct (Users.store_admin_authenticate _ _ _); [|by apply answer_append..].
  assert (Hg' : good (authenticated w.(ses))) by (by destruct Hg).
  destruct (append_wrote ok_line (mk_world (authenticated w.(ses)) w.(sto)) Hg') as (s' & E & Hw).
  exists (mk_world s' w.(sto)). split_and!; [exact E|done|exact Hw].
Qed.

(** Every response ends with the line that delimits it. *)
Lemma answers_dot w r ps os f : good (f w.(ses)) -> answers w r ps os f ->
  answers w (w ← r; append dot_line w) (ps ++ [Lit dot_line]) os f.
Proof. intros Hg Ha. apply answers_bind; [done..|]. intros w' _ Hg'. by apply answer_append. Qed.

Lemma respond_good s st db a line : good s -> good (become (becomes (respond st db a line)) s).
Proof.
  intros [H1 H2 H3 H4]. unfold respond, reply_auth. destruct (split_line line) as [|cmd args]; [done|].
  destruct st; cbn [becomes].
  - destruct (decide _); [|done]. destruct (decide _); [done|].
    by destruct (Users.store_admin_authenticate _ _ _).
  - destruct (decide _); [done|]. cbn [becomes]. by destruct (decide _).
Qed.

Lemma dispatch_answers line w a : good w.(ses) -> Acl.rep w.(sto) a ->
  (w.(ses).(state) = MONITOR_ST_AUTHENTICATED -> alloc_ok = true /\ host_fits line) ->
  let r := respond w.(ses).(state) w.(sto) a line in
  answers w (dispatch_line line w) (says r) (does r) (become (becomes r)).
Proof.
  intros Hg Hr Hfit. pose proof (respond_good _ w.(ses).(state) w.(sto) a line Hg) as Hg'.
  revert Hfit Hg'. unfold host_fits, dispatch_line, respond.
  destruct (split_line line) as [|cmd args]; [intros _ _; by apply answers_nothing|].
  change (arg (cmd :: args) 0) with cmd. intros Hfit. destruct w.(ses).(state) eqn:Est.
  - intros Hg'. rewrite (decide_True (P := MONITOR_ST_AWAIT_AUTH = MONITOR_ST_AWAIT_AUTH)) by done.
    cbn [says does becomes] in *. apply answers_dot; [done|].
    destruct (decide (cmd = lit "AUTH")); [by apply auth_answers|by apply answer_append].
  - destruct (Hfit eq_refl) as [Hal Hf].
    intros Hg'. rewrite (decide_False (P := MONITOR_ST_AUTHENTICATED = MONITOR_ST_AWAIT_AUTH)) by done.
    destruct (decide (cmd = lit "AUTH")).
    + apply (answers_dot w _ [_]); [done|by apply answer_append].
    + cbn [says does becomes] in *. apply answers_dot; [done|]. by apply run_command_answers.
Qed.

(** ** The operations a response performs are the monitor's, with arguments the
    store's functions accept. *)

Lemma needs_does n args c : (forall o, o ∈ c.2 -> StoreInv.legal o /\ StoreInv.administrative o) ->
  forall o, o ∈ (needs n args c).2 -> StoreInv.legal o /\ StoreInv.administrative o.
Proof. unfold needs. intros Hc o. case_decide; [by intros ?%not_elem_of_nil|apply Hc]. Qed.

Lemma one_op (o0 : StoreInv.op) : StoreInv.legal o0 -> StoreInv.administrative o0 ->
  forall o, o ∈ [o0] -> StoreInv.legal o /\ StoreInv.administrative o.
Proof. by intros ?? o ->%list_elem_of_singleton. Qed.

Lemma config_does s args o : o ∈ (reply_config s args).2 -> StoreInv.legal o /\ StoreInv.administrative o.
Proof.
  unfold reply_config. case_decide; [by intros ?%not_elem_of_nil|].
  destruct (store_config_key_from_name _) as [key|]; [|by intros ?%not_elem_of_nil].
  case_decide; [by intros ?%not_elem_of_nil|]. destruct (strtol (arg args 2)) as [[v any] rest].
  destruct (decide _) as [|Hv]; [by intros ?%not_elem_of_nil|]. apply one_op; [|done].
  cbn. apply Z.nlt_ge. tauto.
Qed.

Lemma deny_does a o0 b what o : (b = false -> Acl.fits o0) ->
  o ∈ (reply_deny a o0 b what).2 -> StoreInv.legal o /\ StoreInv.administrative o.
Proof. unfold reply_deny. intros Hf. destruct b; [by intros ?%not_elem_of_nil|]. apply one_op; [by apply Hf|done]. Qed.

Lemma undeny_does a args o : o ∈ (reply_undeny a args).2 -> StoreInv.legal o /\ StoreInv.administrative o.
Proof.
  unfold reply_undeny. case_decide; [by intros ?%not_elem_of_nil|].
  destruct ((Acl.spec a _).1); [by apply one_op|].
  by intros [->|[->|?%not_elem_of_nil]%elem_of_cons]%elem_of_cons.
Qed.

Lemma reply_does s a cmd args o :
  (cmd = lit "DENY_HOST" -> (length (arg args 1) <= STORE_MAX_DEST_HOST)%nat) ->
  o ∈ (reply s a cmd args).2 -> StoreInv.legal o /\ StoreInv.administrative o.
Proof.
  intros Hf. unfold reply.
  destruct (decide (cmd = lit "STATS")); [by intros ?%not_elem_of_nil|].
  destruct (decide (cmd = lit "CONNECTIONS")); [by intros ?%not_elem_of_nil|].
  destruct (decide (cmd = lit "USERS")); [by intros ?%not_elem_of_nil|].
  destruct (decide (cmd = lit "CONFIG")); [by apply config_does|].
  destruct (decide (cmd = lit "ACCESS_LOG")); [by intros ?%not_elem_of_nil|].
  destruct (decide (cmd = lit "ADD_USER")); [by apply needs_does, one_op|].
  destruct (decide (cmd = lit "DEL_USER")); [by apply needs_does, one_op|].
  destruct (decide (cmd = lit "SET_PASSWORD")); [by apply needs_does, one_op|].
  destruct (decide (cmd = lit "DENY_HOST")).
  { apply needs_does. intros o'. apply deny_does. intros _. by apply Hf. }
  destruct (decide (cmd = lit "DENY_IP")).
  { apply needs_does. intros o'. by apply deny_does. }
  destruct (decide (cmd = lit "UNDENY")); [by apply undeny_does|].
  destruct (decide (cmd = lit "DENY_LIST")); [by intros ?%not_elem_of_nil|].
  destruct (decide (cmd = lit "QUIT")); by intros ?%not_elem_of_nil.
Qed.

Lemma respond_does st s a line : (st = MONITOR_ST_AUTHENTICATED -> host_fits line) ->
  Forall StoreInv.legal (does (respond st s a line)) /\
  Forall StoreInv.administrative (does (respond st s a line)).
Proof.
  intros Hf. apply Forall_and, Forall_forall. intros o. revert Hf. unfold host_fits, respond, reply_auth.
  destruct (split_line line) as [|cmd args]; [by intros _ ?%not_elem_of_nil|].
  change (arg (cmd :: args) 0) with cmd. intros Hf. destruct st; cbn [does].
  - destruct (decide _); [|by intros ?%not_elem_of_nil]. destruct (decide _); [by intros ?%not_elem_of_nil|].
    by destruct (Users.store_admin_authenticate _ _ _); intros ?%not_elem_of_nil.
  - destruct (decide _); [by intros ?%not_elem_of_nil|]. apply reply_does. by apply Hf.
Qed.

End Commands.

End MonCommands.
