(* ===== verification/MonProtocol.v ===== *)
(** What the administration protocol promises a client of
    src/server/monitor/monitor_commands.c: a conversation whose state is the
    words exchanged, the pending line and the store.  The byte-level functions
    refine it for any interleaving of input, end of input and output. *)
From S2P Require Import Prelude CBuffer Inet Store Users AccessLog Sessions Acl StoreInv.
From S2P Require Import MonCommands.
Import Store MonCommands.
Local Open Scope Z_scope.

Module MonProtocol.

(** * Lines *)

(** A pending line without the carriage return it may end with. *)
Definition strip_cr (l : list byte) : list byte :=
  if decide (last l = Some x0d) then take (length l - 1) l else l.

Inductive event := Line (l : cstring) | TooLong.

(** What a byte completes, given the bytes pending. *)
Definition frame (pending : list byte) (b : byte) : list byte * option event :=
  if decide (MONITOR_LINE_MAX <= length pending)%nat then ([], Some TooLong)
  else if decide (b = x0a) then ([], Some (Line (c_str (strip_cr pending))))
  else (pending ++ [b], None).

Fixpoint frames (pending : list byte) (data : list byte) : list event * list byte :=
  match data with
  | [] => ([], pending)
  | b :: data =>
    let '(p, e) := frame pending b in
    let '(es, rest) := frames p data in
    (match e with Some e => e :: es | None => es end, rest)
  end.

(** A DENY_HOST line names a host that fits. *)
Definition event_fits (e : event) : Prop := match e with Line l => host_fits l | TooLong => True end.

(** * The conversation *)

Record conv := mk_conv {
  c_state : monitor_commands_state;
  c_closing : bool;
  c_pending : list byte;
  c_out : cstring;               (* said and not yet sent *)
  c_room : nat;                  (* how much more can be said *)
  c_store : monitor_store;
  c_acl : Acl.acl;
}.
#[export] Instance eta_conv : Eta conv := fun c =>
  mk_conv c.(c_state) c.(c_closing) c.(c_pending) c.(c_out) c.(c_room) c.(c_store) c.(c_acl).

Definition say (ps : list piece) (c : conv) : conv :=
  let text := fit c.(c_room) ps in
  c <| c_out ::= (fun o => o ++ text) |> <| c_room ::= (fun n => n - length text)%nat |>.

Definition turn (ch : change) (c : conv) : conv :=
  match ch with
  | Stays => c
  | LogsIn => c <| c_state := MONITOR_ST_AUTHENTICATED |>
  | Leaves => c <| c_closing := true |>
  end.

Inductive input :=
| Bytes (data : list byte)    (* what the socket delivered *)
| Eof                         (* the client closed its side *)
| Take (max : nat).           (* room in the socket for this many bytes *)

(** The lines inputs complete. *)
Definition lines_in (i : input) (pending : list byte) : list event * list byte :=
  match i with
  | Bytes data => frames pending data
  | Eof => ([Line (c_str pending)], [])
  | Take _ => ([], pending)
  end.
Fixpoint all_lines (ins : list input) (pending : list byte) : list event :=
  match ins with
  | [] => []
  | i :: ins => let '(es, p) := lines_in i pending in es ++ all_lines ins p
  end.

Section Protocol.
Context `{Inet}.
Variable realloc_ok : bool.

Definition settle (os : list StoreInv.op) (c : conv) : conv :=
  match StoreInv.run c.(c_store) os with
  | Ok s => c <| c_store := s |> <| c_acl ::= (fun a => foldl StoreInv.acl_step a os) |>
  | Fault _ => c
  end.

Definition react (e : event) (c : conv) : conv :=
  match e with
  | Line l =>
    let r := respond realloc_ok c.(c_state) c.(c_store) c.(c_acl) l in
    say (says r) (turn (becomes r) (settle (does r) c))
  | TooLong => say [Lit (err "line too long"); Lit dot_line] c
  end.

(** A conversation receives a byte. *)
Definition hear (c : conv) (b : byte) : conv :=
  let '(p, e) := frame c.(c_pending) b in
  match e with Some e => react e (c <| c_pending := p |>) | None => c <| c_pending := p |> end.

(** What is sent, and the conversation after it. *)
Definition converse (i : input) (c : conv) : list byte * conv :=
  match i with
  | Bytes data => ([], foldl hear c data)
  | Eof =>
    if decide (c.(c_pending) = []) then ([], c)
    else ([], react (Line (c_str c.(c_pending))) (c <| c_pending := [] |>))
  | Take max =>
    let n := Nat.min max (length c.(c_out)) in
    if decide (n = 0%nat) then ([], c)
    else (take n c.(c_out), c <| c_out ::= drop n |>
            <| c_room := MONITOR_BUFFER_SIZE - (length c.(c_out) - n) |>)%nat
  end.

(** The same inputs to the code. *)
Definition perform (alloc_ok : bool) (i : input) (w : world) : res (list byte * world) :=
  match i with
  | Bytes data => w ← monitor_commands_feed alloc_ok realloc_ok data w; Ok ([], w)
  | Eof => w ← monitor_commands_flush_on_eof alloc_ok realloc_ok w; Ok ([], w)
  | Take max => monitor_commands_wb_read max w
  end.

Fixpoint run_spec (ins : list input) (c : conv) : list byte * conv :=
  match ins with
  | [] => ([], c)
  | i :: ins => let '(out, c) := converse i c in prod_map (app out) id (run_spec ins c)
  end.

Fixpoint run (alloc_ok : bool) (ins : list input) (w : world) : res (list byte * world) :=
  match ins with
  | [] => Ok ([], w)
  | i :: ins => '(out, w) ← perform alloc_ok i w; '(outs, w) ← run alloc_ok ins w; Ok (out ++ outs, w)
  end.

(** ** The session and the store hold a conversation *)

Record speaks (s : monitor_commands_session) (c : conv) : Prop := {
  sp_good : good s;
  sp_state : s.(state) = c.(c_state);
  sp_closing : s.(close_after_flush) = c.(c_closing);
  sp_pending : take s.(line_len) s.(line_buf) = c.(c_pending);
  sp_out : out s = c.(c_out);
  sp_room : room s = c.(c_room);
}.

Record holds (w : world) (c : conv) : Prop := {
  h_session : speaks w.(ses) c;
  h_store : w.(sto) = c.(c_store);
  h_acl : Acl.rep w.(sto) c.(c_acl);
}.

Lemma speaks_become s c ch : speaks s c -> speaks (become ch s) (turn ch c).
Proof.
  intros [Hg H1 H2 H3 H4 H5]. destruct ch; [done| |]; (split; [by destruct Hg|done..]).
Qed.

Lemma speaks_wrote s s' c ps : speaks s c -> wrote s s' ps -> speaks s' (say ps c).
Proof.
  intros [Hg H1 H2 H3 H4 H5] Hw. pose proof (wrote_good _ _ _ Hw Hg) as Hg'.
  destruct Hw as (b & -> & Hb & Hl & Hc & Hs). split; cbn; try done.
  - unfold out. cbn. by rewrite Hc, H4, H5.
  - unfold room. cbn. by rewrite Hs, H5.
Qed.

Lemma pending_length s c : speaks s c -> length c.(c_pending) = s.(line_len).
Proof. intros [[_ _ H3 H4] _ _ <- _ _]. rewrite length_take. lia. Qed.

(** ** Changes of the line buffer *)

Definition with_line (lb : list byte) (w : world) : world :=
  w <| ses ::= (fun s => s <| line_buf := lb |>) |>.

Lemma holds_line w c lb : holds w c -> length lb = S MONITOR_LINE_MAX ->
  holds (with_line lb w) (c <| c_pending := take w.(ses).(line_len) lb |>).
Proof. intros [[[G1 G2 G3 G4] H1 H2 H3 H4 H5] Hs Ha] Hl. by split. Qed.

Lemma holds_len w c n : holds w c -> (n <= MONITOR_LINE_MAX)%nat ->
  holds (set_len n w) (c <| c_pending := take n w.(ses).(line_buf) |>).
Proof. intros [[[G1 G2 G3 G4] H1 H2 H3 H4 H5] Hs Ha] Hl. by split. Qed.

Lemma set_char_ok i b w : (i < length w.(ses).(line_buf))%nat ->
  set_char i b w = Ok (with_line (take i w.(ses).(line_buf) ++ b :: drop (i + 1) w.(ses).(line_buf)) w).
Proof. intros Hi. unfold set_char. by rewrite mem_write_fits by (cbn; lia). Qed.

Lemma put_length {X} i (b : X) l : (i < length l)%nat -> length (take i l ++ b :: drop (i + 1) l) = length l.
Proof. intros. rewrite length_app, length_take. cbn. rewrite length_drop. lia. Qed.

(** The buffer once a line is ended: the C string in it is the line. *)
Lemma end_line w : length w.(ses).(line_buf) = S MONITOR_LINE_MAX ->
  (w.(ses).(line_len) <= MONITOR_LINE_MAX)%nat ->
  exists lb, length lb = S MONITOR_LINE_MAX /\
    c_str lb = c_str (strip_cr (take w.(ses).(line_len) w.(ses).(line_buf))) /\
    (w1 ← set_char w.(ses).(line_len) x00 w;
     if decide (0 < w.(ses).(line_len))%nat then
       c ← get_char (w.(ses).(line_len) - 1) w1;
       if decide (c = x0d) then set_char (w.(ses).(line_len) - 1) x00 w1 else Ok w1
     else Ok w1) = Ok (with_line lb w).
Proof.
  set (len := w.(ses).(line_len)). set (l := w.(ses).(line_buf)). intros Hl Hlen.
  rewrite set_char_ok by (fold l; lia). fold l. rewrite ok_bind.
  set (lb := take len l ++ x00 :: drop (len + 1) l).
  assert (Hlb : length lb = S MONITOR_LINE_MAX) by (unfold lb; rewrite put_length; lia).
  destruct (decide (0 < len)%nat) as [Hpos|Hz].
  2:{ exists lb. split_and!; [done| |done]. subst lb. by replace len with 0%nat by lia. }
  assert (Hget : lb !! (len - 1)%nat = last (take len l)).
  { rewrite last_lookup. unfold lb. rewrite lookup_app_l, length_take by (rewrite length_take; lia).
    f_equal. lia. }
  destruct (last (take len l)) as [c|] eqn:Elast.
  2:{ exfalso. apply last_None in Elast. apply (f_equal length) in Elast. rewrite length_take in Elast. cbn in Elast. lia. }
  unfold get_char, strip_cr. change (line_buf (ses (with_line lb w))) with lb. rewrite Hget, Elast.
  cbn [or_fault]. rewrite ok_bind. destruct (decide (c = x0d)) as [->|Hc].
  - rewrite decide_True by done. rewrite set_char_ok by (change (line_buf _) with lb; lia).
    change (line_buf (ses (with_line lb w))) with lb.
    eexists. split_and!; [|  |done].
    + rewrite put_length; lia.
    + rewrite c_str_stops. f_equal. unfold lb. rewrite length_take, take_app_le by (rewrite length_take; lia).
      f_equal. lia.
  - exists lb. rewrite decide_False by congruence. split_and!; [done| |done].
    unfold lb. by rewrite c_str_stops.
Qed.

(** ** A line, a byte, a delivery *)

Lemma react_pending e c p : react e (c <| c_pending := p |>) = (react e c) <| c_pending := p |>.
Proof.
  destruct e as [l|]; [|done]. unfold react. cbn zeta.
  change (respond realloc_ok _ _ _ l) with (respond realloc_ok c.(c_state) c.(c_store) c.(c_acl) l) at 1 2 3.
  unfold settle. change (c_store (c <| c_pending := p |>)) with c.(c_store).
  destruct (StoreInv.run _ _); by destruct (becomes _).
Qed.

Lemma react_empty c : react (Line []) c = c.
Proof.
  destruct c as [st cl p o n s a]. unfold react, say, turn, settle.
  change (respond _ _ _ _ []) with (mk_response [] [] Stays).
  trans (mk_conv st cl p (o ++ []) (n - 0)%nat s a); [done|]. by rewrite app_nil_r, Nat.sub_0_r.
Qed.

Lemma holds_append w c t : holds w c ->
  exists w', append t w = Ok w' /\ holds w' (say [Lit t] c).
Proof.
  intros [Hs E Ha]. destruct (append_wrote t w (sp_good _ _ Hs)) as (s' & -> & Hw).
  eexists. split; [done|]. split; [by eapply speaks_wrote|done..].
Qed.

Lemma say_app c ps qs : say (ps ++ qs) c = say qs (say ps c).
Proof.
  destruct c as [st cl p o n s a].
  change (mk_conv st cl p (o ++ fit n (ps ++ qs)) (n - length (fit n (ps ++ qs))) s a =
    mk_conv st cl p ((o ++ fit n ps) ++ fit (n - length (fit n ps)) qs)
      (n - length (fit n ps) - length (fit (n - length (fit n ps)) qs)) s a)%nat.
  rewrite fit_app, length_app. f_equal; [by rewrite app_assoc|lia].
Qed.

Section Faithful.
Variable alloc_ok : bool.

(** Out of memory and out of room for a hostname concern only a client that
    is authenticated. *)
Definition ready (c : conv) (l : cstring) : Prop :=
  c.(c_state) = MONITOR_ST_AUTHENTICATED -> alloc_ok = true /\ host_fits l.

Lemma dispatch_holds l w c : holds w c -> ready c l ->
  exists w', dispatch_line alloc_ok realloc_ok l w = Ok w' /\ holds w' (react (Line l) c).
Proof.
  intros [Hs E Ha] Hf. unfold ready in Hf.
  destruct (dispatch_answers alloc_ok realloc_ok l w _ (sp_good _ _ Hs) Ha) as (w' & Ed & Hr & Hw).
  { by rewrite (sp_state _ _ Hs). }
  revert Hr Hw. rewrite (sp_state _ _ Hs), E. intros Hr Hw. unfold react.
  destruct (respond_does realloc_ok c.(c_state) c.(c_store) c.(c_acl) l (fun Hst => proj2 (Hf Hst))) as [Hl Had].
  rewrite E in Ha. pose proof (StoreInv.run_acl _ _ _ _ Ha Hl Hr) as Ha'.
  exists w'. split; [done|]. unfold settle. rewrite Hr. split.
  - eapply speaks_wrote; [|exact Hw]. apply speaks_become. by destruct Hs.
  - by destruct (becomes _).
  - by destruct (becomes _).
Qed.

Lemma process_byte_hears b w c : holds w c ->
  (forall l, (frame c.(c_pending) b).2 = Some (Line l) -> ready c l) ->
  exists w', process_byte alloc_ok realloc_ok b w = Ok w' /\ holds w' (hear c b).
Proof.
  intros Hh Hf. pose proof Hh as [Hs _ _]. pose proof (pending_length _ _ Hs) as Hpl.
  destruct (sp_good _ _ Hs) as [_ _ Hlb Hlen]. unfold process_byte, hear, frame in *.
  rewrite Hpl in *. destruct (decide (MONITOR_LINE_MAX <= line_len (ses w))%nat).
  { pose proof (holds_len w c 0 Hh ltac:(unfold MONITOR_LINE_MAX; lia)) as Hh0. rewrite take_0 in Hh0.
    destruct (holds_append _ _ (err "line too long") Hh0) as (w1 & -> & Hh1). rewrite ok_bind.
    destruct (holds_append _ _ dot_line Hh1) as (w2 & -> & Hh2). exists w2. split; [done|].
    rewrite <- say_app in Hh2. exact Hh2. }
  destruct (decide (b = x0a)) as [->|Hb].
  - destruct (end_line w Hlb Hlen) as (lb & Hl & Hc & E). rewrite (sp_pending _ _ Hs) in Hc.
    apply bind_ok in E as (w1 & E1 & E2). rewrite E1, ok_bind, E2, ok_bind.
    specialize (Hf _ eq_refl). rewrite <- Hc in Hf |- *.
    pose proof (holds_line w c lb Hh Hl) as Hh1. unfold get_char.
    change (line_buf (ses (with_line lb w))) with lb.
    destruct lb as [|c0 lb'] eqn:Elb; [done|]. rewrite <- Elb in *.
    assert (Hc0 : lb !! 0%nat = Some c0) by (by rewrite Elb). rewrite Hc0. cbn [or_fault]. rewrite ok_bind.
    assert (Hd : (if decide ((0 < line_len (ses w))%nat \/ c0 <> x00)
        then dispatch_line alloc_ok realloc_ok (c_str lb) (with_line lb w) else Ok (with_line lb w)) =
      dispatch_line alloc_ok realloc_ok (c_str lb) (with_line lb w)).
    { destruct (decide ((0 < line_len (ses w))%nat \/ c0 <> x00)) as [Hd|Hd]; [reflexivity|]. assert (E0 : c0 = x00) by (apply dec_stable; tauto).
      assert (En : c_str lb = []) by (by rewrite Elb, E0). by rewrite En. }
    rewrite Hd. destruct (dispatch_holds _ _ _ Hh1 Hf) as (w2 & -> & Hh2). rewrite ok_bind.
    eexists. split; [done|]. pose proof (holds_len _ _ 0 Hh2 ltac:(unfold MONITOR_LINE_MAX; lia)) as Hh3.
    rewrite take_0, react_pending in Hh3. by rewrite react_pending.
  - rewrite set_char_ok by lia. rewrite ok_bind. eexists. split; [done|].
    set (lb := take (line_len (ses w)) (line_buf (ses w)) ++ b :: drop (line_len (ses w) + 1) (line_buf (ses w))).
    assert (Hlb' : length lb = S MONITOR_LINE_MAX) by (unfold lb; rewrite put_length; lia).
    pose proof (holds_len _ _ (line_len (ses w) + 1) (holds_line w c lb Hh Hlb') ltac:(lia)) as Hh1.
    change (line_buf (ses (with_line lb w))) with lb in Hh1.
    assert (E : take (line_len (ses w) + 1) lb = c_pending c ++ [b]).
    { rewrite <- (sp_pending _ _ Hs). unfold lb.
      rewrite (take_app_add' _ _ (line_len (ses w)) 1); [done|rewrite length_take; lia]. }
    rewrite E in Hh1. exact Hh1.
Qed.

(** What an invariant of the store has to survive. *)
Lemma react_store (J : monitor_store -> Prop) e c :
  (forall os s s', J s -> Forall StoreInv.legal os -> Forall StoreInv.administrative os ->
     StoreInv.run s os = Ok s' -> J s') ->
  event_fits e -> J c.(c_store) -> J (c_store (react e c)).
Proof.
  intros HJ He Hc. destruct e as [l|]; [|done]. unfold react, settle.
  destruct (respond_does realloc_ok c.(c_state) c.(c_store) c.(c_acl) l (fun _ => He)) as [Hl Had].
  set (r := respond _ _ _ _ _) in *. destruct (StoreInv.run _ _) as [s'|] eqn:Hr.
  - by destruct (becomes r); apply (HJ _ _ _ Hc Hl Had Hr).
  - by destruct (becomes r).
Qed.

Lemma react_ok e c : event_fits e -> StoreInv.store_ok c.(c_store) -> StoreInv.store_ok (c_store (react e c)).
Proof.
  apply react_store. intros os s s' Hs Hl Had Hr.
  destruct (StoreInv.administrative_run _ _ Hs Hl Had) as (s1 & Hr1 & Hok).
  rewrite Hr in Hr1. by injection Hr1 as ->.
Qed.

Lemma react_io e c : event_fits e -> 1024 <= io_buffer_size c.(c_store) ->
  1024 <= io_buffer_size (c_store (react e c)).
Proof.
  apply (react_store (fun s => 1024 <= io_buffer_size s)). intros os s s' Hs _ Had Hr.
  by eapply StoreInv.administrative_io.
Qed.

Lemma hear_pending c b : c_pending (hear c b) = (frame c.(c_pending) b).1.
Proof.
  unfold hear. destruct (frame c.(c_pending) b) as [p [e|]]; [|done]. by rewrite react_pending.
Qed.

Lemma eof_hears w c : holds w c -> ready c (c_str c.(c_pending)) ->
  exists w', monitor_commands_flush_on_eof alloc_ok realloc_ok w = Ok w' /\ holds w' (converse Eof c).2 /\
    c_pending (converse Eof c).2 = [].
Proof.
  intros Hh Hf. pose proof Hh as [Hs _ _]. pose proof (pending_length _ _ Hs) as Hpl.
  destruct (sp_good _ _ Hs) as [_ _ Hlb Hlen].
  unfold monitor_commands_flush_on_eof, converse. destruct (decide (0 < line_len (ses w))%nat) as [Hpos|Hz].
  - rewrite decide_False by (intros E; rewrite E in Hpl; cbn in Hpl; lia).
    rewrite set_char_ok by lia. rewrite ok_bind.
    set (lb := take (line_len (ses w)) (line_buf (ses w)) ++ x00 :: drop (line_len (ses w) + 1) (line_buf (ses w))).
    assert (Hl : length lb = S MONITOR_LINE_MAX) by (unfold lb; rewrite put_length; lia).
    assert (Hc : c_str lb = c_str c.(c_pending)) by (unfold lb; by rewrite c_str_stops, (sp_pending _ _ Hs)).
    change (line_buf (ses (with_line lb w))) with lb. rewrite Hc.
    destruct (dispatch_holds _ _ _ (holds_line w c lb Hh Hl) Hf) as (w1 & -> & Hh1). rewrite ok_bind.
    eexists. split; [done|]. pose proof (holds_len _ _ 0 Hh1 ltac:(unfold MONITOR_LINE_MAX; lia)) as Hh2.
    rewrite take_0, react_pending in Hh2. cbn [snd]. by rewrite react_pending.
  - rewrite decide_True by (apply length_zero_iff_nil; lia). exists w. split_and!; [done|done|].
    apply length_zero_iff_nil. cbn [snd]. lia.
Qed.

Lemma read_takes max w c : holds w c ->
  exists w', monitor_commands_wb_read max w = Ok ((converse (Take max) c).1, w') /\
    holds w' (converse (Take max) c).2 /\ c_pending (converse (Take max) c).2 = c_pending c.
Proof.
  intros Hh. pose proof Hh as [[[G1 G2 G3 G4] H1 H2 H3 H4 H5] Hs Ha].
  unfold monitor_commands_wb_read, converse. rewrite CBuffer.read_ptr_wf, ok_bind by done.
  change (CBuffer.contents (wb (ses w))) with (out (ses w)). rewrite H4.
  replace (if decide (length (c_out c) < max)%nat then length (c_out c) else max)
    with (Nat.min max (length (c_out c))) by (case_decide; lia).
  set (n := Nat.min max (length (c_out c))).
  destruct (decide (0 < n)%nat) as [Hpos|Hz]; [|rewrite decide_True by lia; by exists w].
  rewrite decide_False by lia.
  assert (Hn : (n <= length (CBuffer.contents (wb (ses w))))%nat).
  { change (CBuffer.contents (wb (ses w))) with (out (ses w)). rewrite H4. unfold n. lia. }
  rewrite CBuffer.peek_spec, ok_bind by done.
  destruct (CBuffer.read_adv_spec _ _ G1 Hn) as (b1 & -> & W1 & C1 & L1 & R1 & _). rewrite ok_bind.
  destruct (CBuffer.compact_spec b1 W1) as (b2 & -> & W2 & C2 & R2 & E2 & L2). rewrite ok_bind.
  change (CBuffer.contents (wb (ses w))) with (out (ses w)). rewrite H4.
  eexists. split; [done|]. split; [|done]. split; [|done..]. split; cbn; try done.
  - split; cbn; [done|congruence|done|done].
  - unfold out. cbn. rewrite C2, C1. by rewrite <- H4.
  - unfold room, CBuffer.space. cbn. rewrite L2, L1, G2, E2. rewrite <- CBuffer.contents_length by done.
    rewrite C1, length_drop. change (CBuffer.contents (wb (ses w))) with (out (ses w)). by rewrite H4.
Qed.

(** The lines that are expected, and what they keep true of the state and the
    store. *)
Variable expected : event -> Prop.
Variable I : monitor_commands_state -> monitor_store -> Prop.
Hypothesis expected_ready : forall l c, expected (Line l) -> I c.(c_state) c.(c_store) -> ready c l.
Hypothesis expected_keeps : forall e c, expected e -> I c.(c_state) c.(c_store) ->
  I (c_state (react e c)) (c_store (react e c)).

Record follows (w : world) (c : conv) : Prop := {
  f_holds : holds w c;
  f_inv : I c.(c_state) c.(c_store);
}.

(** Any session in good shape holds a conversation. *)
Definition conv_of (s : monitor_commands_session) (t : monitor_store) (a : Acl.acl) : conv :=
  mk_conv s.(state) s.(close_after_flush) (take s.(line_len) s.(line_buf)) (out s) (room s) t a.

Lemma conv_of_holds s t a : good s -> Acl.rep t a -> holds (mk_world s t) (conv_of s t a).
Proof. intros Hg Ha. by split. Qed.

Lemma hear_keeps c b e : (frame c.(c_pending) b).2 = e -> (forall e', e = Some e' -> expected e') ->
  I c.(c_state) c.(c_store) -> I (c_state (hear c b)) (c_store (hear c b)).
Proof.
  unfold hear. destruct (frame _ _) as [p e1]. cbn [snd]. intros <- He HI.
  destruct e1 as [e1|]; [|exact HI]. apply expected_keeps; [by apply He|exact HI].
Qed.

Lemma feed_follows data : forall w c, follows w c -> Forall expected (frames c.(c_pending) data).1 ->
  exists w', monitor_commands_feed alloc_ok realloc_ok data w = Ok w' /\ follows w' (foldl hear c data) /\
    c_pending (foldl hear c data) = (frames c.(c_pending) data).2.
Proof.
  induction data as [|b data IH]; intros w c [Hh HI] Hf; cbn [monitor_commands_feed foldl frames] in *; [by exists w|].
  pose proof (hear_pending c b) as Hp. pose proof (process_byte_hears b w c Hh) as Hb.
  pose proof (hear_keeps c b) as Hk.
  destruct (frame c.(c_pending) b) as [p e]. cbn [fst snd] in *. rewrite <- Hp in *. specialize (Hk e eq_refl).
  assert (Hfb : (forall e', e = Some e' -> expected e') /\
    Forall expected (frames (c_pending (hear c b)) data).1).
  { destruct (frames (c_pending (hear c b)) data) as [es rest]. cbn [fst] in *.
    destruct e as [e|]; [|done]. apply Forall_cons in Hf as [He Hf]. split; [|done]. by intros e' [= <-]. }
  destruct Hb as (w1 & -> & Hh1).
  { intros l ->. apply expected_ready; [|done]. by apply Hfb. }
  rewrite ok_bind. destruct (IH w1 (hear c b)) as (w2 & E & Hh2 & Hp2); [|by apply Hfb|].
  { split; [done|]. by apply Hk; [apply Hfb|]. }
  exists w2. split_and!; [done..|]. rewrite Hp2. by destruct (frames (c_pending (hear c b)) data).
Qed.

Lemma perform_follows i w c : follows w c -> Forall expected (lines_in i c.(c_pending)).1 ->
  exists w', perform alloc_ok i w = Ok ((converse i c).1, w') /\ follows w' (converse i c).2 /\
    c_pending (converse i c).2 = (lines_in i c.(c_pending)).2.
Proof.
  intros Hh Hf. destruct i as [data| |max]; cbn [perform lines_in fst snd] in *.
  - destruct (feed_follows data w c Hh Hf) as (w' & -> & Hh' & Hp). exists w'. by rewrite ok_bind.
  - apply Forall_cons in Hf as [Hf _]. destruct Hh as [Hh HI].
    destruct (eof_hears w c Hh) as (w' & -> & Hh' & Hp); [by apply expected_ready|]. exists w'.
    rewrite ok_bind. split_and!; [unfold converse; by destruct (decide _)| |done]. split; [done|].
    unfold converse. destruct (decide _); [done|]. by apply expected_keeps.
  - destruct Hh as [Hh HI]. destruct (read_takes max w c Hh) as (w' & E & Hh' & Hp). exists w'.
    split_and!; [done| |done]. split; [done|]. unfold converse. by destruct (decide _).
Qed.

Lemma run_follows ins : forall w c, follows w c -> Forall expected (all_lines ins c.(c_pending)) ->
  exists w', run alloc_ok ins w = Ok ((run_spec ins c).1, w') /\ follows w' (run_spec ins c).2.
Proof.
  induction ins as [|i ins IH]; intros w c Hh Hf; cbn [run run_spec all_lines] in *; [by exists w|].
  pose proof (perform_follows i w c Hh) as Hp. destruct (lines_in i c.(c_pending)) as [es p].
  cbn [fst snd] in *. apply Forall_app in Hf as [Hf1 Hf2].
  destruct (Hp Hf1) as (w1 & -> & Hh1 & <-). rewrite ok_bind. destruct (converse i c) as [o c1]. cbn [fst snd] in *.
  destruct (IH w1 c1 Hh1 Hf2) as (w2 & -> & Hh2). exists w2. by destruct (run_spec ins c1).
Qed.

End Faithful.

(** ** A new connection *)

Definition greeted (s : monitor_store) (a : Acl.acl) : conv :=
  say [Lit MONITOR_COMMANDS_GREETING; Lit dot_line]
    (mk_conv MONITOR_ST_AWAIT_AUTH false [] [] MONITOR_BUFFER_SIZE s a).

(** What a connection does: the greeting, then its inputs. *)
Definition connection (alloc_ok : bool) (backing line : list byte) (s : monitor_store) (ins : list input)
  : res (list byte * world) :=
  w ← monitor_commands_queue_greeting (mk_world (monitor_commands_session_init backing line) s);
  run alloc_ok ins w.

Section Connection.
Variables (backing line : list byte) (s : monitor_store) (a : Acl.acl).
Hypothesis backing_length : length backing = MONITOR_BUFFER_SIZE.
Hypothesis line_length : length line = S MONITOR_LINE_MAX.
Hypothesis store_ok : StoreInv.store_ok s.
Hypothesis acl_rep : Acl.rep s a.

Lemma init_holds : holds (mk_world (monitor_commands_session_init backing line) s)
  (mk_conv MONITOR_ST_AWAIT_AUTH false [] [] MONITOR_BUFFER_SIZE s a).
Proof.
  pose proof (CBuffer.init_wf _ _ backing_length) as Hwf.
  split; [|done..]. split; try done.
  split; [done..|cbn; unfold MONITOR_LINE_MAX; lia].
Qed.

Lemma connection_follows alloc_ok expected I ins :
  (forall l c, expected (Line l) -> I c.(c_state) c.(c_store) -> ready alloc_ok c l) ->
  (forall e c, expected e -> I c.(c_state) c.(c_store) -> I (c_state (react e c)) (c_store (react e c))) ->
  I MONITOR_ST_AWAIT_AUTH s -> Forall expected (all_lines ins []) ->
  exists w', connection alloc_ok backing line s ins = Ok ((run_spec ins (greeted s a)).1, w') /\
    follows I w' (run_spec ins (greeted s a)).2.
Proof.
  intros Hr Hk HI Hf. unfold connection, monitor_commands_queue_greeting.
  destruct (holds_append _ _ MONITOR_COMMANDS_GREETING init_holds) as (w1 & -> & H1). rewrite ok_bind.
  destruct (holds_append _ _ dot_line H1) as (w2 & -> & H2). rewrite ok_bind, <- say_app in *.
  by apply (run_follows alloc_ok expected I Hr Hk ins w2 (greeted s a)).
Qed.

(** A line that logs in. *)
Definition authenticates (l : cstring) : Prop :=
  arg (split_line l) 0 = lit "AUTH" /\ (3 <= argc (split_line l))%nat /\
  Users.store_admin_authenticate s (arg (split_line l) 1) (arg (split_line l) 2) = STORE_AUTH_OK.

Definition unauthorised (e : event) : Prop :=
  match e with Line l => ~ authenticates l | TooLong => True end.

Lemma unauthorised_keeps e c : unauthorised e ->
  c.(c_state) = MONITOR_ST_AWAIT_AUTH /\ c.(c_store) = s ->
  c_state (react e c) = MONITOR_ST_AWAIT_AUTH /\ c_store (react e c) = s.
Proof.
  intros He [Hst Hs]. destruct e as [l|]; [|done]. cbn in He. unfold react. rewrite Hst, Hs.
  assert (Hr : does (respond realloc_ok MONITOR_ST_AWAIT_AUTH s c.(c_acl) l) = [] /\
    becomes (respond realloc_ok MONITOR_ST_AWAIT_AUTH s c.(c_acl) l) = Stays).
  { revert He. unfold authenticates, respond. destruct (split_line l) as [|cmd args]; [done|].
    change (arg (cmd :: args) 0) with cmd. cbn [does becomes].
    destruct (decide (cmd = lit "AUTH")); [|done]. unfold reply_auth.
    destruct (decide _) as [|Hn]; [done|]. intros He.
    destruct (Users.store_admin_authenticate _ _ _) eqn:E; [|done..]. exfalso. apply He. split_and!; [done|lia|done]. }
  destruct Hr as [-> ->]. unfold settle. cbn [StoreInv.run]. by rewrite <- Hs.
Qed.


(** C8. Whatever a client sends, in whatever pieces: as long as no line of it is
    AUTH with the name and password of an administrator, the connection stays
    unauthenticated, the store stays as it was, and nothing faults - even
    without memory. *)
Theorem auth_gate alloc_ok ins : Forall unauthorised (all_lines ins []) ->
  exists sent w', connection alloc_ok backing line s ins = Ok (sent, w') /\
    w'.(sto) = s /\ w'.(ses).(state) = MONITOR_ST_AWAIT_AUTH.
Proof.
  intros Hf. destruct (connection_follows alloc_ok unauthorised
      (fun st s' => st = MONITOR_ST_AWAIT_AUTH /\ s' = s) ins) as (w' & E & [Hh [Hst Hs]]).
  - intros l c _ [Hst _]. unfold ready. by rewrite Hst.
  - apply unauthorised_keeps.
  - done.
  - done.
  - eexists _, w'. split; [exact E|]. rewrite (h_store _ _ Hh), (sp_state _ _ (h_session _ _ Hh)). done.
Qed.

End Connection.

End Protocol.

Import SampleInet.

(** A store with one administrator. *)
Definition sample_store : monitor_store :=
  (Users.store_user_add initial_store (lit "admin") (lit "secret") true).2.

Lemma sample_ok : StoreInv.store_ok sample_store /\ Acl.rep sample_store (Acl.mk_acl [] []).
Proof.
  pose proof (StoreInv.users_ok initial_store (Users.Add (lit "admin") (lit "secret") true) (Users.AUser STORE_USER_OK)
    sample_store StoreInv.initial_ok eq_refl) as Hok.
  split; [exact Hok|]. eapply StoreInv.acl_same; [|apply Acl.initial_rep]. done.
Qed.

Ltac compute_lines :=
  lazymatch goal with |- Forall ?P ?l =>
    let l' := eval vm_compute in l in replace l with l' by (vm_compute; reflexivity) end.

Definition sample_backing : list byte := replicate MONITOR_BUFFER_SIZE x00.
Definition sample_line : list byte := replicate (S MONITOR_LINE_MAX) x00.


Lemma auth_gate_witness :
  exists sent w', connection true false sample_backing sample_line sample_store
      [Bytes (lit "STATS" ++ nl ++ lit "AUTH admin wrong" ++ nl ++ lit "ADD_USER eve x admin" ++ nl)] = Ok (sent, w') /\
    w'.(sto) = sample_store /\ w'.(ses).(state) = MONITOR_ST_AWAIT_AUTH.
Proof.
  apply (auth_gate true sample_backing sample_line sample_store (Acl.mk_acl [] [])).
  - apply length_replicate.
  - apply length_replicate.
  - apply sample_ok.
  - compute_lines. repeat (apply Forall_cons; split); try done;
      unfold unauthorised, authenticates; intros (H1 & H2 & H3); revert H1 H3; vm_compute; discriminate.
Defined.

End MonProtocol.
