(* ===== verification/MonText.v ===== *)
(** The text of the administration protocol: lines and words are recovered from
    the bytes they are sent as, numbers from the digits they are printed as. *)
From S2P Require Import Prelude Inet Store Acl StoreInv MonCommands MonProtocol.
Import Store MonCommands MonProtocol.
Local Open Scope Z_scope.

Module MonText.

(** * Lines *)

Lemma frames_app d1 d2 : forall p, frames p (d1 ++ d2) =
  ((frames p d1).1 ++ (frames (frames p d1).2 d2).1, (frames (frames p d1).2 d2).2).
Proof.
  induction d1 as [|b d1 IH]; intros p; cbn [app frames fst snd].
  - by destruct (frames p d2).
  - destruct (frame p b) as [p1 e]. rewrite IH. destruct (frames p1 d1) as [es q]. cbn [fst snd].
    by destruct (frames q d2), e.
Qed.

Lemma frames_plain d : forall p, x0a ∉ d -> (length p + length d <= MONITOR_LINE_MAX)%nat ->
  frames p d = ([], p ++ d).
Proof.
  induction d as [|b d IH]; intros p Hd Hl; cbn [frames length] in *; [by rewrite app_nil_r|].
  apply not_elem_of_cons in Hd as [Hb Hd]. unfold frame.
  rewrite decide_False by lia. rewrite decide_False by done.
  rewrite IH by (done || rewrite length_app; cbn; lia). by rewrite <- app_assoc.
Qed.

(** A line as text: no line end, no NUL, no carriage return at its end, and
    room for one. *)
Record text_line (l : cstring) : Prop := {
  tl_nl : x0a ∉ l;
  tl_nul : nul_free l;
  tl_cr : last l <> Some x0d;
  tl_len : (S (length l) < MONITOR_LINE_MAX)%nat;
}.

(** The two ways a line may end. *)
Definition send_line (l : cstring * bool) : list byte := l.1 ++ (if l.2 then [x0d; x0a] else [x0a]).

Lemma frames_line l : text_line l.1 -> frames [] (send_line l) = ([Line l.1], []).
Proof.
  destruct l as [l cr]. intros [H1 H2 H3 H4]. cbn in *. unfold send_line.
  destruct cr; cbn [fst snd].
  - change [x0d; x0a] with ([x0d] ++ [x0a]). rewrite app_assoc, frames_app, (frames_plain _ []).
    2:{ rewrite not_elem_of_app. by split; [|set_solver]. }
    2:{ rewrite length_app; cbn; lia. }
    cbn [fst snd app frames]. unfold frame. rewrite decide_False by (rewrite length_app; cbn; lia).
    rewrite decide_True by done. unfold strip_cr. rewrite last_snoc, decide_True by done.
    rewrite length_app, take_app_length' by (cbn; lia). by rewrite c_str_id.
  - rewrite frames_app, (frames_plain _ []) by (done || cbn; lia).
    cbn [fst snd app frames]. unfold frame. rewrite decide_False by lia. rewrite decide_True by done.
    unfold strip_cr. rewrite decide_False by done. by rewrite c_str_id.
Qed.

(** However lines end and however their bytes are delivered, the lines
    received are the lines sent, in order, and what follows the last line end
    stays pending. *)
Theorem lines_roundtrip ls rest : Forall (fun l => text_line l.1) ls ->
  x0a ∉ rest -> (length rest <= MONITOR_LINE_MAX)%nat ->
  frames [] (concat (send_line <$> ls) ++ rest) = ((fun l => Line l.1) <$> ls, rest).
Proof.
  intros Hls Hr Hl. induction Hls as [|l ls Hl1 Hls IH]; cbn [fmap list_fmap concat].
  - by apply (frames_plain rest []).
  - rewrite <- app_assoc, frames_app, frames_line by done. cbn [fst snd]. by rewrite IH.
Qed.

Lemma lines_roundtrip_witness :
  frames [] (concat (send_line <$> [(lit "AUTH admin secret", true); (lit "STATS", false)]) ++ lit "QU") =
    ([Line (lit "AUTH admin secret"); Line (lit "STATS")], lit "QU").
Proof.
  apply (lines_roundtrip [(lit "AUTH admin secret", true); (lit "STATS", false)]).
  - repeat (apply Forall_cons; split); try done; (split; [by_decision|by_decision|done|vm_compute; lia]).
  - by_decision.
  - vm_compute. lia.
Defined.

(** The part of a line that is too long and comes after its first 513 bytes
    is read as a line of its own. *)
Theorem overlong_tail_runs l b cmd : x0a ∉ l -> length l = MONITOR_LINE_MAX -> text_line cmd ->
  frames [] (l ++ [b] ++ cmd ++ [x0a]) = ([TooLong; Line cmd], []).
Proof.
  intros Hl Hn Hc. rewrite frames_app, (frames_plain l []) by (done || cbn; lia).
  cbn [fst snd app frames]. unfold frame at 1 2. rewrite decide_True by lia.
  pose proof (frames_line (cmd, false) Hc) as E. unfold send_line in E. cbn [fst snd] in E. by rewrite E.
Qed.

Lemma overlong_tail_runs_witness :
  frames [] (replicate MONITOR_LINE_MAX x41 ++ [x41] ++ lit "AUTH admin admin" ++ [x0a]) =
    ([TooLong; Line (lit "AUTH admin admin")], []).
Proof.
  apply overlong_tail_runs.
  - by_decision.
  - apply length_replicate.
  - split; [by_decision|by_decision|done|vm_compute; lia].
Defined.

(** * Words *)

Definition word (w : cstring) : Prop := w <> [] /\ " "%byte ∉ w.

Lemma tokens_word w : forall cur s, " "%byte ∉ w -> tokens (w ++ s) cur = tokens s (cur ++ w).
Proof.
  induction w as [|c w IH]; intros cur s Hw; [by rewrite app_nil_r|].
  apply not_elem_of_cons in Hw as [Hc Hw]. cbn [app tokens]. rewrite decide_False by done.
  rewrite IH by done. by rewrite <- app_assoc.
Qed.

(** Words separated by any number of spaces. *)
Fixpoint spaced (ws : list (nat * cstring)) : cstring :=
  match ws with
  | [] => []
  | (n, w) :: ws => replicate (S n) " "%byte ++ w ++ spaced ws
  end.

Lemma tokens_spaces n s : tokens (replicate n " "%byte ++ s) [] = tokens s [].
Proof. induction n as [|n IH]; [done|]. cbn [replicate app tokens]. by rewrite !decide_True by done. Qed.

Lemma tokens_spaced ws : forall cur, Forall (fun w => word w.2) ws ->
  tokens (spaced ws) cur = if decide (cur = []) then ws.*2 else cur :: ws.*2.
Proof.
  induction ws as [|[n w] ws IH]; intros cur Hw; [done|].
  apply Forall_cons in Hw as [[Hne Hsp] Hws]. cbn [snd] in *.
  cbn [spaced replicate app tokens fmap list_fmap snd].
  rewrite (decide_True (P := " "%byte = " "%byte)) by done.
  rewrite tokens_spaces, tokens_word, IH by done. cbn [app]. by rewrite (decide_False (P := w = [])).
Qed.

(** A command line: a command, and words each after one or more spaces. *)
Lemma split_spaced cmd ws : word cmd -> Forall (fun w => word w.2) ws -> (length ws < 8)%nat ->
  split_line (cmd ++ spaced ws) = cmd :: ws.*2.
Proof.
  intros [Hne Hsp] Hws Hn. unfold split_line. rewrite tokens_word, tokens_spaced by done.
  cbn [app]. rewrite decide_False by done. apply take_ge. cbn. rewrite length_fmap. lia.
Qed.

(** * Numbers *)

Definition digit_value (c : byte) : Z := bz c - 48.

Lemma strtol_digit d s acc any : 0 <= d < 10 ->
  strtol_digits (zb (48 + d) :: s) acc any = strtol_digits s (acc * 10 + d) true.
Proof.
  intros Hd. destruct (digit_ok d Hd) as [H1 H2]. cbn [strtol_digits]. rewrite H1, H2. f_equal. lia.
Qed.

(** Reading printed digits. *)
Lemma strtol_dec_digits n : forall v s acc any, 0 <= v < 10 ^ Z.of_nat n -> (0 < n)%nat ->
  exists k, strtol_digits (dec_digits n v ++ s) acc any = strtol_digits s (acc * 10 ^ Z.of_nat k + v) true.
Proof.
  induction n as [|n IH]; intros v s acc any Hv Hn; [lia|]. cbn [dec_digits].
  destruct (decide (v < 10)) as [Hlt|Hge].
  - exists 1%nat. cbn [app]. rewrite strtol_digit by lia. f_equal; lia.
  - destruct (decide (n = 0%nat)) as [->|Hn0]; [cbn in Hv; lia|].
    pose proof (Z.div_mod v 10 ltac:(lia)) as Hdm. pose proof (Z.mod_pos_bound v 10 ltac:(lia)) as Hm.
    assert (Hv' : 0 <= v / 10 < 10 ^ Z.of_nat n).
    { rewrite Nat2Z.inj_succ, Z.pow_succ_r in Hv by lia. lia. }
    destruct (IH (v / 10) (zb (48 + v mod 10) :: s) acc any Hv' ltac:(lia)) as (k & E).
    exists (S k). rewrite <- app_assoc. cbn [app]. rewrite E, strtol_digit by done. f_equal.
    rewrite Nat2Z.inj_succ, Z.pow_succ_r by lia. lia.
Qed.

Lemma dec_head v : 0 <= v -> exists d s, dec v = zb (48 + d) :: s /\ 0 <= d < 10.
Proof.
  unfold dec. assert (Hn : (0 < 20)%nat) by lia. revert Hn v. generalize 20%nat.
  induction n as [|n IH]; intros Hn v Hv; [lia|]. cbn [dec_digits].
  destruct (decide (v < 10)); [by eexists _, _|]. destruct (decide (n = 0%nat)) as [->|Hn0].
  - cbn [dec_digits app]. eexists _, _. split; [done|]. apply Z.mod_pos_bound. lia.
  - destruct (IH ltac:(lia) (v / 10) ltac:(apply Z.div_pos; lia)) as (d & s & E & Hd).
    rewrite E. cbn [app]. by eexists _, _.
Qed.

Lemma strtol_dec v : 0 <= v <= LONG_MAX -> strtol (dec v) = (v, true, []).
Proof.
  intros Hv. unfold LONG_MAX in Hv. destruct (dec_head v ltac:(lia)) as (d & s & E & Hd).
  destruct (digit_ok d Hd) as [H1 H2]. unfold strtol. rewrite E. cbn [skip_space].
  unfold is_space. rewrite H2, bool_decide_false by lia.
  rewrite decide_False by (intros F; apply (f_equal bz) in F; rewrite H2 in F; change (bz "-"%byte) with 45 in F; lia).
  rewrite decide_False by (intros F; apply (f_equal bz) in F; rewrite H2 in F; change (bz "+"%byte) with 43 in F; lia).
  rewrite <- E. destruct (strtol_dec_digits 20 v [] 0 false) as (k & E'); [change (10 ^ Z.of_nat 20) with (10 ^ 20); lia|lia|].
  rewrite app_nil_r in E'. fold (dec v) in E'. rewrite E'. cbn [strtol_digits].
  rewrite Z.mul_0_l, Z.add_0_l. rewrite decide_False by (unfold LONG_MAX; lia).
  rewrite decide_False by (unfold LONG_MAX; lia). done.
Qed.

Lemma dec_word v : 0 <= v <= LONG_MAX -> word (dec v).
Proof.
  intros Hv. split.
  - destruct (dec_head v ltac:(lia)) as (d & s & -> & _). done.
  - assert (Hd : forall n z, 0 <= z -> " "%byte ∉ dec_digits n z).
    { induction n as [|n IH]; intros z Hz; cbn [dec_digits]; [apply not_elem_of_nil|].
      assert (Hne : forall d, 0 <= d < 10 -> " "%byte <> zb (48 + d)).
      { intros d Hd F. apply (f_equal bz) in F. rewrite (proj2 (digit_ok d Hd)) in F.
        change (bz " "%byte) with 32 in F. lia. }
      destruct (decide (z < 10)).
      - rewrite list_elem_of_singleton. apply Hne. lia.
      - rewrite elem_of_app, list_elem_of_singleton. intros [F|F].
        + by apply (IH (z / 10)); [apply Z.div_pos; lia|].
        + by apply (Hne (z mod 10) (Z.mod_pos_bound z 10 ltac:(lia))). }
    apply Hd. lia.
Qed.

Lemma param_word name key : store_config_key_from_name name = Some key -> word name.
Proof.
  unfold store_config_key_from_name. repeat (destruct (decide _) as [->|]; [intros _; split; [done|by_decision]|]). done.
Qed.

(** * Configuration *)

Section Config.
Context `{Inet}.
Variable realloc_ok : bool.

(** The two forms of the command, with any spacing. *)
Definition config_set_line (name : cstring) (v : Z) (n m : nat) : cstring :=
  lit "CONFIG" ++ spaced [(n, name); (m, dec v)].
Definition config_get_line (name : cstring) (n : nat) : cstring := lit "CONFIG" ++ spaced [(n, name)].

Lemma words_set name key v n m : store_config_key_from_name name = Some key -> 0 <= v <= LONG_MAX ->
  split_line (config_set_line name v n m) = [lit "CONFIG"; name; dec v].
Proof.
  intros Hk Hv. unfold config_set_line. rewrite split_spaced; [done|split; [done|by_decision]| |cbn; lia].
  repeat (apply Forall_cons; split); [by eapply param_word|by apply dec_word|done].
Qed.

Lemma words_get name key n : store_config_key_from_name name = Some key ->
  split_line (config_get_line name n) = [lit "CONFIG"; name].
Proof.
  intros Hk. unfold config_get_line. rewrite split_spaced; [done|split; [done|by_decision]| |cbn; lia].
  repeat (apply Forall_cons; split); [by eapply param_word|done].
Qed.

Lemma respond_words st s a line cmd args : split_line line = cmd :: args -> st = MONITOR_ST_AUTHENTICATED ->
  cmd <> lit "AUTH" ->
  respond realloc_ok st s a line =
    mk_response ((reply realloc_ok s a cmd (cmd :: args)).1 ++ [Lit dot_line])
      (reply realloc_ok s a cmd (cmd :: args)).2 (if decide (cmd = lit "QUIT") then Leaves else Stays).
Proof. intros E -> Hc. unfold respond. rewrite E. by rewrite (decide_False (P := cmd = lit "AUTH")). Qed.

Lemma set_responds s a name key v n m : store_config_key_from_name name = Some key ->
  0 <= v <= LONG_MAX -> ~ out_of_range name v ->
  respond realloc_ok MONITOR_ST_AUTHENTICATED s a (config_set_line name v n m) =
    mk_response [Lit (if decide ((store_config_set realloc_ok s key v).1 = STORE_CFG_OK) then ok_line
                      else err "invalid value"); Lit dot_line]
      [StoreInv.SetConfig realloc_ok key v] Stays.
Proof.
  intros Hk Hv Hr. rewrite (respond_words _ s a _ (lit "CONFIG") [name; dec v]) by (done || by eapply words_set).
  change (reply realloc_ok s a (lit "CONFIG") [lit "CONFIG"; name; dec v])
    with (reply_config realloc_ok s [lit "CONFIG"; name; dec v]).
  unfold reply_config. change (arg [lit "CONFIG"; name; dec v] 1) with name.
  change (arg [lit "CONFIG"; name; dec v] 2) with (dec v). rewrite Hk.
  change (argc [lit "CONFIG"; name; dec v]) with 3%nat. rewrite !(decide_False (P := (3 < 2)%nat)) by lia.
  rewrite !(decide_False (P := 3%nat = 2%nat)) by lia. rewrite strtol_dec by done.
  rewrite !(decide_False (P := true = false \/ _)); [done|].
  intros [?|[?|[?|?]]]; [done|done|lia|done].
Qed.

Lemma get_responds s a name key n : store_config_key_from_name name = Some key ->
  respond realloc_ok MONITOR_ST_AUTHENTICATED s a (config_get_line name n) =
    mk_response [Fmt (lit "+OK " ++ dec (store_config_get s key) ++ nl); Lit dot_line] [] Stays.
Proof.
  intros Hk. rewrite (respond_words _ s a _ (lit "CONFIG") [name]) by (done || by eapply words_get).
  change (reply realloc_ok s a (lit "CONFIG") [lit "CONFIG"; name])
    with (reply_config realloc_ok s [lit "CONFIG"; name]).
  unfold reply_config. change (arg [lit "CONFIG"; name] 1) with name. rewrite Hk.
  change (argc [lit "CONFIG"; name]) with 2%nat. rewrite !(decide_False (P := (2 < 2)%nat)) by lia.
  by rewrite !(decide_True (P := 2%nat = 2%nat)).
Qed.

(** A configuration command with a number, printed in decimal, is understood:
    if it is answered +OK, asking for the parameter afterwards prints the same
    number, and every other parameter is what it was; if not, it is answered
    "invalid value" and no parameter has changed. *)
Theorem config_reads_back s a name key v n m : store_config_key_from_name name = Some key ->
  0 <= v <= LONG_MAX -> ~ out_of_range name v ->
  exists r s',
    respond realloc_ok MONITOR_ST_AUTHENTICATED s a (config_set_line name v n m) =
      mk_response [Lit r; Lit dot_line] [StoreInv.SetConfig realloc_ok key v] Stays /\
    StoreInv.run s [StoreInv.SetConfig realloc_ok key v] = Ok s' /\
    forall name' key' k, store_config_key_from_name name' = Some key' ->
      respond realloc_ok MONITOR_ST_AUTHENTICATED s' a (config_get_line name' k) =
        mk_response
          [Fmt (lit "+OK " ++ dec (if decide (r = ok_line /\ key' = key) then v else store_config_get s key') ++ nl);
           Lit dot_line] [] Stays.
Proof.
  intros Hk Hv Hr. eexists _, _. split; [by apply set_responds|]. split; [done|].
  intros name' key' k Hk'. rewrite (get_responds _ _ _ key' _ Hk').
  pose proof (config_set_get realloc_ok s key v) as Hg. pose proof (config_set_rejected realloc_ok s key v) as Hj.
  destruct (store_config_set realloc_ok s key v) as [r s'] eqn:E. cbn [fst snd] in *.
  do 6 f_equal. destruct (decide (r = STORE_CFG_OK)) as [->|Hne].
  - rewrite (Hg s' key' eq_refl). destruct (decide (key' = key)) as [->|]; [by rewrite decide_True|].
    by rewrite decide_False by tauto.
  - rewrite decide_False by (intros [F _]; revert F; by vm_compute). by rewrite (Hj r s' eq_refl Hne).
Qed.

End Config.

Import SampleInet.

Lemma config_reads_back_witness :
  let s := sample_store in let a := Acl.mk_acl [] [] in
  exists r s',
    respond true MONITOR_ST_AUTHENTICATED s a (config_set_line (lit "timeout") 120 0 2) =
      mk_response [Lit r; Lit dot_line] [StoreInv.SetConfig true STORE_CFG_TIMEOUT 120] Stays /\
    StoreInv.run s [StoreInv.SetConfig true STORE_CFG_TIMEOUT 120] = Ok s' /\
    forall name' key' k, store_config_key_from_name name' = Some key' ->
      respond true MONITOR_ST_AUTHENTICATED s' a (config_get_line name' k) =
        mk_response
          [Fmt (lit "+OK " ++ dec (if decide (r = ok_line /\ key' = STORE_CFG_TIMEOUT) then 120
                                   else store_config_get s key') ++ nl);
           Lit dot_line] [] Stays.
Proof.
  apply config_reads_back.
  - reflexivity.
  - unfold LONG_MAX. lia.
  - by_decision.
Defined.

End MonText.
