(* ===== verification/SocksAuth.v ===== *)
(** Credentials against the user table: socks_auth_validate of
    src/server/socks/auth/auth.c, which joins the RFC 1929 parser to the user
    table of the store. *)
From S2P Require Import Prelude ByteParser Auth SlotTable Store Users.
Import Store Auth.
Local Open Scope Z_scope.

Module SocksAuth.

(** [uname_len > SOCKS_AUTH_MAX_LEN] never holds of a [uint8_t]; the test is in
    the code all the same. *)
Definition socks_auth_validate (parser : option socks_auth_parser) (store : option monitor_store)
  : res bool :=
  match parser, store with
  | Some p, Some s =>
    if decide (p.(uname_len) = 0 \/ p.(uname_len) > Z.of_nat SOCKS_AUTH_MAX_LEN \/
               p.(passwd_len) = 0 \/ p.(passwd_len) > Z.of_nat SOCKS_AUTH_MAX_LEN)
    then Ok false
    else
      u ← mem_read 0 (Z.to_nat p.(uname_len)) p.(uname);
      w ← mem_read 0 (Z.to_nat p.(passwd_len)) p.(passwd);
      Ok (Users.store_user_validate s (c_str (u ++ [x00])) (c_str (w ++ [x00])))
  | _, _ => Ok false
  end.

Lemma c_str_ended l : c_str (l ++ [x00]) = c_str l.
Proof. apply c_str_stops. Qed.

(** A parser that holds a message validates the strings in it. *)
Lemma validate_spec p s : wf p ->
  0 < p.(uname_len) <= 255 -> 0 < p.(passwd_len) <= 255 ->
  socks_auth_validate (Some p) (Some s) =
    Ok (Users.store_user_validate s (c_str (user_of p)) (c_str (pass_of p))).
Proof.
  intros [Hu Hw] H1 H2. unfold SOCKS_AUTH_MAX_LEN in *. unfold socks_auth_validate.
  rewrite decide_False by (unfold SOCKS_AUTH_MAX_LEN; lia). rewrite !mem_read_fits by lia. rewrite !ok_bind, !c_str_ended. done.
Qed.

(** C19. The message of RFC 1929, whatever the pieces it arrives in, is accepted
    exactly when the directory of users has the name with that password, both
    read up to their first NUL. *)
Theorem login_decided chunks p0 s user pass rest : wf p0 -> Users.wf s ->
  decode (concat chunks) = (SOCKS_AUTH_PARSED, Some (user, pass), rest) ->
  exists p, foldl resume (drain (socks_auth_parser_init p0) []) chunks = Ok (SOCKS_AUTH_PARSED, p, rest) /\
    socks_auth_validate (Some p) (Some s) =
      Ok (match Users.view s.(users) !! c_str user with
          | Some (q, _) => bool_decide (q = c_str pass)
          | None => false
          end).
Proof.
  intros Hp Hs Hd. rewrite drain_chunks.
  destruct (auth_drains (concat chunks) p0 Hp) as (st & p & r & E & Hdec & Hlen).
  rewrite Hd in Hdec. injection Hdec as -> Ho ->. rewrite decide_True in Ho by done.
  injection Ho as Hu Hw. destruct (Hlen eq_refl) as (Hwf & H1 & H2). exists p. split; [done|].
  rewrite validate_spec, Hu, Hw by done. f_equal. by apply Users.validate_view.
Qed.

Lemma login_decided_witness :
  let s := (Users.store_user_add initial_store (lit "ana") (lit "pw") false).2 in
  let chunks := [[x01; x03]; lit "ana"; [x02]; lit "pw"] in
  exists p, foldl resume (drain (socks_auth_parser_init blank_parser) []) chunks = Ok (SOCKS_AUTH_PARSED, p, []) /\
    socks_auth_validate (Some p) (Some s) =
      Ok (match Users.view s.(users) !! c_str (lit "ana") with
          | Some (q, _) => bool_decide (q = c_str (lit "pw"))
          | None => false
          end).
Proof.
  apply login_decided.
  - split; reflexivity.
  - apply (Users.perform_wf initial_store (Users.Add (lit "ana") (lit "pw") false)).
    + apply Users.users_initial_wf.
    + vm_compute. lia.
  - reflexivity.
Defined.

(** A password that only agrees up to a NUL byte is accepted all the same. *)
Theorem nul_truncates_password p s : wf p -> Users.wf s ->
  0 < p.(uname_len) <= 255 -> 0 < p.(passwd_len) <= 255 ->
  forall pw r junk, Users.view s.(users) !! c_str (user_of p) = Some (pw, r) -> nul_free pw ->
  pass_of p = pw ++ x00 :: junk ->
  socks_auth_validate (Some p) (Some s) = Ok true.
Proof.
  intros Hp Hs H1 H2 pw r junk Hv Hn Hpw. rewrite validate_spec by done.
  rewrite Users.validate_view, Hv, Hpw, c_str_app_nul by done. by rewrite bool_decide_true.
Qed.

Lemma nul_truncates_password_witness :
  let s := (Users.store_user_add initial_store (lit "ana") (lit "pw") false).2 in
  let p := mk_parser AUTH_PASSWD 3 5 0 0 (lit "ana" ++ replicate 252 x00)
             (lit "pw" ++ [x00; x41; x42] ++ replicate 250 x00) in
  socks_auth_validate (Some p) (Some s) = Ok true.
Proof.
  apply (nul_truncates_password _ _) with (pw := lit "pw") (r := STORE_ROLE_USER) (junk := [x41; x42]).
  - split; reflexivity.
  - apply (Users.perform_wf initial_store (Users.Add (lit "ana") (lit "pw") false)).
    + apply Users.users_initial_wf.
    + vm_compute. lia.
  - cbn. lia.
  - cbn. lia.
  - vm_compute. reflexivity.
  - by_decision.
  - reflexivity.
Defined.

End SocksAuth.
