(* ===== verification/Program.v ===== *)
(** The data of the server process: the structures of src/server/socks/socks.h
    and of src/server/monitor/monitor.{h,c}, and the memory they live in.

    Both servers share the selector and the store.  A session is an object in a
    heap of its own, named by an address that is never handed out twice, so an
    access through a stale pointer is [Fault UseAfterFree].  There is one proxy
    and one monitor server; a session's [srv] pointer is that server, which
    faults in the same way once it is released.  [main] passes the store to
    both, so the store pointer is never NULL, but it too can be released. *)
From S2P Require Import Prelude CBuffer Greeting Auth Request Selector Os Store MonCommands.
Local Open Scope Z_scope.

Module Program.

(** * The proxy: socks.h *)

Definition SOCKS_BUFFER_SIZE_DEFAULT : Z := 4096.

(** [enum socks_state]: the value is the index in the table of states. *)
Definition SOCKS_ST_AUTH_GREETING : nat := 0.
Definition SOCKS_ST_AUTH_USERPASS : nat := 1.
Definition SOCKS_ST_REQUEST : nat := 2.
Definition SOCKS_ST_RESOLVING : nat := 3.
Definition SOCKS_ST_ORIGIN_CONNECTING : nat := 4.
Definition SOCKS_ST_RELAY : nat := 5.
Definition SOCKS_ST_DONE : nat := 6.

Definition loc := positive.

Record socks_session := mk_session {
  client_fd : Z;
  origin_fd : Z;
  c2o : CBuffer.buffer;
  o2c : CBuffer.buffer;
  c2o_backing : bool;                    (* not NULL *)
  o2c_backing : bool;
  current : option nat;                  (* stm.current *)
  greeting : Greeting.socks_greeting_parser;
  auth : Auth.socks_auth_parser;
  request : Request.socks_request_parser;
  dns_result : list Os.addrinfo;         (* [] is NULL *)
  dns_cursor : list Os.addrinfo;
  dns_gai_rc : Z;
  dns_resolving : bool;
  close_after_flush : bool;
  dest_addr : Request.sockaddr_storage;
  dest_addr_len : Z;
  store_id : Z;
  last_activity : Z;
  dest_recorded : bool;
  idle_prev : option loc;
  idle_next : option loc;
  in_idle_list : bool;
  ttl_expired : bool;
}.
#[global] Instance eta_session : Eta socks_session := fun s =>
  mk_session s.(client_fd) s.(origin_fd) s.(c2o) s.(o2c) s.(c2o_backing) s.(o2c_backing)
    s.(current) s.(greeting) s.(auth) s.(request) s.(dns_result) s.(dns_cursor) s.(dns_gai_rc)
    s.(dns_resolving) s.(close_after_flush) s.(dest_addr) s.(dest_addr_len) s.(store_id)
    s.(last_activity) s.(dest_recorded) s.(idle_prev) s.(idle_next) s.(in_idle_list)
    s.(ttl_expired).

(** What [calloc] leaves. *)
Definition zero_buffer : CBuffer.buffer := CBuffer.mk_buffer [] 0 0 0.
Definition zero_greeting : Greeting.socks_greeting_parser :=
  Greeting.mk_parser Greeting.GREETING_VER 0 false false x00.
Definition zero_auth : Auth.socks_auth_parser :=
  Auth.mk_parser Auth.AUTH_VER 0 0 0 0 (replicate 255 x00) (replicate 255 x00).
Definition zero_request : Request.socks_request_parser :=
  Request.mk_parser Request.REQ_VER x00 x00 0 0 0 (replicate 256 x00) x00
    Request.sockaddr_zero 0 0.
Definition zero_session : socks_session :=
  mk_session 0 0 zero_buffer zero_buffer false false None zero_greeting zero_auth zero_request
    [] [] 0 false false Request.sockaddr_zero 0 0 0 false None None false false.

Record socks_server := mk_socks_server {
  listen_fd : Z;
  port : Z;
  active_sessions : Z;        (* size_t *)
  idle_head : option loc;
  idle_tail : option loc;
}.
#[global] Instance eta_socks_server : Eta socks_server := fun s =>
  mk_socks_server s.(listen_fd) s.(port) s.(active_sessions) s.(idle_head) s.(idle_tail).

(** Arguments of the thread that resolves a name. *)
Record socks_dns_ctx := mk_ctx {
  ctx_session : loc;
  notify_fd : Z;
  ctx_host : cstring;
  port_str : cstring;
}.

(** * The monitor: monitor.h, monitor.c *)

Record monitor_session := mk_monitor_session {
  rb : CBuffer.buffer;
  commands : MonCommands.monitor_commands_session;
}.
#[global] Instance eta_monitor_session : Eta monitor_session := fun s =>
  mk_monitor_session s.(rb) s.(commands).

Record monitor_server := mk_monitor_server {
  m_listen_fd : Z;
  m_port : Z;
  m_active_sessions : Z;
}.
#[global] Instance eta_monitor_server : Eta monitor_server := fun s =>
  mk_monitor_server s.(m_listen_fd) s.(m_port) s.(m_active_sessions).

(** * The process *)

Record program := mk_program {
  sessions : gmap loc socks_session;
  next_session : loc;                     (* the next address *)
  socks : option socks_server;            (* None: released *)
  threads : list socks_dns_ctx;           (* the resolver threads running *)
  clients : gmap loc monitor_session;
  next_client : loc;
  monitor : option monitor_server;
  store : option Store.monitor_store;
  stop : bool;                            (* the flag [main] shares *)
}.
#[global] Instance eta_program : Eta program := fun p =>
  mk_program p.(sessions) p.(next_session) p.(socks) p.(threads) p.(clients) p.(next_client)
    p.(monitor) p.(store) p.(stop).

(** The constant handlers, and what is attached to a registered descriptor. *)
Inductive handler :=
| SocksClient | SocksOrigin | SocksPassive | MonitorClient | MonitorPassive.
Inductive data :=
| Session (l : loc) | SocksServer | Client (l : loc) | MonitorServer.
#[global] Instance handler_eq_dec : EqDecision handler.
Proof. solve_decision. Defined.
#[global] Instance data_eq_dec : EqDecision data.
Proof. solve_decision. Defined.

Abbreviation key := (@Selector.selector_key data).
Abbreviation item := (@Selector.item handler data).

Section Access.
Context {E : Type}.
Abbreviation M := (Os.M handler data program E).

(** [key->data] as the type the handlers take it for. *)
Definition session_of (k : key) : option loc :=
  match k.(Selector.key_data) with Some (Session l) => Some l | _ => None end.
Definition client_of (k : key) : option loc :=
  match k.(Selector.key_data) with Some (Client l) => Some l | _ => None end.

(** [struct socks_session *session = key->data], to be dereferenced. *)
Definition the_session (k : key) : M loc := Os.lift (or_fault NullDeref (session_of k)).
Definition the_client (k : key) : M loc := Os.lift (or_fault NullDeref (client_of k)).

Definition get_session (l : loc) : M socks_session :=
  o ← Os.gets (fun p => p.(sessions) !! l); Os.lift (or_fault UseAfterFree o).
Definition set_session (l : loc) (s : socks_session) : M unit :=
  _ ← get_session l; Os.modify (fun p => p <| sessions ::= (<[l := s]>) |>).
Definition upd_session (l : loc) (f : socks_session -> socks_session) : M unit :=
  s ← get_session l; Os.modify (fun p => p <| sessions ::= (<[l := f s]>) |>).
Definition free_session (l : loc) : M unit :=
  _ ← get_session l; Os.modify (fun p => p <| sessions ::= delete l |>).

Lemma get_session_run l (w : Os.st handler data program E) : get_session l w =
  match w.(Selector.user).(Os.prog).(sessions) !! l with
  | Some s => Ok (s, w) | None => Fault UseAfterFree end.
Proof. unfold get_session, mbind, Os.M_bind. cbn. by destruct (_ !! l). Qed.

Lemma upd_session_run l f (w : Os.st handler data program E) : upd_session l f w =
  match w.(Selector.user).(Os.prog).(sessions) !! l with
  | Some s => Os.modify (fun p => p <| sessions ::= (<[l := f s]>) |>) w
  | None => Fault UseAfterFree end.
Proof. unfold upd_session, mbind, Os.M_bind. rewrite get_session_run. by destruct (_ !! l). Qed.

Definition get_socks : M socks_server :=
  o ← Os.gets socks; Os.lift (or_fault UseAfterFree o).
Definition upd_socks (f : socks_server -> socks_server) : M unit :=
  s ← get_socks; Os.modify (fun p => p <| socks := Some (f s) |>).

Definition get_client (l : loc) : M monitor_session :=
  o ← Os.gets (fun p => p.(clients) !! l); Os.lift (or_fault UseAfterFree o).
Definition set_client (l : loc) (s : monitor_session) : M unit :=
  _ ← get_client l; Os.modify (fun p => p <| clients ::= (<[l := s]>) |>).
Definition free_client (l : loc) : M unit :=
  _ ← get_client l; Os.modify (fun p => p <| clients ::= delete l |>).

Definition get_monitor : M monitor_server :=
  o ← Os.gets monitor; Os.lift (or_fault UseAfterFree o).
Definition upd_monitor (f : monitor_server -> monitor_server) : M unit :=
  s ← get_monitor; Os.modify (fun p => p <| monitor := Some (f s) |>).

Definition get_store : M Store.monitor_store :=
  o ← Os.gets store; Os.lift (or_fault UseAfterFree o).
Definition set_store (s : Store.monitor_store) : M unit :=
  _ ← get_store; Os.modify (fun p => p <| store := Some s |>).
Definition upd_store (f : Store.monitor_store -> Store.monitor_store) : M unit :=
  s ← get_store; set_store (f s).

(** * Rules for the accesses *)

Abbreviation st := (Os.st handler data program E).

Definition prog (w : st) : program := w.(Selector.user).(Os.prog).
Definition env (w : st) : E := w.(Selector.user).(Os.env).
Definition trace (w : st) : list Os.io := w.(Selector.user).(Os.trace).
Abbreviation on_prog := (Os.on_prog (H := handler) (D := data) (P := program) (E := E)).

Lemma wp_the_session k l Q w : session_of k = Some l -> Q l w -> Os.wp (the_session k) Q w.
Proof. unfold the_session. intros -> HQ. by apply (Os.wp_lift _ l). Qed.

Lemma wp_get_session l s Q w :
  (prog w).(sessions) !! l = Some s -> Q s w -> Os.wp (get_session l) Q w.
Proof. intros Hl HQ. unfold Os.wp. rewrite get_session_run. unfold prog in Hl. by rewrite Hl. Qed.

Lemma alter_known (m : gmap loc socks_session) l f s :
  m !! l = Some s -> alter f l m = <[l := f s]> m.
Proof.
  intros Hl. apply map_eq. intros j. rewrite lookup_alter, lookup_insert.
  case_decide; [subst; by rewrite Hl|done].
Qed.

(** [w] with [s] at address [l]. *)
Definition put (l : loc) (s : socks_session) (w : st) : st :=
  on_prog (fun p => p <| sessions ::= <[l := s]> |>) w.

Lemma wp_upd_put l f s Q w : (prog w).(sessions) !! l = Some s ->
  Q tt (put l (f s) w) -> Os.wp (upd_session l f) Q w.
Proof.
  intros Hl HQ. unfold Os.wp. rewrite upd_session_run. unfold prog in Hl. rewrite Hl. exact HQ.
Qed.

Lemma wp_upd_session l f s Q w : (prog w).(sessions) !! l = Some s ->
  Q tt (on_prog (fun p => p <| sessions ::= alter f l |>) w) -> Os.wp (upd_session l f) Q w.
Proof.
  intros Hl HQ. unfold Os.wp. rewrite upd_session_run. unfold prog in Hl. rewrite Hl. cbn.
  unfold Os.on_prog in *. destruct w as [sl [p e t]]. cbn in *.
  unfold set in HQ. rewrite (alter_known _ _ _ _ Hl) in HQ. exact HQ.
Qed.

Lemma wp_set_session l s s' Q w : (prog w).(sessions) !! l = Some s ->
  Q tt (put l s' w) -> Os.wp (set_session l s') Q w.
Proof. intros Hl HQ. apply Os.wp_bind, (wp_get_session l s); [done|]. exact HQ. Qed.

Lemma wp_free_session l s Q w : (prog w).(sessions) !! l = Some s ->
  Q tt (on_prog (fun p => p <| sessions ::= delete l |>) w) -> Os.wp (free_session l) Q w.
Proof. intros Hl HQ. apply Os.wp_bind, (wp_get_session l s); [done|]. exact HQ. Qed.

Lemma wp_get_socks v Q w : (prog w).(socks) = Some v -> Q v w -> Os.wp get_socks Q w.
Proof.
  intros Hv HQ. apply Os.wp_bind, Os.wp_gets. unfold prog in Hv. rewrite Hv.
  by apply (Os.wp_lift _ v).
Qed.

Lemma wp_upd_socks f v Q w : (prog w).(socks) = Some v ->
  Q tt (on_prog (fun p => p <| socks := Some (f v) |>) w) -> Os.wp (upd_socks f) Q w.
Proof. intros Hv HQ. apply Os.wp_bind, (wp_get_socks v); [done|]. exact HQ. Qed.

Lemma wp_get_store t Q w : (prog w).(store) = Some t -> Q t w -> Os.wp get_store Q w.
Proof.
  intros Hv HQ. apply Os.wp_bind, Os.wp_gets. unfold prog in Hv. rewrite Hv.
  by apply (Os.wp_lift _ t).
Qed.

Lemma wp_set_store t t' Q w : (prog w).(store) = Some t ->
  Q tt (on_prog (fun p => p <| store := Some t' |>) w) -> Os.wp (set_store t') Q w.
Proof. intros Hv HQ. apply Os.wp_bind, (wp_get_store t); [done|]. exact HQ. Qed.

Lemma wp_upd_store f t Q w : (prog w).(store) = Some t ->
  Q tt (on_prog (fun p => p <| store := Some (f t) |>) w) -> Os.wp (upd_store f) Q w.
Proof. intros Hv HQ. apply Os.wp_bind, (wp_get_store t); [done|]. by apply (wp_set_store t). Qed.

Lemma wp_get_client l s Q w : (prog w).(clients) !! l = Some s -> Q s w -> Os.wp (get_client l) Q w.
Proof.
  intros Hl HQ. apply Os.wp_bind, Os.wp_gets. unfold prog in Hl. rewrite Hl. by apply (Os.wp_lift _ s).
Qed.

Lemma wp_free_client l s Q w : (prog w).(clients) !! l = Some s ->
  Q tt (on_prog (fun p => p <| clients ::= delete l |>) w) -> Os.wp (free_client l) Q w.
Proof. intros Hl HQ. apply Os.wp_bind, (wp_get_client l s); [done|]. exact HQ. Qed.

Lemma wp_get_monitor v Q w : (prog w).(monitor) = Some v -> Q v w -> Os.wp get_monitor Q w.
Proof.
  intros Hv HQ. apply Os.wp_bind, Os.wp_gets. unfold prog in Hv. rewrite Hv. by apply (Os.wp_lift _ v).
Qed.

Lemma wp_upd_monitor f v Q w : (prog w).(monitor) = Some v ->
  Q tt (on_prog (fun p => p <| monitor := Some (f v) |>) w) -> Os.wp (upd_monitor f) Q w.
Proof. intros Hv HQ. apply Os.wp_bind, (wp_get_monitor v); [done|]. exact HQ. Qed.

End Access.

End Program.
