(* ===== verification/Socks.v ===== *)
(** The session side of src/server/socks/socks.c: the handshake, the connection
    to the origin, the relay and the list of idle sessions.  [impl] gives the
    close callbacks that [selector_unregister_fd] runs; Proxy closes the knot. *)
From S2P Require Import Prelude CBuffer ByteParser Greeting Auth Request Stm Selector Os Inet.
From S2P Require Import Store Users AccessLog Sessions Acl SocksAuth Program.
Import Store Program.
Local Open Scope Z_scope.

Module Socks.

#[export] Existing Instance Greeting.greeting_parser.
#[export] Existing Instance Auth.auth_parser.
#[export] Existing Instance Request.request_parser.

(** * Replies of RFC 1928 *)

Definition SOCKS_REP_SUCCEEDED : byte := x00.
Definition SOCKS_REP_GENERAL_FAILURE : byte := x01.
Definition SOCKS_REP_DENIED_BY_RULESET : byte := x02.
Definition SOCKS_REP_NETWORK_UNREACHABLE : byte := x03.
Definition SOCKS_REP_HOST_UNREACHABLE : byte := x04.
Definition SOCKS_REP_CONNECTION_REFUSED : byte := x05.
Definition SOCKS_REP_TTL_EXPIRED : byte := x06.
Definition SOCKS_REP_COMMAND_NOT_SUPPORTED : byte := x07.
Definition SOCKS_REP_ATYP_NOT_SUPPORTED : byte := x08.

Definition socks_errno_to_rep (err : Z) : byte :=
  if decide (err = Os.ENETUNREACH) then SOCKS_REP_NETWORK_UNREACHABLE
  else if decide (err = Os.EHOSTUNREACH \/ err = Os.EHOSTDOWN) then SOCKS_REP_HOST_UNREACHABLE
  else if decide (err = Os.ECONNREFUSED) then SOCKS_REP_CONNECTION_REFUSED
  else if decide (err = Os.EAFNOSUPPORT) then SOCKS_REP_ATYP_NOT_SUPPORTED
  else SOCKS_REP_GENERAL_FAILURE.

Definition socks_gai_rc_to_rep (gai_rc : Z) : byte :=
  if decide (gai_rc = Os.EAI_NONAME \/ gai_rc = Os.EAI_NODATA) then SOCKS_REP_HOST_UNREACHABLE
  else if decide (gai_rc = Os.EAI_ADDRFAMILY \/ gai_rc = Os.EAI_FAMILY)
  then SOCKS_REP_ATYP_NOT_SUPPORTED
  else SOCKS_REP_GENERAL_FAILURE.

Definition socks_request_status_to_rep (status : Request.socks_request_status) : byte :=
  match status with
  | Request.SOCKS_REQUEST_REJECT_CMD => SOCKS_REP_COMMAND_NOT_SUPPORTED
  | Request.SOCKS_REQUEST_REJECT_ATYP => SOCKS_REP_ATYP_NOT_SUPPORTED
  | _ => SOCKS_REP_GENERAL_FAILURE
  end.

Definition connect_reply (rep : byte) : list byte :=
  [x05; rep; x00; x01; x00; x00; x00; x00; x00; x00].

(** * Interests *)

Definition socks_client_interest (s : socks_session) : Z :=
  let interest := Selector.OP_NOOP in
  let interest := if CBuffer.buffer_can_write s.(c2o)
    then Z.lor interest Selector.OP_READ else interest in
  if CBuffer.buffer_can_read s.(o2c) then Z.lor interest Selector.OP_WRITE else interest.

Definition socks_origin_interest (s : socks_session) : Z :=
  let interest := Selector.OP_NOOP in
  let interest := if CBuffer.buffer_can_write s.(o2c)
    then Z.lor interest Selector.OP_READ else interest in
  if CBuffer.buffer_can_read s.(c2o) then Z.lor interest Selector.OP_WRITE else interest.

(** [inet_ntop] on the address of a [struct sockaddr]. *)
Definition addr_text `{Inet} (addr : Request.sockaddr_storage) : option cstring :=
  if decide (addr.(Request.ss_family) = Request.AF_INET)
  then Some (inet_ntop4 addr.(Request.sin_addr))
  else if decide (addr.(Request.ss_family) = Request.AF_INET6)
  then Some (inet_ntop6 addr.(Request.sin6_addr))
  else None.

Definition socks_dest_addr_is_denied `{Inet} (store : monitor_store)
    (addr : option Request.sockaddr_storage) : res bool :=
  match addr with
  | None => Ok false
  | Some a =>
    match addr_text a with
    | None => Ok false
    | Some text => Acl.is_ip_denied store text
    end
  end.

(** * The loop all three parsers run over [c2o]

    One byte at a time, until a status other than NEED_MORE; every byte is
    consumed before its status is looked at. *)
Fixpoint feed_buffer `{ByteParser P R} (fuel : nat) (p : P) (b : CBuffer.buffer)
  : res (R * P * CBuffer.buffer) :=
  if CBuffer.buffer_can_read b then
    match fuel with
    | O => Fault OutOfFuel
    | S fuel =>
      '(_, pending) ← CBuffer.buffer_read_ptr b;
      if decide (pending = 0)%nat then Ok (need_more, p, b) else
      bs ← CBuffer.buffer_peek b 1;
      c ← or_fault OutOfBounds (head bs);
      '(status, p) ← feed p c;
      b ← CBuffer.buffer_read_adv b 1;
      if more status then feed_buffer fuel p b else Ok (status, p, b)
    end
  else Ok (need_more, p, b).

Section Socks.
Context {E : Type} {OS : Os.Os E} {IN : Inet}.
Abbreviation M := (Os.M handler data program E).
Abbreviation st := (Os.st handler data program E).

(** The contents of the elements a [realloc] of the selector's table adds. *)
Variable garbage : item.
Variable impl : handler -> @Selector.fd_handler handler data (Os.sys program E).

(** * Pieces *)

Definition socks_o2c_append (l : loc) (bs : list byte) : M bool :=
  s ← get_session l;
  '(_, available) ← Os.lift (CBuffer.buffer_write_ptr s.(o2c));
  if decide (available < length bs)%nat then mret false else
  b ← Os.lift (CBuffer.buffer_store s.(o2c) bs);
  b ← Os.lift (CBuffer.buffer_write_adv b (Z.of_nat (length bs)));
  set_session l (s <| o2c := b |>) ;;
  mret true.

Definition socks_free_dns (l : loc) : M unit :=
  s ← get_session l;
  match s.(dns_result) with
  | [] => mret tt
  | _ => set_session l (s <| dns_result := [] |> <| dns_cursor := [] |>)
  end.

Definition socks_send_connect_reply (l : loc) (rep : byte) : M bool :=
  socks_o2c_append l (connect_reply rep).

Definition socks_unregister_session (k : key) : M unit :=
  Os.unregister_fd impl k.(Selector.key_fd).

Definition socks_session_close_from_origin (l : loc) : M unit :=
  s ← get_session l; Os.unregister_fd impl s.(client_fd).

Definition socks_session_destroy_origin (l : loc) : M unit :=
  s ← get_session l;
  if decide (s.(origin_fd) < 0) then mret tt else
  Os.unregister_fd impl s.(origin_fd) ;;
  upd_session l (fun s => s <| origin_fd := -1 |>).

(** * The idle list: oldest activity at the head *)

Definition idle_list_remove (l : loc) : M unit :=
  s ← get_session l;
  if negb s.(in_idle_list) then mret tt else
  match s.(idle_prev) with
  | Some p => upd_session p (fun x => x <| idle_next := s.(idle_next) |>)
  | None => upd_socks (fun v => v <| idle_head := s.(idle_next) |>)
  end ;;
  s ← get_session l;
  match s.(idle_next) with
  | Some n => upd_session n (fun x => x <| idle_prev := s.(idle_prev) |>)
  | None => upd_socks (fun v => v <| idle_tail := s.(idle_prev) |>)
  end ;;
  upd_session l (fun x => x <| idle_prev := None |> <| idle_next := None |> <| in_idle_list := false |>).

Definition link_tail (l : loc) : M unit :=
  v ← get_socks;
  upd_session l (fun x => x <| idle_prev := v.(idle_tail) |> <| idle_next := None |>) ;;
  match v.(idle_tail) with
  | Some t => upd_session t (fun x => x <| idle_next := Some l |>)
  | None => upd_socks (fun v => v <| idle_head := Some l |>)
  end ;;
  upd_socks (fun v => v <| idle_tail := Some l |>) ;;
  upd_session l (fun x => x <| in_idle_list := true |>).

Definition idle_list_push_tail (l : loc) : M unit :=
  s ← get_session l;
  if s.(in_idle_list) then
    v ← get_socks;
    if decide (v.(idle_tail) = Some l) then mret tt
    else idle_list_remove l ;; link_tail l
  else link_tail l.

Definition socks_session_touch (l : loc) : M unit :=
  now ← Os.os Os.os_time;
  upd_session l (fun s => s <| last_activity := now |>) ;;
  s ← get_session l;
  if s.(in_idle_list) then idle_list_push_tail l else mret tt.

(** * The state machine of a session *)

Definition load_current (k : key) : M (option nat) :=
  l ← the_session k; s ← get_session l; mret s.(current).
Definition store_current (k : key) (c : option nat) : M unit :=
  l ← the_session k; upd_session l (fun s => s <| current := c |>).

Lemma load_current_run k w : fst <$> load_current k w =
  l ← or_fault NullDeref (session_of k);
  s ← or_fault UseAfterFree (w.(Selector.user).(Os.prog).(sessions) !! l);
  Ok s.(current).
Proof.
  unfold load_current, the_session, Os.lift, mbind, Os.M_bind, res_bind. destruct (session_of k) as [l|]; cbn; [|done].
  rewrite get_session_run. by destruct (_ !! l).
Qed.

Lemma store_current_run k c w : snd <$> store_current k c w =
  l ← or_fault NullDeref (session_of k);
  s ← or_fault UseAfterFree (w.(Selector.user).(Os.prog).(sessions) !! l);
  snd <$> Os.modify (fun p => p <| sessions ::= (<[l := s <| current := c |>]>) |>) w.
Proof.
  unfold store_current, the_session, Os.lift, mbind, Os.M_bind, res_bind. destruct (session_of k) as [l|]; cbn; [|done].
  rewrite upd_session_run. by destruct (_ !! l).
Qed.

Lemma load_store_current k c w w' :
  snd <$> store_current k c w = Ok w' -> fst <$> load_current k w' = Ok c.
Proof.
  rewrite store_current_run, load_current_run. destruct (session_of k) as [l|]; [|done]. cbn.
  destruct (_ !! l) as [s|] eqn:E1; cbn; [|done]. intros [= <-]. cbn. by rewrite lookup_insert_eq.
Qed.

Lemma store_current_ok k c c' w :
  fst <$> load_current k w = Ok c -> is_ok (snd <$> store_current k c' w) = true.
Proof.
  rewrite store_current_run, load_current_run. destruct (session_of k) as [l|]; [|done]. cbn.
  by destruct (_ !! l).
Qed.

#[export] Instance session_stm : StmAccess key st := {
  stm_current := fun k w => fst <$> load_current k w;
  stm_set_current := fun k c w => snd <$> store_current k c w;
  stm_get_set := load_store_current;
  stm_set_ok := store_current_ok;
}.

(** The engine's functions as actions. *)
Definition stm_call (f : key -> st -> res (nat * st)) (k : key) : M nat := f k.
Definition stm_do (f : key -> st -> res st) (k : key) : M unit := fun w => w ← f k w; Ok (tt, w).

(** A state with its callbacks. *)
Definition state_entry (i : nat) (on_read on_write on_block : option (key -> M nat))
  : state_definition key st :=
  mk_state_definition i None None on_read on_write on_block.

Definition machine_of (on_read on_block : nat -> option (key -> M nat))
    (on_write : option (key -> M nat)) : machine key st :=
  mk_machine SOCKS_ST_AUTH_GREETING
    ((fun i => state_entry i (on_read i) on_write (on_block i)) <$> seq 0 7)
    SOCKS_ST_DONE.

(** [stm_state] reads the states' numbers only. *)
Definition socks_state (k : key) : M nat := fun w =>
  n ← stm_state (machine_of (fun _ => None) (fun _ => None) None) k w; Ok (n, w).

Definition socks_stub_stay (k : key) : M nat := socks_state k.

(** The part of the table a write event uses. *)
Definition write_table : machine key st :=
  machine_of (fun _ => None) (fun _ => None) (Some socks_stub_stay).

(** [session->stm.current = session->stm.states + next]. *)
Definition set_state (l : loc) (next : nat) : M unit :=
  upd_session l (fun s => s <| current := Some next |>).

(** * Flushing *)

Definition session_key (l : loc) (s : socks_session) : key :=
  Selector.mk_key s.(client_fd) (Some (Session l)).

Definition socks_flush_client (l : loc) : M bool :=
  s ← get_session l;
  if decide (s.(client_fd) < 0) then mret false else
  '(_, pending) ← Os.lift (CBuffer.buffer_read_ptr s.(o2c));
  if decide (pending = 0)%nat then mret true else
  bs ← Os.lift (CBuffer.buffer_peek s.(o2c) pending);
  let k := session_key l s in
  r ← Os.write s.(client_fd) bs;
  match r with
  | Os.WError errno =>
    if Os.would_block errno then mret true
    else socks_unregister_session k ;; mret false
  | Os.WDone n =>
    b ← Os.lift (CBuffer.buffer_read_adv s.(o2c) (Z.of_nat n));
    b ← Os.lift (CBuffer.buffer_compact b);
    set_session l (s <| o2c := b |>) ;;
    socks_session_touch l ;;
    stm_call (stm_handler_write write_table) k ;;
    mret true
  end.

Definition socks_close_if_flushed (l : loc) : M bool :=
  s ← get_session l;
  if negb s.(close_after_flush) || CBuffer.buffer_can_read s.(o2c) then mret true else
  socks_unregister_session (session_key l s) ;;
  mret false.

(** [store_session_add_bytes] under its guard. *)
Definition add_bytes (l : loc) (up down : Z) : M unit :=
  s ← get_session l;
  if decide (s.(store_id) = STORE_SESSION_INVALID) then mret tt
  else upd_store (fun t => Sessions.store_session_add_bytes t s.(store_id) up down).

Definition socks_flush_origin (l : loc) : M bool :=
  s ← get_session l;
  if decide (s.(origin_fd) < 0) then mret true else
  '(_, pending) ← Os.lift (CBuffer.buffer_read_ptr s.(c2o));
  if decide (pending = 0)%nat then mret true else
  bs ← Os.lift (CBuffer.buffer_peek s.(c2o) pending);
  r ← Os.write s.(origin_fd) bs;
  match r with
  | Os.WError errno =>
    if Os.would_block errno then mret true
    else socks_session_close_from_origin l ;; mret false
  | Os.WDone n =>
    b ← Os.lift (CBuffer.buffer_read_adv s.(c2o) (Z.of_nat n));
    b ← Os.lift (CBuffer.buffer_compact b);
    set_session l (s <| c2o := b |>) ;;
    socks_session_touch l ;;
    add_bytes l (Z.of_nat n) 0 ;;
    mret true
  end.

(** * Failing a request *)

Definition mark_failed (l : loc) : M unit :=
  s ← get_session l;
  if decide (s.(store_id) = STORE_SESSION_INVALID) then mret tt else
  now ← Os.os Os.os_timestamp;
  upd_store (fun t => Sessions.store_session_mark_failed now t s.(store_id)) ;;
  set_session l (s <| store_id := STORE_SESSION_INVALID |>).

Definition socks_fail_request (k : key) (rep : byte) : M unit :=
  l ← the_session k;
  mark_failed l ;;
  queued ← socks_send_connect_reply l rep;
  if negb queued then socks_unregister_session k else
  upd_session l (fun s => s <| close_after_flush := true |>) ;;
  set_state l SOCKS_ST_DONE ;;
  flushed ← socks_flush_client l;
  if negb flushed then mret tt else
  s ← get_session l;
  Os.set_interest s.(client_fd) (socks_client_interest s).

(** * Resolving a name *)

(** One run of the resolver thread, from the answer of [getaddrinfo] to the
    notification. *)
Definition socks_dns_thread (ctx : socks_dns_ctx) : M unit :=
  '(gai_rc, result) ← Os.os (Os.os_getaddrinfo ctx.(ctx_host) ctx.(port_str));
  upd_session ctx.(ctx_session) (fun s => s
    <| dns_resolving := false |> <| dns_gai_rc := gai_rc |>
    <| dns_result := if decide (gai_rc = 0) then result else [] |>) ;;
  ok ← Os.os Os.os_alloc;
  Os.on_selector (fun s => Selector.selector_notify_block ok s ctx.(notify_fd)) ;;
  mret tt.

Definition socks_start_dns_resolve (k : key) : M nat :=
  l ← the_session k;
  ok ← Os.os Os.os_alloc;
  if negb ok then socks_fail_request k SOCKS_REP_GENERAL_FAILURE ;; mret SOCKS_ST_DONE else
  upd_session l (fun s => s <| dns_resolving := true |> <| dns_gai_rc := 0 |>
    <| dns_result := [] |> <| dns_cursor := [] |>) ;;
  s ← get_session l;
  let host := default [] (Request.socks_request_fqdn (Some s.(request))) in
  let ctx := mk_ctx l s.(client_fd) (strncpy_nul Request.SOCKS_REQUEST_FQDN_MAX host)
    (dec (Request.socks_request_dest_port (Some s.(request)))) in
  created ← Os.os Os.os_thread;
  if negb created then socks_fail_request k SOCKS_REP_GENERAL_FAILURE ;; mret SOCKS_ST_DONE else
  Os.modify (fun p => p <| threads ::= (fun ts => ts ++ [ctx]) |>) ;;
  mret SOCKS_ST_RESOLVING.

(** * Connecting to the origin *)

(** Where to connect: the address under the cursor, else the one parsed. *)
Definition next_address (s : socks_session) : option Request.sockaddr_storage * Z :=
  match s.(dns_cursor) with
  | a :: _ => (a.(Os.ai_addr), a.(Os.ai_addrlen))
  | [] =>
    if decide (s.(dest_addr_len) > 0) then (Some s.(dest_addr), s.(dest_addr_len))
    else (Request.socks_request_dest_addr (Some s.(request)),
          Request.socks_request_dest_addr_len (Some s.(request)))
  end.

(** After a connect that succeeded or is in progress. *)
Definition register_origin (k : key) (l : loc) (fd : Z) (addr : Request.sockaddr_storage)
    (addr_len : Z) : M nat :=
  upd_session l (fun s => s <| origin_fd := fd |>) ;;
  status ← Os.register garbage fd SocksOrigin Selector.OP_WRITE (Session l);
  if decide (status <> Selector.SELECTOR_SUCCESS) then
    Os.close fd ;;
    upd_session l (fun s => s <| origin_fd := -1 |>) ;;
    socks_fail_request k SOCKS_REP_GENERAL_FAILURE ;;
    mret SOCKS_ST_DONE
  else
    upd_session l (fun s => s <| dest_addr := addr |> <| dest_addr_len := addr_len |>) ;;
    mret SOCKS_ST_ORIGIN_CONNECTING.

(** [fuel]: how often the cursor can still advance. *)
Fixpoint begin_connect (fuel : nat) (k : key) : M nat :=
  l ← the_session k;
  s ← get_session l;
  let refuse_with rep := socks_fail_request k rep ;; mret SOCKS_ST_DONE in
  match next_address s with
  | (None, _) => refuse_with SOCKS_REP_GENERAL_FAILURE
  | (Some addr, addr_len) =>
    if decide (addr_len = 0) then refuse_with SOCKS_REP_GENERAL_FAILURE else
    t ← get_store;
    denied ← Os.lift (socks_dest_addr_is_denied t (Some addr));
    if denied : bool then refuse_with SOCKS_REP_DENIED_BY_RULESET else
    fd ← Os.socket addr.(Request.ss_family);
    if decide (fd < 0) then refuse_with SOCKS_REP_GENERAL_FAILURE else
    rc ← Os.set_nio fd;
    if decide (rc < 0) then Os.close fd ;; refuse_with SOCKS_REP_GENERAL_FAILURE else
    rc ← Os.connect fd addr addr_len;
    match rc with
    | Some errno =>
      if decide (errno = Os.EINPROGRESS) then register_origin k l fd addr addr_len else
      Os.close fd ;;
      match s.(dns_cursor) with
      | _ :: ((_ :: _) as next) =>
        set_session l (s <| dns_cursor := next |>) ;;
        match fuel with
        | O => Os.fail OutOfFuel
        | S fuel => begin_connect fuel k
        end
      | _ => refuse_with (socks_errno_to_rep errno)
      end
    | None => register_origin k l fd addr addr_len
    end
  end.

Definition socks_begin_origin_connect (k : key) : M nat :=
  l ← the_session k;
  s ← get_session l;
  begin_connect (length s.(dns_cursor)) k.

(** * The states of the handshake *)

Definition set_phase (l : loc) (phase : store_session_phase) : M unit :=
  s ← get_session l;
  upd_store (fun t => Sessions.store_session_set_phase t s.(store_id) phase).

(** Queue a reply; a reply that does not fit ends the session. *)
Definition reply_or_drop (k : key) (l : loc) (bs : list byte) (rest : M nat) : M nat :=
  queued ← socks_o2c_append l bs;
  if negb queued then socks_unregister_session k ;; mret SOCKS_ST_DONE else rest.

(** A last reply: close once it is out. *)
Definition reply_and_close (k : key) (l : loc) (bs : list byte) : M nat :=
  reply_or_drop k l bs
    (upd_session l (fun s => s <| close_after_flush := true |>) ;; mret SOCKS_ST_DONE).

Definition socks_on_read_greeting (k : key) : M nat :=
  l ← the_session k;
  s ← get_session l;
  '(status, p, b) ← Os.lift (feed_buffer s.(c2o).(CBuffer.limit) s.(greeting) s.(c2o));
  set_session l (s <| greeting := p |> <| c2o := b |>) ;;
  match status with
  | Greeting.SOCKS_GREETING_NEED_MORE => mret SOCKS_ST_AUTH_GREETING
  | Greeting.SOCKS_GREETING_ACCEPT =>
    let method := Greeting.socks_greeting_chosen_method (Some p) in
    reply_or_drop k l [x05; method]
      (if decide (method = Greeting.SOCKS_METHOD_USERPASS) then mret SOCKS_ST_AUTH_USERPASS
       else
         upd_store (fun t => Sessions.store_session_set_user t s.(store_id) (lit "Anon")) ;;
         set_phase l STORE_SESSION_AUTH ;;
         mret SOCKS_ST_REQUEST)
  | Greeting.SOCKS_GREETING_REJECT => reply_and_close k l [x05; xff]
  end.

Definition socks_auth_store_user (l : loc) : M unit :=
  s ← get_session l;
  let len := Auth.socks_auth_username_len (Some s.(auth)) in
  if decide (s.(store_id) = STORE_SESSION_INVALID \/ len = 0 \/
             Z.of_nat Auth.SOCKS_AUTH_MAX_LEN < len) then mret tt else
  let username := c_str (take (Z.to_nat len) (Auth.uname s.(auth))) in
  upd_store (fun t => Sessions.store_session_set_user t s.(store_id) username).

Definition socks_on_read_auth (k : key) : M nat :=
  l ← the_session k;
  s ← get_session l;
  '(status, p, b) ← Os.lift (feed_buffer s.(c2o).(CBuffer.limit) s.(auth) s.(c2o));
  set_session l (s <| auth := p |> <| c2o := b |>) ;;
  match status with
  | Auth.SOCKS_AUTH_NEED_MORE => mret SOCKS_ST_AUTH_USERPASS
  | Auth.SOCKS_AUTH_REJECT => reply_and_close k l [x01; x01]
  | Auth.SOCKS_AUTH_PARSED =>
    t ← get_store;
    valid ← Os.lift (SocksAuth.socks_auth_validate (Some p) (Some t));
    if valid : bool then
      socks_auth_store_user l ;;
      set_phase l STORE_SESSION_AUTH ;;
      reply_or_drop k l [x01; x00] (mret SOCKS_ST_REQUEST)
    else reply_and_close k l [x01; x01]
  end.

Definition socks_on_read_request (k : key) : M nat :=
  l ← the_session k;
  s ← get_session l;
  '(status, p, b) ← Os.lift (feed_buffer s.(c2o).(CBuffer.limit) s.(request) s.(c2o));
  set_session l (s <| request := p |> <| c2o := b |>) ;;
  let refuse_with rep := socks_fail_request k rep ;; mret SOCKS_ST_DONE in
  match status with
  | Request.SOCKS_REQUEST_NEED_MORE => mret SOCKS_ST_REQUEST
  | Request.SOCKS_REQUEST_REJECT | Request.SOCKS_REQUEST_REJECT_CMD
  | Request.SOCKS_REQUEST_REJECT_ATYP => refuse_with (socks_request_status_to_rep status)
  | Request.SOCKS_REQUEST_PARSED_FQDN =>
    t ← get_store;
    denied ← Os.lift (Acl.is_host_denied t (default [] (Request.socks_request_fqdn (Some p))));
    if denied : bool then refuse_with SOCKS_REP_DENIED_BY_RULESET else
    set_phase l STORE_SESSION_CONNECTING ;;
    socks_start_dns_resolve k
  | Request.SOCKS_REQUEST_PARSED_ADDR =>
    t ← get_store;
    denied ← Os.lift (socks_dest_addr_is_denied t (Request.socks_request_dest_addr (Some p)));
    if denied : bool then refuse_with SOCKS_REP_DENIED_BY_RULESET else
    set_phase l STORE_SESSION_CONNECTING ;;
    addr ← Os.lift (or_fault NullDeref (Request.socks_request_dest_addr (Some p)));
    upd_session l (fun s => s <| dest_addr_len := Request.socks_request_dest_addr_len (Some p) |>
      <| dest_addr := addr |>) ;;
    socks_begin_origin_connect k
  end.

Definition socks_on_block_resolving (k : key) : M nat :=
  l ← the_session k;
  s ← get_session l;
  if s.(dns_resolving) then mret SOCKS_ST_RESOLVING else
  if decide (s.(dns_gai_rc) <> 0 \/ s.(dns_result) = []) then
    socks_fail_request k (socks_gai_rc_to_rep s.(dns_gai_rc)) ;; mret SOCKS_ST_DONE
  else
    set_session l (s <| dns_cursor := s.(dns_result) |>) ;;
    socks_begin_origin_connect k.

(** The state [i]'s callbacks. *)
Definition on_read_ready (i : nat) : option (key -> M nat) :=
  match i with
  | 0%nat => Some socks_on_read_greeting
  | 1%nat => Some socks_on_read_auth
  | 2%nat => Some socks_on_read_request
  | _ => Some socks_stub_stay
  end.
Definition on_block_ready (i : nat) : option (key -> M nat) :=
  match i with 3%nat => Some socks_on_block_resolving | _ => None end.

Definition socks_state_table : machine key st :=
  machine_of on_read_ready on_block_ready (Some socks_stub_stay).

Definition socks_session_stm_init (k : key) : M unit := stm_do (stm_init socks_state_table) k.

(** * The origin's descriptor *)

Definition socks_session_record_dest (l : loc) : M unit :=
  s ← get_session l;
  if s.(dest_recorded) || bool_decide (s.(store_id) = STORE_SESSION_INVALID) then mret tt else
  let fqdn := default [] (Request.socks_request_fqdn (Some s.(request))) in
  let host :=
    if decide (fqdn <> []) then strncpy_nul STORE_MAX_DEST_HOST fqdn
    else if decide (s.(dest_addr_len) > 0) then default (lit "unknown") (addr_text s.(dest_addr))
    else lit "unknown" in
  now ← Os.os Os.os_timestamp;
  upd_store (fun t => (Sessions.store_session_set_dest now t s.(store_id) host
    (Request.socks_request_dest_port (Some s.(request)))).2) ;;
  set_session l (s <| dest_recorded := true |>).

Definition socks_origin_connect_complete (k : key) : M unit :=
  l ← the_session k;
  answer ← Os.os (Os.os_so_error k.(Selector.key_fd));
  let err := match answer with inl errno => errno | inr err => err end in
  if decide (err <> 0) then
    socks_session_destroy_origin l ;;
    s ← get_session l;
    match s.(dns_cursor) with
    | _ :: ((_ :: _) as cursor) =>
      set_session l (s <| dns_cursor := cursor |>) ;;
      next ← socks_begin_origin_connect k;
      set_state l next
    | _ =>
      socks_fail_request k (socks_errno_to_rep err) ;;
      _ ← socks_close_if_flushed l;
      mret tt
    end
  else
    queued ← socks_send_connect_reply l SOCKS_REP_SUCCEEDED;
    if negb queued then socks_unregister_session k else
    socks_session_record_dest l ;;
    set_state l SOCKS_ST_RELAY ;;
    flushed ← socks_flush_client l;
    if negb flushed then mret tt else
    s ← get_session l;
    Os.set_interest s.(origin_fd) (socks_origin_interest s) ;;
    Os.set_interest s.(client_fd) (socks_client_interest s).

Definition socks_origin_read (k : key) : M unit :=
  l ← the_session k;
  s ← get_session l;
  '(_, available) ← Os.lift (CBuffer.buffer_write_ptr s.(o2c));
  if decide (available = 0)%nat then Os.set_interest_key k (socks_origin_interest s) else
  r ← Os.read k.(Selector.key_fd) available;
  match r with
  | Os.RData [] => socks_session_close_from_origin l
  | Os.RError errno =>
    if Os.would_block errno then Os.set_interest_key k (socks_origin_interest s)
    else socks_session_close_from_origin l
  | Os.RData bs =>
    b ← Os.lift (CBuffer.buffer_store s.(o2c) bs);
    b ← Os.lift (CBuffer.buffer_write_adv b (Z.of_nat (length bs)));
    set_session l (s <| o2c := b |>) ;;
    socks_session_touch l ;;
    add_bytes l 0 (Z.of_nat (length bs)) ;;
    flushed ← socks_flush_client l;
    if negb flushed then mret tt else
    s ← get_session l;
    Os.set_interest s.(client_fd) (socks_client_interest s) ;;
    Os.set_interest_key k (socks_origin_interest s)
  end.

Definition socks_origin_write (k : key) : M unit :=
  l ← the_session k;
  state ← socks_state k;
  if decide (state = SOCKS_ST_ORIGIN_CONNECTING) then socks_origin_connect_complete k else
  flushed ← socks_flush_origin l;
  if negb flushed then mret tt else
  s ← get_session l;
  Os.set_interest_key k (socks_origin_interest s) ;;
  Os.set_interest s.(client_fd) (socks_client_interest s).

Definition socks_origin_close (k : key) : M unit :=
  match session_of k with
  | Some l => upd_session l (fun s => s <| origin_fd := -1 |>)
  | None => mret tt
  end ;;
  if decide (k.(Selector.key_fd) >= 0) then Os.close k.(Selector.key_fd) else mret tt.

End Socks.

End Socks.
