(* ===== verification/SocksServer.v ===== *)
(** The rest of src/server/socks/socks.c: the callbacks of a client's
    descriptor, the accept loop, the idle timeout, and the server's life. *)
From S2P Require Import Prelude CBuffer Greeting Auth Request Stm Selector Os Inet Store.
From S2P Require Import Sessions Program Socks.
Import Store Program Socks.
Local Open Scope Z_scope.

Module SocksServer.

Section SocksServer.
Context {E : Type} {OS : Os.Os E} {IN : Inet}.
Abbreviation M := (Os.M handler data program E).
Abbreviation st := (Os.st handler data program E).
Variable garbage : item.
Variable impl : handler -> @Selector.fd_handler handler data (Os.sys program E).

(** * The client's descriptor *)

Definition in_handshake (state : nat) : bool :=
  bool_decide (state = SOCKS_ST_AUTH_GREETING) || bool_decide (state = SOCKS_ST_AUTH_USERPASS)
  || bool_decide (state = SOCKS_ST_REQUEST).

(** The loop of [socks_client_read] over what one read brought; every turn
    consumes at least a byte. *)
Fixpoint drain_handshake (fuel : nat) (k : key) (l : loc) : M unit :=
  s ← get_session l;
  if negb (CBuffer.buffer_can_read s.(c2o)) then mret tt else
  state ← socks_state k;
  if negb (in_handshake state) then mret tt else
  match fuel with
  | O => Os.fail OutOfFuel
  | S fuel =>
    stm_call (stm_handler_read (socks_state_table garbage impl)) k ;;
    drain_handshake fuel k l
  end.

Definition socks_client_read (k : key) : M unit :=
  match session_of k with
  | None => mret tt
  | Some l =>
    s ← get_session l;
    '(_, available) ← Os.lift (CBuffer.buffer_write_ptr s.(c2o));
    if decide (available = 0)%nat then Os.set_interest_key k (socks_client_interest s) else
    r ← Os.read k.(Selector.key_fd) available;
    match r with
    | Os.RData [] => socks_unregister_session impl k
    | Os.RError errno =>
      if Os.would_block errno then Os.set_interest_key k (socks_client_interest s)
      else socks_unregister_session impl k
    | Os.RData bs =>
      b ← Os.lift (CBuffer.buffer_store s.(c2o) bs);
      b ← Os.lift (CBuffer.buffer_write_adv b (Z.of_nat (length bs)));
      set_session l (s <| c2o := b |>) ;;
      socks_session_touch l ;;
      state ← socks_state k;
      alive ← (if decide (state = SOCKS_ST_RELAY) then
          s ← get_session l;
          if decide (s.(origin_fd) < 0) then mret true else
          flushed ← socks_flush_origin impl l;
          if negb flushed then mret false else
          s ← get_session l;
          Os.set_interest s.(origin_fd) (socks_origin_interest s) ;;
          mret true
        else
          s ← get_session l;
          drain_handshake s.(c2o).(CBuffer.limit) k l ;;
          s ← get_session l;
          if CBuffer.buffer_can_read s.(o2c) then socks_flush_client impl l else mret true);
      if negb alive then mret tt else
      open ← socks_close_if_flushed impl l;
      if negb open then mret tt else
      s ← get_session l;
      Os.set_interest_key k (socks_client_interest s)
    end
  end.

(** What [socks_client_write] and [socks_client_block] end with. *)
Definition flush_and_rearm (k : key) (l : loc) : M unit :=
  flushed ← socks_flush_client impl l;
  if negb flushed then mret tt else
  open ← socks_close_if_flushed impl l;
  if negb open then mret tt else
  s ← get_session l;
  Os.set_interest_key k (socks_client_interest s).

(** [socks_flush_client] is false for a NULL session. *)
Definition socks_client_write (k : key) : M unit :=
  match session_of k with
  | None => mret tt
  | Some l => flush_and_rearm k l
  end.

Definition socks_client_block (k : key) : M unit :=
  l ← the_session k;
  stm_call (stm_handler_block (socks_state_table garbage impl)) k ;;
  flush_and_rearm k l.

(** The store is told how the session ended. *)
Definition end_in_store (l : loc) : M unit :=
  s ← get_session l;
  if decide (s.(store_id) = STORE_SESSION_INVALID) then mret tt else
  (if s.(ttl_expired) then
     now ← Os.os Os.os_timestamp;
     upd_store (fun t => Sessions.store_session_mark_ttl_expired now t s.(store_id))
   else upd_store (fun t => Sessions.store_session_end t s.(store_id))) ;;
  upd_session l (fun s => s <| store_id := STORE_SESSION_INVALID |>).

Definition socks_session_destroy_buffers (l : loc) : M unit :=
  upd_session l (fun s => s <| c2o_backing := false |> <| o2c_backing := false |>).

Definition socks_client_close (k : key) : M unit :=
  match session_of k with
  | None => if decide (k.(Selector.key_fd) >= 0) then Os.close k.(Selector.key_fd) else mret tt
  | Some l =>
    idle_list_remove l ;;
    end_in_store l ;;
    stm_do (stm_handler_close (socks_state_table garbage impl)) k ;;
    socks_session_destroy_origin impl l ;;
    socks_free_dns l ;;
    upd_socks (fun v => v <| active_sessions ::= (fun n => if decide (n > 0) then n - 1 else n) |>) ;;
    (if decide (k.(Selector.key_fd) >= 0) then Os.close k.(Selector.key_fd) else mret tt) ;;
    socks_session_destroy_buffers l ;;
    free_session l
  end.

(** * Accepting *)

Definition socks_session_buffer_size : M Z :=
  t ← get_store; mret (store_config_get t STORE_CFG_IO_BUFFER_SIZE).

Definition socks_session_init_buffers (l : loc) : M bool :=
  size ← socks_session_buffer_size;
  let n := Z.to_nat size in
  c ← Os.os (Os.os_malloc n);
  o ← Os.os (Os.os_malloc n);
  match c, o with
  | Some c, Some o =>
    upd_session l (fun s => s <| c2o_backing := true |> <| o2c_backing := true |>
      <| c2o := CBuffer.buffer_init n c |> <| o2c := CBuffer.buffer_init n o |>) ;;
    mret true
  | _, _ => socks_session_destroy_buffers l ;; mret false
  end.

Definition socks_session_init (l : loc) (fd : Z) : M bool :=
  upd_session l (fun s => s <| client_fd := fd |> <| origin_fd := -1 |> <| dest_addr_len := 0 |>
    <| c2o_backing := false |> <| o2c_backing := false |>) ;;
  ok ← socks_session_init_buffers l;
  if negb ok then mret false else
  s ← get_session l;
  request0 ← Os.lift (Request.socks_request_parser_init s.(request));
  now ← Os.os Os.os_time;
  set_session l (s <| greeting := Greeting.socks_greeting_parser_init |>
    <| auth := Auth.socks_auth_parser_init s.(auth) |> <| request := request0 |>
    <| dns_result := [] |> <| dns_cursor := [] |> <| dns_gai_rc := 0 |>
    <| dns_resolving := false |> <| close_after_flush := false |>
    <| store_id := STORE_SESSION_INVALID |> <| last_activity := now |>
    <| dest_recorded := false |> <| ttl_expired := false |> <| in_idle_list := false |>
    <| idle_prev := None |> <| idle_next := None |>) ;;
  socks_session_stm_init garbage impl (Selector.mk_key fd (Some (Session l))) ;;
  mret true.

(** [calloc] for a session: a new address. *)
Definition new_session : M (option loc) :=
  ok ← Os.os Os.os_alloc;
  if negb ok then mret None else
  l ← Os.gets next_session;
  Os.modify (fun p => p <| sessions ::= (<[l := zero_session]>) |> <| next_session ::= Pos.succ |>) ;;
  mret (Some l).

(** The session of an accepted connection, or the connection is refused. *)
Definition socks_accept_one (fd : Z) : M unit :=
  rc ← Os.set_nio fd;
  if decide (rc < 0) then Os.close fd else
  t ← get_store;
  let '(id, t) := Sessions.store_session_begin t in
  set_store t ;;
  if decide (id = STORE_SESSION_INVALID) then Os.close fd else
  let refuse := upd_store (fun t => Sessions.store_session_end t id) in
  o ← new_session;
  match o with
  | None => refuse ;; Os.close fd
  | Some l =>
    ready ← socks_session_init l fd;
    if negb ready then refuse ;; free_session l ;; Os.close fd else
    upd_session l (fun s => s <| store_id := id |>) ;;
    status ← Os.register garbage fd SocksClient Selector.OP_READ (Session l);
    if decide (status <> Selector.SELECTOR_SUCCESS) then
      refuse ;; socks_session_destroy_buffers l ;; free_session l ;; Os.close fd
    else
      upd_socks (fun v => v <| active_sessions ::= Z.add 1 |>) ;;
      idle_list_push_tail l
  end.

(** [fuel]: how many connections can be waiting. *)
Fixpoint accept_loop (one : Z -> M unit) (fuel : nat) (listen : Z) : M unit :=
  fd ← Os.accept listen;
  if decide (fd < 0) then mret tt else
  match fuel with
  | O => Os.fail OutOfFuel
  | S fuel => one fd ;; accept_loop one fuel listen
  end.

Definition socks_passive_read (k : key) : M unit := fun w =>
  accept_loop socks_accept_one (Os.os_backlog w.(Selector.user).(Os.env)) k.(Selector.key_fd) w.

Definition socks_passive_close (k : key) : M unit :=
  upd_socks (fun v => v <| listen_fd := -1 |>) ;;
  if decide (k.(Selector.key_fd) >= 0) then Os.close k.(Selector.key_fd) else mret tt.

(** * The idle timeout *)

Definition socks_expire_session_pre_relay (l : loc) : M unit :=
  queued ← socks_send_connect_reply l SOCKS_REP_TTL_EXPIRED;
  if negb queued then s ← get_session l; Os.unregister_fd impl s.(client_fd) else
  upd_session l (fun s => s <| close_after_flush := true |>) ;;
  set_state l SOCKS_ST_DONE ;;
  flushed ← socks_flush_client impl l;
  if negb flushed then mret tt else
  open ← socks_close_if_flushed impl l;
  if negb open then mret tt else
  s ← get_session l;
  Os.set_interest s.(client_fd) (socks_client_interest s).

(** One session at the head of the list that is due. *)
Definition expire_one (l : loc) : M unit :=
  upd_session l (fun s => s <| ttl_expired := true |>) ;;
  idle_list_remove l ;;
  s ← get_session l;
  state ← socks_state (session_key l s);
  if decide (state = SOCKS_ST_RELAY) then Os.unregister_fd impl s.(client_fd)
  else socks_expire_session_pre_relay l.

(** [fuel]: the sessions there are; each turn takes one off the list. *)
Fixpoint expire_loop (fuel : nat) (now timeout : Z) : M unit :=
  v ← get_socks;
  match v.(idle_head) with
  | None => mret tt
  | Some l =>
    s ← get_session l;
    if decide (now - s.(last_activity) < timeout) then mret tt else
    match fuel with
    | O => Os.fail OutOfFuel
    | S fuel => expire_one l ;; expire_loop fuel now timeout
    end
  end.

Definition socks_server_expire_idle : M unit :=
  t ← get_store;
  let timeout := store_config_get t STORE_CFG_TIMEOUT in
  if decide (timeout = 0) then mret tt else
  now ← Os.os Os.os_time;
  n ← Os.gets (fun p => size p.(sessions));
  expire_loop n now timeout.

(** * The server's life *)

Definition socks_server_init (wanted : Z) : M Selector.selector_status :=
  ok ← Os.os Os.os_alloc;
  if negb ok then mret Selector.SELECTOR_ENOMEM else
  o ← Os.create_listen_socket wanted;
  match o with
  | None => mret Selector.SELECTOR_IO
  | Some (fd, bound) =>
    status ← Os.register garbage fd SocksPassive Selector.OP_READ SocksServer;
    if decide (status <> Selector.SELECTOR_SUCCESS) then Os.close fd ;; mret status else
    Os.modify (fun p => p <| socks := Some (mk_socks_server fd bound 0 None None) |>) ;;
    mret Selector.SELECTOR_SUCCESS
  end.

Definition socks_server_stop_accepting : M unit :=
  v ← get_socks;
  if decide (v.(listen_fd) < 0) then mret tt else
  Os.unregister_fd impl v.(listen_fd) ;;
  upd_socks (fun v => v <| listen_fd := -1 |>).

Definition socks_server_destroy : M unit :=
  socks_server_stop_accepting ;;
  _ ← get_socks;
  Os.modify (fun p => p <| socks := None |>).

Definition socks_server_is_empty : M bool :=
  v ← get_socks; mret (bool_decide (v.(listen_fd) < 0) && bool_decide (v.(active_sessions) = 0)).

Definition socks_server_port : M Z := v ← get_socks; mret v.(port).

(** [ready]: what [epoll_wait] reports. *)
Definition socks_server_run_once (ready : Selector.epoll_result) : M Selector.selector_status :=
  v ← get_socks;
  stopping ← Os.gets stop;
  (if stopping && bool_decide (v.(listen_fd) >= 0) then socks_server_stop_accepting else mret tt) ;;
  (Selector.selector_select impl ready : M Selector.selector_status).

End SocksServer.

End SocksServer.
