(* ===== verification/Monitor.v ===== *)
(** The network side of the administration port, src/server/monitor/monitor.c:
    the callbacks of its descriptors and the server's life.  What the bytes mean
    is in MonCommands. *)
From S2P Require Import Prelude CBuffer Selector Os Inet Store MonCommands Program.
Import Store Program.
Local Open Scope Z_scope.

Module Monitor.

Definition MONITOR_BUFFER_SIZE : nat := MonCommands.MONITOR_BUFFER_SIZE.
#[export] Existing Instance MonCommands.eta_session.

(** What [calloc] leaves. *)
Definition zero_client : monitor_session :=
  mk_monitor_session zero_buffer
    (MonCommands.mk_session MonCommands.MONITOR_ST_AWAIT_AUTH zero_buffer
       (replicate (S MonCommands.MONITOR_LINE_MAX) x00) 0 false).

Definition monitor_client_interest (s : monitor_session) : Z :=
  let interest := Selector.OP_NOOP in
  let interest := if CBuffer.buffer_can_write s.(rb)
    then Z.lor interest Selector.OP_READ else interest in
  if CBuffer.buffer_can_read s.(commands).(MonCommands.wb)
  then Z.lor interest Selector.OP_WRITE else interest.

Section Monitor.
Context {E : Type} {OS : Os.Os E} {IN : Inet}.
Abbreviation M := (Os.M handler data program E).
Variable garbage : item.
Variable impl : handler -> @Selector.fd_handler handler data (Os.sys program E).

Definition monitor_unregister_session (k : key) : M unit :=
  Os.unregister_fd impl k.(Selector.key_fd).

(** Run the commands' code on a session and the store. *)
Definition with_commands (l : loc) (f : MonCommands.world -> res MonCommands.world) : M unit :=
  s ← get_client l;
  t ← get_store;
  w ← Os.lift (f (MonCommands.mk_world s.(commands) t));
  set_client l (s <| commands := w.(MonCommands.ses) |>) ;;
  set_store w.(MonCommands.sto).

Definition set_wb (b : CBuffer.buffer) (s : monitor_session) : monitor_session :=
  s <| commands ::= (fun c => c <| MonCommands.wb := b |>) |>.

Definition monitor_flush (k : key) : M bool :=
  l ← the_client k;
  s ← get_client l;
  let wb := s.(commands).(MonCommands.wb) in
  '(_, pending) ← Os.lift (CBuffer.buffer_read_ptr wb);
  if decide (pending = 0)%nat then
    if MonCommands.monitor_commands_should_close s.(commands) then
      monitor_unregister_session k ;; mret false
    else mret true
  else
    bs ← Os.lift (CBuffer.buffer_peek wb pending);
    r ← Os.write k.(Selector.key_fd) bs;
    match r with
    | Os.WError errno =>
      if Os.would_block errno then mret true
      else monitor_unregister_session k ;; mret false
    | Os.WDone n =>
      b ← Os.lift (CBuffer.buffer_read_adv wb (Z.of_nat n));
      b ← Os.lift (CBuffer.buffer_compact b);
      let s := set_wb b s in
      set_client l s ;;
      if MonCommands.monitor_commands_should_close s.(commands) then
        monitor_unregister_session k ;; mret false
      else mret true
    end.

(** [fuel]: one turn empties the buffer. *)
Fixpoint feed_loop (fuel : nat) (l : loc) : M unit :=
  s ← get_client l;
  if negb (CBuffer.buffer_can_read s.(rb)) then mret tt else
  match fuel with
  | O => Os.fail OutOfFuel
  | S fuel =>
    '(_, pending) ← Os.lift (CBuffer.buffer_read_ptr s.(rb));
    bs ← Os.lift (CBuffer.buffer_peek s.(rb) pending);
    ok ← Os.os Os.os_alloc;
    with_commands l (MonCommands.monitor_commands_feed ok ok bs) ;;
    s ← get_client l;
    b ← Os.lift (CBuffer.buffer_read_adv s.(rb) (Z.of_nat pending));
    b ← Os.lift (CBuffer.buffer_compact b);
    set_client l (s <| rb := b |>) ;;
    feed_loop fuel l
  end.

Definition feed_rb_to_commands (l : loc) : M unit := feed_loop 1 l.

Definition monitor_client_read (k : key) : M unit :=
  l ← the_client k;
  s ← get_client l;
  '(_, available) ← Os.lift (CBuffer.buffer_write_ptr s.(rb));
  if decide (available = 0)%nat then Os.set_interest_key k (monitor_client_interest s) else
  r ← Os.read k.(Selector.key_fd) available;
  match r with
  | Os.RData [] =>
    feed_rb_to_commands l ;;
    ok ← Os.os Os.os_alloc;
    with_commands l (MonCommands.monitor_commands_flush_on_eof ok ok) ;;
    open ← monitor_flush k;
    if negb open then mret tt else
    s ← get_client l;
    if CBuffer.buffer_can_read s.(commands).(MonCommands.wb)
    then Os.set_interest_key k (monitor_client_interest s)
    else monitor_unregister_session k
  | Os.RError errno =>
    if Os.would_block errno then Os.set_interest_key k (monitor_client_interest s)
    else monitor_unregister_session k
  | Os.RData bs =>
    b ← Os.lift (CBuffer.buffer_store s.(rb) bs);
    b ← Os.lift (CBuffer.buffer_write_adv b (Z.of_nat (length bs)));
    set_client l (s <| rb := b |>) ;;
    feed_rb_to_commands l ;;
    open ← monitor_flush k;
    if negb open then mret tt else
    s ← get_client l;
    Os.set_interest_key k (monitor_client_interest s)
  end.

Definition monitor_client_write (k : key) : M unit :=
  l ← the_client k;
  open ← monitor_flush k;
  if negb open then mret tt else
  s ← get_client l;
  Os.set_interest_key k (monitor_client_interest s).

Definition monitor_client_close (k : key) : M unit :=
  match client_of k with
  | Some l =>
    upd_monitor (fun v => v <| m_active_sessions ::= (fun n => if decide (n > 0) then n - 1 else n) |>)
  | None => mret tt
  end ;;
  (if decide (k.(Selector.key_fd) >= 0) then Os.close k.(Selector.key_fd) else mret tt) ;;
  match client_of k with Some l => free_client l | None => mret tt end.

Definition monitor_session_init (l : loc) : M unit :=
  s ← get_client l;
  set_client l (s <| rb := CBuffer.buffer_init MONITOR_BUFFER_SIZE (replicate MONITOR_BUFFER_SIZE x00) |>
    <| commands := MonCommands.monitor_commands_session_init (replicate MONITOR_BUFFER_SIZE x00)
         (MonCommands.line_buf s.(commands)) |>) ;;
  with_commands l MonCommands.monitor_commands_queue_greeting.

Definition new_client : M (option loc) :=
  ok ← Os.os Os.os_alloc;
  if negb ok then mret None else
  l ← Os.gets next_client;
  Os.modify (fun p => p <| clients ::= (<[l := zero_client]>) |> <| next_client ::= Pos.succ |>) ;;
  mret (Some l).

Definition monitor_accept_one (fd : Z) : M unit :=
  rc ← Os.set_nio fd;
  if decide (rc < 0) then Os.close fd else
  o ← new_client;
  match o with
  | None => Os.close fd
  | Some l =>
    monitor_session_init l ;;
    s ← get_client l;
    status ← Os.register garbage fd MonitorClient (monitor_client_interest s) (Client l);
    if decide (status <> Selector.SELECTOR_SUCCESS) then free_client l ;; Os.close fd
    else upd_monitor (fun v => v <| m_active_sessions ::= Z.add 1 |>)
  end.

Fixpoint accept_loop (fuel : nat) (listen : Z) : M unit :=
  fd ← Os.accept listen;
  if decide (fd < 0) then mret tt else
  match fuel with
  | O => Os.fail OutOfFuel
  | S fuel => monitor_accept_one fd ;; accept_loop fuel listen
  end.

Definition monitor_passive_read (k : key) : M unit := fun w =>
  accept_loop (Os.os_backlog w.(Selector.user).(Os.env)) k.(Selector.key_fd) w.

Definition monitor_passive_close (k : key) : M unit :=
  upd_monitor (fun v => v <| m_listen_fd := -1 |>) ;;
  if decide (k.(Selector.key_fd) >= 0) then Os.close k.(Selector.key_fd) else mret tt.

Definition create_listen_socket (wanted : Z) : M (option (Z * Z)) := Os.create_listen_socket wanted.

Definition monitor_server_init (wanted : Z) : M Selector.selector_status :=
  ok ← Os.os Os.os_alloc;
  if negb ok then mret Selector.SELECTOR_ENOMEM else
  o ← create_listen_socket wanted;
  match o with
  | None => mret Selector.SELECTOR_IO
  | Some (fd, bound) =>
    status ← Os.register garbage fd MonitorPassive Selector.OP_READ MonitorServer;
    if decide (status <> Selector.SELECTOR_SUCCESS) then Os.close fd ;; mret status else
    Os.modify (fun p => p <| monitor := Some (mk_monitor_server fd bound 0) |>) ;;
    mret Selector.SELECTOR_SUCCESS
  end.

Definition monitor_server_stop_accepting : M unit :=
  v ← get_monitor;
  if decide (v.(m_listen_fd) < 0) then mret tt else
  Os.unregister_fd impl v.(m_listen_fd) ;;
  upd_monitor (fun v => v <| m_listen_fd := -1 |>).

Definition monitor_server_destroy : M unit :=
  monitor_server_stop_accepting ;;
  _ ← get_monitor;
  Os.modify (fun p => p <| monitor := None |>).

Definition monitor_server_is_empty : M bool :=
  v ← get_monitor;
  mret (bool_decide (v.(m_listen_fd) < 0) && bool_decide (v.(m_active_sessions) = 0)).

Definition monitor_server_port : M Z := v ← get_monitor; mret v.(m_port).

Definition monitor_server_run_once (ready : Selector.epoll_result) : M Selector.selector_status :=
  v ← get_monitor;
  stopping ← Os.gets stop;
  (if stopping && bool_decide (v.(m_listen_fd) >= 0) then monitor_server_stop_accepting else mret tt) ;;
  (Selector.selector_select impl ready : M Selector.selector_status).

End Monitor.

End Monitor.
