(* ===== verification/Flags.v ===== *)
(** The command line, src/shared/flags.c: what [getopt] found, kept by the byte
    of its option.  [getopt] itself belongs to the C library: [setup_flags]
    takes the sequence of its results, an option (or '?' or ':') with the
    argument it points [optarg] at. *)
From S2P Require Import Prelude MonCommands.
Local Open Scope Z_scope.

Module Flags.

Definition MAX_FLAG_REPEATS : nat := 256.

(** [None] is NULL. *)
Record flags := mk_flags {
  values : list (option cstring);                 (* char *values[256] *)
  initialized : bool;
  flag_counts : list Z;                           (* int flag_counts[256] *)
  flag_values : list (list (option cstring));     (* char *flag_values[256][MAX_FLAG_REPEATS] *)
}.
#[export] Instance eta_flags : Eta flags := fun f =>
  mk_flags f.(values) f.(initialized) f.(flag_counts) f.(flag_values).

Definition zero_flags : flags :=
  mk_flags (replicate 256 None) false (replicate 256 0)
    (replicate 256 (replicate MAX_FLAG_REPEATS None)).

Definition index (flag : byte) : nat := Byte.to_nat flag.

(** [strchr(flag_ids, opt)] and the byte behind it. *)
Fixpoint takes_argument (flag_ids : cstring) (opt : byte) : bool :=
  match flag_ids with
  | [] => false
  | c :: rest => if decide (c = opt) then bool_decide (head rest = Some ":"%byte) else takes_argument rest opt
  end.

(** One turn of the loop over [getopt]. *)
Definition set_flag (flag_ids : cstring) (f : flags) (o : byte * option cstring) : flags :=
  let '(opt, optarg) := o in
  if decide (opt = "?"%byte \/ opt = ":"%byte) then f else
  let idx := index opt in
  let value := if takes_argument flag_ids opt then optarg else Some [] in
  let count := default 0 (f.(flag_counts) !! idx) in
  let f := f <| values ::= <[idx := value]> |> in
  let f := if decide (count < Z.of_nat MAX_FLAG_REPEATS)
    then f <| flag_values ::= alter <[Z.to_nat count := value]> idx |> else f in
  f <| flag_counts ::= <[idx := count + 1]> |>.

Definition setup_flags (flag_ids : cstring) (opts : list (byte * option cstring)) (f : flags) : Z * flags :=
  if f.(initialized) then (-1, f)
  else (0, (foldl (set_flag flag_ids) f opts) <| initialized := true |>).

Definition get_flag_str (f : flags) (flag : byte) : option cstring :=
  default None (f.(values) !! index flag).

Definition get_flag_long (f : flags) (flag : byte) : Z :=
  match get_flag_str f flag with
  | None => 0
  | Some value => (MonCommands.strtol value).1.1
  end.

Definition get_flag_count (f : flags) (flag : byte) : Z := default 0 (f.(flag_counts) !! index flag).

Definition get_flag_str_nth (f : flags) (flag : byte) (n : Z) : option cstring :=
  let idx := index flag in
  if decide (n < 0 \/ get_flag_count f flag <= n \/ Z.of_nat MAX_FLAG_REPEATS <= n) then None
  else default None (default [] (f.(flag_values) !! idx) !! Z.to_nat n).

Definition has_flag (f : flags) (flag : byte) : bool := bool_decide (get_flag_str f flag <> None).

(** * What the flags are after [setup_flags] *)

(** The arguments an option was given, in order. *)
Definition occurrences (flag_ids : cstring) (flag : byte) (opts : list (byte * option cstring))
  : list (option cstring) :=
  (fun o => if takes_argument flag_ids o.1 then o.2 else Some []) <$>
    filter (fun o => o.1 = flag /\ o.1 <> "?"%byte /\ o.1 <> ":"%byte) opts.

Lemma index_lt flag : (index flag < 256)%nat.
Proof. unfold index. pose proof (Byte.to_nat_bounded flag). lia. Qed.

Lemma index_inj b c : index b = index c -> b = c.
Proof.
  intros H. unfold index in H. pose proof (f_equal Byte.of_nat H) as Ho. rewrite !Byte.of_to_nat in Ho.
  by injection Ho.
Qed.

(** [f] records the arguments [given]. *)
Record records (f : flags) (given : byte -> list (option cstring)) : Prop := {
  rc_values : forall b, f.(values) !! index b = Some (default None (last (given b)));
  rc_counts : forall b, f.(flag_counts) !! index b = Some (Z.of_nat (length (given b)));
  rc_nth : forall b, exists row, f.(flag_values) !! index b = Some row /\ length row = MAX_FLAG_REPEATS /\
    take (length (given b)) row = take MAX_FLAG_REPEATS (given b);
}.

Definition give (given : byte -> list (option cstring)) (flag : byte) (v : option cstring) (b : byte) :=
  if decide (b = flag) then given b ++ [v] else given b.

Lemma records_zero : records zero_flags (fun _ => []).
Proof.
  split; intros b; cbn [values flag_counts flag_values zero_flags]; pose proof (index_lt b).
  - by rewrite lookup_replicate_2.
  - by rewrite lookup_replicate_2.
  - eexists. rewrite lookup_replicate_2 by done. split_and!; [done|apply length_replicate|done].
Qed.

Lemma set_flag_records flag_ids f given opt optarg : records f given -> opt <> "?"%byte -> opt <> ":"%byte ->
  records (set_flag flag_ids f (opt, optarg))
    (give given opt (if takes_argument flag_ids opt then optarg else Some [])).
Proof.
  intros [Hv Hc Hn] H1 H2. unfold set_flag. rewrite decide_False by tauto.
  set (v := if takes_argument flag_ids opt then optarg else Some []). rewrite Hc. cbn [default from_option id]. unfold id.
  pose proof (index_lt opt) as Hlt.
  assert (Hne : forall b, b <> opt -> index opt <> index b) by (intros b Hb He; by apply Hb, index_inj).
  set (n := length (given opt)) in *. split; intros b; unfold give; destruct (decide (b = opt)) as [->|Hb].
  - case_decide; cbn; (rewrite list_lookup_insert_eq by (eapply lookup_lt_Some, Hv)); by rewrite last_snoc.
  - case_decide; cbn; rewrite list_lookup_insert_ne by auto; apply Hv.
  - case_decide; cbn; (rewrite list_lookup_insert_eq by (eapply lookup_lt_Some, Hc));
      rewrite length_app; cbn; f_equal; fold n; lia.
  - case_decide; cbn; rewrite list_lookup_insert_ne by auto; apply Hc.
  - destruct (Hn opt) as (row & Hrow & Hlen & Htake). fold n in Htake.
    case_decide as Hcount; cbn.
    + rewrite list_lookup_alter_eq, Hrow. cbn. eexists. split; [done|].
      rewrite length_insert. split; [done|]. rewrite Nat2Z.id, length_app. cbn. fold n. rewrite Nat.add_1_r.
      assert (Hfit : (n < MAX_FLAG_REPEATS)%nat) by lia.
      assert (Hi : <[n := v]> row !! n = Some v) by (apply list_lookup_insert_eq; lia).
      rewrite (take_S_r _ n v Hi), take_insert_ge, Htake by lia.
      rewrite (take_ge (given opt)) by (fold n; lia).
      rewrite take_ge; [done|rewrite length_app; fold n; cbn [length]; unfold MAX_FLAG_REPEATS in *; lia].
    + exists row. split; [done|]. split; [done|].
      assert (Hfull : (MAX_FLAG_REPEATS <= n)%nat) by lia.
      rewrite (take_ge row) in Htake by lia. rewrite (take_ge row) by (rewrite length_app; fold n; lia).
      rewrite take_app_le by (fold n; unfold MAX_FLAG_REPEATS in *; lia). exact Htake.
  - destruct (Hn b) as (row & Hrow & Hlen & Htake). exists row. split; [|done].
    case_decide; cbn; [|done]. by rewrite list_lookup_alter_ne by auto.
Qed.

Lemma foldl_records flag_ids opts : forall f given, records f given ->
  records (foldl (set_flag flag_ids) f opts) (fun b => given b ++ occurrences flag_ids b opts).
Proof.
  induction opts as [|[opt optarg] opts IH]; intros f given Hr; cbn [foldl].
  { destruct Hr as [H1 H2 H3]. split; intros b; unfold occurrences; cbn; rewrite app_nil_r; auto. }
  destruct (decide (opt = "?"%byte \/ opt = ":"%byte)) as [Hskip|Hkeep].
  - unfold set_flag at 2. rewrite decide_True by done. specialize (IH f given Hr).
    destruct IH as [H1 H2 H3]. split; intros b; unfold occurrences;
      rewrite filter_cons_False by (cbn; tauto); auto.
  - apply Decidable.not_or in Hkeep as [K1 K2].
    specialize (IH _ _ (set_flag_records flag_ids f given opt optarg Hr K1 K2)).
    assert (Hocc : forall b, give given opt (if takes_argument flag_ids opt then optarg else Some []) b ++
      occurrences flag_ids b opts = given b ++ occurrences flag_ids b ((opt, optarg) :: opts)).
    { intros b. unfold give, occurrences. destruct (decide (b = opt)) as [->|Hb].
      - rewrite filter_cons_True by done. cbn. by rewrite <- app_assoc.
      - by rewrite filter_cons_False by (cbn; naive_solver). }
    destruct IH as [H1 H2 H3]. split; intros b; rewrite <- Hocc; auto.
Qed.

(** C31. After the command line is read every option has the number of its
    occurrences, the argument of the last one, and, for the first 256, the
    argument of each by its position; past them there is none. *)
Theorem flags_recorded flag_ids opts flag n :
  let given := occurrences flag_ids flag opts in
  exists f, setup_flags flag_ids opts zero_flags = (0, f) /\
    get_flag_count f flag = Z.of_nat (length given) /\
    get_flag_str f flag = default None (last given) /\
    get_flag_str_nth f flag n =
      (if decide (0 <= n < Z.of_nat MAX_FLAG_REPEATS) then default None (given !! Z.to_nat n) else None).
Proof.
  intros given. eexists. split; [done|].
  pose proof (foldl_records flag_ids opts zero_flags _ records_zero) as [Hv Hc Hn]. cbn [app] in Hv, Hc, Hn.
  unfold get_flag_count, get_flag_str, get_flag_str_nth. cbn [values flag_counts flag_values].
  unfold get_flag_count. cbn. rewrite Hc, Hv. fold given. cbn [default from_option]. unfold id. split_and!; [done|done|].
  destruct (Hn flag) as (row & Hrow & Hlen & Htake). fold given in Htake. rewrite Hrow. cbn [default].
  case_decide as Hout; [|].
  - case_decide; [|done]. rewrite lookup_ge_None_2; [done|]. lia.
  - rewrite decide_True by lia. f_equal.
    rewrite <- (lookup_take_lt row (length given)) by lia. rewrite Htake, lookup_take_lt by lia. done.
Qed.

End Flags.
