(* ===== verification/Proxy.v ===== *)
(** The server process: the handlers of socks.c and monitor.c in the one
    selector, and the loop and shutdown of src/server/main.c. *)
From S2P Require Import Prelude Selector Os Inet Store Users Acl Program Socks SocksServer.
From S2P Require Import Monitor Flags.
Import Store Program.
Local Open Scope Z_scope.

Module Proxy.

Section Proxy.
Context {E : Type} {OS : Os.Os E} {IN : Inet}.
Abbreviation M := (Os.M handler data program E).
Abbreviation st := (Os.st handler data program E).
Abbreviation fd_handler := (@Selector.fd_handler handler data (Os.sys program E)).
Variable garbage : item.

(** * The constant handlers *)

Definition socks_client_handler (impl : handler -> fd_handler) : fd_handler :=
  Selector.mk_handler (Some (Os.callback (SocksServer.socks_client_read garbage impl)))
    (Some (Os.callback (SocksServer.socks_client_write impl)))
    (Some (Os.callback (SocksServer.socks_client_block garbage impl)))
    (Some (Os.callback (SocksServer.socks_client_close garbage impl))).
Definition socks_origin_handler (impl : handler -> fd_handler) : fd_handler :=
  Selector.mk_handler (Some (Os.callback (Socks.socks_origin_read impl)))
    (Some (Os.callback (Socks.socks_origin_write garbage impl)))
    None
    (Some (Os.callback Socks.socks_origin_close)).
Definition socks_passive_handler (impl : handler -> fd_handler) : fd_handler :=
  Selector.mk_handler (Some (Os.callback (SocksServer.socks_passive_read garbage impl)))
    None None (Some (Os.callback SocksServer.socks_passive_close)).
Definition monitor_client_handler (impl : handler -> fd_handler) : fd_handler :=
  Selector.mk_handler (Some (Os.callback (Monitor.monitor_client_read impl)))
    (Some (Os.callback (Monitor.monitor_client_write impl)))
    None
    (Some (Os.callback Monitor.monitor_client_close)).
Definition monitor_passive_handler (impl : handler -> fd_handler) : fd_handler :=
  Selector.mk_handler (Some (Os.callback (Monitor.monitor_passive_read garbage)))
    None None (Some (Os.callback Monitor.monitor_passive_close)).

Definition handlers (impl : handler -> fd_handler) (h : handler) : fd_handler :=
  match h with
  | SocksClient => socks_client_handler impl
  | SocksOrigin => socks_origin_handler impl
  | SocksPassive => socks_passive_handler impl
  | MonitorClient => monitor_client_handler impl
  | MonitorPassive => monitor_passive_handler impl
  end.

(** Callbacks that may unregister [n] descriptors inside one another. *)
Fixpoint closing (n : nat) (h : handler) : fd_handler :=
  match n with
  | O => Selector.mk_handler None None None (Some (fun _ _ => Fault OutOfFuel))
  | S n => handlers (closing n) h
  end.

(** A callback that closes a client, which closes its origin: two levels. *)
Definition proxy : handler -> fd_handler := handlers (closing 2).

(** * main *)

Definition servers_is_empty : M bool :=
  a ← SocksServer.socks_server_is_empty;
  if a : bool then Monitor.monitor_server_is_empty else mret false.

(** [strchr(input, ':')]. *)
Fixpoint split_colon (s : cstring) : option (cstring * cstring) :=
  match s with
  | [] => None
  | c :: s =>
    if decide (c = ":"%byte) then Some ([], s)
    else '(a, b) ← split_colon s; Some (c :: a, b)
  end.

(** [None]: the argument is NULL. *)
Definition add_flag_user (t : monitor_store) (input : option cstring) (is_admin : bool)
  : res (bool * monitor_store) :=
  input ← or_fault NullDeref input;
  match split_colon input with
  | None => Ok (false, t)
  | Some (u, p) =>
    if decide (u = [] \/ p = []) then Ok (false, t) else
    let '(r, t) := Users.store_user_add t u p is_admin in Ok (bool_decide (r = STORE_USER_OK), t)
  end.

Fixpoint add_flag_users (t : monitor_store) (inputs : list (option cstring)) (is_admin : bool)
  : res (bool * monitor_store) :=
  match inputs with
  | [] => Ok (true, t)
  | i :: inputs =>
    '(ok, t) ← add_flag_user t i is_admin;
    if ok : bool then add_flag_users t inputs is_admin else Ok (false, t)
  end.

(** The [i]-th of the resolver threads ends. *)
Definition finish_thread (i : nat) : M unit :=
  ts ← Os.gets threads;
  match ts !! i with
  | Some ctx => Os.modify (fun p => p <| threads ::= delete i |>) ;; Socks.socks_dns_thread ctx
  | None => mret tt
  end.
Fixpoint finish_threads (ids : list nat) : M unit :=
  match ids with [] => mret tt | i :: ids => finish_thread i ;; finish_threads ids end.

(** One turn of the loop: what the signal handler did, which resolver threads
    ended while [epoll_wait] waited, and what it returned ([interrupted]: errno
    is EINTR).  False: the loop is left.  The handler sets [force_quit] only to
    [_exit] at once, so the loop never sees it. *)
Record turn := mk_turn {
  shutdown_requested : bool;
  finished : list nat;
  ready : Selector.epoll_result;
  interrupted : bool;
}.

Definition main_turn (t : turn) : M bool :=
  empty ← servers_is_empty;
  if empty : bool then mret false else
  (if t.(shutdown_requested) then Os.modify (fun p => p <| stop := true |>) else mret tt) ;;
  stopping ← Os.gets stop;
  (if stopping : bool then
     SocksServer.socks_server_stop_accepting proxy ;; Monitor.monitor_server_stop_accepting proxy
   else mret tt) ;;
  finish_threads t.(finished) ;;
  status ← (Selector.selector_select proxy t.(ready) : M Selector.selector_status);
  if decide (status <> Selector.SELECTOR_SUCCESS /\ t.(interrupted) = false) then mret false else
  SocksServer.socks_server_expire_idle proxy ;;
  mret true.

(** Whether the loop was left within these turns. *)
Fixpoint main_loop (ts : list turn) : M bool :=
  match ts with
  | [] => servers_is_empty
  | t :: ts => go ← main_turn t; if go : bool then main_loop ts else mret true
  end.

(** [store_destroy]: the rules of its lists, then the store itself. *)
Definition store_destroy : M unit :=
  t ← get_store;
  _ ← Os.lift (Acl.store_destroy t);
  Os.modify (fun p => p <| store := None |>).

(** [selector_destroy] leaves the rest of the process. *)
Definition destroy_selector : M unit := fun s =>
  w ← Selector.selector_destroy proxy s; Ok (tt, s <| Selector.user := w |>).

(** What follows the loop. *)
Definition main_exit : M unit :=
  Monitor.monitor_server_destroy proxy ;;
  SocksServer.socks_server_destroy proxy ;;
  store_destroy ;;
  destroy_selector.

(** The start, from the creation of the store on: the users of the command
    line, then both servers; a failure releases what there is. *)
Definition abandon : M bool := store_destroy ;; destroy_selector ;; mret false.

Definition start_servers (users admins : list (option cstring)) (socks_port monitor_port : Z) : M bool :=
  ok ← Os.os Os.os_alloc;
  slots_ok ← Os.os Os.os_alloc;
  match store_create ok slots_ok with
  | None => destroy_selector ;; mret false
  | Some t =>
    Os.modify (fun p => p <| store := Some t |>) ;;
    '(added, t) ← Os.lift (add_flag_users t users false);
    set_store t ;;
    if negb added then abandon else
    '(added, t) ← Os.lift (add_flag_users t admins true);
    set_store t ;;
    if negb added then abandon else
    status ← SocksServer.socks_server_init garbage socks_port;
    if decide (status <> Selector.SELECTOR_SUCCESS) then abandon else
    status ← Monitor.monitor_server_init garbage monitor_port;
    if decide (status <> Selector.SELECTOR_SUCCESS) then
      SocksServer.socks_server_destroy proxy ;; abandon
    else mret true
  end.

(** What the command line asks for. *)
Inductive command_line := Usage | Help | Serve (socks_port monitor_port : Z) (f : Flags.flags).

Definition port_flag (f : Flags.flags) (flag : byte) (otherwise : Z) : option Z :=
  if Flags.has_flag f flag then
    let value := Flags.get_flag_long f flag in
    if decide (value <= 0 \/ value > 65535) then None else Some (u16 value)
  else Some otherwise.

Definition read_command_line (opts : list (byte * option cstring)) : command_line :=
  let '(rc, f) := Flags.setup_flags (lit "p:m:hu:a:") opts Flags.zero_flags in
  if decide (rc <> 0) then Usage else
  if Flags.has_flag f "h"%byte then Help else
  match port_flag f "p"%byte 1080, port_flag f "m"%byte 8080 with
  | Some socks_port, Some monitor_port =>
    if decide (Flags.get_flag_count f "u"%byte < 1 \/ Flags.get_flag_count f "a"%byte < 1) then Usage
    else Serve socks_port monitor_port f
  | _, _ => Usage
  end.

(** The arguments the two loops over an option's occurrences see. *)
Definition flag_args (f : Flags.flags) (flag : byte) : list (option cstring) :=
  (fun i => Flags.get_flag_str_nth f flag (Z.of_nat i)) <$> seq 0 (Z.to_nat (Flags.get_flag_count f flag)).

(** [main] from the command line on, its selector made; the exit status, or
    [None] when the loop goes on after these turns. *)
Definition main (opts : list (byte * option cstring)) (ts : list turn) : M (option Z) :=
  match read_command_line opts with
  | Usage => mret (Some 1)
  | Help => mret (Some 0)
  | Serve socks_port monitor_port f =>
    started ← start_servers (flag_args f "u"%byte) (flag_args f "a"%byte) socks_port monitor_port;
    if started : bool then
      left ← main_loop ts;
      if left : bool then main_exit ;; mret (Some 0) else mret None
    else mret (Some 1)
  end.

End Proxy.

(** The process before [main]'s first call. *)
Definition no_program : program := mk_program ∅ 1%positive None [] ∅ 1%positive None None false.

End Proxy.
