(* ===== verification/IdleList.v ===== *)
(** The list of sessions by last activity (socks.c: [idle_list_remove],
    [idle_list_push_tail], [socks_session_touch]): its pointers, spread over the
    sessions and the server, implement a list of sessions without repetition. *)
From S2P Require Import Prelude Selector Os Scripted Inet Program Socks.
Import Program Socks.
Local Open Scope Z_scope.

Module IdleList.

(** A session without its links; the sessions of a heap. *)
Definition strip (s : socks_session) : socks_session :=
  s <| idle_prev := None |> <| idle_next := None |>.
Definition bare (m : gmap loc socks_session) : gmap loc socks_session := strip <$> m.

Definition unlinked (s : socks_session) : socks_session := s <| in_idle_list := false |>.
Definition linked (s : socks_session) : socks_session := s <| in_idle_list := true |>.

Lemma bare_lookup m l s : bare m !! l = Some s -> exists s0, m !! l = Some s0 /\ s = strip s0.
Proof. unfold bare. rewrite lookup_fmap. destruct (m !! l); cbn; [|done]. intros [= <-]. eauto. Qed.

Lemma lookup_bare m l s : m !! l = Some s -> bare m !! l = Some (strip s).
Proof. unfold bare. rewrite lookup_fmap. intros Hl. by rewrite Hl. Qed.

Lemma bare_alter f g m l : (forall s, strip (f s) = g (strip s)) ->
  bare (alter f l m) = alter g l (bare m).
Proof.
  intros Hf. apply map_eq. intros j. unfold bare.
  rewrite lookup_fmap, !lookup_alter, !lookup_fmap.
  case_decide; [|done]. destruct (m !! l); cbn; [|done]. by rewrite Hf.
Qed.

Lemma bare_relink f m l : (forall s, strip (f s) = strip s) -> bare (alter f l m) = bare m.
Proof.
  intros Hf. rewrite (bare_alter f id) by done. apply map_eq. intros j.
  rewrite lookup_alter. case_decide; [|done]. subst. by destruct (_ !! _).
Qed.

Lemma bare_insert m l s : bare (<[l := s]> m) = <[l := strip s]> (bare m).
Proof. apply fmap_insert. Qed.
Lemma bare_delete m l : bare (delete l m) = delete l (bare m).
Proof. apply fmap_delete. Qed.
Lemma bare_size m : size (bare m) = size m.
Proof. apply map_size_fmap. Qed.

(** The heap and the server's two pointers hold the list. *)
Record idle (m : gmap loc socks_session) (v : socks_server) (L : list loc) : Prop := {
  idle_nodup : NoDup L;
  idle_first : v.(idle_head) = head L;
  idle_last : v.(idle_tail) = last L;
  idle_flag : forall l s, m !! l = Some s -> s.(in_idle_list) = bool_decide (l ∈ L);
  idle_links : forall L1 l L2, L = L1 ++ l :: L2 -> exists s, m !! l = Some s /\
    s.(idle_prev) = last L1 /\ s.(idle_next) = head L2;
}.

Section IdleList.
Context {E : Type} {OS : Os.Os E}.
Abbreviation st := (Os.st handler data program E).

(** [w] with this heap and this server. *)
Definition with_list (w : st) (m : gmap loc socks_session) (v : socks_server) : st :=
  Os.on_prog (fun p => p <| sessions := m |> <| socks := Some v |>) w.

Lemma with_list_same w m v : (prog w).(sessions) = m -> (prog w).(socks) = Some v ->
  with_list w m v = w.
Proof. destruct w as [sl [p e t]]. cbn. destruct p. cbn. by intros -> ->. Qed.

Lemma with_list_upd w m v f l s Q : m !! l = Some s ->
  Q tt (with_list w (alter f l m) v) -> Os.wp (upd_session l f) Q (with_list w m v).
Proof. intros Hl HQ. by apply (wp_upd_session l f s). Qed.

Lemma with_list_socks w m v f Q :
  Q tt (with_list w m (f v)) -> Os.wp (upd_socks f) Q (with_list w m v).
Proof. intros HQ. by apply (wp_upd_socks f v). Qed.

(** Only the two pointers of the server change. *)
Definition same_server (v v' : socks_server) : Prop :=
  v'.(listen_fd) = v.(listen_fd) /\ v'.(port) = v.(port) /\
  v'.(active_sessions) = v.(active_sessions).

Definition unlink (l : loc) (p n : option loc) (m : gmap loc socks_session) : gmap loc socks_session :=
  let m := match p with Some q => alter (fun x => x <| idle_next := n |>) q m | None => m end in
  let m := match n with Some q => alter (fun x => x <| idle_prev := p |>) q m | None => m end in
  alter (fun x => x <| idle_prev := None |> <| idle_next := None |> <| in_idle_list := false |>) l m.

Lemma unlink_bare l p n m : bare (unlink l p n m) = alter unlinked l (bare m).
Proof.
  unfold unlink. rewrite (bare_alter _ unlinked) by done. f_equal.
  destruct p, n; rewrite ?bare_relink by done; done.
Qed.

Lemma unlink_lookup m l p n x s : m !! x = Some s -> x <> l ->
  unlink l p n m !! x = Some (s <| idle_next := if decide (p = Some x) then n else s.(idle_next) |>
                                <| idle_prev := if decide (n = Some x) then p else s.(idle_prev) |>).
Proof.
  intros Hx Hne. unfold unlink. rewrite lookup_alter_ne by done.
  destruct n as [q|], p as [r|]; rewrite ?lookup_alter; repeat case_decide; simplify_eq;
    rewrite ?lookup_alter; repeat case_decide; simplify_eq; rewrite ?Hx; by destruct s.
Qed.

Lemma unlink_flag m l p n x s : unlink l p n m !! x = Some s ->
  exists s0, m !! x = Some s0 /\ s.(in_idle_list) = if decide (x = l) then false else s0.(in_idle_list).
Proof.
  intros Hx%lookup_bare. rewrite unlink_bare, lookup_alter in Hx.
  case_decide as He.
  - subst x. destruct (bare m !! l) as [s1|] eqn:Hb; [|done].
    apply bare_lookup in Hb as (s0 & Hm & ->). exists s0. split; [done|]. cbn in Hx.
    apply (inj Some) in Hx. rewrite decide_True by done. by apply (f_equal in_idle_list) in Hx.
  - apply bare_lookup in Hx as (s0 & Hm & Hx). exists s0. split; [done|].
    rewrite decide_False by auto. by apply (f_equal in_idle_list) in Hx.
Qed.

Definition unlink_server (p n : option loc) (v : socks_server) : socks_server :=
  let v := match p with Some _ => v | None => v <| idle_head := n |> end in
  match n with Some _ => v | None => v <| idle_tail := p |> end.

Lemma unlink_server_same p n v : same_server v (unlink_server p n v).
Proof. by destruct p, n. Qed.

Lemma unlink_idle m v L1 l L2 : idle m v (L1 ++ l :: L2) ->
  idle (unlink l (last L1) (head L2) m) (unlink_server (last L1) (head L2) v) (L1 ++ L2).
Proof.
  intros [Hn Hh Ht Hf Hk].
  assert (Hnot : l ∉ L1 ++ L2 /\ NoDup (L1 ++ L2)).
  { rewrite <- Permutation_middle in Hn. by apply NoDup_cons in Hn. }
  destruct Hnot as [Hnot Hn']. split.
  - done.
  - destruct L1 as [|a L1]; [by destruct L2|]. unfold unlink_server.
    destruct (last (a :: L1)) eqn:El; [|by apply last_None in El].
    by destruct (head L2).
  - rewrite last_middle in Ht. destruct L2 as [|b L2].
    + rewrite app_nil_r. by destruct (last L1).
    + rewrite last_app. unfold unlink_server. cbn [head].
      destruct (last (b :: L2)) eqn:El; [|by apply last_None in El]. by destruct (last L1).
  - intros x s (s0 & Hm & ->)%unlink_flag. rewrite (Hf x s0 Hm). case_decide as He.
    + subst. by rewrite bool_decide_false.
    + apply bool_decide_ext. set_solver.
  - intros A1 x A2 Heq. destruct (neighbours L1 l L2 A1 x A2 Hn Heq) as (B1 & B2 & HB & Hl & Hr).
    destruct (Hk _ _ _ HB) as (s & Hm & Hp & Hnx).
    assert (x <> l) by (intros ->; apply Hnot; rewrite Heq; set_solver).
    eexists. split; [by apply unlink_lookup|]. cbn. rewrite Hl, Hr, Hp, Hnx.
    split; by repeat case_decide.
Qed.

Definition link (l : loc) (t : option loc) (m : gmap loc socks_session) : gmap loc socks_session :=
  let m := alter (fun x => x <| idle_prev := t |> <| idle_next := None |>) l m in
  let m := match t with Some q => alter (fun x => x <| idle_next := Some l |>) q m | None => m end in
  alter linked l m.

Definition link_server (l : loc) (t : option loc) (v : socks_server) : socks_server :=
  (match t with Some _ => v | None => v <| idle_head := Some l |> end) <| idle_tail := Some l |>.

Lemma link_server_same l t v : same_server v (link_server l t v).
Proof. by destruct t. Qed.

Lemma link_bare l t m : bare (link l t m) = alter linked l (bare m).
Proof.
  unfold link. rewrite (bare_alter _ linked) by done. f_equal.
  destruct t; rewrite ?bare_relink by done; done.
Qed.

Lemma link_lookup m l t x s : m !! x = Some s -> x <> l ->
  link l t m !! x = Some (s <| idle_next := if decide (t = Some x) then Some l else s.(idle_next) |>).
Proof.
  intros Hx Hne. unfold link. rewrite lookup_alter_ne by done.
  destruct t as [q|]; rewrite ?lookup_alter; repeat case_decide; simplify_eq;
    rewrite ?lookup_alter; repeat case_decide; simplify_eq; rewrite ?Hx; by destruct s.
Qed.

Lemma link_flag m l t x s : link l t m !! x = Some s ->
  exists s0, m !! x = Some s0 /\ s.(in_idle_list) = if decide (x = l) then true else s0.(in_idle_list).
Proof.
  intros Hx%lookup_bare. rewrite link_bare, lookup_alter in Hx.
  case_decide as He.
  - subst x. destruct (bare m !! l) as [s1|] eqn:Hb; [|done].
    apply bare_lookup in Hb as (s0 & Hm & ->). exists s0. split; [done|]. cbn in Hx.
    apply (inj Some) in Hx. rewrite decide_True by done. by apply (f_equal in_idle_list) in Hx.
  - apply bare_lookup in Hx as (s0 & Hm & Hx). exists s0. split; [done|].
    rewrite decide_False by auto. by apply (f_equal in_idle_list) in Hx.
Qed.

Lemma link_idle m v L l s : idle m v L -> m !! l = Some s -> l ∉ L ->
  idle (link l (last L) m) (link_server l (last L) v) (L ++ [l]).
Proof.
  intros [Hn Hh Ht Hf Hk] Hl Hnot. split.
  - apply NoDup_app. split_and!; [done|set_solver|apply NoDup_singleton].
  - destruct L as [|a L]; [done|]. unfold link_server.
    by destruct (last (a :: L)) eqn:El; [|apply last_None in El].
  - rewrite last_app. by destruct (last L).
  - intros x s' (s0 & Hm & ->)%link_flag. rewrite (Hf x s0 Hm). case_decide as He.
    + subst. rewrite bool_decide_true by set_solver. done.
    + apply bool_decide_ext. set_solver.
  - intros A1 x A2 Heq. destruct A2 as [|y A3 _] using rev_ind.
    + apply app_inj_tail in Heq as [<- ->].
      exists (linked (s <| idle_prev := last L |> <| idle_next := None |>)). split.
      * unfold link. rewrite lookup_alter_eq. destruct (last L) as [q|] eqn:Eq.
        -- rewrite lookup_alter_ne, lookup_alter_eq, Hl; [reflexivity|].
           intros ->. apply Hnot. by apply last_Some_elem_of.
        -- rewrite lookup_alter_eq, Hl. reflexivity.
      * done.
    + rewrite app_comm_cons, app_assoc in Heq. apply app_inj_tail in Heq as [-> ->].
      destruct (Hk A1 x A3 eq_refl) as (s' & Hm & Hp & Hnx).
      assert (x <> y) by (intros ->; apply Hnot; set_solver).
      eexists. split; [by apply link_lookup|]. cbn. rewrite Hp, Hnx. split; [done|].
      rewrite last_middle. destruct A3 as [|z A3]; [by rewrite decide_True|].
      rewrite decide_False; [done|]. intros [= Hz].
      destruct (last (z :: A3)) as [u|] eqn:Eu; [|by apply last_None in Eu]. cbn in Hz. subst u.
      apply last_Some_elem_of in Eu.
      apply NoDup_app in Hn as (_ & _ & Hn). by apply NoDup_cons in Hn as [Hn _].
Qed.

(** * The code *)

Definition without (l : loc) (L : list loc) : list loc := filter (.≠ l) L.

Lemma without_middle L1 l L2 : NoDup (L1 ++ l :: L2) -> without l (L1 ++ l :: L2) = L1 ++ L2.
Proof.
  intros Hn. unfold without. rewrite filter_app, filter_cons, decide_False by auto.
  apply NoDup_app in Hn as (_ & Hd & Hn). apply NoDup_cons in Hn as [Hl _].
  f_equal; apply filter_everything; intros y Hy ->; [|done]. by apply (Hd l Hy); left.
Qed.

Lemma without_absent l L : l ∉ L -> without l L = L.
Proof. intros Hl. apply filter_everything. by intros y Hy ->. Qed.

Lemma with_list_session w m v l s Q : m !! l = Some s ->
  Q s (with_list w m v) -> Os.wp (get_session l) Q (with_list w m v).
Proof. intros. by apply (wp_get_session l s). Qed.

Lemma wp_idle_remove w m v L l s Q : idle m v L -> m !! l = Some s ->
  (forall m' v', idle m' v' (without l L) -> bare m' = alter unlinked l (bare m) -> same_server v v' ->
     Q tt (with_list w m' v')) ->
  Os.wp (idle_list_remove l) Q (with_list w m v).
Proof.
  intros Hi Hl HQ. unfold idle_list_remove. apply Os.wp_bind, (with_list_session _ _ _ _ s); [done|].
  rewrite (idle_flag _ _ _ Hi l s Hl). destruct (decide (l ∈ L)) as [Hin|Hout].
  2:{ rewrite bool_decide_false by done. cbn [negb]. apply Os.wp_ret. apply HQ.
      - by rewrite without_absent.
      - apply map_eq. intros j. rewrite lookup_alter. case_decide; [|done]. subst.
        rewrite (lookup_bare _ _ _ Hl). cbn. f_equal.
        pose proof (idle_flag _ _ _ Hi _ _ Hl) as Hf. rewrite bool_decide_false in Hf by done.
        destruct s; cbn in *; by subst.
      - done. }
  rewrite bool_decide_true by done. cbn [negb].
  apply list_elem_of_split in Hin as (L1 & L2 & ->). pose proof (idle_nodup _ _ _ Hi) as Hn.
  destruct (idle_links _ _ _ Hi L1 l L2 eq_refl) as (s' & Hs' & Hp & Hnx).
  rewrite Hl in Hs'. injection Hs' as <-. rewrite Hp, Hnx.
  assert (Hnp : forall q, last L1 = Some q -> q <> l /\ is_Some (m !! q)).
  { intros q Hq. apply last_Some in Hq as (L0 & ->). split.
    - intros ->. apply NoDup_app in Hn as (_ & Hd & _). apply (Hd l); set_solver.
    - destruct (idle_links _ _ _ Hi L0 q (l :: L2)) as (sq & Hq & _); [by rewrite <- app_assoc|]. eauto. }
  assert (Hnn : forall q, head L2 = Some q -> q <> l /\ is_Some (m !! q)).
  { intros q Hq. destruct L2 as [|z L2]; [done|]. injection Hq as ->. split.
    - intros ->. apply NoDup_app in Hn as (_ & _ & Hd). apply NoDup_cons in Hd as [Hd _]. set_solver.
    - destruct (idle_links _ _ _ Hi (L1 ++ [l]) q L2) as (sq & Hq & _); [by rewrite <- app_assoc|]. eauto. }
  set (m1 := match last L1 with Some q => alter (fun x => x <| idle_next := head L2 |>) q m | None => m end).
  set (v1 := match last L1 with Some _ => v | None => v <| idle_head := head L2 |> end).
  apply Os.wp_bind. apply (Os.wp_mono _ (fun _ w' => w' = with_list w m1 v1)).
  { subst m1 v1. destruct (last L1) as [q|]; [|by apply with_list_socks].
    destruct (Hnp q eq_refl) as (_ & sq & Hq). by apply (with_list_upd _ _ _ _ _ sq). }
  intros _ w1 ->. apply Os.wp_bind.
  assert (Hl1 : m1 !! l = Some s).
  { subst m1. destruct (last L1) as [q|]; [|done]. rewrite lookup_alter_ne; [done|]. by apply Hnp. }
  apply (with_list_session _ _ _ _ s); [done|]. rewrite Hp, Hnx.
  set (m2 := match head L2 with Some q => alter (fun x => x <| idle_prev := last L1 |>) q m1 | None => m1 end).
  apply Os.wp_bind.
  apply (Os.wp_mono _ (fun _ w' => w' = with_list w m2 (unlink_server (last L1) (head L2) v))).
  { unfold unlink_server. fold v1. subst m2. destruct (head L2) as [q|]; [|by apply with_list_socks].
    destruct (Hnn q eq_refl) as (_ & sq & Hq).
    assert (is_Some (m1 !! q)) as [sq1 Hq1].
    { subst m1. destruct (last L1) as [r|]; [|eauto]. rewrite lookup_alter. case_decide; [|eauto].
      subst. rewrite Hq. cbn. eauto. }
    by apply (with_list_upd _ _ _ _ _ sq1). }
  intros _ w2 ->. apply (with_list_upd _ _ _ _ _ s).
  { subst m2. destruct (head L2) as [q|]; [|done]. rewrite lookup_alter_ne; [done|]. by apply Hnn. }
  change (alter _ l m2) with (unlink l (last L1) (head L2) m). apply HQ.
  - rewrite without_middle by done. by apply unlink_idle.
  - apply unlink_bare.
  - apply unlink_server_same.
Qed.

Lemma wp_link_tail w m v L l s Q : idle m v L -> m !! l = Some s -> l ∉ L ->
  (forall m' v', idle m' v' (L ++ [l]) -> bare m' = alter linked l (bare m) -> same_server v v' ->
     Q tt (with_list w m' v')) ->
  Os.wp (link_tail l) Q (with_list w m v).
Proof.
  intros Hi Hl Hnot HQ. unfold link_tail. apply Os.wp_bind, (wp_get_socks v); [done|].
  rewrite (idle_last _ _ _ Hi). apply Os.wp_bind, (with_list_upd _ _ _ _ _ s); [done|].
  set (m1 := alter _ l m).
  set (m2 := match last L with Some q => alter (fun x => x <| idle_next := Some l |>) q m1 | None => m1 end).
  set (v2 := match last L with Some _ => v | None => v <| idle_head := Some l |> end).
  assert (Hq2 : forall q, last L = Some q -> q <> l /\ is_Some (m !! q)).
  { intros q Hq. apply last_Some in Hq as (L0 & ->). split; [intros ->; set_solver|].
    destruct (idle_links _ _ _ Hi L0 q []) as (sq & Hq & _); [done|]. eauto. }
  apply Os.wp_bind, (Os.wp_mono _ (fun _ w' => w' = with_list w m2 v2)).
  { subst m2 v2. destruct (last L) as [q|]; [|by apply with_list_socks].
    destruct (Hq2 q eq_refl) as (Hne & sq & Hq). apply (with_list_upd _ _ _ _ _ sq); [|done].
    subst m1. by rewrite lookup_alter_ne. }
  intros _ w1 ->. apply Os.wp_bind, with_list_socks.
  assert (is_Some (m2 !! l)) as [s2 Hs2].
  { assert (is_Some (m1 !! l)) as [s1 Hs1] by (subst m1; rewrite lookup_alter_eq, Hl; cbn; eauto).
    subst m2. destruct (last L) as [q|]; [|eauto]. rewrite lookup_alter_ne; [eauto|]. by apply Hq2. }
  apply (with_list_upd _ _ _ _ _ s2); [done|].
  change (alter _ l m2) with (link l (last L) m). apply HQ.
  - by apply (link_idle m v L l s).
  - apply link_bare.
  - apply link_server_same.
Qed.

Lemma linked_id m v L l s : idle m v L -> m !! l = Some s -> l ∈ L -> alter linked l (bare m) = bare m.
Proof.
  intros Hi Hl Hin. apply map_eq. intros j. rewrite lookup_alter. case_decide; [|done]. subst.
  rewrite (lookup_bare _ _ _ Hl). cbn. f_equal.
  pose proof (idle_flag _ _ _ Hi _ _ Hl) as Hf. rewrite bool_decide_true in Hf by done.
  destruct s; cbn in *; by subst.
Qed.

Lemma wp_push_tail w m v L l s Q : idle m v L -> m !! l = Some s ->
  (forall m' v', idle m' v' (without l L ++ [l]) -> bare m' = alter linked l (bare m) ->
     same_server v v' -> Q tt (with_list w m' v')) ->
  Os.wp (idle_list_push_tail l) Q (with_list w m v).
Proof.
  intros Hi Hl HQ. unfold idle_list_push_tail. apply Os.wp_bind, (with_list_session _ _ _ _ s); [done|].
  rewrite (idle_flag _ _ _ Hi l s Hl). destruct (decide (l ∈ L)) as [Hin|Hout].
  2:{ rewrite bool_decide_false by done. apply (wp_link_tail _ _ _ L l s); [done..|].
      by rewrite without_absent in HQ. }
  rewrite bool_decide_true by done. apply Os.wp_bind, (wp_get_socks v); [done|].
  rewrite (idle_last _ _ _ Hi). destruct (decide (last L = Some l)) as [Hlast|Hlast].
  - apply Os.wp_ret. apply HQ.
    + apply last_Some in Hlast as (L0 & ->). pose proof (idle_nodup _ _ _ Hi) as Hn.
      rewrite without_middle by done. by rewrite app_nil_r.
    + symmetry. by apply (linked_id m v L l s).
    + done.
  - apply Os.wp_bind, (wp_idle_remove _ _ _ L l s); [done..|]. intros m1 v1 Hi1 Hb1 Hv1.
    assert (exists s1, m1 !! l = Some s1) as [s1 Hs1].
    { apply lookup_bare in Hl. pose proof (f_equal (lookup l) Hb1) as He.
      rewrite lookup_alter_eq, Hl in He. cbn in He. apply bare_lookup in He as (s1 & ? & _). eauto. }
    apply (wp_link_tail _ _ _ (without l L) l s1); [done..|by intros [? _]%list_elem_of_filter|].
    intros m2 v2 Hi2 Hb2 Hv2. apply HQ; [done| |].
    + rewrite Hb2, Hb1. apply map_eq. intros j. rewrite !lookup_alter. repeat case_decide; try done. by destruct (bare m !! l).
    + unfold same_server in *. intuition congruence.
Qed.

Definition touched (now : Z) (s : socks_session) : socks_session := s <| last_activity := now |>.

Lemma idle_alter m v L l f : idle m v L -> (forall s, (f s).(idle_prev) = s.(idle_prev) /\
  (f s).(idle_next) = s.(idle_next) /\ (f s).(in_idle_list) = s.(in_idle_list)) -> idle (alter f l m) v L.
Proof.
  intros [Hn Hh Ht Hf Hk] Hfs. split; [done..| |].
  - intros x s. rewrite lookup_alter. case_decide; [|by apply Hf]. subst.
    intros Hs. apply fmap_Some in Hs as (s0 & Hs0 & ->). rewrite (proj2 (proj2 (Hfs s0))). by apply Hf.
  - intros L1 x L2 HL. destruct (Hk _ _ _ HL) as (s & Hs & Hp & Hnx).
    rewrite lookup_alter. case_decide; [|eauto]. subst. rewrite Hs. cbn.
    destruct (Hfs s) as (E1 & E2 & _). eexists. split; [done|]. by rewrite E1, E2.
Qed.

(** The list after a session was active at [now]. *)
Definition moved (l : loc) (L : list loc) : list loc :=
  if decide (l ∈ L) then without l L ++ [l] else L.

Lemma wp_touch w m v L l s Q : idle m v L -> m !! l = Some s ->
  (forall m' v' now, idle m' v' (moved l L) -> bare m' = alter (touched now) l (bare m) ->
     same_server v v' ->
     forall e, Os.os_time (env w) = (now, e) ->
     Q tt (with_list (Os.on_env e w) m' v')) ->
  Os.wp (socks_session_touch l) Q (with_list w m v).
Proof.
  intros Hi Hl HQ. unfold socks_session_touch. apply Os.wp_bind, Os.wp_os. intros now e He.
  change (Os.env _) with (env w) in He.
  set (w1 := Os.on_env e w).
  change (Os.wp _ _ (Os.on_env e (with_list w m v))) with
    (Os.wp (upd_session l (touched now) ;;
      s ← get_session l; if in_idle_list s then idle_list_push_tail l else mret tt) Q (with_list w1 m v)).
  apply Os.wp_bind, (with_list_upd _ _ _ _ _ s); [done|].
  assert (Hi1 : idle (alter (touched now) l m) v L) by by apply idle_alter.
  assert (Hl1 : alter (touched now) l m !! l = Some (touched now s)) by (rewrite lookup_alter_eq, Hl; done).
  apply Os.wp_bind, (with_list_session _ _ _ _ (touched now s)); [done|].
  cbn [in_idle_list touched]. change (in_idle_list (touched now s)) with (in_idle_list s).
  rewrite (idle_flag _ _ _ Hi l s Hl).
  assert (Hb1 : bare (alter (touched now) l m) = alter (touched now) l (bare m)) by by apply bare_alter.
  unfold moved in HQ. destruct (decide (l ∈ L)) as [Hin|Hout].
  - rewrite bool_decide_true by done. apply (wp_push_tail _ _ _ L l (touched now s)); [done..|].
    intros m' v' Hi' Hb' Hv'. apply (HQ m' v' now); [done| |done..].
    rewrite Hb', <- Hb1. by apply (linked_id _ v L l (touched now s)).
  - rewrite bool_decide_false by done. apply Os.wp_ret. by apply (HQ _ _ now).
Qed.

(** * Any sequence of operations *)

Inductive op := Push (l : loc) | Remove (l : loc) | Touch (l : loc).

Definition target (o : op) : loc := match o with Push l | Remove l | Touch l => l end.

Definition perform (o : op) : Os.M handler data program E unit :=
  match o with
  | Push l => idle_list_push_tail l
  | Remove l => idle_list_remove l
  | Touch l => socks_session_touch l
  end.

Definition spec (L : list loc) (o : op) : list loc :=
  match o with
  | Push l => without l L ++ [l]
  | Remove l => without l L
  | Touch l => moved l L
  end.

Fixpoint run (os : list op) : Os.M handler data program E unit :=
  match os with [] => mret tt | o :: os => perform o ;; run os end.

(** What none of them touches. *)
Definition core (s : socks_session) : socks_session :=
  (strip s) <| last_activity := 0 |> <| in_idle_list := false |>.
Definition cores (m : gmap loc socks_session) : gmap loc socks_session := core <$> m.

Lemma core_strip s : core (strip s) = core s.
Proof. done. Qed.

Lemma cores_bare m g l m' : bare m' = alter g l (bare m) -> (forall s, core (g s) = core s) ->
  cores m' = cores m.
Proof.
  intros Hb Hg. assert (Hc : forall m0, cores m0 = core <$> bare m0).
  { intros m0. unfold cores, bare. rewrite <- map_fmap_compose. by apply map_fmap_ext. }
  rewrite (Hc m'), (Hc m), Hb. apply map_eq. intros j. rewrite !lookup_fmap, lookup_alter.
  case_decide; [|done]. subst. destruct (bare m !! j); cbn; [|done]. by rewrite Hg.
Qed.

Lemma cores_lookup m m' l : cores m' = cores m -> is_Some (m !! l) -> is_Some (m' !! l).
Proof.
  intros Hc [s Hs]. pose proof (f_equal (lookup l) Hc) as Hl. unfold cores in Hl.
  rewrite !lookup_fmap, Hs in Hl. destruct (m' !! l); [eauto|done].
Qed.

Lemma perform_refines o w m v L : idle m v L -> (prog w).(sessions) = m -> (prog w).(socks) = Some v ->
  is_Some (m !! target o) ->
  Os.wp (perform o) (fun _ w' => exists m' v', idle m' v' (spec L o) /\
    (prog w').(sessions) = m' /\ (prog w').(socks) = Some v' /\
    cores m' = cores m /\ same_server v v') w.
Proof.
  intros Hi Hm Hv [s Hs]. rewrite <- (with_list_same w m v Hm Hv). destruct o as [l|l|l]; cbn in *.
  - apply (wp_push_tail _ _ _ L l s); [done..|]. intros m' v' H1 H2 H3. exists m', v'.
    split_and!; try done. by eapply cores_bare.
  - apply (wp_idle_remove _ _ _ L l s); [done..|]. intros m' v' H1 H2 H3. exists m', v'.
    split_and!; try done. by eapply cores_bare.
  - apply (wp_touch _ _ _ L l s); [done..|]. intros m' v' now H1 H2 H3 e _. exists m', v'.
    split_and!; try done. by eapply cores_bare.
Qed.


End IdleList.

(** Three sessions, none listed yet. *)
Definition sample_heap : gmap loc socks_session :=
  <[1%positive := zero_session]> (<[2%positive := zero_session]> {[3%positive := zero_session]}).
Definition sample_state (e : Scripted.script) : Os.st handler data program Scripted.script :=
  Selector.mk_state (Selector.mk_selector None 0 0 false [] 0 0 0 0 [])
    (Os.mk_sys (mk_program sample_heap 4%positive (Some (mk_socks_server 3 1080 3 None None)) [] ∅
       1%positive None None false) e []).

Lemma sample_idle : idle sample_heap (mk_socks_server 3 1080 3 None None) [].
Proof.
  split; [constructor|done|done| |].
  - intros l s Hs. rewrite bool_decide_false by set_solver. unfold sample_heap in Hs.
    repeat (apply lookup_insert_Some in Hs as [[_ <-]|[_ Hs]]; [done|]).
    by apply lookup_singleton_Some in Hs as [_ <-].
  - by intros [].
Qed.


End IdleList.
