(* ===== verification/SocksInv.v ===== *)
(** The invariant of the proxy: what ties the sessions of socks.c, the
    selector's table, the idle list, the counter of sessions and the store
    together between two steps of a callback. *)
From S2P Require Import Prelude CBuffer ByteParser Greeting Auth Request Selector Os SelectorRules Inet.
From S2P Require Import Store Users AccessLog Sessions Acl StoreInv Program Socks IdleList.
Import Store Program Socks IdleList.
Local Open Scope Z_scope.

Module SocksInv.

Export SelectorRules.

Abbreviation selector := (@Selector.selector handler data).
Implicit Types (sl : selector) (it : item).

(** * A session *)

(** Arithmetic on the numbers of the states. *)
Ltac state_lia := unfold SOCKS_ST_AUTH_GREETING, SOCKS_ST_AUTH_USERPASS, SOCKS_ST_REQUEST,
  SOCKS_ST_RESOLVING, SOCKS_ST_ORIGIN_CONNECTING, SOCKS_ST_RELAY, SOCKS_ST_DONE in *; lia.

Definition state_of (s : socks_session) : nat := default SOCKS_ST_AUTH_GREETING s.(current).

(** The parsers were fed some bytes and want more. *)
Definition auth_waits (p : Auth.socks_auth_parser) : Prop := exists p0 bs, Auth.wf p0 /\
  drain (Auth.socks_auth_parser_init p0) bs = Ok (Auth.SOCKS_AUTH_NEED_MORE, p, []).
Definition request_waits (p : Request.socks_request_parser) : Prop := exists p0 p1 bs,
  length (Request.fqdn p0) = 256%nat /\ Request.socks_request_parser_init p0 = Ok p1 /\
  drain p1 bs = Ok (Request.SOCKS_REQUEST_NEED_MORE, p, []).

(** What the replies of the states up to [i] can have left in [o2c]. *)
Definition reply_bound (i : nat) : nat :=
  match i with 0 => 0 | 1 => 2 | 2 | 3 | 4 => 4 | _ => 14 end%nat.

(** A session the idle timeout has not closed answers at most once more. *)
Definition answering (s : socks_session) : Prop :=
  (state_of s <= SOCKS_ST_ORIGIN_CONNECTING)%nat \/
  (state_of s = SOCKS_ST_DONE /\ s.(in_idle_list) = true).

Record session_ok (N : Z) (s : socks_session) : Prop := {
  so_c2o : CBuffer.wf s.(c2o);
  so_o2c : CBuffer.wf s.(o2c);
  so_limit : (1024 <= s.(o2c).(CBuffer.limit))%nat;
  so_state : (state_of s <= SOCKS_ST_DONE)%nat;
  so_client : 0 <= s.(client_fd) < N;
  so_origin : s.(origin_fd) = -1 \/ 0 <= s.(origin_fd) < N;
  so_alone : answering s -> state_of s <> SOCKS_ST_ORIGIN_CONNECTING -> s.(origin_fd) = -1;
  so_replies : answering s -> (s.(o2c).(CBuffer.write) <= reply_bound (state_of s))%nat;
  so_auth : (state_of s <= SOCKS_ST_AUTH_USERPASS)%nat -> auth_waits s.(auth);
  so_request : (state_of s <= SOCKS_ST_REQUEST)%nat -> request_waits s.(request);
}.

(** While the connection to the origin is under way nothing is read from it. *)
Definition armed (sl : selector) (s : socks_session) : Prop :=
  state_of s = SOCKS_ST_ORIGIN_CONNECTING -> forall it,
  Selector.entry sl s.(origin_fd) = Some it -> it.(Selector.interest) = Selector.OP_WRITE.

(** * The process *)

Section World.
Context {E : Type} {OS : Os.Os E} {IN : Inet}.
Abbreviation st := (Os.st handler data program E).
Abbreviation M := (Os.M handler data program E).

(** What of the program's data no event of a session changes: the monitor's
    side, the request to stop, and the proxy's listening descriptor. *)
Definition rest (p : program) :=
  (p.(clients), p.(next_client), p.(monitor), p.(stop), listen_fd <$> p.(socks)).

(** What a callback of the proxy leaves as it is: the frame of the table, the
    deny lists, the monitor's entries in the table, the rest of the program,
    and what was done before. *)
Record fixed := mk_fixed {
  fx_frame : nat * Z * bool * list Z * Z;
  fx_acl : Acl.acl;
  fx_monitor : gmap Z item;
  fx_rest : gmap loc monitor_session * loc * option monitor_server * bool * option Z;
  fx_trace : list Os.io;
}.
Definition table_size (F : fixed) : Z := F.(fx_frame).1.1.1.2.
Definition listens (F : fixed) (k : Z) : Prop := F.(fx_rest).2 = Some k.

(** Whether the deny lists forbid an address. *)
Definition forbids (a : Acl.acl) (addr : Request.sockaddr_storage) : Prop :=
  exists text t, addr_text addr = Some text /\ Acl.parse_ip text = Some t /\ t ∈ a.(Acl.addresses).
Definition allowed (a : Acl.acl) (i : Os.io) : Prop :=
  match i with Os.IoConnect _ addr => ~ forbids a addr | _ => True end.

(** Whose descriptor an entry of the table is. *)
Definition owner (F : fixed) (B : gmap loc socks_session) (k : Z) (it : item) : Prop :=
  match it.(Selector.handler), it.(Selector.data) with
  | Some SocksClient, Some (Session l) => exists s, B !! l = Some s /\ s.(client_fd) = k
  | Some SocksOrigin, Some (Session l) => exists s, B !! l = Some s /\ s.(origin_fd) = k
  | Some SocksPassive, Some SocksServer => listens F k
  | Some MonitorClient, Some (Client _) => F.(fx_monitor) !! k = Some it
  | Some MonitorPassive, Some MonitorServer => F.(fx_monitor) !! k = Some it
  | _, _ => False
  end.

Definition registered (sl : selector) (k : Z) (h : handler) (d : data) : Prop :=
  exists it, Selector.entry sl k = Some it /\ it.(Selector.handler) = Some h /\
    it.(Selector.data) = Some d.

(** The entries that are no session's. *)
Definition monitors (it : item) : Prop :=
  it.(Selector.handler) = Some MonitorClient \/ it.(Selector.handler) = Some MonitorPassive.
Record standing (F : fixed) (sl : selector) : Prop := {
  sd_monitor : forall k it, F.(fx_monitor) !! k = Some it ->
    Selector.entry sl k = Some it /\ monitors it;
  sd_listen : forall k, listens F k -> 0 <= k -> registered sl k SocksPassive SocksServer;
}.

(** None of them is at [k]. *)
Definition apart (F : fixed) (k : Z) : Prop := F.(fx_monitor) !! k = None /\ (0 <= k -> ~ listens F k).

(** The table and the sessions agree: every entry has its session, and every
    session its entries. *)
Record tables (F : fixed) (sl : selector) (B : gmap loc socks_session) : Prop := {
  tb_wf : Selector.wf sl;
  tb_frame : frame sl = F.(fx_frame);
  tb_quiet : quiet sl;
  tb_passive : forall k it, Selector.entry sl k = Some it ->
    it.(Selector.handler) = Some SocksPassive -> Selector.has Selector.OP_WRITE it.(Selector.interest) = false;
  tb_owner : forall k it, Selector.entry sl k = Some it -> owner F B k it;
  tb_client : forall l s, B !! l = Some s -> registered sl s.(client_fd) SocksClient (Session l);
  tb_origin : forall l s, B !! l = Some s -> s.(origin_fd) <> -1 ->
    registered sl s.(origin_fd) SocksOrigin (Session l);
  tb_standing : standing F sl;
}.

Lemma standing_set F sl sl' k o : standing F sl -> entries_set sl sl' k o -> apart F k -> standing F sl'.
Proof.
  intros [H1 H2] [_ _ S3 _] [A1 A2]. split.
  - intros j it Hj. rewrite S3. case_decide; [subst; congruence|by apply H1].
  - intros j Hj H0. destruct (H2 j Hj H0) as (it & Hit & Hx). exists it. rewrite S3.
    case_decide; [subst; by destruct (A2 H0)|done].
Qed.

Lemma free_apart F sl k : standing F sl -> Selector.entry sl k = None -> apart F k.
Proof.
  intros [H1 H2] He. split.
  - destruct (F.(fx_monitor) !! k) as [it|] eqn:Hk; [|done]. destruct (H1 k it Hk). congruence.
  - intros H0 Hl. destruct (H2 k Hl H0) as (it & Hit & _). congruence.
Qed.

Lemma session_apart F sl k h l : standing F sl -> registered sl k h (Session l) ->
  h = SocksClient \/ h = SocksOrigin -> apart F k.
Proof.
  intros [H1 H2] (it & Hit & Hh & Hd) Hc. split.
  - destruct (F.(fx_monitor) !! k) as [it'|] eqn:Hk; [|done].
    destruct (H1 k it' Hk) as [He [Hm|Hm]]; destruct Hc; congruence.
  - intros H0 Hl. destruct (H2 k Hl H0) as (it' & Hit' & Hh' & _). destruct Hc; congruence.
Qed.

Definition store_fine (a : Acl.acl) (t : monitor_store) : Prop :=
  Acl.rep t a /\ 1024 <= t.(io_buffer_size).

(** The process with sessions [B], links aside. *)
Record world (F : fixed) (B : gmap loc socks_session) (w : st) : Prop := {
  wo_bare : bare (prog w).(sessions) = B;
  wo_server : exists v L, (prog w).(socks) = Some v /\ idle (prog w).(sessions) v L /\
    v.(active_sessions) = Z.of_nat (size B);
  wo_next : forall l : loc, is_Some (B !! l) -> (l < (prog w).(next_session))%positive;
  wo_store : exists t, (prog w).(store) = Some t /\ store_fine F.(fx_acl) t;
  wo_tables : tables F w.(Selector.sel) B;
  wo_trace : exists new, trace w = new ++ F.(fx_trace) /\ Forall (allowed F.(fx_acl)) new;
  wo_size : table_size F <= 65536;
  wo_rest : rest (prog w) = F.(fx_rest);
}.

Definition fine (F : fixed) (sl : selector) (s : socks_session) : Prop :=
  session_ok (table_size F) s /\ armed sl s.

(** The invariant between events. *)
Definition inv (F : fixed) (w : st) : Prop := exists B, world F B w /\
  forall l s, B !! l = Some s -> fine F w.(Selector.sel) s.

(** The invariant but for session [l], of which [s] is the present value; [B]
    are the other sessions. *)
Record here (F : fixed) (B : gmap loc socks_session) (l : loc) (s : socks_session) (w : st) : Prop := {
  he_world : world F (<[l := strip s]> B) w;
  he_new : B !! l = None;
  he_fine : forall l' s', B !! l' = Some s' -> fine F w.(Selector.sel) s';
  he_at : (prog w).(sessions) !! l = Some s;
}.

Lemma fine_strip F sl s : fine F sl (strip s) <-> fine F sl s.
Proof. by split; intros [[] Ha]; split. Qed.

Lemma here_intro F w l s : inv F w -> (prog w).(sessions) !! l = Some s ->
  here F (delete l (bare (prog w).(sessions))) l s w /\ fine F w.(Selector.sel) s.
Proof.
  intros (B & Hw & Hf) Hl. pose proof (lookup_bare _ _ _ Hl) as Hb. rewrite (wo_bare _ _ _ Hw) in *.
  split; [|apply fine_strip; by eapply Hf]. split.
  - by rewrite insert_delete_id.
  - apply lookup_delete_eq.
  - intros l' s' [_ Hl']%lookup_delete_Some. by eapply Hf.
  - done.
Qed.

Lemma here_elim F B w l s : here F B l s w -> fine F w.(Selector.sel) s -> inv F w.
Proof.
  intros [Hw Hn Hf Hl] Hs. exists (<[l := strip s]> B). split; [done|].
  intros l' s' [[<- <-]|[_ Hl']]%lookup_insert_Some; [by apply fine_strip|by eapply Hf].
Qed.

Lemma wp_get F B l s w Q : here F B l s w -> Q s w -> Os.wp (get_session l) Q w.
Proof. intros Hh HQ. apply (wp_get_session l s); [by destruct Hh|done]. Qed.

Lemma tables_same F sl B l s s' : B !! l = Some s -> client_fd s' = client_fd s ->
  origin_fd s' = origin_fd s -> tables F sl B -> tables F sl (<[l := s']> B).
Proof.
  intros Hl Hc Ho [H1 H2 Hq Hp H3 H4 H5 H6]. split; [done|done|done|done| | | |done].
  - intros k it Hk. specialize (H3 k it Hk). unfold owner in *.
    destruct (Selector.handler it) as [[]|], (Selector.data it) as [[]|]; try done;
      destruct H3 as (s1 & Hs1 & <-); destruct (decide (l0 = l)) as [->|Hne].
    1,3: exists s'; rewrite lookup_insert_eq; split; [done|congruence].
    all: exists s1; by rewrite lookup_insert_ne.
  - intros l' s1 [[<- <-]|[_ Hl']]%lookup_insert_Some; [rewrite Hc|]; by eapply H4.
  - intros l' s1 [[<- <-]|[_ Hl']]%lookup_insert_Some; [rewrite Ho|]; by eapply H5.
Qed.

(** ** Rules for the session at hand *)

(** The sessions and the pointers of the list when a session changes but for
    its links. *)
Definition links (s : socks_session) := (s.(idle_prev), s.(idle_next), s.(in_idle_list)).

Lemma idle_insert m v L l s s' : idle m v L -> m !! l = Some s -> links s' = links s ->
  idle (<[l := s']> m) v L.
Proof.
  intros [I1 I2 I3 I4 I5] Hl [= Hp Hn Hi]. split; [done..| |].
  - intros x sx [[<- <-]|[_ Hx]]%lookup_insert_Some; [|by eapply I4].
    by rewrite Hi, (I4 _ _ Hl).
  - intros L1 x L2 HL. destruct (I5 _ _ _ HL) as (sx & Hx & Hpx & Hnx).
    destruct (decide (x = l)) as [->|Hne].
    + exists s'. rewrite lookup_insert_eq. replace sx with s in * by congruence. by rewrite Hp, Hn.
    + exists sx. by rewrite lookup_insert_ne.
Qed.

(** The session may change but for its descriptors and its links. *)
Definition keeps_place (s s' : socks_session) : Prop :=
  client_fd s' = client_fd s /\ origin_fd s' = origin_fd s /\ links s' = links s.

Lemma here_put F B l s s' w : here F B l s w -> keeps_place s s' -> here F B l s' (put l s' w).
Proof.
  intros [[W1 (v & L & W2a & W2b & W2c) W3 W4 W5 W6 W7 W8] Hn Hr Hl] (Hc & Ho & Hk).
  split; [|done|done|cbn; apply lookup_insert_eq].
  assert (Hb : bare (<[l := s']> (prog w).(sessions)) = <[l := strip s']> B).
  { by rewrite bare_insert, W1, insert_insert_eq. }
  split; try done.
  - exists v, L. split_and!; [done|by apply (idle_insert _ _ _ _ s)|].
    by rewrite W2c, !map_size_insert_None.
  - intros x Hx. apply W3. destruct (decide (x = l)) as [->|Hne].
    + rewrite lookup_insert_eq. eauto.
    + by rewrite !lookup_insert_ne in * by done.
  - rewrite <- (insert_insert_eq B l (strip s') (strip s)).
    by apply (tables_same _ _ _ l (strip s)); [apply lookup_insert_eq|..].
Qed.

Lemma wp_upd F B l s f w Q : here F B l s w -> keeps_place s (f s) ->
  (here F B l (f s) (put l (f s) w) -> Q tt (put l (f s) w)) -> Os.wp (upd_session l f) Q w.
Proof. intros Hh Hk HQ. apply (wp_upd_put l f s); [by destruct Hh|]. by apply HQ, (here_put _ _ _ s). Qed.

Lemma wp_set F B l s s' w Q : here F B l s w -> keeps_place s s' ->
  (here F B l s' (put l s' w) -> Q tt (put l s' w)) -> Os.wp (set_session l s') Q w.
Proof. intros Hh Hk HQ. apply (wp_set_session l s); [by destruct Hh|]. by apply HQ, (here_put _ _ _ s). Qed.

(** Steps that concern neither sessions nor table. *)
Lemma here_env F B l s e w : here F B l s w -> here F B l s (Os.on_env e w).
Proof. intros [[] Hn Hr Hl]. by split. Qed.

Lemma here_trace F B l s i w : here F B l s w -> allowed F.(fx_acl) i -> here F B l s (Os.on_trace i w).
Proof.
  intros [[? ? ? ? ? (new & Ht & Ha) ? ?] Hn Hr Hl] Hi. split; try done. split; try done.
  exists (i :: new). split; [|by apply Forall_cons].
  change (trace (Os.on_trace i w)) with (i :: trace w). by rewrite Ht.
Qed.

Lemma here_prog F B l s f w : here F B l s w ->
  sessions (f (prog w)) = sessions (prog w) -> next_session (f (prog w)) = next_session (prog w) ->
  socks (f (prog w)) = socks (prog w) ->
  (forall t, store (prog w) = Some t -> store_fine F.(fx_acl) t ->
     exists t', store (f (prog w)) = Some t' /\ store_fine F.(fx_acl) t') ->
  rest (f (prog w)) = rest (prog w) ->
  here F B l s (Os.on_prog f w).
Proof.
  intros [[W1 W2 W3 (t & W4 & W4') W5 W6 W7 W8] Hn Hr Hl] F1 F2 F3 F4 F5.
  split; [|done|done|change (sessions (f (prog w)) !! l = Some s); by rewrite F1].
  split; change (prog (Os.on_prog f w)) with (f (prog w)); rewrite ?F1, ?F2, ?F3, ?F5; eauto.
Qed.

Lemma wp_store F B l s w Q : here F B l s w ->
  (forall t, (prog w).(store) = Some t -> store_fine F.(fx_acl) t -> Q t w) -> Os.wp get_store Q w.
Proof.
  intros [[W1 W2 W3 (t & W4 & W4') W5 W6 W7 W8] Hn Hr Hl] HQ.
  apply (wp_get_store t); [done|]. by apply HQ.
Qed.

Lemma wp_update_store F B l s f w Q : here F B l s w ->
  (forall t, store_fine F.(fx_acl) t -> store_fine F.(fx_acl) (f t)) ->
  (forall w', here F B l s w' -> Selector.sel w' = Selector.sel w -> trace w' = trace w -> Q tt w') ->
  Os.wp (upd_store f) Q w.
Proof.
  intros Hh Hf HQ. destruct (wo_store _ _ _ (he_world _ _ _ _ _ Hh)) as (t & Ht & Hfi).
  apply (wp_upd_store f t); [done|]. apply HQ; [|done..].
  apply here_prog; [done..| |done]. intros t0 Ht0 Hfi0. exists (f t). split; [done|by apply Hf].
Qed.

Lemma wp_os_here F B l s {A} (f : E -> A * E) w Q : here F B l s w ->
  (forall a e, f (env w) = (a, e) -> here F B l s (Os.on_env e w) -> Q a (Os.on_env e w)) ->
  Os.wp (Os.os f) Q w.
Proof. intros Hh HQ. apply Os.wp_os. intros a e Hfe. apply HQ; [done|]. by apply here_env. Qed.

(** The session operations of the store leave lists and configuration alone. *)
Lemma store_step a o t : store_fine a t -> store_fine a (Sessions.perform t o).2.
Proof.
  intros [Hr Hi]. destruct (Sessions.perform t o) as [id t'] eqn:Ho.
  destruct (StoreInv.sessions_frame _ _ _ _ Ho) as (F1 & F2 & _). split; [by eapply StoreInv.acl_same|].
  injection F1 as _ E2. cbn. by rewrite E2.
Qed.

End World.

End SocksInv.
