(* ===== verification/SocksRules.v ===== *)
(** Rules of the proxy's building blocks under the invariant: activity times,
    queued replies, interests, and the closing of an origin and of a client. *)
From S2P Require Import Prelude CBuffer Stm Selector Os Inet Store Sessions Acl Program Socks.
From S2P Require Import SocksServer IdleList SocksInv.
Import Store Program Socks SocksServer IdleList SocksInv.
Local Open Scope Z_scope.

Module SocksRules.

(** Equal but for links and activity times. *)
Definition same_core (s s' : socks_session) : Prop :=
  core s' = core s /\ s'.(in_idle_list) = s.(in_idle_list).

Lemma same_core_refl s : same_core s s.
Proof. by split. Qed.

(** Turn an equation between cores into the fields' equations. *)
Ltac core_fields Hc :=
  let H := fresh "Hc" in
  pose proof (f_equal client_fd Hc) as H; cbn in H; let H := fresh "Hc" in
  pose proof (f_equal origin_fd Hc) as H; cbn in H; let H := fresh "Hc" in
  pose proof (f_equal c2o Hc) as H; cbn in H; let H := fresh "Hc" in
  pose proof (f_equal o2c Hc) as H; cbn in H; let H := fresh "Hc" in
  pose proof (f_equal current Hc) as H; cbn in H; let H := fresh "Hc" in
  pose proof (f_equal auth Hc) as H; cbn in H; let H := fresh "Hc" in
  pose proof (f_equal request Hc) as H; cbn in H; let H := fresh "Hc" in
  pose proof (f_equal close_after_flush Hc) as H; cbn in H; let H := fresh "Hc" in
  pose proof (f_equal store_id Hc) as H; cbn in H.

Section Rules.
Context {E : Type} {OS : Os.Os E} {IN : Inet}.
Abbreviation st := (Os.st handler data program E).
Abbreviation M := (Os.M handler data program E).
Variables (F : fixed) (B : gmap loc socks_session).
Implicit Types (w : st) (sl : selector).

Lemma fine_core sl s s' : same_core s s' -> fine F sl s -> fine F sl s'.
Proof.
  intros [Hc Hi] [[H1 H2 H3 H4 H5 H6 H7 H8 H9 H10] Ha]. core_fields Hc.
  assert (Hs : state_of s' = state_of s) by (unfold state_of; congruence).
  assert (Han : answering s' <-> answering s) by (unfold answering; by rewrite Hs, Hi).
  split; [split; rewrite ?Hs, ?Han; try congruence; rewrite ?Hc0, ?Hc1, ?Hc2, ?Hc3, ?Hc5, ?Hc6; done|].
  unfold armed. by rewrite Hs, Hc1.
Qed.

(** The list operations change links, and the session at hand by [f]. *)
Lemma here_relist l s w f m' v v' L : here F B l s w -> (prog w).(socks) = Some v ->
  idle m' v' L -> same_server v v' -> bare m' = alter f l (bare (prog w).(sessions)) ->
  strip (f (strip s)) = f (strip s) -> core (f (strip s)) = core s ->
  exists s', strip s' = f (strip s) /\ here F B l s' (with_list w m' v').
Proof.
  intros [[W1 (v0 & L0 & W2a & W2b & W2c) W3 W4 W5 W6 W7 W8] Hn Hr Hl] Hv Hi (V1 & V2 & V3) Hb Hf Hc.
  replace v0 with v in * by congruence.
  assert (Hb' : bare m' = <[l := f (strip s)]> B).
  { rewrite Hb, W1. apply map_eq. intros j. rewrite lookup_alter, !lookup_insert. by repeat case_decide. }
  destruct (bare_lookup m' l (f (strip s))) as (s' & Hs' & He); [by rewrite Hb', lookup_insert_eq|].
  exists s'. split; [done|]. rewrite He in Hb'. split; try done. split; try done.
  - exists v', L. split_and!; [done|done|]. rewrite V3, W2c, !map_size_insert_None; done.
  - intros x Hx. apply W3. destruct (decide (x = l)) as [->|Hne]; [rewrite lookup_insert_eq; eauto|].
    by rewrite !lookup_insert_ne in * by done.
  - rewrite <- (insert_insert_eq B l (strip s') (strip s)). rewrite He in Hc.
    apply (tables_same _ _ _ l (strip s)); [apply lookup_insert_eq|..|done];
      [pose proof (f_equal client_fd Hc)|pose proof (f_equal origin_fd Hc)]; done.
  - rewrite <- W8. unfold rest. cbn. by rewrite Hv, V1.
Qed.

(** The server and its list. *)
Lemma here_list l s w : here F B l s w -> exists v L, (prog w).(socks) = Some v /\
  idle (prog w).(sessions) v L.
Proof. intros [[_ (v & L & H1 & H2 & _) _ _ _ _ _ _] _ _ _]. by exists v, L. Qed.

Lemma rule_touch l s w Q : here F B l s w ->
  (forall s' w', here F B l s' w' -> same_core s s' -> Selector.sel w' = Selector.sel w ->
     trace w' = trace w -> Q tt w') ->
  Os.wp (socks_session_touch l) Q w.
Proof.
  intros Hh HQ. destruct (here_list l s w Hh) as (v & L & Hv & Hi).
  rewrite <- (with_list_same w _ v eq_refl Hv).
  apply (wp_touch _ _ _ L l s); [done|apply Hh|]. intros m' v' now Hi' Hb Hs e _.
  destruct (here_relist l s (Os.on_env e w) (touched now) m' v v' (moved l L)) as (s' & He & Hh');
    [by apply here_env|done..|]. apply (HQ s'); [done| |done..].
  split; [by rewrite <- (core_strip s'), He|exact (f_equal in_idle_list He)].
Qed.

Lemma rule_idle_remove l s w Q : here F B l s w ->
  (forall s' w', here F B l s' w' -> core s' = core s -> s'.(in_idle_list) = false ->
     Selector.sel w' = Selector.sel w -> trace w' = trace w -> Q tt w') ->
  Os.wp (idle_list_remove l) Q w.
Proof.
  intros Hh HQ. destruct (here_list l s w Hh) as (v & L & Hv & Hi).
  rewrite <- (with_list_same w _ v eq_refl Hv).
  apply (wp_idle_remove _ _ _ L l s); [done|apply Hh|]. intros m' v' Hi' Hb Hs.
  destruct (here_relist l s w unlinked m' v v' (without l L)) as (s' & He & Hh'); [done..|].
  apply (HQ s'); [done| | |done..]; [by rewrite <- (core_strip s'), He|exact (f_equal in_idle_list He)].
Qed.

Lemma rule_append l s bs w Q : here F B l s w -> CBuffer.wf s.(o2c) ->
  (s.(o2c).(CBuffer.write) + length bs <= s.(o2c).(CBuffer.limit))%nat ->
  (forall b, CBuffer.wf b -> CBuffer.contents b = CBuffer.contents s.(o2c) ++ bs ->
     b.(CBuffer.write) = (s.(o2c).(CBuffer.write) + length bs)%nat ->
     b.(CBuffer.limit) = s.(o2c).(CBuffer.limit) ->
     let s' := s <| o2c := b |> in here F B l s' (put l s' w) -> Q true (put l s' w)) ->
  Os.wp (socks_o2c_append l bs) Q w.
Proof.
  intros Hh Hwf Hfit HQ. unfold socks_o2c_append. apply Os.wp_bind, (wp_get F B _ s); [done|].
  apply Os.wp_bind, (Os.wp_lift _ _ _ _ (CBuffer.write_ptr_wf _ Hwf)).
  rewrite decide_False by (unfold CBuffer.space; lia).
  destruct (CBuffer.append_spec s.(o2c) bs Hwf) as (b & Hb & Hwf' & Hc & _ & Hw & Hlim).
  { unfold CBuffer.space. lia. }
  apply bind_ok in Hb as (b1 & H1 & H2).
  apply Os.wp_bind, (Os.wp_lift _ _ _ _ H1). apply Os.wp_bind, (Os.wp_lift _ _ _ _ H2).
  apply Os.wp_bind, (wp_set F B _ s); [done|done|]. intros Hh'. apply Os.wp_ret. by apply HQ.
Qed.

(** ** Interests *)

Lemma tables_interest sl sl' B0 k i : tables F sl B0 ->
  (forall it, Selector.entry sl k = Some it -> it.(Selector.handler) <> Some SocksPassive) -> apart F k ->
  entries_set sl sl' k ((fun it => it <| Selector.interest := i |>) <$> Selector.entry sl k) ->
  tables F sl' B0.
Proof.
  intros [H1 H2 Hq Hp H3 H4 H5 H6] Hact Hk Hset. pose proof Hset as [S1 S2 S3 S4].
  assert (Hreg : forall j h d, registered sl j h d -> registered sl' j h d).
  { intros j h d (it & Hit & Hh & Hd). unfold registered. rewrite S3. case_decide as Hj; [|eauto].
    subst. rewrite Hit. cbn. eauto. }
  split; [done|congruence|auto| | |eauto|eauto|by eapply standing_set].
  - intros j it Hj. rewrite S3 in Hj. case_decide; [subst|by eapply Hp].
    apply fmap_Some in Hj as (it0 & Hit & ->). cbn. intros Hh. by destruct (Hact _ Hit).
  - intros j it Hj. rewrite S3 in Hj. case_decide; [subst|by apply H3].
    apply fmap_Some in Hj as (it0 & Hit & ->). specialize (H3 _ _ Hit). destruct Hk as [Hk _].
    unfold owner in *. cbn. destruct (Selector.handler it0) as [[]|], (Selector.data it0) as [[]|]; congruence.
Qed.

Lemma registered_unique sl k h d h' d' : registered sl k h d -> registered sl k h' d' ->
  h = h' /\ d = d'.
Proof. intros (it & H1 & H2 & H3) (it' & H1' & H2' & H3'). split; congruence. Qed.

Lemma entry_negative sl k : k < 0 -> Selector.entry sl k = None.
Proof. intros Hk. unfold Selector.entry. rewrite Selector.load_at. by rewrite decide_True. Qed.

(** A descriptor of [l] is nobody else's. *)
Definition mine (s : socks_session) (k : Z) : Prop := k = s.(client_fd) \/ k = s.(origin_fd).

Lemma not_theirs l s sl l' s' k : tables F sl (<[l := s]> B) -> B !! l = None -> B !! l' = Some s' ->
  mine s k -> 0 <= k -> k <> s'.(origin_fd) /\ k <> s'.(client_fd).
Proof.
  intros [_ _ _ _ _ H4 H5 _] Hn Hl' Hk H0. assert (l' <> l) by congruence.
  assert (Hreg : exists h, registered sl k h (Session l)).
  { destruct Hk as [->| ->]; [exists SocksClient; apply H4, lookup_insert_eq|].
    exists SocksOrigin. apply H5; [apply lookup_insert_eq|lia]. }
  destruct Hreg as [h Hreg]. split; intros ->.
  - assert (Hr' : registered sl (origin_fd s') SocksOrigin (Session l')).
    { apply H5; [by rewrite lookup_insert_ne|lia]. }
    destruct (registered_unique _ _ _ _ _ _ Hreg Hr') as [_ [= ->]]. done.
  - assert (Hr' : registered sl (client_fd s') SocksClient (Session l')) by (apply H4; by rewrite lookup_insert_ne).
    destruct (registered_unique _ _ _ _ _ _ Hreg Hr') as [_ [= ->]]. done.
Qed.

(** What is registered there is no listening descriptor. *)
Lemma mine_active l s w k : here F B l s w -> mine s k -> 0 <= k ->
  forall it, Selector.entry w.(Selector.sel) k = Some it -> it.(Selector.handler) <> Some SocksPassive.
Proof.
  intros [[_ _ _ _ [_ _ _ _ _ H4 H5 _] _ _ _] _ _ _] Hm H0 it Hit.
  assert (Hreg : exists h d, h <> SocksPassive /\ registered w.(Selector.sel) k h d).
  { destruct Hm as [->| ->]; [exists SocksClient, (Session l)|exists SocksOrigin, (Session l)]; (split; [done|]).
    - apply (H4 l (strip s)), lookup_insert_eq.
    - apply (H5 l (strip s)); [apply lookup_insert_eq|]. cbn. lia. }
  destruct Hreg as (h & d & Hne & it' & Hit' & Hh & _). rewrite Hit in Hit'. injection Hit' as <-.
  rewrite Hh. congruence.
Qed.

Lemma mine_apart l s w k : here F B l s w -> mine s k -> 0 <= k -> apart F k.
Proof.
  intros [[_ _ _ _ [_ _ _ _ _ H4 H5 H6] _ _ _] _ _ _] Hm H0. destruct Hm as [->| ->].
  - eapply session_apart; [exact H6|apply (H4 l (strip s)), lookup_insert_eq|by left].
  - eapply session_apart; [exact H6|apply (H5 l (strip s)); [apply lookup_insert_eq|cbn; lia]|by right].
Qed.

(** The table changes at a descriptor of the session at hand only. *)
Lemma here_sel l s k sl w : here F B l s w -> mine s k -> 0 <= k ->
  tables F sl (bare (prog w).(sessions)) ->
  (forall j, j <> k -> Selector.entry sl j = Selector.entry w.(Selector.sel) j) ->
  here F B l s (Os.on_sel sl w).
Proof.
  intros [[W1 W2 W3 W4 W5 W6 W7 W8] Hn Hr Hl] Hk H0 Ht Hj. split; try done.
  - split; try done. by rewrite <- W1.
  - intros l' s' Hl'. destruct (Hr _ _ Hl') as [Hok Ha]. split; [done|].
    intros Hs it Hit. apply (Ha Hs). cbn in Hit. rewrite Hj in Hit; [done|].
    apply not_eq_sym. by apply (not_theirs l (strip s) w.(Selector.sel) l').
Qed.

Lemma here_tables l s w : here F B l s w -> tables F w.(Selector.sel) (bare (prog w).(sessions)).
Proof. intros [[W1 W2 W3 W4 W5 W6 W7 W8] _ _ _]. by rewrite W1. Qed.

Lemma here_range l s w : here F B l s w -> table_size F = Selector.fd_size w.(Selector.sel) /\
  table_size F <= 65536 /\ Selector.wf w.(Selector.sel).
Proof.
  intros [[W1 W2 W3 W4 W5 W6 W7 W8] _ _ _]. destruct W5 as [T1 T2 _ _ _ _ _ _].
  unfold table_size. rewrite <- T2. split_and!; [done| |done].
  unfold table_size in W7. by rewrite <- T2 in W7.
Qed.

Definition in_table (k : Z) : Prop := 0 <= k < table_size F.

Lemma rule_interest_raw l s k i w : here F B l s w -> mine s k -> k = -1 \/ in_table k ->
  exists r sl, Selector.selector_set_interest w.(Selector.sel) k i = Ok (r, sl) /\
    here F B l s (Os.on_sel sl w) /\
    forall j, j <> k -> Selector.entry sl j = Selector.entry w.(Selector.sel) j.
Proof.
  intros Hh Hm [->|Hk].
  { exists Selector.SELECTOR_IARGS, w.(Selector.sel). split; [done|]. split; [|done].
    by destruct w as [sl u]. }
  destruct (here_range _ _ _ Hh) as (R1 & R2 & R3). unfold in_table in Hk.
  destruct (set_interest_entry w.(Selector.sel) k i R3) as (r & sl & Heq & Hset); [lia..|].
  exists r, sl. split; [done|].
  assert (Hj : forall j, j <> k -> Selector.entry sl j = Selector.entry w.(Selector.sel) j).
  { intros j Hne. by rewrite (es_entry _ _ _ _ Hset), decide_False. }
  split; [|done]. apply (here_sel l s k); [done|done|lia| |done].
  eapply tables_interest; [by eapply here_tables| | |exact Hset].
  - apply (mine_active l s); [done|done|lia].
  - apply (mine_apart l s w); [done|done|lia].
Qed.

Lemma rule_interest l s k i w Q : here F B l s w -> mine s k -> k = -1 \/ in_table k ->
  (forall sl, here F B l s (Os.on_sel sl w) ->
     (forall j, j <> k -> Selector.entry sl j = Selector.entry w.(Selector.sel) j) -> Q tt (Os.on_sel sl w)) ->
  Os.wp (Os.set_interest k i) Q w.
Proof.
  intros Hh Hm Hk HQ. destruct (rule_interest_raw l s k i w Hh Hm Hk) as (r & sl & Heq & Hh' & Hj).
  apply Os.wp_bind. eapply Os.wp_selector; [exact Heq|]. apply Os.wp_ret. by apply HQ.
Qed.

Lemma rule_interest_key l s (k : key) i w Q : here F B l s w -> mine s k.(Selector.key_fd) ->
  in_table k.(Selector.key_fd) ->
  (forall sl, here F B l s (Os.on_sel sl w) ->
     (forall j, j <> k.(Selector.key_fd) -> Selector.entry sl j = Selector.entry w.(Selector.sel) j) ->
     Q tt (Os.on_sel sl w)) ->
  Os.wp (Os.set_interest_key k i) Q w.
Proof.
  intros Hh Hm Hk HQ.
  destruct (rule_interest_raw l s _ i w Hh Hm (or_intror Hk)) as (r & sl & Heq & Hh' & Hj).
  apply Os.wp_bind. eapply (Os.wp_selector _ r sl).
  - unfold Selector.selector_set_interest_key. destruct (here_range _ _ _ Hh) as (R1 & R2 & R3).
    unfold in_table in Hk. by rewrite (in_range_valid w.(Selector.sel)) by (done || lia).
  - apply Os.wp_ret. by apply HQ.
Qed.

(** ** The store *)

Lemma rule_store l s o f w Q : here F B l s w -> (forall t, f t = (Sessions.perform t o).2) ->
  (forall w', here F B l s w' -> Selector.sel w' = Selector.sel w -> trace w' = trace w -> Q tt w') ->
  Os.wp (upd_store f) Q w.
Proof.
  intros Hh Hf HQ. apply (wp_update_store F B l s); [done| |done].
  intros t Ht. rewrite Hf. by apply store_step.
Qed.

(** ** The state machine *)

Lemma put_same l s w : (prog w).(sessions) !! l = Some s -> put l s w = w.
Proof.
  destruct w as [sl [p e t]]. destruct p. unfold put, Os.on_prog. cbn. intros Hl.
  unfold set. cbn. by rewrite insert_id.
Qed.

Lemma stm_current_run k l s w : session_of k = Some l -> (prog w).(sessions) !! l = Some s ->
  stm_current k w = Ok s.(current).
Proof.
  intros Hk Hl. cbn. rewrite load_current_run, Hk. cbn. unfold prog in Hl. by rewrite Hl.
Qed.

Lemma stm_set_current_run k l s c w : session_of k = Some l -> (prog w).(sessions) !! l = Some s ->
  stm_set_current k c w = Ok (put l (s <| current := c |>) w).
Proof.
  intros Hk Hl. cbn. rewrite store_current_run, Hk. cbn. unfold prog in Hl. by rewrite Hl.
Qed.

Lemma table_state r b wr i : (i <= SOCKS_ST_DONE)%nat ->
  state_at (machine_of (E := E) r b wr) i = Ok (state_entry i (r i) wr (b i)).
Proof. intros Hi. do 7 (destruct i as [|i]; [done|]). unfold SOCKS_ST_DONE in Hi. lia. Qed.

(** A state after the others have been left out of account. *)
Definition arrived (s : socks_session) (i : nat) : socks_session := s <| current := Some i |>.

(** One event: the machine is in its state, the state's callback runs, the
    machine jumps. *)
Lemma wp_stm ev r b wr k l s f w Q : session_of k = Some l -> here F B l s w ->
  (state_of s <= SOCKS_ST_DONE)%nat ->
  ready ev (state_entry (state_of s) (r (state_of s)) wr (b (state_of s))) = Some f ->
  (let s1 := arrived s (state_of s) in here F B l s1 (put l s1 w) ->
   Os.wp (f k : M nat) (fun next w' => (next <= SOCKS_ST_DONE)%nat /\ exists s', here F B l s' w' /\
     (state_of s' <= SOCKS_ST_DONE)%nat /\
     (here F B l (arrived s' next) (put l (arrived s' next) w') ->
      Q next (put l (arrived s' next) w'))) (put l s1 w)) ->
  Os.wp (stm_call (stm_handler (machine_of r b wr) ev) k) Q w.
Proof.
  intros Hk Hh Hs Hr Hf. pose proof (he_at _ _ _ _ _ Hh) as Hl. set (s1 := arrived s (state_of s)) in *.
  specialize (Hf ltac:(by apply (here_put _ _ _ s))).
  assert (Hfirst : handle_first (machine_of r b wr) k w = Ok (put l s1 w)).
  { unfold handle_first. rewrite (stm_current_run k l s) by done. cbn [mbind res_bind].
    subst s1. unfold arrived, state_of. destruct (current s) as [c|] eqn:Hc.
    - f_equal. symmetry. apply put_same. rewrite Hl. f_equal. destruct s. cbn in *. by subst.
    - cbn [machine_of initial]. by rewrite (stm_set_current_run k l s). }
  unfold stm_call, Os.wp, stm_handler. rewrite Hfirst. cbn [mbind res_bind].
  rewrite (stm_current_run k l s1) by (done || apply lookup_insert_eq). cbn [mbind res_bind or_fault current s1 arrived].
  change (current s1) with (Some (state_of s)). cbn [or_fault mbind res_bind].
  rewrite table_state by done. cbn [mbind res_bind]. rewrite Hr.
  unfold Os.wp in Hf. destruct (f k (put l s1 w)) as [[next w']|]; [|done]. cbn [mbind res_bind].
  destruct Hf as (Hn & s' & Hh' & Hs' & HQ). specialize (HQ ltac:(by apply (here_put _ _ _ s'))).
  assert (Hj : jump (machine_of r b wr) next k w' = Ok (put l (arrived s' next) w')); [|by rewrite Hj].
  unfold jump. rewrite decide_False by (cbn; lia).
  pose proof (he_at _ _ _ _ _ Hh') as Hl'. rewrite (stm_current_run k l s') by done. cbn [mbind res_bind].
  case_decide as Hc.
  - f_equal. symmetry. apply put_same. rewrite Hl'. f_equal. unfold arrived. destruct s'. cbn in *. by subst.
  - unfold state_of in Hs'. destruct (current s') as [c|]; cbn [default] in Hs'.
    + rewrite !table_state by done. cbn [mbind res_bind call_opt on_departure state_entry].
      by rewrite (stm_set_current_run k l s').
    + cbn [mbind res_bind]. rewrite (stm_set_current_run k l s') by done. cbn [mbind res_bind].
      by rewrite table_state by done.
Qed.

Lemma wp_stm_close r b wr k l s w Q : session_of k = Some l -> here F B l s w ->
  (state_of s <= SOCKS_ST_DONE)%nat -> Q tt w ->
  Os.wp (stm_do (stm_handler_close (machine_of r b wr)) k) Q w.
Proof.
  intros Hk Hh Hs HQ. unfold stm_do, Os.wp, stm_handler_close.
  rewrite (stm_current_run k l s) by (done || apply Hh). cbn [mbind res_bind].
  unfold state_of in Hs. destruct (current s) as [c|]; cbn in Hs; [|done].
  by rewrite table_state by done.
Qed.

(** [stm_state]. *)
Lemma wp_state k l s w Q : session_of k = Some l -> here F B l s w ->
  (state_of s <= SOCKS_ST_DONE)%nat -> Q (state_of s) w -> Os.wp (socks_state k) Q w.
Proof.
  intros Hk Hh Hs HQ. unfold socks_state, Os.wp, stm_state.
  rewrite (stm_current_run k l s) by (done || apply Hh). cbn [mbind res_bind].
  unfold state_of in *. destruct (current s) as [c|]; cbn in Hs, HQ; [|done].
  by rewrite table_state by done.
Qed.

End Rules.

End SocksRules.
