(* ===== verification/SocksClose.v ===== *)
(** How a session ends: the rules for [selector_unregister_fd] on its two
    descriptors and for the close callbacks that run inside it. *)
From S2P Require Import Prelude CBuffer Stm Selector Os Inet Store Sessions Acl Program.
From S2P Require Import Socks SocksServer IdleList SocksInv SocksRules.
Import Store Program Socks SocksServer IdleList SocksInv SocksRules.
Local Open Scope Z_scope.

Module SocksClose.

Section Close.
Context {E : Type} {OS : Os.Os E} {IN : Inet}.
Abbreviation st := (Os.st handler data program E).
Abbreviation M := (Os.M handler data program E).
Abbreviation fd_handler := (@Selector.fd_handler handler data (Os.sys program E)).
Implicit Types (w : st) (sl : selector).

(** The close callbacks a table of handlers has for the proxy's descriptors. *)
Definition closes_origin (impl : handler -> fd_handler) : Prop :=
  Selector.handle_close (impl SocksOrigin) = Some (Os.callback socks_origin_close).
Definition closes_client (garbage : item) (impl : handler -> fd_handler) : Prop :=
  exists inner, closes_origin inner /\
  Selector.handle_close (impl SocksClient) = Some (Os.callback (socks_client_close garbage inner)).

Variables (F : fixed) (B : gmap loc socks_session).

(** A step that changes the session at hand, the table at its descriptors, and
    the trace. *)
Lemma here_step l s s' w w' : here F B l s w -> links s' = links s ->
  (prog w').(sessions) = <[l := s']> (prog w).(sessions) ->
  (prog w').(next_session) = (prog w).(next_session) -> (prog w').(socks) = (prog w).(socks) ->
  (prog w').(store) = (prog w).(store) -> rest (prog w') = rest (prog w) -> tables F w'.(Selector.sel) (<[l := strip s']> B) ->
  (exists new, trace w' = new ++ trace w /\ Forall (allowed F.(fx_acl)) new) ->
  (forall l' s1, B !! l' = Some s1 -> armed w.(Selector.sel) s1 -> armed w'.(Selector.sel) s1) ->
  here F B l s' w'.
Proof.
  intros Hh Hk P1 P2 P3 P4 P5 Ht (new & Hn & Hall) Ha. destruct Hh as [[W1 W2 W3 W4 W5 W6 W7 W8] Hnew Hr Hl].
  split; [|done| |by rewrite P1, lookup_insert_eq].
  - split; rewrite ?P1, ?P2, ?P3, ?P4, ?P5; try done.
    + by rewrite bare_insert, W1, insert_insert_eq.
    + destruct W2 as (v & L & V1 & V2 & V3). exists v, L. split_and!; [done|by eapply idle_insert|].
      by rewrite V3, !map_size_insert_None.
    + intros x Hx. apply W3. destruct (decide (x = l)) as [->|Hne]; [rewrite lookup_insert_eq; eauto|].
      by rewrite !lookup_insert_ne in * by done.
    + destruct W6 as (new0 & H6 & A6). exists (new ++ new0). rewrite Hn, H6, app_assoc.
      split; [done|by apply Forall_app].
  - intros l' s1 Hl'. destruct (Hr _ _ Hl'). split; [done|]. by eapply Ha.
Qed.

(** Clearing an entry that belongs to nobody any more. *)
Lemma tables_clear sl sl' B1 B2 k : tables F sl B1 -> entries_set sl sl' k None -> apart F k ->
  (forall j it, j <> k -> 0 <= j -> owner F B1 j it -> owner F B2 j it) ->
  (forall l s, B2 !! l = Some s -> s.(client_fd) <> k /\ s.(origin_fd) <> k /\
     exists s1, B1 !! l = Some s1 /\ s1.(client_fd) = s.(client_fd) /\
       (s.(origin_fd) <> -1 -> s1.(origin_fd) = s.(origin_fd))) ->
  tables F sl' B2.
Proof.
  intros [H1 H2 Hq Hp H3 H4 H5 H6] Hset Hk Ho Hs. pose proof Hset as [S1 S2 S3 S4].
  assert (Hreg : forall j h d, j <> k -> registered sl j h d -> registered sl' j h d).
  { intros j h d Hj (it & ? & ? & ?). exists it. by rewrite S3, decide_False. }
  split; [done|congruence|auto| | | | |by eapply standing_set].
  - intros j it. rewrite S3. case_decide; [done|apply Hp].
  - intros j it. rewrite S3. case_decide; [done|]. intros Hj. apply Ho; [done| |by apply H3].
    destruct (decide (j < 0)) as [Hneg|]; [|lia]. by rewrite (entry_negative sl j Hneg) in Hj.
  - intros l s Hl. destruct (Hs _ _ Hl) as (Hc & _ & s1 & Hl1 & He & _). rewrite <- He in *. apply Hreg; [done|]. by apply H4.
  - intros l s Hl Hne. destruct (Hs _ _ Hl) as (_ & Hc & s1 & Hl1 & _ & He). specialize (He Hne).
    rewrite <- He in *. apply Hreg; [done|]. by apply H5.
Qed.

(** Setting an entry leaves the other sessions as ready as they were. *)
Lemma armed_set sl sl' k o s : entries_set sl sl' k o -> s.(origin_fd) <> k ->
  armed sl s -> armed sl' s.
Proof. intros [_ _ S3 _] Hne Ha Hs it. rewrite S3, decide_False by done. by apply Ha. Qed.

(** The origin's descriptor is closed. *)
Lemma tables_drop_origin l s sl sl' : tables F sl (<[l := s]> B) -> B !! l = None ->
  0 <= s.(origin_fd) -> entries_set sl sl' s.(origin_fd) None ->
  tables F sl' (<[l := s <| origin_fd := -1 |>]> B).
Proof.
  intros Ht Hn H0 Hset. apply (tables_clear sl sl' _ _ _ Ht Hset).
  { eapply session_apart; [apply Ht|eapply (tb_origin _ _ _ Ht l); [apply lookup_insert_eq|lia]|by right]. }
  - intros j it Hj _. unfold owner.
    destruct (Selector.handler it) as [[]|], (Selector.data it) as [[]|]; try done;
      intros (s1 & [[<- <-]|[Hne Hs1]]%lookup_insert_Some & <-).
    1: by exists (s <| origin_fd := -1 |>); rewrite lookup_insert_eq.
    2: done.
    all: by exists s1; rewrite lookup_insert_ne.
  - intros l' s' [[<- <-]|[Hne Hs']]%lookup_insert_Some.
    + split_and!; [|cbn; lia|exists s; rewrite lookup_insert_eq; done]. cbn. intros He.
      pose proof (tb_client _ _ _ Ht l s (lookup_insert_eq _ _ _)) as Hc.
      pose proof (tb_origin _ _ _ Ht l s (lookup_insert_eq _ _ _) ltac:(lia)) as Ho.
      rewrite He in Hc. by destruct (registered_unique _ _ _ _ _ _ Hc Ho).
    + destruct (not_theirs F B l s sl l' s' s.(origin_fd) Ht Hn Hs') as [H1 H2]; [by right|done|].
      split_and!; [done..|]. exists s'. by rewrite lookup_insert_ne.
Qed.

Lemma rule_destroy_origin impl l s w Q : closes_origin impl -> here F B l s w ->
  s.(origin_fd) = -1 \/ in_table F s.(origin_fd) ->
  (forall w', here F B l (s <| origin_fd := -1 |>) w' ->
     (forall j, j <> s.(origin_fd) -> Selector.entry w'.(Selector.sel) j = Selector.entry w.(Selector.sel) j) ->
     Q tt w') ->
  Os.wp (socks_session_destroy_origin impl l) Q w.
Proof.
  intros Hcl Hh Hr HQ. unfold socks_session_destroy_origin. apply Os.wp_bind, (wp_get F B l s); [done|].
  destruct Hr as [Hm|Hr].
  { rewrite decide_True by lia. apply Os.wp_ret. apply HQ; [|done]. destruct s. cbn in Hm. by subst. }
  unfold in_table in Hr. rewrite decide_False by lia.
  destruct (here_range F B l s w Hh) as (R1 & R2 & R3).
  destruct (tb_origin _ _ _ (wo_tables _ _ _ (he_world _ _ _ _ _ Hh)) l (strip s)) as (it & He & Hhd & Hd);
    [by rewrite lookup_insert_eq|cbn; lia|]. cbn in He.
  apply Os.wp_bind, (wp_unregister impl _ it SocksOrigin socks_origin_close); [done|lia|done..|].
  intros sl1 Hset1. rewrite Hd. apply Os.wp_bind. cbn [session_of Selector.key_data].
  apply (wp_upd_put l _ s); [apply Hh|]. cbn [Selector.key_fd].
  rewrite decide_True by lia. apply Os.wp_emit.
  split; [apply Hset1|]. split; [apply Hset1|]. intros sl3 Hset3.
  pose proof (entries_set_two _ _ _ _ _ _ Hset1 Hset3) as Hset.
  set (s1 := s <| origin_fd := -1 |>).
  apply (wp_upd_put l _ s1); [apply lookup_insert_eq|].
  apply HQ; [|intros j Hj; cbn; by rewrite (es_entry _ _ _ _ Hset), decide_False].
  apply (here_step l s s1 w); [done|done| |done..| | |].
  - cbn. by rewrite insert_insert_eq.
  - apply (tables_drop_origin l (strip s) w.(Selector.sel)); [apply Hh|apply Hh|cbn; lia|done].
  - by exists [Os.IoClose (origin_fd s)]; split; [|apply Forall_singleton].
  - intros l' s' Hl' Ha. apply (armed_set w.(Selector.sel) _ s.(origin_fd) None); [done| |done].
    apply not_eq_sym. apply (not_theirs F B l (strip s) w.(Selector.sel) l'); [apply Hh|apply Hh|done|by right|lia].
Qed.

(** ** The close callback of a client *)

Lemma rule_end_in_store l s w Q : here F B l s w ->
  (forall i w', let s' := s <| store_id := i |> in here F B l s' w' ->
     Selector.sel w' = Selector.sel w -> Q tt w') ->
  Os.wp (end_in_store l) Q w.
Proof.
  intros Hh HQ. unfold end_in_store. apply Os.wp_bind, (wp_get F B l s); [done|]. case_decide.
  { apply Os.wp_ret, (HQ (store_id s)); [|done]. by destruct s. }
  apply Os.wp_bind, (Os.wp_mono _ (fun _ w' => here F B l s w' /\ Selector.sel w' = Selector.sel w)).
  { destruct (ttl_expired s).
    - apply Os.wp_bind, (wp_os_here F B l s); [done|]. intros now e _ Hh'.
      by apply (rule_store F B l s (Sessions.MarkTtlExpired now (store_id s))).
    - by apply (rule_store F B l s (Sessions.End (store_id s))). }
  intros _ w1 [Hh1 Hs1]. apply (wp_upd F B l s); [done..|]. intros Hh2. by apply (HQ _ _ Hh2).
Qed.

Lemma rule_free_dns l s w Q : here F B l s w ->
  (forall d1 d2 w', let s' := s <| dns_result := d1 |> <| dns_cursor := d2 |> in here F B l s' w' ->
     Selector.sel w' = Selector.sel w -> Q tt w') ->
  Os.wp (socks_free_dns l) Q w.
Proof.
  intros Hh HQ. unfold socks_free_dns. apply Os.wp_bind, (wp_get F B l s); [done|].
  destruct (dns_result s) as [|a rest] eqn:Hd.
  - apply Os.wp_ret. apply (HQ [] (dns_cursor s)); [|done]. destruct s. cbn in *. by subst.
  - apply (wp_set F B l s); [done..|]. intros Hh'. by apply (HQ [] []).
Qed.

(** The process without the session. *)
Definition others w : Prop :=
  world F B w /\ forall l s, B !! l = Some s -> fine F w.(Selector.sel) s.

Lemma idle_delete m v v' L l : idle m v L -> l ∉ L -> v'.(idle_head) = v.(idle_head) ->
  v'.(idle_tail) = v.(idle_tail) -> idle (delete l m) v' L.
Proof.
  intros [I1 I2 I3 I4 I5] Hnot Hh Ht. split; [done|congruence..| |].
  - intros x sx [_ Hx]%lookup_delete_Some. by apply I4.
  - intros L1 x L2 HL. destruct (I5 _ _ _ HL) as (sx & Hx & Hp). exists sx.
    rewrite lookup_delete_ne; [done|]. intros ->. apply Hnot. rewrite HL. set_solver.
Qed.

(** The last lines of the callback: the session leaves the heap. *)
Lemma rule_release l s k w (Q : unit -> st -> Prop) : here F B l s w -> k = s.(client_fd) -> 0 <= k ->
  s.(origin_fd) = -1 -> s.(in_idle_list) = false ->
  (forall w', Selector.sel w' = Selector.sel w -> (forall sl3, entries_set (Selector.sel w) sl3 k None ->
     others (Os.on_sel sl3 w')) -> Q tt w') ->
  Os.wp (upd_socks (fun v => v <| active_sessions ::= (fun n => if decide (n > 0) then n - 1 else n) |>) ;;
    (if decide (k >= 0) then Os.close k else mret tt) ;;
    socks_session_destroy_buffers l ;; free_session l) Q w.
Proof.
  intros [[W1 (v & L & V1 & V2 & V3) W3 W4 W5 W6 W7 W8] Hn Hr Hl] Hk H0 Ho Hi HQ.
  apply Os.wp_bind, (wp_upd_socks _ v); [done|]. rewrite decide_True by lia.
  apply Os.wp_bind, Os.wp_emit. apply Os.wp_bind.
  apply (wp_upd_put l _ s); [done|]. apply (wp_free_session l (s <| c2o_backing := false |> <| o2c_backing := false |>)).
  { apply lookup_insert_eq. }
  apply HQ; [done|]. intros sl3 Hset. set (w5 := Os.on_sel _ _).
  assert (Hs5 : (prog w5).(sessions) = delete l (prog w).(sessions)) by apply delete_insert_eq.
  assert (Hnot : l ∉ L).
  { intros Hin. pose proof (idle_flag _ _ _ V2 _ _ Hl) as Hf. rewrite Hi in Hf.
    by rewrite bool_decide_true in Hf. }
  split; [split|].
  - rewrite Hs5, bare_delete, W1. by apply delete_insert_id.
  - exists (v <| active_sessions ::= (fun n => if decide (n > 0) then n - 1 else n) |>), L.
    split; [done|]. rewrite Hs5. split; [by eapply idle_delete|].
    cbn. rewrite V3, map_size_insert_None by done. rewrite decide_True by lia. lia.
  - intros x [sx Hx]. apply W3. rewrite lookup_insert_ne by congruence. eauto.
  - done.
  - apply (tables_clear w.(Selector.sel) sl3 _ _ k W5 Hset).
    + rewrite Hk. eapply session_apart; [apply W5|exact (tb_client _ _ _ W5 l _ (lookup_insert_eq _ _ _))|by left].
    + intros j it Hj Hj0. unfold owner.
      destruct (Selector.handler it) as [[]|], (Selector.data it) as [[]|]; try done;
        intros (s1 & [[<- <-]|[Hne Hs1]]%lookup_insert_Some & He); cbn in He; try lia; try (by exists s1).
    + intros l' s' Hl'.
      destruct (not_theirs F B l (strip s) w.(Selector.sel) l' s' k) as [H1 H2]; [done..|by left|done|].
      split_and!; [done..|]. exists s'. rewrite lookup_insert_ne by (intros ->; congruence). done.
  - destruct W6 as (new & H6 & A6). exists (Os.IoClose k :: new). split; [|by apply Forall_cons].
    change (trace w5) with (Os.IoClose k :: trace w). by rewrite H6.
  - done.
  - rewrite <- W8. unfold rest. cbn. by rewrite V1.
  - intros l' s' Hl'. destruct (Hr _ _ Hl') as [Hok Ha]. split; [done|].
    apply (armed_set w.(Selector.sel) _ k None); [done| |done].
    apply not_eq_sym. by apply (not_theirs F B l (strip s) w.(Selector.sel) l'); [..|left|].
Qed.

Lemma rule_client_close garbage inner l s k w (Q : unit -> st -> Prop) : closes_origin inner ->
  here F B l s w -> session_of k = Some l -> k.(Selector.key_fd) = s.(client_fd) ->
  session_ok (table_size F) s ->
  (forall w', Selector.wf w'.(Selector.sel) -> frame w'.(Selector.sel) = F.(fx_frame) ->
     (forall sl3, entries_set w'.(Selector.sel) sl3 s.(client_fd) None -> others (Os.on_sel sl3 w')) ->
     Q tt w') ->
  Os.wp (socks_client_close garbage inner k) Q w.
Proof.
  intros Hcl Hh Hk Hfd Hok HQ. unfold socks_client_close. rewrite Hk, Hfd.
  apply Os.wp_bind, (rule_idle_remove F B l s); [done|]. intros s1 w1 Hh1 Hc1 Hi1 _ _.
  core_fields Hc1. apply Os.wp_bind, (rule_end_in_store l s1); [done|]. intros i w2 s2 Hh2 _.
  apply Os.wp_bind, (wp_stm_close F B _ _ _ _ l s2); [done..| |].
  { unfold state_of. change (current s2) with (current s1). rewrite Hc4. apply Hok. }
  apply Os.wp_bind, (rule_destroy_origin inner l s2); [done..| |].
  { change (origin_fd s2) with (origin_fd s1). rewrite Hc0. apply Hok. }
  intros w3 Hh3 _. apply Os.wp_bind, (rule_free_dns l (s2 <| origin_fd := -1 |>)); [done|].
  intros d1 d2 w4 s4 Hh4 _.
  apply (rule_release l s4); [done|by rewrite <- Hc|apply Hok|done|done|].
  intros w5 Hsel Hrel. apply HQ.
  - rewrite Hsel. apply Hh4.
  - rewrite Hsel. apply Hh4.
  - intros sl3. rewrite Hsel. apply Hrel.
Qed.

(** Unregistering a client ends its session. *)
Lemma rule_unregister_client garbage impl l s k w Q : closes_client garbage impl -> here F B l s w ->
  session_ok (table_size F) s -> k = s.(client_fd) -> (forall w', others w' -> Q tt w') ->
  Os.wp (Os.unregister_fd impl k) Q w.
Proof.
  intros (inner & Hin & Hcl) Hh Hok -> HQ. pose proof (so_client _ _ Hok) as Hr.
  destruct (here_range F B l s w Hh) as (R1 & R2 & R3).
  destruct (tb_client _ _ _ (wo_tables _ _ _ (he_world _ _ _ _ _ Hh)) l (strip s)) as (it & He & Hhd & Hd);
    [by rewrite lookup_insert_eq|]. cbn in He.
  eapply (wp_unregister impl _ it SocksClient); [done|lia|done..|].
  intros sl1 Hset1. rewrite Hd.
  assert (Hh1 : here F B l s (Os.on_sel sl1 w)).
  { apply (here_sel F B l s s.(client_fd)); [done|by left|lia| |].
    - apply (tables_interest F w.(Selector.sel) sl1 _ s.(client_fd) Selector.OP_NOOP);
        [by eapply here_tables| | |by rewrite He].
      + apply (mine_active F B l s); [done|by left|lia].
      + apply (mine_apart F B l s w); [done|by left|lia].
    - intros j Hj. by rewrite (es_entry _ _ _ _ Hset1), decide_False. }
  apply (rule_client_close garbage inner l s); [done..|].
  intros w' Hwf' Hfr Hrel. split; [done|]. split; [|intros sl3 Hset3; by apply HQ, Hrel].
  rewrite Hfr. symmetry. apply (tb_frame _ _ _ (wo_tables _ _ _ (he_world _ _ _ _ _ Hh))).
Qed.

End Close.

End SocksClose.
