(* ===== verification/SocksTraffic.v ===== *)
(** The bytes the process moves: what its trace says was read from and written
    to a descriptor, and the actions that move none. *)
From S2P Require Import Prelude CBuffer Stm Selector Os Inet Store Sessions Program Socks.
From S2P Require Import SocksServer Monitor Proxy.
Import Store Program Socks SocksServer Monitor.
Local Open Scope Z_scope.

Module SocksTraffic.

(** ** Bytes in a trace, which has the newest event first *)

Fixpoint heard (fd : Z) (tr : list Os.io) : list byte :=
  match tr with
  | [] => []
  | Os.IoRead k bs :: tr => heard fd tr ++ (if decide (k = fd) then bs else [])
  | _ :: tr => heard fd tr
  end.
Fixpoint said (fd : Z) (tr : list Os.io) : list byte :=
  match tr with
  | [] => []
  | Os.IoWrite k bs :: tr => said fd tr ++ (if decide (k = fd) then bs else [])
  | _ :: tr => said fd tr
  end.

(** [new] arrived on [fd]; [new] was sent on [fd]; nothing of either. *)
Record moves (tr tr' : list Os.io) (inp out : Z -> list byte) : Prop := {
  mv_heard : forall k, heard k tr' = heard k tr ++ inp k;
  mv_said : forall k, said k tr' = said k tr ++ out k;
}.
Definition nothing (k : Z) : list byte := [].
Definition only (fd : Z) (bs : list byte) (k : Z) : list byte := if decide (fd = k) then bs else [].
Definition still (tr tr' : list Os.io) : Prop := moves tr tr' nothing nothing.

Lemma still_refl tr : still tr tr.
Proof. split; intros k; by rewrite app_nil_r. Qed.

Lemma moves_trans tr1 tr2 tr3 i1 o1 i2 o2 : moves tr1 tr2 i1 o1 -> moves tr2 tr3 i2 o2 ->
  moves tr1 tr3 (fun k => i1 k ++ i2 k) (fun k => o1 k ++ o2 k).
Proof. intros [H1 S1] [H2 S2]. split; intros k; [by rewrite H2, H1, app_assoc|by rewrite S2, S1, app_assoc]. Qed.

Lemma moves_ext tr tr' i o i' o' : moves tr tr' i o -> (forall k, i k = i' k) -> (forall k, o k = o' k) ->
  moves tr tr' i' o'.
Proof. intros [H S] Hi Ho. split; intros k; [by rewrite <- Hi|by rewrite <- Ho]. Qed.

Lemma moves_still tr1 tr2 tr3 i o : moves tr1 tr2 i o -> still tr2 tr3 -> moves tr1 tr3 i o.
Proof. intros H1 H2. eapply moves_ext; [exact (moves_trans _ _ _ _ _ _ _ H1 H2)|intros k; apply app_nil_r..]. Qed.

Lemma still_moves tr1 tr2 tr3 i o : still tr1 tr2 -> moves tr2 tr3 i o -> moves tr1 tr3 i o.
Proof. intros H1 H2. eapply moves_ext; [exact (moves_trans _ _ _ _ _ _ _ H1 H2)|done..]. Qed.

Lemma still_trans tr1 tr2 tr3 : still tr1 tr2 -> still tr2 tr3 -> still tr1 tr3.
Proof. apply moves_still. Qed.

Lemma still_cons i tr : (forall fd bs, i <> Os.IoRead fd bs /\ i <> Os.IoWrite fd bs) -> still tr (i :: tr).
Proof.
  intros Hi. split; intros k; rewrite app_nil_r; destruct i; try done; by destruct (Hi fd bs).
Qed.

Lemma moves_read fd bs tr : moves tr (Os.IoRead fd bs :: tr) (only fd bs) nothing.
Proof. split; intros k; [done|by rewrite app_nil_r]. Qed.
Lemma moves_write fd bs tr : moves tr (Os.IoWrite fd bs :: tr) nothing (only fd bs).
Proof. split; intros k; [by rewrite app_nil_r|done]. Qed.

(** ** Actions that move nothing *)

Section Silent.
Context {E : Type} {OS : Os.Os E} {IN : Inet}.
Abbreviation st := (Os.st handler data program E).
Abbreviation M := (Os.M handler data program E).
Abbreviation fd_handler := (@Selector.fd_handler handler data (Os.sys program E)).
Implicit Types (w : st).

Definition silent {A} (m : M A) : Prop := forall w a w', m w = Ok (a, w') -> still (trace w) (trace w').

Lemma wp_silent {A} (m : M A) Q w : silent m ->
  Os.wp m (fun a w' => still (trace w) (trace w') -> Q a w') w -> Os.wp m Q w.
Proof.
  intros Hs Hm. apply Os.wp_ok in Hm as (a & w' & Heq & HQ). apply Os.wp_ok. exists a, w'.
  split; [done|]. by apply HQ, (Hs w a).
Qed.

Lemma silent_ret {A} (a : A) : silent (mret a).
Proof. intros w b w' [= <- <-]. apply still_refl. Qed.
Lemma silent_bind {A B} (m : M A) (f : A -> M B) : silent m -> (forall a, silent (f a)) -> silent (m ≫= f).
Proof.
  intros Hm Hf w b w' Hb. unfold mbind, Os.M_bind in Hb. destruct (m w) as [[a w1]|] eqn:Hw; [|done].
  eapply still_trans; [by eapply Hm|by eapply Hf].
Qed.
Lemma silent_fail {A} f : silent (Os.fail f : M A).
Proof. done. Qed.
Lemma silent_lift {A} (r : res A) : silent (Os.lift r).
Proof. intros w a w' (x & _ & Hx)%bind_ok. injection Hx as <- <-. apply still_refl. Qed.
Lemma silent_gets {A} (f : program -> A) : silent (Os.gets f).
Proof. intros w a w' [= <- <-]. apply still_refl. Qed.
Lemma silent_modify f : silent (Os.modify f).
Proof. intros w a w' [= <- <-]. apply still_refl. Qed.
Lemma silent_os {A} (f : E -> A * E) : silent (Os.os f).
Proof. intros w a w'. unfold Os.os. destruct (f _) as [x e]. intros [= <- <-]. apply still_refl. Qed.
Lemma silent_selector {A} (f : @Selector.selector handler data -> res (A * Selector.selector)) :
  silent (Os.on_selector f).
Proof. intros w a w' ([x s] & _ & Hx)%bind_ok. injection Hx as <- <-. apply still_refl. Qed.
Lemma silent_close fd : silent (Os.close fd).
Proof. intros w a w' [= <- <-]. by apply still_cons. Qed.

End Silent.

Create HintDb silent discriminated.
#[export] Hint Resolve silent_ret silent_fail silent_lift silent_gets silent_modify silent_os
  silent_selector silent_close : silent.

(** Take an action apart, down to actions that are known. *)
Ltac silently := repeat first
  [ solve [auto with silent nocore]
  | apply silent_bind; [|intros ?]
  | match goal with
    | |- silent (if ?b then _ else _) => destruct b
    | |- silent (match ?x with _ => _ end) => destruct x
    | |- silent (let '_ := ?x in _) => destruct x
    end ].

Section Callbacks.
Context {E : Type} {OS : Os.Os E} {IN : Inet}.
Abbreviation st := (Os.st handler data program E).
Abbreviation M := (Os.M handler data program E).
Abbreviation fd_handler := (@Selector.fd_handler handler data (Os.sys program E)).
Implicit Types (w : st).

Lemma silent_get_session l : silent (get_session l : M _).
Proof. unfold get_session. silently. Qed.
Lemma silent_set_session l s : silent (set_session l s : M _).
Proof. unfold set_session, get_session. silently. Qed.
Lemma silent_upd_session l f : silent (upd_session l f : M _).
Proof. unfold upd_session, get_session. silently. Qed.
Lemma silent_free_session l : silent (free_session l : M _).
Proof. unfold free_session, get_session. silently. Qed.
Lemma silent_get_socks : silent (get_socks : M _).
Proof. unfold get_socks. silently. Qed.
Lemma silent_upd_socks f : silent (upd_socks f : M _).
Proof. unfold upd_socks, get_socks. silently. Qed.
Lemma silent_upd_monitor f : silent (upd_monitor f : M _).
Proof. unfold upd_monitor, get_monitor. silently. Qed.
Lemma silent_free_client l : silent (free_client l : M _).
Proof. unfold free_client, get_client. silently. Qed.
Lemma silent_get_store : silent (get_store : M _).
Proof. unfold get_store. silently. Qed.
Lemma silent_upd_store f : silent (upd_store f : M _).
Proof. unfold upd_store, set_store, get_store. silently. Qed.
Lemma silent_the_session k : silent (the_session k : M _).
Proof. unfold the_session. silently. Qed.
Lemma silent_set_interest fd i : silent (Os.set_interest fd i : M _).
Proof. unfold Os.set_interest. silently. Qed.
Lemma silent_set_interest_key k i : silent (Os.set_interest_key k i : M _).
Proof. unfold Os.set_interest_key. silently. Qed.
End Callbacks.

#[export] Hint Resolve silent_get_session silent_set_session silent_upd_session silent_free_session
  silent_get_socks silent_upd_socks silent_upd_monitor silent_free_client silent_get_store
  silent_upd_store silent_the_session silent_set_interest silent_set_interest_key : silent.

Section Closing.
Context {E : Type} {OS : Os.Os E} {IN : Inet}.
Abbreviation st := (Os.st handler data program E).
Abbreviation M := (Os.M handler data program E).
Abbreviation fd_handler := (@Selector.fd_handler handler data (Os.sys program E)).
Variable garbage : item.
Implicit Types (w : st).

(** The close callbacks of a table of handlers move nothing. *)
Definition closes_silently (impl : handler -> fd_handler) : Prop := forall h f,
  Selector.handle_close (impl h) = Some f ->
  forall k w w', f k w = Ok w' -> still (trace w) (trace w').

Lemma silent_unregister impl fd : closes_silently impl -> silent (Os.unregister_fd impl fd).
Proof.
  intros Hc. unfold Os.unregister_fd. apply silent_bind; [|intros; apply silent_ret].
  intros w a w'. unfold Selector.selector_unregister_fd.
  destruct (Selector.INVALID_FD fd); [intros [= <- <-]; apply still_refl|].
  intros (it & _ & Hb)%bind_ok. destruct (Selector.ITEM_USED it); [|injection Hb as <- <-; apply still_refl].
  cbn [negb] in Hb. apply bind_ok in Hb as (s1 & _ & Hb). apply bind_ok in Hb as (h & _ & Hb).
  apply bind_ok in Hb as (w1 & H1 & Hb). apply bind_ok in Hb as (s2 & _ & Hb). injection Hb as <- <-.
  destruct (Selector.handle_close (impl h)) as [f|] eqn:Hf; [|injection H1 as <-; apply still_refl].
  by specialize (Hc h f Hf _ _ _ H1).
Qed.

Lemma silent_origin_close k : silent (socks_origin_close k : M _).
Proof. unfold socks_origin_close. silently. Qed.

Lemma silent_idle_remove l : silent (idle_list_remove l : M _).
Proof. unfold idle_list_remove. silently. Qed.
#[local] Hint Resolve silent_idle_remove : silent.

Lemma silent_end_in_store l : silent (end_in_store l : M _).
Proof. unfold end_in_store. silently. Qed.
#[local] Hint Resolve silent_end_in_store : silent.

Lemma silent_stm_close r b wr k : silent (stm_do (stm_handler_close (machine_of r b wr)) k : M _).
Proof.
  intros w a w' (w1 & Hw & Hr)%bind_ok. injection Hr as <- <-. unfold stm_handler_close in Hw.
  apply bind_ok in Hw as (c & _ & Hw). destruct c as [c|]; [|injection Hw as <-; apply still_refl].
  apply bind_ok in Hw as (d & Hd & Hw).
  assert (Hn : on_departure d = None).
  { unfold state_at in Hd. cbn [states machine_of] in Hd.
    destruct (_ !! c) as [d'|] eqn:Hl; [|done]. injection Hd as <-.
    rewrite list_lookup_fmap in Hl. destruct (seq 0 7 !! c); [|done]. by injection Hl as <-. }
  rewrite Hn in Hw. injection Hw as <-. apply still_refl.
Qed.
#[local] Hint Resolve silent_stm_close : silent.

Lemma silent_destroy_origin impl l : closes_silently impl -> silent (socks_session_destroy_origin impl l).
Proof.
  intros Hc. pose proof (fun fd => silent_unregister impl fd Hc). unfold socks_session_destroy_origin. silently.
Qed.

Lemma silent_client_close impl k : closes_silently impl -> silent (socks_client_close garbage impl k).
Proof.
  intros Hc. pose proof (fun l => silent_destroy_origin impl l Hc).
  unfold socks_client_close, socks_free_dns, socks_session_destroy_buffers, socks_state_table. silently.
Qed.

Lemma silent_callback (f : key -> M unit) k w w' : silent (f k) -> Os.callback f k w = Ok w' ->
  still (trace w) (trace w').
Proof.
  intros Hs Hc. unfold Os.callback in Hc. destruct (f k w) as [[[] w1]|] eqn:Hf; [|done].
  injection Hc as <-. by eapply Hs.
Qed.

Lemma handlers_silent impl : closes_silently impl -> closes_silently (Proxy.handlers garbage impl).
Proof.
  intros Hc [] f [= <-] k w w'; apply silent_callback.
  - by apply silent_client_close.
  - apply silent_origin_close.
  - unfold socks_passive_close. silently.
  - unfold monitor_client_close. silently.
  - unfold monitor_passive_close. silently.
Qed.

Lemma closing_silent n : closes_silently (Proxy.closing garbage n).
Proof.
  induction n as [|n IH]; [|by apply handlers_silent]. by intros h f [= <-] k w w'.
Qed.

End Closing.

End SocksTraffic.
