(* ===== verification/SocksFlush.v ===== *)
(** The rules for what moves bytes out of a session's buffers and for the reply
    that refuses a request. *)
From S2P Require Import Prelude CBuffer Auth Request Stm Selector Os Inet Store Sessions.
From S2P Require Import Program Socks SocksServer IdleList SocksInv SocksRules SocksClose.
From S2P Require Import SocksTraffic.
Import Store Program Socks SocksServer IdleList SocksInv SocksRules SocksClose SocksTraffic.
Local Open Scope Z_scope.

Module SocksFlush.

(** What sending, and the time stamp and list position that go with it, leave
    as it is. *)
Definition static (s : socks_session) : socks_session :=
  (core s) <| o2c := zero_buffer |> <| current := None |>.

Record evolved (s s' : socks_session) : Prop := {
  ev_static : static s' = static s;
  ev_idle : s'.(in_idle_list) = s.(in_idle_list);
  ev_state : state_of s' = state_of s;
  ev_wf : CBuffer.wf s'.(o2c);
  ev_limit : s'.(o2c).(CBuffer.limit) = s.(o2c).(CBuffer.limit);
  ev_write : (s'.(o2c).(CBuffer.write) <= s.(o2c).(CBuffer.write))%nat;
  ev_suffix : exists n, CBuffer.contents s'.(o2c) = drop n (CBuffer.contents s.(o2c));
}.

Lemma evolved_refl s : CBuffer.wf s.(o2c) -> evolved s s.
Proof. intros Hwf. split; try done. by exists 0%nat. Qed.

(** The fields [static] keeps. *)
Lemma evolved_fields s s' : evolved s s' ->
  s'.(client_fd) = s.(client_fd) /\ s'.(origin_fd) = s.(origin_fd) /\ s'.(c2o) = s.(c2o) /\
  s'.(auth) = s.(auth) /\ s'.(request) = s.(request) /\ s'.(dns_cursor) = s.(dns_cursor) /\
  s'.(close_after_flush) = s.(close_after_flush) /\ s'.(store_id) = s.(store_id).
Proof.
  intros [Hs _ _ _ _ _ _].
  pose proof (f_equal client_fd Hs). pose proof (f_equal origin_fd Hs). pose proof (f_equal c2o Hs).
  pose proof (f_equal auth Hs). pose proof (f_equal request Hs). pose proof (f_equal dns_cursor Hs).
  pose proof (f_equal close_after_flush Hs). pose proof (f_equal store_id Hs). done.
Qed.

(** A session whose handshake is over, for which less is to be shown. *)
Lemma session_ok_done N s : CBuffer.wf s.(c2o) -> CBuffer.wf s.(o2c) ->
  (1024 <= s.(o2c).(CBuffer.limit))%nat -> state_of s = SOCKS_ST_DONE ->
  0 <= s.(client_fd) < N -> (s.(origin_fd) = -1 \/ 0 <= s.(origin_fd) < N) ->
  (s.(in_idle_list) = true -> s.(origin_fd) = -1 /\ (s.(o2c).(CBuffer.write) <= 14)%nat) ->
  session_ok N s.
Proof.
  intros H1 H2 H3 H4 H5 H6 H7.
  assert (Ha : answering s -> s.(in_idle_list) = true).
  { intros [Hle|[_ Hi]]; [|done]. unfold SOCKS_ST_ORIGIN_CONNECTING, SOCKS_ST_DONE in *. lia. }
  split; rewrite ?H4; try done; unfold SOCKS_ST_DONE, SOCKS_ST_AUTH_USERPASS, SOCKS_ST_REQUEST; try lia.
  - intros Hn _. by apply H7, Ha.
  - intros Hn. by apply H7, Ha.
Qed.

Section Flush.
Context {E : Type} {OS : Os.Os E} {OL : Os.OsLaws E} {IN : Inet}.
Abbreviation st := (Os.st handler data program E).
Abbreviation M := (Os.M handler data program E).
Abbreviation fd_handler := (@Selector.fd_handler handler data (Os.sys program E)).
Variables (F : fixed) (B : gmap loc socks_session).
Implicit Types (w : st) (sl : selector).

Lemma fine_evolved sl s s' : evolved s s' -> fine F sl s -> fine F sl s'.
Proof.
  intros He [[H1 H2 H3 H4 H5 H6 H7 H8 H9 H10] Ha].
  destruct (evolved_fields s s' He) as (E1 & E2 & E3 & E4 & E5 & _).
  destruct He as [_ Hi Hs Hwf Hlim Hw _].
  assert (Han : answering s' <-> answering s) by (unfold answering; by rewrite Hs, Hi).
  split; [split; rewrite ?Hs, ?Han, ?E1, ?E2, ?E3, ?E4, ?E5; try done|].
  - by rewrite Hlim.
  - intros Hx. specialize (H8 Hx). lia.
  - unfold armed. by rewrite Hs, E2.
Qed.

(** ** Reading, writing *)

Lemma rule_write l s fd bs w Q : here F B l s w ->
  (forall n w', (n <= length bs)%nat -> here F B l s w' -> Selector.sel w' = Selector.sel w ->
     trace w' = Os.IoWrite fd (take n bs) :: trace w -> Q (Os.WDone n) w') ->
  (forall errno e' w', Os.os_write fd bs (env w) = (Os.WError errno, e') -> here F B l s w' ->
     Selector.sel w' = Selector.sel w -> trace w' = trace w -> Q (Os.WError errno) w') ->
  Os.wp (Os.write fd bs) Q w.
Proof.
  intros Hh Hd He. apply Os.wp_bind, (wp_os_here F B l s); [done|]. intros r e Hr Hh1.
  destruct r as [n|errno]; apply Os.wp_bind.
  - apply Os.wp_emit, Os.wp_ret. apply Hd; [by eapply Os.write_fits|by apply here_trace|done|done].
  - apply Os.wp_ret, Os.wp_ret. by eapply He.
Qed.

Lemma rule_read l s fd n w Q : here F B l s w ->
  (forall bs w', (length bs <= n)%nat -> here F B l s w' -> Selector.sel w' = Selector.sel w ->
     trace w' = Os.IoRead fd bs :: trace w -> Q (Os.RData bs) w') ->
  (forall errno w', here F B l s w' -> Selector.sel w' = Selector.sel w -> trace w' = trace w ->
     Q (Os.RError errno) w') ->
  Os.wp (Os.read fd n) Q w.
Proof.
  intros Hh Hd He. apply Os.wp_bind, (wp_os_here F B l s); [done|]. intros r e Hr Hh1.
  destruct r as [bs|errno]; apply Os.wp_bind.
  - apply Os.wp_emit, Os.wp_ret. apply Hd; [by eapply Os.read_fits|by apply here_trace|done|done].
  - apply Os.wp_ret, Os.wp_ret. by apply He.
Qed.

(** What is left in a buffer of which [n] bytes were sent. *)
Lemma wp_consume {A} b n (g : CBuffer.buffer -> M A) Q w : CBuffer.wf b ->
  (n <= length (CBuffer.contents b))%nat ->
  (forall b', CBuffer.wf b' -> CBuffer.contents b' = drop n (CBuffer.contents b) ->
     b'.(CBuffer.limit) = b.(CBuffer.limit) -> (b'.(CBuffer.write) <= b.(CBuffer.write))%nat ->
     Os.wp (g b') Q w) ->
  Os.wp (b ← Os.lift (CBuffer.buffer_read_adv b (Z.of_nat n));
    b ← Os.lift (CBuffer.buffer_compact b); g b) Q w.
Proof.
  intros Hwf Hn HQ. destruct (CBuffer.read_adv_spec b n Hwf Hn) as (b1 & E1 & Hwf1 & Hc1 & Hl1 & _ & Hw1).
  destruct (CBuffer.compact_spec b1 Hwf1) as (b2 & E2 & Hwf2 & Hc2 & _ & Hw2 & Hl2).
  apply Os.wp_bind, (Os.wp_lift _ _ _ _ E1), Os.wp_bind, (Os.wp_lift _ _ _ _ E2).
  apply HQ; [done|congruence|congruence|]. rewrite Hw2, Hw1. case_decide; lia.
Qed.

(** The time stamp after a session did something. *)
Lemma evolved_core s s' : same_core s s' -> CBuffer.wf s.(o2c) -> evolved s s'.
Proof.
  intros [Hc Hi] Hwf. pose proof (f_equal o2c Hc) as Ho. cbn in Ho.
  pose proof (f_equal current Hc) as Hs. cbn in Hs. split; rewrite ?Ho; try done.
  - unfold static. by rewrite Hc.
  - unfold state_of. by rewrite Hs.
  - by exists 0%nat.
Qed.

(** ** Sending to the client *)

Variables (garbage : item) (impl : handler -> fd_handler).
Hypothesis Hclient : closes_client garbage impl.

(** A write to [fd] that fails for good. *)
Definition write_fails (fd : Z) (bs : list byte) : Prop := exists errno e e',
  Os.os_write fd bs e = (Os.WError errno, e') /\ Os.would_block errno = false.

(** Of the bytes [bs] a beginning went out on [fd], and [bs'] is left. *)
Definition sends (fd : Z) (bs bs' : list byte) w w' : Prop :=
  exists out, bs = out ++ bs' /\ moves (trace w) (trace w') nothing (only fd out).

Lemma sends_none fd bs w w' : trace w' = trace w -> sends fd bs bs w w'.
Proof.
  intros Ht. exists []. split; [done|]. rewrite Ht. eapply moves_ext; [apply still_refl|done|].
  intros k. unfold only, nothing. by case_decide.
Qed.

Lemma sends_take fd bs n w w' : trace w' = Os.IoWrite fd (take n bs) :: trace w ->
  sends fd bs (drop n bs) w w'.
Proof. intros Ht. exists (take n bs). split; [by rewrite take_drop|]. rewrite Ht. apply moves_write. Qed.

(** Closing a session moves nothing. *)
Lemma rule_unregister_silent l s k w Q : here F B l s w -> session_ok (table_size F) s ->
  k = s.(client_fd) ->
  (forall w', others F B w' -> (closes_silently impl -> still (trace w) (trace w')) -> Q tt w') ->
  Os.wp (Os.unregister_fd impl k) Q w.
Proof.
  intros Hh Hok Hfd HQ.
  assert (Hwp : Os.wp (Os.unregister_fd impl k) (fun _ => others F B) w).
  { by apply (rule_unregister_client F B garbage impl l s). }
  apply Os.wp_ok in Hwp as ([] & w' & Heq & Ho). apply Os.wp_ok. exists tt, w'. split; [done|].
  apply HQ; [done|]. intros Hs. exact (silent_unregister impl _ Hs _ _ _ Heq).
Qed.

(** After a write event the machine is in its state. *)
Lemma rule_write_event l s k w Q : here F B l s w -> session_of k = Some l ->
  (state_of s <= SOCKS_ST_DONE)%nat ->
  (let s' := arrived s (state_of s) in here F B l s' (put l s' w) -> Q (state_of s) (put l s' w)) ->
  Os.wp (stm_call (stm_handler_write write_table) k) Q w.
Proof.
  intros Hh Hk Hs HQ. apply (wp_stm F B EvWrite _ _ _ k l s socks_stub_stay); [done..|].
  intros s1 Hh1. apply (wp_state F B k l s1); [done..|]. split; [done|].
  exists s1. split_and!; [done..|]. intros Hh2.
  assert (He : put l (arrived s1 (state_of s1)) (put l s1 w) = put l s1 w).
  { apply put_same. exact (he_at _ _ _ _ _ Hh1). }
  rewrite He in *. by apply HQ.
Qed.

Lemma rule_flush_client l s w Q : here F B l s w -> session_ok (table_size F) s ->
  (forall s' w', here F B l s' w' -> evolved s s' -> Selector.sel w' = Selector.sel w ->
     sends s.(client_fd) (CBuffer.contents s.(o2c)) (CBuffer.contents s'.(o2c)) w w' -> Q true w') ->
  (forall w', write_fails s.(client_fd) (CBuffer.contents s.(o2c)) -> others F B w' ->
     (closes_silently impl -> still (trace w) (trace w')) -> Q false w') ->
  Os.wp (socks_flush_client impl l) Q w.
Proof.
  intros Hh Hok Htrue Hfalse. destruct Hok as [O1 O2 O3 O4 O5 O6 O7 O8 O9 O10] eqn:Hoke. clear Hoke.
  unfold socks_flush_client. apply Os.wp_bind, (wp_get F B l s); [done|].
  rewrite decide_False by lia. apply Os.wp_bind, (Os.wp_lift _ _ _ _ (CBuffer.read_ptr_wf _ O2)).
  case_decide as Hp; [apply Os.wp_ret, (Htrue s); [done|by apply evolved_refl|done|by apply sends_none]|].
  apply Os.wp_bind, (Os.wp_lift _ _ _ _ (CBuffer.peek_spec _ _ O2 (Nat.le_refl _))). rewrite take_ge by done.
  apply Os.wp_bind, (rule_write l s); [done|..].
  - intros n w1 Hn Hh1 Hs1 Ht1. apply wp_consume; [done..|]. intros b' Hwf' Hc' Hl' Hw'.
    apply Os.wp_bind, (wp_set F B l s); [done..|]. intros Hh2.
    apply Os.wp_bind. eapply rule_touch; [exact Hh2|]. intros s3 w3 Hh3 Hc3 Hs3 Ht3.
    pose proof (f_equal o2c (proj1 Hc3)) as Ho3. cbn in Ho3.
    assert (He3 : evolved s s3).
    { destruct (evolved_core _ _ Hc3) as [G1 G2 G3 G4 G5 G6 (m & G7)]; [done|].
      split; [done..|cbn in G5; congruence|cbn in G6; lia|]. exists (n + m)%nat.
      rewrite G7. cbn. by rewrite Hc', drop_drop. }
    apply Os.wp_bind, (rule_write_event l s3); [done|done|by rewrite (ev_state _ _ He3)|].
    intros s4 Hh4. apply Os.wp_ret. apply (Htrue s4); [done| | |].
    + destruct He3. by split.
    + cbn. by rewrite Hs3.
    + change (CBuffer.contents (o2c s4)) with (CBuffer.contents (o2c s3)). rewrite Ho3, Hc'.
      apply sends_take. rewrite <- Ht1. exact Ht3.
  - intros errno e' w1 Hr Hh1 Hs1 Ht1. destruct (Os.would_block errno) eqn:Hwb.
    + apply Os.wp_ret, (Htrue s); [done|by apply evolved_refl|done|by apply sends_none].
    + apply Os.wp_bind. unfold socks_unregister_session.
      apply (rule_unregister_silent l s); [done|by split|done|].
      intros w2 Ho2 Hs2. apply Os.wp_ret, Hfalse; [|done|by rewrite <- Ht1]. by exists errno, (env w), e'.
Qed.

Lemma rule_close_if_flushed l s w Q : here F B l s w -> session_ok (table_size F) s ->
  Q true w -> (forall w', others F B w' -> Q false w') ->
  Os.wp (socks_close_if_flushed impl l) Q w.
Proof.
  intros Hh Hok Ht Hf. unfold socks_close_if_flushed. apply Os.wp_bind, (wp_get F B l s); [done|].
  destruct (_ || _); [by apply Os.wp_ret|]. apply Os.wp_bind.
  apply (rule_unregister_client F B garbage impl l s); [done..|]. intros w' Ho. by apply Os.wp_ret, Hf.
Qed.

(** ** Sending to the origin *)

Lemma fine_c2o sl s b : CBuffer.wf b -> fine F sl s -> fine F sl (s <| c2o := b |>).
Proof. intros Hb [[] Ha]. by split. Qed.

Lemma rule_add_bytes l s up down w Q : here F B l s w ->
  (forall w', here F B l s w' -> Selector.sel w' = Selector.sel w -> trace w' = trace w -> Q tt w') ->
  Os.wp (add_bytes l up down) Q w.
Proof.
  intros Hh HQ. unfold add_bytes. apply Os.wp_bind, (wp_get F B l s); [done|].
  case_decide; [by apply Os.wp_ret, HQ|].
  apply (rule_store F B l s (Sessions.AddBytes (store_id s) up down)); [done..|].
  done.
Qed.

Lemma rule_close_from_origin l s w Q : here F B l s w -> session_ok (table_size F) s ->
  (forall w', others F B w' -> Q tt w') -> Os.wp (socks_session_close_from_origin impl l) Q w.
Proof.
  intros Hh Hok HQ. apply Os.wp_bind, (wp_get F B l s); [done|].
  by apply (rule_unregister_client F B garbage impl l s).
Qed.

Lemma rule_flush_origin l s w Q : here F B l s w -> fine F w.(Selector.sel) s ->
  (forall s' w', here F B l s' w' -> fine F w'.(Selector.sel) s' -> state_of s' = state_of s ->
     origin_fd s' = origin_fd s -> client_fd s' = client_fd s -> o2c s' = o2c s ->
     sends s.(origin_fd) (CBuffer.contents s.(c2o)) (CBuffer.contents s'.(c2o)) w w' -> Q true w') ->
  (forall w', others F B w' -> (closes_silently impl -> still (trace w) (trace w')) -> Q false w') ->
  Os.wp (socks_flush_origin impl l) Q w.
Proof.
  intros Hh Hf Htrue Hfalse. pose proof (so_c2o _ _ (proj1 Hf)) as Hwf.
  assert (Hidle : Q true w) by by apply (Htrue s); [..|apply sends_none].
  unfold socks_flush_origin. apply Os.wp_bind, (wp_get F B l s); [done|].
  case_decide; [by apply Os.wp_ret|].
  apply Os.wp_bind, (Os.wp_lift _ _ _ _ (CBuffer.read_ptr_wf _ Hwf)).
  case_decide; [by apply Os.wp_ret|].
  apply Os.wp_bind, (Os.wp_lift _ _ _ _ (CBuffer.peek_spec _ _ Hwf (Nat.le_refl _))). rewrite take_ge by done.
  apply Os.wp_bind, (rule_write l s); [done|..].
  - intros n w1 Hn Hh1 Hs1 Ht1. apply wp_consume; [done..|]. intros b' Hwf' Hc' Hl' Hw'.
    apply Os.wp_bind, (wp_set F B l s); [done..|]. intros Hh2.
    apply Os.wp_bind. eapply rule_touch; [exact Hh2|]. intros s3 w3 Hh3 Hc3 Hs3 Ht3.
    apply Os.wp_bind. eapply rule_add_bytes; [exact Hh3|]. intros w4 Hh4 Hs4 Ht4.
    apply Os.wp_ret. pose proof (proj1 Hc3) as Hcore.
    apply (Htrue s3); [done| |unfold state_of; by rewrite (f_equal current Hcore : current s3 = current s)|
      exact (f_equal origin_fd Hcore)|exact (f_equal client_fd Hcore)|exact (f_equal o2c Hcore)|].
    + rewrite Hs4, Hs3. apply (fine_core F _ _ _ Hc3), fine_c2o; [done|]. cbn. by rewrite Hs1.
    + rewrite (f_equal c2o Hcore : c2o s3 = b'), Hc'. apply sends_take. by rewrite Ht4, Ht3, <- Ht1.
  - intros errno e' w1 _ Hh1 Hs1 Ht1. destruct (Os.would_block errno).
    + apply Os.wp_ret, (Htrue s); [done|by rewrite Hs1|done..|by apply sends_none].
    + apply Os.wp_bind. apply Os.wp_bind, (wp_get F B l s); [done|].
      apply (rule_unregister_silent l s); [done|apply Hf|done|].
      intros w2 Ho2 Hs2. apply Os.wp_ret, Hfalse; [done|]. by rewrite <- Ht1.
Qed.

End Flush.

End SocksFlush.
