(* ===== verification/SocksHandshake.v ===== *)
(** The rules for the states before the relay: refusing a request, feeding the
    parsers, resolving, and connecting to the origin. *)
From S2P Require Import Prelude CBuffer ByteParser Greeting Auth Request Stm Selector Os Inet.
From S2P Require Import Store Users Sessions Acl SocksAuth Program Socks SocksServer.
From S2P Require Import IdleList SocksInv SocksRules SocksClose SocksFlush.
Import Store Program Socks SocksServer IdleList SocksInv SocksRules SocksClose SocksFlush.
Local Open Scope Z_scope.

Module SocksHandshake.

(** What a session must be for its request to be refused. *)
Record refusable (N : Z) (s : socks_session) : Prop := {
  re_c2o : CBuffer.wf s.(c2o);
  re_o2c : CBuffer.wf s.(o2c);
  re_limit : (1024 <= s.(o2c).(CBuffer.limit))%nat;
  re_client : 0 <= s.(client_fd) < N;
  re_origin : s.(origin_fd) = -1;
  re_replies : (s.(o2c).(CBuffer.write) <= 4)%nat;
}.

Lemma ok_refusable N s : session_ok N s -> (state_of s <= SOCKS_ST_RESOLVING)%nat -> refusable N s.
Proof.
  intros [H1 H2 H3 H4 H5 H6 H7 H8 H9 H10] Hs.
  unfold SOCKS_ST_RESOLVING, SOCKS_ST_ORIGIN_CONNECTING in *.
  assert (Ha : answering s) by (left; state_lia).
  specialize (H7 Ha). specialize (H8 Ha). split; try done; [apply H7; lia|].
  destruct (state_of s) as [|[|[|[|n]]]]; cbn in H8; lia.
Qed.

Section Handshake.
Context {E : Type} {OS : Os.Os E} {OL : Os.OsLaws E} {IN : Inet}.
Abbreviation st := (Os.st handler data program E).
Abbreviation M := (Os.M handler data program E).
Abbreviation fd_handler := (@Selector.fd_handler handler data (Os.sys program E)).
Variables (F : fixed) (B : gmap loc socks_session).
Variables (garbage : item) (impl : handler -> fd_handler).
Hypothesis Hclient : closes_client garbage impl.
Implicit Types (w : st) (sl : selector).

(** The client is still there when it is told that its request failed. *)
Definition refusals_get_through : Prop := forall fd pre rep,
  rep <> x00 -> ~ write_fails (E := E) fd (pre ++ connect_reply rep).
Hypothesis Hrefusals : refusals_get_through.

Lemma rule_mark_failed l s w Q : here F B l s w ->
  (forall i w', let s' := s <| store_id := i |> in here F B l s' w' ->
     Selector.sel w' = Selector.sel w -> Q tt w') ->
  Os.wp (mark_failed l) Q w.
Proof.
  intros Hh HQ. unfold mark_failed. apply Os.wp_bind, (wp_get F B l s); [done|]. case_decide.
  { apply Os.wp_ret, (HQ (store_id s)); [|done]. by destruct s. }
  apply Os.wp_bind, (wp_os_here F B l s); [done|]. intros now e _ Hh1.
  apply Os.wp_bind, (rule_store F B l s (Sessions.MarkFailed now (store_id s))); [done..|].
  intros w2 Hh2 Hs2 _. apply (wp_set F B l s); [done..|]. intros Hh3. by apply (HQ _ _ Hh3).
Qed.

(** A session that was refused: it stays until the reply is out. *)
Definition refused (s s' : socks_session) : Prop :=
  state_of s' = SOCKS_ST_DONE /\ s'.(c2o) = s.(c2o) /\ s'.(client_fd) = s.(client_fd).

Lemma rule_fail_request k l s rep w Q : rep <> x00 -> here F B l s w -> session_of k = Some l ->
  refusable (table_size F) s ->
  (forall s' w', here F B l s' w' -> fine F w'.(Selector.sel) s' -> refused s s' -> Q tt w') ->
  Os.wp (socks_fail_request impl k rep) Q w.
Proof.
  intros Hrep Hh Hk [R1 R2 R3 R4 R5 R6] HQ. unfold socks_fail_request.
  apply Os.wp_bind, (wp_the_session _ l); [done|].
  apply Os.wp_bind, (rule_mark_failed l s); [done|]. intros i w1 s1 Hh1 _.
  apply Os.wp_bind. unfold socks_send_connect_reply.
  apply (rule_append F B l s1); [done|done|cbn; lia|]. intros b Hwf Hc Hw Hlim s2 Hh2. cbn [negb].
  cbn in Hw. apply Os.wp_bind, (wp_upd F B l s2); [done..|]. intros Hh3.
  apply Os.wp_bind. unfold set_state. eapply wp_upd; [exact Hh3|done|]. intros Hh4.
  assert (Hok : session_ok (table_size F) (arrived (s2 <| close_after_flush := true |>) SOCKS_ST_DONE)).
  { apply session_ok_done; try done; cbn; try (by left); [by rewrite Hlim|]. split; [done|]. lia. }
  apply Os.wp_bind. apply (rule_flush_client F B garbage impl Hclient l _ _ _ Hh4 Hok).
  2:{ intros w5 Hfail _ _. cbn in Hfail. rewrite Hc in Hfail. by apply Hrefusals in Hfail. }
  intros s5 w5 Hh5 He5 _ _. cbn [negb].
  apply Os.wp_bind, (wp_get F B l s5); [done|].
  pose proof (evolved_fields _ _ He5) as (F1 & F2 & F3 & _).
  assert (Hr5 : client_fd s5 = client_fd s) by by rewrite F1.
  apply (rule_interest F B l s5); [done|by left|right; unfold in_table; lia|].
  intros sl Hh6 Hj. apply (HQ s5); [done| |].
  - apply (fine_evolved F sl (arrived (s2 <| close_after_flush := true |>) SOCKS_ST_DONE)); [done|]. by split.
  - split_and!; [by rewrite (ev_state _ _ He5)|by rewrite F3|done].
Qed.

(** ** Connecting *)

Hypothesis Hbelow : descriptors_below (table_size F).

Lemma denied_spec t a addr : Acl.rep t a -> exists b,
  socks_dest_addr_is_denied t (Some addr) = Ok b /\ (b = false -> ~ forbids a addr).
Proof.
  intros Hr. unfold socks_dest_addr_is_denied, forbids. destruct (addr_text addr) as [text|].
  - rewrite (Acl.ip_denied_spec t a text Hr). eexists. split; [done|]. intros Hb (x & y & [= <-] & Hp & Hin).
    rewrite Hp in Hb. by apply bool_decide_eq_false in Hb.
  - exists false. split; [done|]. by intros _ (x & y & ? & _).
Qed.

(** Registering the origin. *)
Lemma tables_add_origin l s sl sl' fd : tables F sl (<[l := s]> B) -> B !! l = None ->
  s.(origin_fd) = -1 -> 0 <= fd -> Selector.entry sl fd = None ->
  entries_set sl sl' fd (Some (Selector.mk_item fd Selector.OP_WRITE (Some SocksOrigin) (Some (Session l)))) ->
  tables F sl' (<[l := s <| origin_fd := fd |>]> B).
Proof.
  intros [H1 H2 Hq Hp H3 H4 H5 H6] Hn Ho H0 He Hset. pose proof Hset as [S1 S2 S3 S4].
  pose proof (standing_set _ _ _ _ _ H6 Hset (free_apart _ _ _ H6 He)) as H6'.
  assert (Hreg : forall j h d, registered sl j h d -> registered sl' j h d).
  { intros j h d (it & Hit & Hh & Hd). exists it. rewrite S3, decide_False; [done|]. intros ->. congruence. }
  split; [done|congruence|auto| | | | |done].
  - intros j it. rewrite S3. case_decide; [by intros [= <-]|apply Hp].
  - intros j it. rewrite S3. case_decide as Hj.
    + intros [= <-]. subst. cbn. exists (s <| origin_fd := fd |>). by rewrite lookup_insert_eq.
    + intros Hit. assert (0 <= j).
      { destruct (decide (j < 0)) as [Hneg|]; [|lia]. by rewrite entry_negative in Hit. }
      specialize (H3 j it Hit). unfold owner in *.
      destruct (Selector.handler it) as [[]|], (Selector.data it) as [[]|]; try done;
        destruct H3 as (s1 & [[<- <-]|[Hne Hs1]]%lookup_insert_Some & Hx).
      1: by exists (s <| origin_fd := fd |>); rewrite lookup_insert_eq.
      2: lia.
      all: by exists s1; rewrite lookup_insert_ne.
  - intros l' s' [[<- <-]|[Hne Hs']]%lookup_insert_Some; apply Hreg.
    + apply (H4 l s), lookup_insert_eq.
    + apply H4. by rewrite lookup_insert_ne.
  - intros l' s' [[<- <-]|[Hne Hs']]%lookup_insert_Some Hx.
    + eexists. rewrite S3. cbn. by rewrite decide_True.
    + apply Hreg, H5; [by rewrite lookup_insert_ne|done].
Qed.

(** Where a callback of the handshake may leave the session. *)
Definition lands (l : loc) (s : socks_session) (Q : nat -> st -> Prop) : Prop :=
  forall next s' w', here F B l s' w' -> (next <= SOCKS_ST_DONE)%nat ->
    (state_of s' <= SOCKS_ST_DONE)%nat -> fine F w'.(Selector.sel) (arrived s' next) ->
    s'.(c2o) = s.(c2o) -> s'.(client_fd) = s.(client_fd) -> Q next w'.

Lemma arrived_evolved s : CBuffer.wf s.(o2c) -> evolved s (arrived s (state_of s)).
Proof. intros Hwf. split; try done. by exists 0%nat. Qed.

(** Refusing and saying so to the machine. *)
Lemma rule_refuse k l s s0 rep w Q : rep <> x00 -> here F B l s w -> session_of k = Some l ->
  refusable (table_size F) s -> s.(c2o) = s0.(c2o) -> s.(client_fd) = s0.(client_fd) -> lands l s0 Q ->
  Os.wp (socks_fail_request impl k rep ;; mret SOCKS_ST_DONE) Q w.
Proof.
  intros Hrep Hh Hk Hr Hc Hfd HQ. apply Os.wp_bind, (rule_fail_request k l s); [done..|].
  intros s' w' Hh' Hf' (Hs' & Hc' & Hfd'). apply Os.wp_ret, (HQ _ s'); [done|done| | |congruence..].
  - by rewrite Hs'.
  - rewrite <- Hs'. apply (fine_evolved F _ s'); [|done]. apply arrived_evolved. apply Hf'.
Qed.

Lemma rule_register_origin k l s fd addr len w Q : here F B l s w -> session_of k = Some l ->
  refusable (table_size F) s -> (state_of s <= SOCKS_ST_DONE)%nat -> in_table F fd -> lands l s Q ->
  Os.wp (register_origin garbage impl k l fd addr len) Q w.
Proof.
  intros Hh Hk Href Hs Hfd HQ. pose proof Href as [R1 R2 R3 R4 R5 R6]. unfold register_origin.
  destruct (here_range F B l s w Hh) as (T1 & T2 & T3). unfold in_table in Hfd.
  apply Os.wp_bind, (wp_upd_put l _ s); [apply Hh|]. apply Os.wp_bind.
  apply Os.wp_bind, Os.wp_os. intros ok e _.
  destruct (register_entry ok garbage w.(Selector.sel) fd SocksOrigin Selector.OP_WRITE (Session l) T3)
    as (r & sl' & Heq & Hr); [lia..|].
  eapply Os.wp_selector; [exact Heq|].
  pose proof (wo_tables _ _ _ (he_world _ _ _ _ _ Hh)) as Ht. destruct (decide (r = Selector.SELECTOR_SUCCESS)) as [->|Hne].
  - rewrite decide_False by (intros Hx; by apply Hx). destruct Hr as [Hnone Hset].
    set (s2 := s <| origin_fd := fd |>). apply Os.wp_bind, (wp_upd_put l _ s2); [apply lookup_insert_eq|].
    apply Os.wp_ret. set (s3 := s2 <| dest_addr := addr |> <| dest_addr_len := len |>).
    apply (HQ _ s3); [| |done| |done|done].
    + apply (here_step F B l s s3 w); [done|done| |done..| | |].
      * apply insert_insert_eq.
      * change (strip s3) with ((strip s) <| dest_addr := addr |> <| dest_addr_len := len |> <| origin_fd := fd |>).
        apply (tables_add_origin l _ w.(Selector.sel)); [|apply Hh|done|lia|done|done].
        rewrite <- (insert_insert_eq B l _ (strip s)).
        by apply (tables_same _ _ _ l (strip s)); [apply lookup_insert_eq|..].
      * by exists [].
      * intros l' s' Hl' Ha. apply (armed_set w.(Selector.sel) _ fd (Some (Selector.mk_item fd Selector.OP_WRITE (Some SocksOrigin) (Some (Session l))))); [done| |done].
        intros <-. destruct (tb_origin _ _ _ Ht l' s') as (it & Hit & _); [|lia|congruence].
        rewrite lookup_insert_ne; [done|]. intros ->. by rewrite (he_new _ _ _ _ _ Hh) in Hl'.
    + state_lia.
    + split.
      * split; try done; cbn; unfold SOCKS_ST_DONE, SOCKS_ST_AUTH_USERPASS, SOCKS_ST_REQUEST,
          SOCKS_ST_ORIGIN_CONNECTING; intros; try lia; done.
      * intros _ it. cbn. rewrite (es_entry _ _ _ _ Hset), decide_True by done. by intros [= <-].
  - rewrite decide_True by done. subst sl'.
    apply Os.wp_bind, Os.wp_emit. apply Os.wp_bind, (wp_upd_put l _ (s <| origin_fd := fd |>)); [apply lookup_insert_eq|].
    apply (rule_refuse k l s s); [done| |done..].
    apply (here_step F B l s s w); [done|done| |done..|apply Hh| |done].
    + cbn. rewrite insert_insert_eq. f_equal. destruct s. cbn in *. by subst.
    + exists [Os.IoClose fd]. split; [done|by apply Forall_singleton].
Qed.

Lemma rule_open l s call w Q : here F B l s w ->
  (forall fd e w', call (env w) = (fd, e) -> here F B l s w' -> Selector.sel w' = Selector.sel w -> Q fd w') ->
  Os.wp (Os.open call) Q w.
Proof.
  intros Hh HQ. apply Os.wp_bind, (wp_os_here F B l s); [done|]. intros fd e Hc Hh1.
  apply Os.wp_bind. case_decide.
  - apply Os.wp_ret, Os.wp_ret. by eapply HQ.
  - apply Os.wp_emit, Os.wp_ret. eapply HQ; [done|by apply here_trace|done].
Qed.

Lemma rule_set_nio l s fd w Q : here F B l s w ->
  (forall rc w', here F B l s w' -> Selector.sel w' = Selector.sel w -> Q rc w') ->
  Os.wp (Os.set_nio fd) Q w.
Proof.
  intros Hh HQ. apply Os.wp_bind, (wp_os_here F B l s); [done|]. intros [g f] e _ Hh1.
  apply Os.wp_ret. by apply HQ.
Qed.

Lemma errno_rep_nonzero err : socks_errno_to_rep err <> x00.
Proof. unfold socks_errno_to_rep. by repeat case_decide. Qed.
Lemma gai_rep_nonzero rc : socks_gai_rc_to_rep rc <> x00.
Proof. unfold socks_gai_rc_to_rep. by repeat case_decide. Qed.
Lemma status_rep_nonzero r : socks_request_status_to_rep r <> x00.
Proof. by destruct r. Qed.

Lemma refusable_cursor N s c : refusable N s -> refusable N (s <| dns_cursor := c |>).
Proof. by intros []. Qed.

Lemma lands_same l s s' Q : s'.(c2o) = s.(c2o) -> s'.(client_fd) = s.(client_fd) ->
  lands l s Q -> lands l s' Q.
Proof. intros Hc Hfd HQ next s1 w1 ? ? ? ? ? ?. eapply HQ; [done..|congruence|congruence]. Qed.

(** Every address that is tried was looked up in the deny list first. *)
Lemma rule_begin_connect fuel : forall k l s w Q, here F B l s w -> session_of k = Some l ->
  refusable (table_size F) s -> (state_of s <= SOCKS_ST_DONE)%nat ->
  (length s.(dns_cursor) <= S fuel)%nat -> lands l s Q ->
  Os.wp (begin_connect garbage impl fuel k) Q w.
Proof.
  induction fuel as [|fuel IH]; intros k l s w Q Hh Hk Href Hs Hlen HQ; cbn [begin_connect];
    (apply Os.wp_bind, (wp_the_session _ l); [done|]); (apply Os.wp_bind, (wp_get F B l s); [done|]);
    cbv zeta; destruct (next_address s) as [[addr|] len]; try (by apply (rule_refuse k l s s));
    (case_decide; [by apply (rule_refuse k l s s)|]);
    (apply Os.wp_bind, (wp_store F B l s); [done|]); intros t _ [Hrep _];
    destruct (denied_spec t (fx_acl F) addr Hrep) as (b & Hb & Hfree);
    (apply Os.wp_bind, (Os.wp_lift _ _ _ _ Hb)); (destruct b; [by apply (rule_refuse k l s s)|]);
    specialize (Hfree eq_refl);
    (apply Os.wp_bind, (rule_open l s); [done|]); intros fd e w1 Hfd Hh1 _;
    (case_decide; [by apply (rule_refuse k l s s)|]);
    (apply Os.wp_bind, (rule_set_nio l s); [done|]); intros rc w2 Hh2 _;
    (case_decide; [apply Os.wp_bind, Os.wp_emit, (rule_refuse k l s s); by try apply here_trace|]);
    apply Os.wp_bind, Os.wp_bind, Os.wp_emit;
    (apply (wp_os_here F B l s); [by apply here_trace|]); intros o e3 _ Hh3;
    assert (Hin : in_table F fd) by (unfold in_table; pose proof (proj1 Hbelow _ _ _ _ Hfd); lia);
    (destruct o as [errno|]; [|by apply (rule_register_origin k l s)]);
    (case_decide; [by apply (rule_register_origin k l s)|]);
    apply Os.wp_bind, Os.wp_emit;
    pose proof (errno_rep_nonzero errno) as Hnz;
    destruct (dns_cursor s) as [|a0 [|a1 next]] eqn:Hcur;
    try (apply (rule_refuse k l s s); by try apply here_trace).
  { cbn in Hlen. lia. }
  apply Os.wp_bind, (wp_set F B l s); [by apply here_trace|done|]. intros Hh4.
  eapply (IH k l); [exact Hh4|done|by apply refusable_cursor|done|cbn in *; lia|by eapply lands_same].
Qed.

Lemma rule_begin_origin_connect k l s w Q : here F B l s w -> session_of k = Some l ->
  refusable (table_size F) s -> (state_of s <= SOCKS_ST_DONE)%nat -> lands l s Q ->
  Os.wp (socks_begin_origin_connect garbage impl k) Q w.
Proof.
  intros Hh Hk Href Hs HQ. unfold socks_begin_origin_connect.
  apply Os.wp_bind, (wp_the_session _ l); [done|]. apply Os.wp_bind, (wp_get F B l s); [done|].
  apply (rule_begin_connect _ k l s); [done..|lia|done].
Qed.

End Handshake.

End SocksHandshake.
