(* ===== verification/SocksStates.v ===== *)
(** The rules for the callbacks of the states before the relay, up to the
    machine's step on a read event. *)
From S2P Require Import Prelude CBuffer ByteParser Greeting Auth Request Stm Selector Os Inet.
From S2P Require Import Store Users Sessions Acl SocksAuth Program Socks SocksServer.
From S2P Require Import IdleList SocksInv SocksRules SocksClose SocksFlush SocksHandshake.
Import Store Program Socks SocksServer IdleList SocksInv SocksRules SocksClose SocksFlush SocksHandshake.
Local Open Scope Z_scope.

Module SocksStates.

(** ** The parsing loops

    The loop over the buffer is the parser's [drain] of its contents. *)
Section Feed.
Context `{BP : ByteParser P R}.

Lemma feed_buffer_spec fuel : forall p b s p' rest, CBuffer.wf b ->
  (length (CBuffer.contents b) <= fuel)%nat -> drain p (CBuffer.contents b) = Ok (s, p', rest) ->
  exists b', feed_buffer fuel p b = Ok (s, p', b') /\ CBuffer.wf b' /\ CBuffer.contents b' = rest.
Proof.
  induction fuel as [|fuel IH]; intros p b s p' rest Hwf Hlen Hd;
    cbn [feed_buffer]; rewrite (CBuffer.can_read_spec b Hwf);
    destruct (CBuffer.contents b) as [|c bs] eqn:Hc.
  1,3: rewrite bool_decide_false by auto; injection Hd as <- <- <-; by exists b.
  { cbn in Hlen. lia. }
  rewrite bool_decide_true by done. rewrite (CBuffer.read_ptr_wf b Hwf), ok_bind.
  rewrite Hc. rewrite decide_False by done.
  rewrite (CBuffer.peek_spec b 1 Hwf) by (rewrite Hc; cbn; lia). rewrite ok_bind, Hc. cbn [take head or_fault].
  rewrite ok_bind. cbn [drain] in Hd. apply bind_ok in Hd as ([s1 p1] & Hfeed & Hd). rewrite Hfeed, ok_bind.
  destruct (CBuffer.read_adv_spec b 1 Hwf) as (b1 & Hb1 & Hwf1 & Hc1 & _); [rewrite Hc; cbn; lia|].
  change (Z.of_nat 1) with 1 in Hb1. rewrite Hb1, ok_bind.
  assert (Hc1' : CBuffer.contents b1 = bs) by (rewrite Hc1, Hc; done).
  destruct (more s1).
  - apply IH; [done|rewrite Hc1'; cbn in Hlen; lia|by rewrite Hc1'].
  - injection Hd as <- <- <-. by exists b1; rewrite Hc1'.
Qed.

(** Something is consumed if there was something. *)
Lemma drain_shrinks p bs s p' rest : drain p bs = Ok (s, p', rest) -> bs <> [] ->
  (length rest < length bs)%nat.
Proof.
  intros Hd Hne. destruct (more s) eqn:Hm.
  - destruct (drain_more _ _ _ _ _ Hd Hm) as [_ ->]. destruct bs; [done|cbn; lia].
  - by eapply drain_consumes.
Qed.

End Feed.

Lemma greeting_total p bs : exists s p' rest, drain (P := Greeting.socks_greeting_parser) p bs = Ok (s, p', rest).
Proof.
  revert p. induction bs as [|b bs IH]; intros p; [by eauto|]. cbn [drain feed Greeting.greeting_parser].
  rewrite ok_bind. destruct (Greeting.socks_greeting_parser_feed p b) as [s p']. destruct (more s); [apply IH|eauto].
Qed.

(** Feeding on a parser that waits. *)
Lemma drain_resumes `{ByteParser P R} p0 xs p ys : drain p0 xs = Ok (need_more, p, []) ->
  drain p0 (xs ++ ys) = drain p ys.
Proof. intros Hd. rewrite drain_app, Hd. cbn. by rewrite more_need_more. Qed.

Lemma auth_continues p bs : auth_waits p -> exists s p' rest, drain p bs = Ok (s, p', rest) /\
  (s = Auth.SOCKS_AUTH_NEED_MORE -> auth_waits p') /\
  (s = Auth.SOCKS_AUTH_PARSED -> Auth.wf p' /\ 0 < p'.(Auth.uname_len) <= 255 /\ 0 < p'.(Auth.passwd_len) <= 255).
Proof.
  intros (p0 & xs & Hwf & Hd). destruct (Auth.auth_drains (xs ++ bs) p0 Hwf) as (s & p' & rest & Hd' & _ & Hp).
  pose proof Hd' as Hd2. rewrite (drain_resumes _ _ _ _ Hd) in Hd2. exists s, p', rest. split; [done|]. split; [|done].
  intros ->. exists p0, (xs ++ bs). split; [done|]. rewrite Hd'.
  by destruct (drain_more _ _ _ _ _ Hd' eq_refl) as [_ ->].
Qed.

(** A parsed address is one. *)
Lemma parsed_addr bs o rest : Request.decode bs = (Request.SOCKS_REQUEST_PARSED_ADDR, o, rest) ->
  exists t port, o = Some (t, port) /\ forall n, t <> Request.T_name n.
Proof.
  assert (Hport : forall t bs, Request.decode_port t bs = (Request.SOCKS_REQUEST_PARSED_ADDR, o, rest) ->
    exists t port, o = Some (t, port) /\ forall n, t <> Request.T_name n).
  { intros t [|hi [|lo xs]]; cbn; [done..|]. destruct t; intros [= <- <-]; eauto. }
  unfold Request.decode, Request.decode_addr, Request.decode_field.
  destruct bs as [|? [|? [|? [|? bs]]]]; repeat case_decide; try done;
    try (destruct (Request.field _ _) as [[]|]; [apply Hport|done]).
  destruct bs; [done|]. case_decide; [done|].
  destruct (Request.field _ _) as [[]|]; [apply Hport|done].
Qed.

Lemma request_continues p bs : request_waits p -> exists s p' rest, drain p bs = Ok (s, p', rest) /\
  (s = Request.SOCKS_REQUEST_NEED_MORE -> request_waits p') /\
  (s = Request.SOCKS_REQUEST_PARSED_ADDR -> Request.dest_addr_len p' <> 0).
Proof.
  intros (p0 & p1 & xs & Hf & Hi & Hd). destruct (Request.request_drains (xs ++ bs) p0 Hf) as (p1' & Hi' & p' & Hd' & Hh).
  replace p1' with p1 in * by congruence. pose proof Hd' as Hd2. rewrite (drain_resumes _ _ _ _ Hd) in Hd2.
  eexists _, p', _. split; [exact Hd2|]. split; intros Hs.
  2:{ destruct (Request.decode _) as [[s o] rest] eqn:Hdec. cbn in Hs, Hh. subst.
      destruct (parsed_addr _ _ _ Hdec) as (t & port & -> & Hn).
      destruct t as [a|a|n]; [| |by destruct (Hn n)]; destruct Hh as (_ & _ & ->); done. }
  exists p0, p1, (xs ++ bs). split_and!; [done..|].
  rewrite Hd', Hs. f_equal. f_equal. rewrite Hs in Hd'. by destruct (drain_more _ _ _ _ _ Hd' eq_refl) as [_ ->].
Qed.

Section States.
Context {E : Type} {OS : Os.Os E} {OL : Os.OsLaws E} {IN : Inet}.
Abbreviation st := (Os.st handler data program E).
Abbreviation M := (Os.M handler data program E).
Abbreviation fd_handler := (@Selector.fd_handler handler data (Os.sys program E)).
Variables (F : fixed) (B : gmap loc socks_session).
Variables (garbage : item) (impl : handler -> fd_handler).
Hypothesis Hclient : closes_client garbage impl.
Hypothesis Hrefusals : refusals_get_through (E := E).
Hypothesis Hbelow : descriptors_below (E := E) (table_size F).
Implicit Types (w : st) (sl : selector).
Local Abbreviation lands := (lands F B).

(** A session at the start of a state up to RESOLVING. *)
Lemma fine_before sl s i : refusable (table_size F) s -> (i <= SOCKS_ST_RESOLVING)%nat ->
  (s.(o2c).(CBuffer.write) <= reply_bound i)%nat ->
  ((i <= SOCKS_ST_AUTH_USERPASS)%nat -> auth_waits s.(auth)) ->
  ((i <= SOCKS_ST_REQUEST)%nat -> request_waits s.(request)) -> fine F sl (arrived s i).
Proof.
  intros [R1 R2 R3 R4 R5 R6] Hi Hw Ha Hq. unfold SOCKS_ST_RESOLVING in Hi.
  split; [split|]; try done; unfold state_of; cbn; unfold SOCKS_ST_DONE; try lia.
  unfold armed, state_of. cbn. intros ->. unfold SOCKS_ST_ORIGIN_CONNECTING in Hi. lia.
Qed.

(** A session whose last reply is queued. *)
Lemma fine_done sl s : refusable (table_size F) s \/
    (CBuffer.wf s.(c2o) /\ CBuffer.wf s.(o2c) /\ (1024 <= s.(o2c).(CBuffer.limit))%nat /\
     0 <= s.(client_fd) < table_size F /\ s.(origin_fd) = -1 /\ (s.(o2c).(CBuffer.write) <= 14)%nat) ->
  fine F sl (arrived s SOCKS_ST_DONE).
Proof.
  intros Hs. split; [|done]. destruct Hs as [[R1 R2 R3 R4 R5 R6]|(R1 & R2 & R3 & R4 & R5 & R6)];
    (apply session_ok_done; [done..|by left|]); intros _; (split; [done|]); cbn; lia.
Qed.

Lemma rule_set_phase l s phase w Q : here F B l s w ->
  (forall w', here F B l s w' -> Selector.sel w' = Selector.sel w -> Q tt w') ->
  Os.wp (set_phase l phase) Q w.
Proof.
  intros Hh HQ. apply Os.wp_bind, (wp_get F B l s); [done|].
  apply (rule_store F B l s (Sessions.SetPhase (store_id s) phase)); [done..|].
  intros w' Hh' Hs' _. by apply HQ.
Qed.

(** A reply that fits: from a state whose replies leave room. *)
Lemma rule_reply l s k bs rest w Q : here F B l s w -> refusable (table_size F) s -> (length bs <= 10)%nat ->
  (forall b, CBuffer.wf b -> b.(CBuffer.write) = (s.(o2c).(CBuffer.write) + length bs)%nat ->
     b.(CBuffer.limit) = s.(o2c).(CBuffer.limit) ->
     let s' := s <| o2c := b |> in forall w', here F B l s' w' -> Os.wp rest Q w') ->
  Os.wp (reply_or_drop impl k l bs rest) Q w.
Proof.
  intros Hh [R1 R2 R3 R4 R5 R6] Hbs HQ. unfold reply_or_drop.
  apply Os.wp_bind, (rule_append F B l s); [done|done|lia|]. intros b Hwf Hc Hw Hl s' Hh'. by apply (HQ b).
Qed.

(** The last reply of a handshake that failed. *)
Lemma rule_reply_and_close l s k bs s0 w Q : here F B l s w -> refusable (table_size F) s ->
  (state_of s <= SOCKS_ST_DONE)%nat -> (length bs <= 10)%nat -> s.(c2o) = s0.(c2o) ->
  s.(client_fd) = s0.(client_fd) -> lands l s0 Q ->
  Os.wp (reply_and_close impl k l bs) Q w.
Proof.
  intros Hh Hr Hs Hbs Hc Hfd HQ. pose proof Hr as [R1 R2 R3 R4 R5 R6]. unfold reply_and_close.
  apply (rule_reply l s); [done..|]. intros b Hwf Hw Hl s' w' Hh'.
  apply Os.wp_bind, (wp_upd F B l s'); [done..|]. intros Hh2. apply Os.wp_ret.
  apply (HQ _ (s' <| close_after_flush := true |>)); [done|done|done| |done|done].
  apply fine_done. right. cbn. split_and!; try done; lia.
Qed.

(** ** Resolving *)

Lemma refusable_dns N s d1 d2 rc r : refusable N s ->
  refusable N (s <| dns_resolving := r |> <| dns_gai_rc := rc |> <| dns_result := d1 |> <| dns_cursor := d2 |>).
Proof. by intros []. Qed.

Lemma rule_start_dns k l s w Q : here F B l s w -> session_of k = Some l ->
  refusable (table_size F) s -> (state_of s <= SOCKS_ST_DONE)%nat -> lands l s Q ->
  Os.wp (socks_start_dns_resolve impl k) Q w.
Proof.
  intros Hh Hk Hr Hs HQ. unfold socks_start_dns_resolve.
  apply Os.wp_bind, (wp_the_session _ l); [done|].
  apply Os.wp_bind, (wp_os_here F B l s); [done|]. intros ok e _ Hh1.
  destruct ok; cbn [negb]; [|by apply (rule_refuse F B garbage impl Hclient Hrefusals k l s s)].
  apply Os.wp_bind, (wp_upd F B l s); [done..|]. intros Hh2. set (s2 := s <| dns_resolving := true |> <| dns_gai_rc := 0 |> <| dns_result := [] |> <| dns_cursor := [] |>) in *.
  assert (Hr2 : refusable (table_size F) s2) by by apply refusable_dns.
  apply Os.wp_bind, (wp_get F B l s2); [done|]. cbv zeta.
  apply Os.wp_bind, (wp_os_here F B l s2); [done|]. intros created e2 _ Hh3.
  destruct created; cbn [negb]; [|by apply (rule_refuse F B garbage impl Hclient Hrefusals k l s2 s)].
  apply Os.wp_bind, Os.wp_modify, Os.wp_ret.
  apply (HQ _ s2); [|state_lia|done| |done|done].
  - apply here_prog; [done..| |done]. intros t Ht Hf. by exists t.
  - destruct Hr2. apply fine_before; try done; state_lia.
Qed.

(** ** The read callbacks *)

(** Where a callback that consumed input leaves the session. *)
Definition lands_shorter (l : loc) (s : socks_session) (Q : nat -> st -> Prop) : Prop :=
  forall next s' w', here F B l s' w' -> (next <= SOCKS_ST_DONE)%nat ->
    (state_of s' <= SOCKS_ST_DONE)%nat -> fine F w'.(Selector.sel) (arrived s' next) ->
    (length (CBuffer.contents s'.(c2o)) < length (CBuffer.contents s.(c2o)))%nat ->
    s'.(client_fd) = s.(client_fd) -> Q next w'.

Lemma shorter_lands l s0 s Q :
  (length (CBuffer.contents s.(c2o)) < length (CBuffer.contents s0.(c2o)))%nat ->
  s.(client_fd) = s0.(client_fd) -> lands_shorter l s0 Q -> lands l s Q.
Proof. intros Hn Hfd HQ next s' w' ? ? ? ? Hc Hfd'. eapply HQ; [done..|by rewrite Hc|congruence]. Qed.

(** One of the three parsing loops, on the session's buffer. *)
Lemma rule_feed `{BP : ByteParser P R} l s (p : P) w (Q : R * P * CBuffer.buffer -> st -> Prop) st' p' rest :
  here F B l s w -> CBuffer.wf s.(c2o) -> CBuffer.contents s.(c2o) <> [] ->
  drain p (CBuffer.contents s.(c2o)) = Ok (st', p', rest) ->
  (forall b, CBuffer.wf b ->
     (length (CBuffer.contents b) < length (CBuffer.contents s.(c2o)))%nat -> Q (st', p', b) w) ->
  Os.wp (Os.lift (feed_buffer s.(c2o).(CBuffer.limit) p s.(c2o))) Q w.
Proof.
  intros Hh Hwf Hne Hd HQ.
  destruct (feed_buffer_spec s.(c2o).(CBuffer.limit) p s.(c2o) st' p' rest) as (b & Hb & Hwf' & Hc); [done| |done|].
  { rewrite CBuffer.contents_length by done. destruct Hwf. lia. }
  apply (Os.wp_lift _ _ _ _ Hb), HQ; [done|]. rewrite Hc. by eapply drain_shrinks.
Qed.

Lemma fed_refusable N s b : refusable N s -> CBuffer.wf b -> refusable N (s <| c2o := b |>).
Proof. by intros []. Qed.

(** What the states that read know. *)
Lemma reading N s : session_ok N s -> (state_of s <= SOCKS_ST_REQUEST)%nat ->
  refusable N s /\ (s.(o2c).(CBuffer.write) <= reply_bound (state_of s))%nat /\
  ((state_of s <= SOCKS_ST_AUTH_USERPASS)%nat -> auth_waits s.(auth)) /\ request_waits s.(request).
Proof.
  intros Hok Hs. split; [apply ok_refusable; [done|state_lia]|].
  split; [apply Hok; left; state_lia|]. split; [apply Hok|by apply (so_request _ _ Hok)].
Qed.

Lemma rule_on_read_greeting k l s w Q : here F B l s w -> session_of k = Some l ->
  fine F w.(Selector.sel) s -> state_of s = SOCKS_ST_AUTH_GREETING -> CBuffer.contents s.(c2o) <> [] ->
  lands_shorter l s Q ->
  Os.wp (socks_on_read_greeting impl k) Q w.
Proof.
  intros Hh Hk [Hok _] Hs Hne HQ.
  destruct (reading _ _ Hok) as (Hr & Hw & Ha & Hq); [rewrite Hs; state_lia|]. rewrite Hs in Hw, Ha.
  specialize (Ha ltac:(state_lia)). cbn in Hw.
  unfold socks_on_read_greeting. apply Os.wp_bind, (wp_the_session _ l); [done|].
  apply Os.wp_bind, (wp_get F B l s); [done|].
  destruct (greeting_total (greeting s) (CBuffer.contents s.(c2o))) as (r & p & rest & Hd).
  apply Os.wp_bind, (rule_feed l s _ w _ r p rest); [done|apply Hr|done|done|]. intros b Hb Hlen.
  apply Os.wp_bind, (wp_set F B l s); [done..|]. intros Hh1. set (s1 := s <| greeting := p |> <| c2o := b |>) in *.
  assert (Hr1 : refusable (table_size F) s1) by (destruct Hr; by split).
  assert (Hs1 : (state_of s1 <= SOCKS_ST_DONE)%nat) by (change (state_of s1) with (state_of s); rewrite Hs; state_lia).
  destruct r.
  - apply Os.wp_ret, (HQ _ s1); [done|state_lia|done| |done|done].
    apply fine_before; [done|state_lia|done|done|done].
  - apply (rule_reply l s1); [done|done|cbn; lia|]. intros b2 Hwf2 Hw2 Hl2 s2 w2 Hh2.
    assert (Hr2 : refusable (table_size F) s2).
    { destruct Hr1. split; try done; unfold s2; cbn; rewrite ?Hl2; [done|]. cbn in Hw2. lia. }
    cbn in Hw2. case_decide.
    + apply Os.wp_ret, (HQ _ s2); [done|state_lia|done| |done|done].
      apply fine_before; [done|state_lia|unfold s2; cbn; lia|done|done].
    + apply Os.wp_bind, (rule_store F B l s2 (Sessions.SetUser (store_id s) (lit "Anon"))); [done..|].
      intros w3 Hh3 _ _. apply Os.wp_bind, (rule_set_phase l s2); [done|]. intros w4 Hh4 _.
      apply Os.wp_ret, (HQ _ s2); [done|state_lia|done| |done|done].
      apply fine_before; [done|state_lia|unfold s2; cbn; lia|state_lia|done].
  - apply (rule_reply_and_close l s1 k _ s1); [done|done|done|cbn; lia|done|done|].
    by apply (shorter_lands l s).
Qed.

Lemma rule_store_user l s w Q : here F B l s w ->
  (forall w', here F B l s w' -> Selector.sel w' = Selector.sel w -> Q tt w') ->
  Os.wp (socks_auth_store_user l) Q w.
Proof.
  intros Hh HQ. apply Os.wp_bind, (wp_get F B l s); [done|]. cbv zeta.
  case_decide; [by apply Os.wp_ret, HQ|].
  eapply (rule_store F B l s (Sessions.SetUser _ _)); [done..|]. intros w' Hh' Hs' _. by apply HQ.
Qed.

Lemma rule_on_read_auth k l s w Q : here F B l s w -> session_of k = Some l ->
  fine F w.(Selector.sel) s -> state_of s = SOCKS_ST_AUTH_USERPASS -> CBuffer.contents s.(c2o) <> [] ->
  lands_shorter l s Q ->
  Os.wp (socks_on_read_auth impl k) Q w.
Proof.
  intros Hh Hk [Hok _] Hs Hne HQ.
  destruct (reading _ _ Hok) as (Hr & Hw & Ha & Hq); [rewrite Hs; state_lia|]. rewrite Hs in Hw, Ha.
  specialize (Ha ltac:(state_lia)). cbn in Hw.
  unfold socks_on_read_auth. apply Os.wp_bind, (wp_the_session _ l); [done|].
  apply Os.wp_bind, (wp_get F B l s); [done|].
  destruct (auth_continues (auth s) (CBuffer.contents s.(c2o)) Ha) as (r & p & rest & Hd & Hmore & Hparsed).
  apply Os.wp_bind, (rule_feed l s _ w _ r p rest); [done|apply Hr|done|done|]. intros b Hb Hlen.
  apply Os.wp_bind, (wp_set F B l s); [done..|]. intros Hh1. set (s1 := s <| auth := p |> <| c2o := b |>) in *.
  assert (Hr1 : refusable (table_size F) s1) by (destruct Hr; by split).
  assert (Hs1 : (state_of s1 <= SOCKS_ST_DONE)%nat) by (change (state_of s1) with (state_of s); rewrite Hs; state_lia).
  assert (Hrefuse : forall w', here F B l s1 w' ->
    Os.wp (reply_and_close impl k l [x01; x01]) Q w').
  { intros w' Hh'. apply (rule_reply_and_close l s1 k _ s1); [done|done|done|cbn; lia|done|done|].
    by apply (shorter_lands l s). }
  destruct r.
  - apply Os.wp_ret, (HQ _ s1); [done|state_lia|done| |done|done].
    apply fine_before; [done|state_lia|done|by intros _; apply Hmore|done].
  - destruct (Hparsed eq_refl) as (Hpw & Hu & Hpl).
    apply Os.wp_bind, (wp_store F B l s1); [done|]. intros t _ _.
    apply Os.wp_bind, (Os.wp_lift _ _ _ _ (SocksAuth.validate_spec p t Hpw Hu Hpl)).
    destruct (Users.store_user_validate _ _ _); [|by apply Hrefuse].
    apply Os.wp_bind, (rule_store_user l s1); [done|]. intros w2 Hh2 _.
    apply Os.wp_bind, (rule_set_phase l s1); [done|]. intros w3 Hh3 _.
    apply (rule_reply l s1); [done|done|cbn; lia|]. intros b2 Hwf2 Hw2 Hl2 s2 w4 Hh4. cbn in Hw2.
    apply Os.wp_ret, (HQ _ s2); [done|state_lia|done| |done|done].
    apply fine_before; [|state_lia|unfold s2; cbn; lia|state_lia|done].
    destruct Hr1. split; try done; unfold s2; cbn; rewrite ?Hl2; [done|lia].
  - by apply Hrefuse.
Qed.

Lemma rule_on_read_request k l s w Q : here F B l s w -> session_of k = Some l ->
  fine F w.(Selector.sel) s -> state_of s = SOCKS_ST_REQUEST -> CBuffer.contents s.(c2o) <> [] ->
  lands_shorter l s Q ->
  Os.wp (socks_on_read_request garbage impl k) Q w.
Proof.
  intros Hh Hk [Hok _] Hs Hne HQ.
  destruct (reading _ _ Hok) as (Hr & Hw & _ & Hq); [rewrite Hs; state_lia|]. rewrite Hs in Hw.
  unfold socks_on_read_request. apply Os.wp_bind, (wp_the_session _ l); [done|].
  apply Os.wp_bind, (wp_get F B l s); [done|].
  destruct (request_continues (request s) (CBuffer.contents s.(c2o)) Hq) as (r & p & rest & Hd & Hmore & Haddr).
  apply Os.wp_bind, (rule_feed l s _ w _ r p rest); [done|apply Hr|done|done|]. intros b Hb Hlen.
  apply Os.wp_bind, (wp_set F B l s); [done..|]. intros Hh1. set (s1 := s <| request := p |> <| c2o := b |>) in *.
  assert (Hr1 : refusable (table_size F) s1) by (destruct Hr; by split).
  assert (Hs1 : (state_of s1 <= SOCKS_ST_DONE)%nat) by (change (state_of s1) with (state_of s); rewrite Hs; state_lia).
  pose proof (shorter_lands l s s1 Q Hlen eq_refl HQ) as HQ1.
  assert (Hrefuse : forall rep w', rep <> x00 -> here F B l s1 w' ->
    Os.wp (socks_fail_request impl k rep ;; mret SOCKS_ST_DONE) Q w').
  { intros rep w' Hrep Hh'. by apply (rule_refuse F B garbage impl Hclient Hrefusals k l s1 s1). }
  destruct r; try by apply Hrefuse.
  - apply Os.wp_ret, (HQ _ s1); [done|state_lia|done| |done|done].
    apply fine_before; [done|state_lia|done|state_lia|by intros _; apply Hmore].
  - apply Os.wp_bind, (wp_store F B l s1); [done|]. intros t _ [Hrep _].
    destruct (denied_spec t (fx_acl F) (Request.dest_addr p) Hrep) as (d & Hden & _).
    assert (Hda : Request.socks_request_dest_addr (Some p) = Some (Request.dest_addr p)).
    { cbn. rewrite decide_False; [done|]. by apply Haddr. }
    rewrite Hda. apply Os.wp_bind, (Os.wp_lift _ _ _ _ Hden). destruct d; [by apply Hrefuse|].
    apply Os.wp_bind, (rule_set_phase l s1); [done|]. intros w2 Hh2 _.
    apply Os.wp_bind, (Os.wp_lift _ _ _ _ eq_refl).
    apply Os.wp_bind, (wp_upd F B l s1); [done..|]. intros Hh3.
    eapply (rule_begin_origin_connect F B garbage impl Hclient Hrefusals Hbelow k l); [exact Hh3|done| |done|done].
    by destruct Hr1.
  - apply Os.wp_bind, (wp_store F B l s1); [done|]. intros t _ [Hrep _].
    apply Os.wp_bind, (Os.wp_lift _ _ _ _ (Acl.host_denied_spec t (fx_acl F) _ Hrep)).
    destruct (bool_decide _); [by apply Hrefuse|].
    apply Os.wp_bind, (rule_set_phase l s1); [done|]. intros w2 Hh2 _.
    by apply (rule_start_dns k l s1).
Qed.

(** ** The notification *)

Lemma rule_on_block_resolving k l s w Q : here F B l s w -> session_of k = Some l ->
  fine F w.(Selector.sel) s -> state_of s = SOCKS_ST_RESOLVING -> lands l s Q ->
  Os.wp (socks_on_block_resolving garbage impl k) Q w.
Proof.
  intros Hh Hk [Hok Hf] Hs HQ. pose proof (ok_refusable _ _ Hok ltac:(by rewrite Hs)) as Hr.
  assert (Hle : (state_of s <= SOCKS_ST_DONE)%nat) by apply Hok.
  unfold socks_on_block_resolving. apply Os.wp_bind, (wp_the_session _ l); [done|].
  apply Os.wp_bind, (wp_get F B l s); [done|]. destruct (dns_resolving s).
  { apply Os.wp_ret, (HQ _ s); [done|state_lia|done| |done|done]. rewrite <- Hs.
    apply (fine_evolved F _ s); [apply arrived_evolved, Hok|by split]. }
  case_decide.
  { apply (rule_refuse F B garbage impl Hclient Hrefusals k l s s); [apply gai_rep_nonzero|done..]. }
  apply Os.wp_bind, (wp_set F B l s); [done..|]. intros Hh1.
  eapply (rule_begin_origin_connect F B garbage impl Hclient Hrefusals Hbelow k l);
    [exact Hh1|done|by apply refusable_cursor|done|by eapply lands_same].
Qed.

End States.

End SocksStates.
