(* ===== verification/SocksEvents.v ===== *)
(** The rules for the callbacks of a session's two descriptors: from the
    invariant, each returns, and leaves the invariant or the session gone. *)
From S2P Require Import Prelude CBuffer Request Stm Selector Os Inet Store Sessions Program Socks.
From S2P Require Import SocksServer IdleList SocksInv SocksRules SocksClose SocksFlush.
From S2P Require Import SocksHandshake SocksStates.
Import Store Program Socks SocksServer IdleList SocksInv SocksRules SocksClose SocksFlush.
Import SocksHandshake SocksStates.
Local Open Scope Z_scope.

Module SocksEvents.

Section Events.
Context {E : Type} {OS : Os.Os E} {OL : Os.OsLaws E} {IN : Inet}.
Abbreviation st := (Os.st handler data program E).
Abbreviation M := (Os.M handler data program E).
Abbreviation fd_handler := (@Selector.fd_handler handler data (Os.sys program E)).
Variables (F : fixed) (B : gmap loc socks_session).
Variables (garbage : item) (impl : handler -> fd_handler).
Hypothesis Hclient : closes_client garbage impl.
Hypothesis Horigin : closes_origin impl.
Hypothesis Hrefusals : refusals_get_through (E := E).
Hypothesis Hbelow : descriptors_below (E := E) (table_size F).
Implicit Types (w : st) (sl : selector).

(** The session is still there and fine, with client [c], or it is gone. *)
Definition alive (l : loc) (c : Z) w : Prop :=
  exists s, here F B l s w /\ fine F w.(Selector.sel) s /\ s.(client_fd) = c.
Definition after (l : loc) (c : Z) w : Prop := alive l c w \/ others F B w.

Lemma after_here l s c w : here F B l s w -> fine F w.(Selector.sel) s -> s.(client_fd) = c -> after l c w.
Proof. intros Hh Hf Hc. left. by exists s. Qed.

Lemma after_inv l c w : after l c w -> inv F w.
Proof.
  intros [(s & Hh & Hf & _)|Ho]; [by eapply here_elim|]. by exists B.
Qed.

(** ** Interests *)

Lemma fine_sel sl sl' s k : fine F sl s ->
  (forall j, j <> k -> Selector.entry sl' j = Selector.entry sl j) ->
  k <> s.(origin_fd) \/ state_of s <> SOCKS_ST_ORIGIN_CONNECTING -> fine F sl' s.
Proof.
  intros [Hok Ha] Hj Hk. split; [done|]. intros Hs it Hit. destruct Hk as [Hk|Hk]; [|done].
  apply (Ha Hs). by rewrite <- Hj by auto.
Qed.

Lemma two_descriptors l s w : here F B l s w -> session_ok (table_size F) s -> s.(client_fd) <> s.(origin_fd).
Proof.
  intros [[_ _ _ _ [_ _ _ _ _ H4 H5] _ _] _ _ _] Hok He. pose proof (so_client _ _ Hok).
  pose proof (H4 l (strip s) (lookup_insert_eq _ _ _)) as Hc.
  pose proof (H5 l (strip s) (lookup_insert_eq _ _ _)) as Ho. cbn in Hc, Ho.
  rewrite <- He in Ho. specialize (Ho ltac:(lia)).
  by destruct (registered_unique _ _ _ _ _ _ Hc Ho).
Qed.

Lemma rule_client_interest l s i w Q : here F B l s w -> fine F w.(Selector.sel) s ->
  (forall w', here F B l s w' -> fine F w'.(Selector.sel) s -> Q tt w') ->
  Os.wp (Os.set_interest s.(client_fd) i) Q w.
Proof.
  intros Hh Hf HQ. pose proof (so_client _ _ (proj1 Hf)). pose proof (two_descriptors l s w Hh (proj1 Hf)).
  apply (rule_interest F B l s); [done|by left|by right|]. intros sl Hh' Hj.
  apply HQ; [done|]. apply (fine_sel _ _ _ s.(client_fd) Hf Hj). by left.
Qed.

Lemma rule_client_interest_key l s k i w Q : here F B l s w -> fine F w.(Selector.sel) s ->
  k.(Selector.key_fd) = s.(client_fd) ->
  (forall w', here F B l s w' -> fine F w'.(Selector.sel) s -> Q tt w') ->
  Os.wp (Os.set_interest_key k i) Q w.
Proof.
  intros Hh Hf Hk HQ. pose proof (so_client _ _ (proj1 Hf)). pose proof (two_descriptors l s w Hh (proj1 Hf)).
  apply (rule_interest_key F B l s); [done|by left|by rewrite Hk|]. rewrite Hk. intros sl Hh' Hj.
  apply HQ; [done|]. apply (fine_sel _ _ _ s.(client_fd) Hf Hj). by left.
Qed.

Lemma rule_origin_interest l s i w Q : here F B l s w -> fine F w.(Selector.sel) s ->
  state_of s <> SOCKS_ST_ORIGIN_CONNECTING ->
  (forall w', here F B l s w' -> fine F w'.(Selector.sel) s -> Q tt w') ->
  Os.wp (Os.set_interest s.(origin_fd) i) Q w.
Proof.
  intros Hh Hf Hs HQ. pose proof (so_origin _ _ (proj1 Hf)).
  apply (rule_interest F B l s); [done|by right|done|]. intros sl Hh' Hj.
  apply HQ; [done|]. apply (fine_sel _ _ _ s.(origin_fd) Hf Hj). by right.
Qed.

Lemma rule_origin_interest_key l s k i w Q : here F B l s w -> fine F w.(Selector.sel) s ->
  k.(Selector.key_fd) = s.(origin_fd) -> 0 <= s.(origin_fd) -> state_of s <> SOCKS_ST_ORIGIN_CONNECTING ->
  (forall w', here F B l s w' -> fine F w'.(Selector.sel) s -> Q tt w') ->
  Os.wp (Os.set_interest_key k i) Q w.
Proof.
  intros Hh Hf Hk H0 Hs HQ. pose proof (so_origin _ _ (proj1 Hf)) as Ho.
  apply (rule_interest_key F B l s); [done|by right|rewrite Hk; unfold in_table; destruct Ho; lia|].
  rewrite Hk. intros sl Hh' Hj.
  apply HQ; [done|]. apply (fine_sel _ _ _ s.(origin_fd) Hf Hj). by right.
Qed.

(** ** The client's descriptor *)

Lemma fine_arrived sl s : fine F sl s -> fine F sl (arrived s (state_of s)).
Proof. intros Hf. apply (fine_evolved F _ s); [apply arrived_evolved, Hf|done]. Qed.

Lemma in_handshake_spec n : in_handshake n = bool_decide (n <= SOCKS_ST_REQUEST)%nat.
Proof. do 4 (destruct n as [|n]; [done|]). by rewrite bool_decide_false by state_lia. Qed.

(** One turn consumes input. *)
Lemma rule_read_event k l s w Q : here F B l s w -> session_of k = Some l -> fine F w.(Selector.sel) s ->
  (state_of s <= SOCKS_ST_REQUEST)%nat -> CBuffer.contents s.(c2o) <> [] ->
  (forall n s' w', here F B l s' w' -> fine F w'.(Selector.sel) s' ->
     (length (CBuffer.contents s'.(c2o)) < length (CBuffer.contents s.(c2o)))%nat ->
     s'.(client_fd) = s.(client_fd) -> Q n w') ->
  Os.wp (stm_call (stm_handler_read (socks_state_table garbage impl)) k) Q w.
Proof.
  intros Hh Hk Hf Hs Hne HQ. pose proof (fine_arrived _ _ Hf) as Hf1.
  assert (Hle : (state_of s <= SOCKS_ST_DONE)%nat) by state_lia.
  destruct (on_read_ready garbage impl (state_of s)) as [f|] eqn:Hr.
  2:{ by destruct (state_of s) as [|[|[|]]]. }
  apply (wp_stm F B EvRead _ _ _ k l s f); [done..|]. intros s1 Hh1.
  assert (Hland : lands_shorter F B l s1
    (fun next w' => (next <= SOCKS_ST_DONE)%nat /\ exists s', here F B l s' w' /\
       (state_of s' <= SOCKS_ST_DONE)%nat /\
       (here F B l (arrived s' next) (put l (arrived s' next) w') -> Q next (put l (arrived s' next) w')))).
  { intros next s' w' Hh' Hn Hs' Hf' Hlen Hfd. split; [done|]. exists s'. split_and!; [done..|].
    intros Hh2. eapply HQ; [exact Hh2|exact Hf'|exact Hlen|exact Hfd]. }
  assert (Hst : state_of s1 = state_of s) by done.
  destruct (state_of s) as [|[|[|n]]] eqn:Hn; [| | |state_lia]; injection Hr as <-.
  - by apply (rule_on_read_greeting F B impl k l s1).
  - by apply (rule_on_read_auth F B impl k l s1).
  - by apply (rule_on_read_request F B garbage impl Hclient Hrefusals Hbelow k l s1).
Qed.

Lemma rule_drain_handshake fuel : forall k l s w Q, here F B l s w -> session_of k = Some l ->
  fine F w.(Selector.sel) s -> (length (CBuffer.contents s.(c2o)) <= fuel)%nat ->
  (forall s' w', here F B l s' w' -> fine F w'.(Selector.sel) s' -> s'.(client_fd) = s.(client_fd) -> Q tt w') ->
  Os.wp (drain_handshake garbage impl fuel k l) Q w.
Proof.
  induction fuel as [|fuel IH]; intros k l s w Q Hh Hk Hf Hlen HQ; cbn [drain_handshake];
    (apply Os.wp_bind, (wp_get F B l s); [done|]);
    pose proof (so_c2o _ _ (proj1 Hf)) as Hwf; rewrite (CBuffer.can_read_spec _ Hwf);
    (case_bool_decide as Hne; cbn [negb]; [|by eapply Os.wp_ret, HQ]).
  { by destruct (CBuffer.contents s.(c2o)); [|cbn in Hlen; lia]. }
  apply Os.wp_bind, (wp_state F B k l s); [done|done|apply Hf|].
  rewrite in_handshake_spec. case_bool_decide as Hs; cbn [negb]; [|by eapply Os.wp_ret, HQ].
  apply Os.wp_bind, (rule_read_event k l s); [done..|]. intros n s' w' Hh' Hf' Hlt Hfd.
  apply (IH k l s'); [done..|lia|]. intros s2 w2 Hh2 Hf2 Hfd2. eapply HQ; [done|done|congruence].
Qed.

Lemma rule_flush l s w Q : here F B l s w -> fine F w.(Selector.sel) s ->
  (forall s' w', here F B l s' w' -> fine F w'.(Selector.sel) s' -> evolved s s' -> Q true w') ->
  (forall w', others F B w' -> Q false w') -> Os.wp (socks_flush_client impl l) Q w.
Proof.
  intros Hh Hf Ht Hn. apply (rule_flush_client F B garbage impl Hclient l s); [done|apply Hf| |by auto].
  intros s' w' Hh' He Hs _. apply (Ht s'); [done| |done]. rewrite Hs. by apply (fine_evolved F _ s).
Qed.

Lemma rule_close_flushed l s w Q : here F B l s w -> fine F w.(Selector.sel) s ->
  Q true w -> (forall w', others F B w' -> Q false w') -> Os.wp (socks_close_if_flushed impl l) Q w.
Proof. intros Hh Hf. apply (rule_close_if_flushed F B garbage impl Hclient l s); [done|apply Hf]. Qed.

(** What a client's callback ends with: close if all is said, else rearm. *)
Lemma rule_close_or_rearm k l s w : here F B l s w -> fine F w.(Selector.sel) s ->
  k.(Selector.key_fd) = s.(client_fd) ->
  Os.wp (open ← socks_close_if_flushed impl l;
    if negb open then mret tt else
    s ← get_session l; Os.set_interest_key k (socks_client_interest s)) (fun _ => after l k.(Selector.key_fd)) w.
Proof.
  intros Hh Hf Hk. apply Os.wp_bind, (rule_close_flushed l s); [done|done| |].
  - cbn [negb]. apply Os.wp_bind, (wp_get F B l s); [done|].
    apply (rule_client_interest_key l s); [done..|]. intros w' Hh' Hf'. by apply (after_here l s).
  - intros w' Ho. cbn [negb]. apply Os.wp_ret. by right.
Qed.

Lemma rule_flush_and_rearm k l s w : here F B l s w -> fine F w.(Selector.sel) s ->
  k.(Selector.key_fd) = s.(client_fd) ->
  Os.wp (flush_and_rearm impl k l) (fun _ => after l k.(Selector.key_fd)) w.
Proof.
  intros Hh Hf Hk. apply Os.wp_bind, (rule_flush l s); [done|done| |].
  - intros s' w' Hh' Hf' He. cbn [negb]. apply (rule_close_or_rearm k l s'); [done..|].
    by destruct (evolved_fields _ _ He) as [-> _].
  - intros w' Ho. cbn [negb]. apply Os.wp_ret. by right.
Qed.

Lemma rule_client_write k l s w : here F B l s w -> fine F w.(Selector.sel) s ->
  session_of k = Some l -> k.(Selector.key_fd) = s.(client_fd) ->
  Os.wp (socks_client_write impl k) (fun _ => after l k.(Selector.key_fd)) w.
Proof. intros Hh Hf Hk Hfd. unfold socks_client_write. rewrite Hk. by apply (rule_flush_and_rearm k l s). Qed.

Lemma rule_client_block k l s w : here F B l s w -> fine F w.(Selector.sel) s ->
  session_of k = Some l -> k.(Selector.key_fd) = s.(client_fd) -> state_of s = SOCKS_ST_RESOLVING ->
  Os.wp (socks_client_block garbage impl k) (fun _ => after l k.(Selector.key_fd)) w.
Proof.
  intros Hh Hf Hk Hfd Hs. unfold socks_client_block. apply Os.wp_bind, (wp_the_session _ l); [done|].
  apply Os.wp_bind. assert (Hle : (state_of s <= SOCKS_ST_DONE)%nat) by apply Hf.
  apply (wp_stm F B EvBlock _ _ _ k l s (socks_on_block_resolving garbage impl)); [done..|by rewrite Hs|].
  intros s1 Hh1. pose proof (fine_arrived _ _ Hf) as Hf1.
  apply (rule_on_block_resolving F B garbage impl Hclient Hrefusals Hbelow k l s1); [done..|].
  intros next s' w' Hh' Hn Hs' Hf' _ Hfd'. split; [done|]. exists s'. split_and!; [done..|].
  intros Hh2. apply (rule_flush_and_rearm k l (arrived s' next)); [done|done|]. cbn. by rewrite Hfd, Hfd'.
Qed.

Lemma rule_unregister_session k l s w : here F B l s w -> fine F w.(Selector.sel) s ->
  k.(Selector.key_fd) = s.(client_fd) ->
  Os.wp (socks_unregister_session impl k) (fun _ => after l k.(Selector.key_fd)) w.
Proof.
  intros Hh Hf Hk. apply (rule_unregister_client F B garbage impl l s); [done|done|apply Hf|done|].
  intros w' Ho. by right.
Qed.

(** What arrives is stored behind what waits. *)
Lemma wp_store_read {A} b bs (g : CBuffer.buffer -> M A) Q w : CBuffer.wf b ->
  (length bs <= CBuffer.space b)%nat ->
  (forall b', CBuffer.wf b' -> CBuffer.contents b' = CBuffer.contents b ++ bs ->
     b'.(CBuffer.limit) = b.(CBuffer.limit) -> Os.wp (g b') Q w) ->
  Os.wp (b ← Os.lift (CBuffer.buffer_store b bs);
    b ← Os.lift (CBuffer.buffer_write_adv b (Z.of_nat (length bs))); g b) Q w.
Proof.
  intros Hwf Hn HQ. destruct (CBuffer.append_spec b bs Hwf Hn) as (b' & Hb & Hwf' & Hc & _ & _ & Hl).
  apply bind_ok in Hb as (b1 & H1 & H2).
  apply Os.wp_bind, (Os.wp_lift _ _ _ _ H1), Os.wp_bind, (Os.wp_lift _ _ _ _ H2). by apply HQ.
Qed.

Lemma rule_touched l s w Q : here F B l s w -> fine F w.(Selector.sel) s ->
  (forall s' w', here F B l s' w' -> fine F w'.(Selector.sel) s' -> evolved s s' -> Q tt w') ->
  Os.wp (socks_session_touch l) Q w.
Proof.
  intros Hh Hf HQ. apply (rule_touch F B l s); [done|]. intros s' w' Hh' Hc Hs _. eapply HQ; [done| |].
  - rewrite Hs. by eapply fine_core.
  - apply evolved_core; [done|apply Hf].
Qed.

(** The part of [socks_client_read] between the read and the end. *)
Lemma rule_client_input k l s w : here F B l s w -> fine F w.(Selector.sel) s ->
  session_of k = Some l -> k.(Selector.key_fd) = s.(client_fd) ->
  Os.wp (if decide (state_of s = SOCKS_ST_RELAY) then
      s ← get_session l;
      if decide (s.(origin_fd) < 0) then mret true else
      flushed ← socks_flush_origin impl l;
      if negb flushed then mret false else
      s ← get_session l;
      Os.set_interest s.(origin_fd) (socks_origin_interest s) ;;
      mret true
    else
      s ← get_session l;
      drain_handshake garbage impl s.(c2o).(CBuffer.limit) k l ;;
      s ← get_session l;
      if CBuffer.buffer_can_read s.(o2c) then socks_flush_client impl l else mret true)
   (fun alive w' => if alive : bool
      then exists s', here F B l s' w' /\ fine F w'.(Selector.sel) s' /\ k.(Selector.key_fd) = s'.(client_fd)
      else others F B w') w.
Proof.
  intros Hh Hf Hk Hfd. case_decide as Hs; (apply Os.wp_bind, (wp_get F B l s); [done|]).
  - case_decide; [apply Os.wp_ret; by exists s|].
    apply Os.wp_bind, (rule_flush_origin F B garbage impl Hclient l s); [done|done| |].
    + intros s' w' Hh' Hf' Hs' Ho' Hc' _ _. cbn [negb]. apply Os.wp_bind, (wp_get F B l s'); [done|].
      apply Os.wp_bind, (rule_origin_interest l s'); [done|done|rewrite Hs', Hs; done|].
      intros w2 Hh2 Hf2. apply Os.wp_ret. exists s'. split_and!; [done..|congruence].
    + intros w' Ho _. cbn [negb]. by apply Os.wp_ret.
  - apply Os.wp_bind, (rule_drain_handshake _ k l s); [done|done|done| |].
    { pose proof (so_c2o _ _ (proj1 Hf)) as Hwf. rewrite CBuffer.contents_length by done. destruct Hwf. lia. }
    intros s' w' Hh' Hf' Hc'. apply Os.wp_bind, (wp_get F B l s'); [done|].
    destruct (CBuffer.buffer_can_read _).
    + apply (rule_flush l s'); [done|done| |done]. intros s2 w2 Hh2 Hf2 He2. exists s2.
      split_and!; [done..|]. destruct (evolved_fields _ _ He2) as [-> _]. congruence.
    + apply Os.wp_ret. exists s'. split_and!; [done..|congruence].
Qed.

Lemma rule_client_read k l s w : here F B l s w -> fine F w.(Selector.sel) s ->
  session_of k = Some l -> k.(Selector.key_fd) = s.(client_fd) ->
  Os.wp (socks_client_read garbage impl k) (fun _ => after l k.(Selector.key_fd)) w.
Proof.
  intros Hh Hf Hk Hfd. unfold socks_client_read. rewrite Hk. apply Os.wp_bind, (wp_get F B l s); [done|].
  pose proof (so_c2o _ _ (proj1 Hf)) as Hwf.
  apply Os.wp_bind, (Os.wp_lift _ _ _ _ (CBuffer.write_ptr_wf _ Hwf)).
  assert (Hrearm : forall w', here F B l s w' -> Selector.sel w' = Selector.sel w ->
    Os.wp (Os.set_interest_key k (socks_client_interest s)) (fun _ => after l k.(Selector.key_fd)) w').
  { intros w' Hh' Hs'. apply (rule_client_interest_key l s); [done|by rewrite Hs'|done|].
    intros w2 Hh2 Hf2. by apply (after_here l s). }
  assert (Hend : forall w', here F B l s w' -> Selector.sel w' = Selector.sel w ->
    Os.wp (socks_unregister_session impl k) (fun _ => after l k.(Selector.key_fd)) w').
  { intros w' Hh' Hs'. apply (rule_unregister_session k l s); [done|by rewrite Hs'|done]. }
  case_decide; [by apply Hrearm|]. apply Os.wp_bind, (rule_read F B l s); [done|..].
  - intros bs w1 Hbs Hh1 Hs1 _. destruct bs as [|c bs]; [by apply Hend|].
    apply wp_store_read; [done..|]. intros b Hb _ _.
    apply Os.wp_bind, (wp_set F B l s); [done..|]. intros Hh2.
    apply Os.wp_bind, (rule_touched l (s <| c2o := b |>)); [done| |].
    { apply fine_c2o; [done|]. cbn. by rewrite Hs1. }
    intros s3 w3 Hh3 Hf3 He3. destruct (evolved_fields _ _ He3) as [Hc3 _].
    apply Os.wp_bind, (wp_state F B k l s3); [done|done|apply Hf3|].
    apply Os.wp_bind. eapply Os.wp_mono; [apply (rule_client_input k l s3); [done..|by rewrite Hc3]|].
    intros [] w4.
    + intros (s4 & Hh4 & Hf4 & Hc4). cbn [negb]. by apply (rule_close_or_rearm k l s4).
    + intros Ho. cbn [negb]. apply Os.wp_ret. by right.
  - intros errno w1 Hh1 Hs1 _. destruct (Os.would_block errno); [by apply Hrearm|by apply Hend].
Qed.

(** ** The origin's descriptor *)

Lemma rule_record_dest l s w Q : here F B l s w ->
  (forall r w', let s' := s <| dest_recorded := r |> in here F B l s' w' ->
     Selector.sel w' = Selector.sel w -> Q tt w') ->
  Os.wp (socks_session_record_dest l) Q w.
Proof.
  intros Hh HQ. unfold socks_session_record_dest. apply Os.wp_bind, (wp_get F B l s); [done|].
  destruct (_ || _).
  { apply Os.wp_ret, (HQ (dest_recorded s)); [|done]. by destruct s. }
  cbv zeta. apply Os.wp_bind, (wp_os_here F B l s); [done|]. intros now e _ Hh1. apply Os.wp_bind.
  eapply (rule_store F B l s (Sessions.SetDest now (store_id s) _ _)); [done..|].
  intros w2 Hh2 Hs2 _. apply (wp_set F B l s); [done..|]. intros Hh3. by apply (HQ _ _ Hh3).
Qed.

(** A session in the relay. *)
Lemma fine_relay sl s : CBuffer.wf s.(c2o) -> CBuffer.wf s.(o2c) ->
  (1024 <= s.(o2c).(CBuffer.limit))%nat -> 0 <= s.(client_fd) < table_size F ->
  (s.(origin_fd) = -1 \/ in_table F s.(origin_fd)) -> fine F sl (arrived s SOCKS_ST_RELAY).
Proof.
  intros H1 H2 H3 H4 H5.
  assert (Hn : ~ answering (arrived s SOCKS_ST_RELAY)) by (intros [Hx|[Hx _]]; cbn in Hx; state_lia).
  split; [split|]; try done; cbn; try state_lia.
Qed.

(** What follows a flush that leaves the session open: both interests. *)
Lemma rule_both_interests l s c w (b : M unit) : here F B l s w -> fine F w.(Selector.sel) s ->
  (forall w', here F B l s w' -> fine F w'.(Selector.sel) s -> Os.wp b (fun _ => after l c) w') ->
  state_of s <> SOCKS_ST_ORIGIN_CONNECTING ->
  Os.wp (Os.set_interest s.(origin_fd) (socks_origin_interest s) ;; b) (fun _ => after l c) w.
Proof. intros Hh Hf Hb Hs. apply Os.wp_bind, (rule_origin_interest l s); [done..|]. by apply Hb. Qed.

Lemma rule_origin_connect_complete k l s w : here F B l s w -> fine F w.(Selector.sel) s ->
  session_of k = Some l -> state_of s = SOCKS_ST_ORIGIN_CONNECTING ->
  Os.wp (socks_origin_connect_complete garbage impl k) (fun _ => after l s.(client_fd)) w.
Proof.
  intros Hh Hf Hk Hs. pose proof (proj1 Hf) as [O1 O2 O3 O4 O5 O6 O7 O8 _ _].
  assert (Hw : (s.(o2c).(CBuffer.write) <= 4)%nat) by (rewrite Hs in O8; apply O8; left; state_lia).
  unfold socks_origin_connect_complete. apply Os.wp_bind, (wp_the_session _ l); [done|].
  apply Os.wp_bind, (wp_os_here F B l s); [done|]. intros answer e _ Hh1. cbv zeta. case_decide.
  - apply Os.wp_bind, (rule_destroy_origin F B impl l s); [done|done|done|]. intros w2 Hh2 _.
    set (s2 := s <| origin_fd := -1 |>) in *. apply Os.wp_bind, (wp_get F B l s2); [done|].
    assert (Hr : refusable (table_size F) s2) by by split.
    assert (Hfail : Os.wp (socks_fail_request impl k (socks_errno_to_rep (match answer with inl errno => errno | inr err => err end)) ;;
        _ ← socks_close_if_flushed impl l; mret tt) (fun _ => after l s.(client_fd)) w2).
    { apply Os.wp_bind, (rule_fail_request F B garbage impl Hclient Hrefusals k l s2);
        [apply errno_rep_nonzero|done..|]. intros s3 w3 Hh3 Hf3 (_ & _ & Hc3).
      apply Os.wp_bind, (rule_close_flushed l s3); [done|done|by apply Os.wp_ret, (after_here l s3)|].
      intros w4 Ho. apply Os.wp_ret. by right. }
    destruct (dns_cursor s2) as [|a0 [|a1 cursor]]; [exact Hfail|exact Hfail|].
    apply Os.wp_bind, (wp_set F B l s2); [done..|]. intros Hh3. apply Os.wp_bind.
    eapply (rule_begin_origin_connect F B garbage impl Hclient Hrefusals Hbelow k l);
      [exact Hh3|done|by apply refusable_cursor|done|].
    intros next s4 w4 Hh4 _ _ Hf4 _ Hc4. eapply wp_upd; [exact Hh4|done|]. intros Hh5.
    by apply (after_here l (arrived s4 next)).
  - apply Os.wp_bind. unfold socks_send_connect_reply.
    apply (rule_append F B l s); [done|done|cbn; lia|]. intros b Hb _ _ Hl s2 Hh2. cbn [negb].
    apply Os.wp_bind, (rule_record_dest l s2); [done|]. intros r w3 s3 Hh3 _.
    apply Os.wp_bind. eapply wp_upd; [exact Hh3|done|]. intros Hh4.
    assert (Hf4 : forall sl, fine F sl (arrived s3 SOCKS_ST_RELAY)).
    { intros sl. apply fine_relay; try done. unfold s3, s2. cbn. by rewrite Hl. }
    apply Os.wp_bind, (rule_flush l (arrived s3 SOCKS_ST_RELAY)); [done|apply Hf4| |].
    + intros s5 w5 Hh5 Hf5 He5. destruct (evolved_fields _ _ He5) as (Hc5 & _). cbn [negb]. apply Os.wp_bind, (wp_get F B l s5); [done|].
      apply rule_both_interests; [done|done| |rewrite (ev_state _ _ He5); done].
      intros w6 Hh6 Hf6. apply (rule_client_interest l s5); [done..|]. intros w7 Hh7 Hf7. by apply (after_here l s5).
    + intros w5 Ho. cbn [negb]. apply Os.wp_ret. by right.
Qed.

(** An origin that is read from or written to outside a connect. *)
Lemma not_answering N s : session_ok N s -> 0 <= s.(origin_fd) ->
  state_of s <> SOCKS_ST_ORIGIN_CONNECTING -> ~ answering s.
Proof. intros Hok H0 Hs Ha. pose proof (so_alone _ _ Hok Ha Hs). lia. Qed.

Lemma fine_o2c sl s b : CBuffer.wf b -> b.(CBuffer.limit) = s.(o2c).(CBuffer.limit) -> ~ answering s ->
  fine F sl s -> fine F sl (s <| o2c := b |>).
Proof. intros Hb Hl Hn [[] Ha]. split; [|done]. split; try done. cbn. by rewrite Hl. Qed.

Lemma rule_origin_read k l s w : here F B l s w -> fine F w.(Selector.sel) s ->
  session_of k = Some l -> k.(Selector.key_fd) = s.(origin_fd) -> 0 <= s.(origin_fd) ->
  state_of s <> SOCKS_ST_ORIGIN_CONNECTING ->
  Os.wp (socks_origin_read impl k) (fun _ => after l s.(client_fd)) w.
Proof.
  intros Hh Hf Hk Hfd H0 Hs. pose proof (not_answering _ _ (proj1 Hf) H0 Hs) as Hn.
  unfold socks_origin_read. apply Os.wp_bind, (wp_the_session _ l); [done|].
  apply Os.wp_bind, (wp_get F B l s); [done|]. pose proof (so_o2c _ _ (proj1 Hf)) as Hwf.
  apply Os.wp_bind, (Os.wp_lift _ _ _ _ (CBuffer.write_ptr_wf _ Hwf)).
  assert (Hrearm : forall w', here F B l s w' -> Selector.sel w' = Selector.sel w ->
    Os.wp (Os.set_interest_key k (socks_origin_interest s)) (fun _ => after l s.(client_fd)) w').
  { intros w' Hh' Hs'. apply (rule_origin_interest_key l s); [done|by rewrite Hs'|done..|].
    intros w2 Hh2 Hf2. by apply (after_here l s). }
  assert (Hend : forall w', here F B l s w' -> Selector.sel w' = Selector.sel w ->
    Os.wp (socks_session_close_from_origin impl l) (fun _ => after l s.(client_fd)) w').
  { intros w' Hh' Hs'. apply (rule_close_from_origin F B garbage impl Hclient l s); [done|apply Hf|].
    intros w2 Ho. by right. }
  case_decide; [by apply Hrearm|]. apply Os.wp_bind, (rule_read F B l s); [done|..].
  2:{ intros errno w1 Hh1 Hs1 _. destruct (Os.would_block errno); [by apply Hrearm|by apply Hend]. }
  intros bs w1 Hbs Hh1 Hs1 _. destruct bs as [|c bs]; [by apply Hend|].
  apply wp_store_read; [done..|]. intros b Hb _ Hl.
  apply Os.wp_bind, (wp_set F B l s); [done..|]. intros Hh2.
  apply Os.wp_bind, (rule_touched l (s <| o2c := b |>)); [done| |].
  { apply fine_o2c; [done..|]. cbn. by rewrite Hs1. }
  intros s3 w3 Hh3 Hf3 He3. destruct (evolved_fields _ _ He3) as (Hc3 & Ho3 & _).
  apply Os.wp_bind, (rule_add_bytes F B l s3); [done|]. intros w4 Hh4 Hs4 _.
  apply Os.wp_bind, (rule_flush l s3); [done|by rewrite Hs4| |].
  - intros s5 w5 Hh5 Hf5 He5. destruct (evolved_fields _ _ He5) as (Hc5 & Ho5 & _). cbn in Hc3, Ho3.
    cbn [negb]. apply Os.wp_bind, (wp_get F B l s5); [done|].
    apply Os.wp_bind, (rule_client_interest l s5); [done..|]. intros w6 Hh6 Hf6.
    apply (rule_origin_interest_key l s5); [done|done|congruence|congruence| |].
    + rewrite (ev_state _ _ He5), (ev_state _ _ He3). done.
    + intros w7 Hh7 Hf7. apply (after_here l s5); [done|done|congruence].
  - intros w5 Ho. cbn [negb]. apply Os.wp_ret. by right.
Qed.

Lemma rule_origin_write k l s w : here F B l s w -> fine F w.(Selector.sel) s ->
  session_of k = Some l -> k.(Selector.key_fd) = s.(origin_fd) -> 0 <= s.(origin_fd) ->
  Os.wp (socks_origin_write garbage impl k) (fun _ => after l s.(client_fd)) w.
Proof.
  intros Hh Hf Hk Hfd H0. unfold socks_origin_write. apply Os.wp_bind, (wp_the_session _ l); [done|].
  apply Os.wp_bind, (wp_state F B k l s); [done|done|apply Hf|].
  case_decide as Hs; [by apply (rule_origin_connect_complete k l s)|].
  apply Os.wp_bind, (rule_flush_origin F B garbage impl Hclient l s); [done|done| |].
  - intros s' w' Hh' Hf' Hs' Ho' Hc' _ _. cbn [negb]. apply Os.wp_bind, (wp_get F B l s'); [done|].
    apply Os.wp_bind, (rule_origin_interest_key l s'); [done|done|congruence|congruence|congruence|].
    intros w2 Hh2 Hf2. apply (rule_client_interest l s'); [done..|]. intros w3 Hh3 Hf3. by apply (after_here l s').
  - intros w' Ho _. cbn [negb]. apply Os.wp_ret. by right.
Qed.

End Events.

End SocksEvents.
