(* ===== verification/SocksAccept.v ===== *)
(** The rules for accepting connections: a session that is being set up is not
    yet registered, listed or counted. *)
From S2P Require Import Prelude CBuffer ByteParser Auth Request Stm Selector Os Inet Store.
From S2P Require Import Sessions Program Socks SocksServer IdleList SocksInv SocksRules SocksClose.
From S2P Require Import SocksFlush SocksHandshake.
Import Store Program Socks SocksServer IdleList SocksInv SocksRules SocksClose SocksFlush SocksHandshake.
Local Open Scope Z_scope.

Module SocksAccept.

Section Accept.
Context {E : Type} {OS : Os.Os E} {OL : Os.OsLaws E} {IN : Inet}.
Abbreviation st := (Os.st handler data program E).
Abbreviation M := (Os.M handler data program E).
Abbreviation fd_handler := (@Selector.fd_handler handler data (Os.sys program E)).
Variables (F : fixed) (B : gmap loc socks_session).
Variables (garbage : item) (impl : handler -> fd_handler).
Hypothesis Hbelow : descriptors_below (E := E) (table_size F).
Implicit Types (w : st) (sl : selector).

(** Connections that wait. *)
Definition waiting w : nat := Os.os_backlog (env w).

(** No session at hand; at most [n] connections wait; the table is as it was. *)
Variable base : selector.
Definition bounded (n : nat) w : Prop := (waiting w <= n)%nat /\ Selector.sel w = base.
Definition idle_world (n : nat) w : Prop := others F B w /\ bounded n w.

Lemma others_env e w : others F B w -> others F B (Os.on_env e w).
Proof. intros [[] Hf]. by split. Qed.

Lemma others_trace i w : others F B w -> allowed F.(fx_acl) i -> others F B (Os.on_trace i w).
Proof.
  intros [[? ? ? ? ? (new & Ht & Ha) ? ?] Hf] Hi. split; [split; try done|done].
  exists (i :: new). split; [|by apply Forall_cons].
  change (trace (Os.on_trace i w)) with (i :: trace w). by rewrite Ht.
Qed.

Lemma others_prog f w : others F B w ->
  sessions (f (prog w)) = sessions (prog w) ->
  ((next_session (prog w) <= next_session (f (prog w)))%positive) ->
  socks (f (prog w)) = socks (prog w) ->
  (forall t, store (prog w) = Some t -> store_fine F.(fx_acl) t ->
     exists t', store (f (prog w)) = Some t' /\ store_fine F.(fx_acl) t') ->
  rest (f (prog w)) = rest (prog w) ->
  others F B (Os.on_prog f w).
Proof.
  intros [[W1 W2 W3 (t & W4 & W4') W5 W6 W7 W8] Hf] F1 F2 F3 F4 F5. split; [|done].
  split; change (prog (Os.on_prog f w)) with (f (prog w)); rewrite ?F1, ?F3, ?F5; eauto.
  intros l Hl. specialize (W3 l Hl). lia.
Qed.

(** A session in the heap that nothing refers to yet: without it the world is
    complete. *)
Definition hide (l : loc) w : st := Os.on_prog (fun p => p <| sessions ::= delete l |>) w.

Record fresh (n : nat) (l : loc) (s : socks_session) w : Prop := {
  fr_hidden : idle_world n (hide l w);
  fr_at : (prog w).(sessions) !! l = Some s;
  fr_new : B !! l = None;
  fr_next : (l < (prog w).(next_session))%positive;
  fr_links : links s = (None, None, false);
}.

Lemma fresh_put n l s s' w : fresh n l s w -> links s' = (None, None, false) -> fresh n l s' (put l s' w).
Proof.
  intros [H1 H2 H3 H4 H5] Hl. split; [|apply lookup_insert_eq|done|done|done].
  unfold hide in *. destruct w as [sl [p e t]]. destruct p. unfold put, Os.on_prog in *. cbn in *.
  unfold set in *. cbn in *. by rewrite delete_insert_eq.
Qed.

Lemma fresh_upd n l s f w Q : fresh n l s w -> links (f s) = (None, None, false) ->
  (fresh n l (f s) (put l (f s) w) -> Q tt (put l (f s) w)) -> Os.wp (upd_session l f) Q w.
Proof. intros Hf Hl HQ. apply (wp_upd_put l f s); [by destruct Hf|]. by apply HQ, (fresh_put _ _ s). Qed.

Lemma fresh_set n l s s' w Q : fresh n l s w -> links s' = (None, None, false) ->
  (fresh n l s' (put l s' w) -> Q tt (put l s' w)) -> Os.wp (set_session l s') Q w.
Proof. intros Hf Hl HQ. apply (wp_set_session l s); [by destruct Hf|]. by apply HQ, (fresh_put _ _ s). Qed.

Lemma fresh_get n l s w Q : fresh n l s w -> Q s w -> Os.wp (get_session l) Q w.
Proof. intros Hf HQ. apply (wp_get_session l s); [by destruct Hf|done]. Qed.

(** A call that lets no further connection wait. *)
Definition calm {A} (f : E -> A * E) : Prop := forall e, (Os.os_backlog (f e).2 <= Os.os_backlog e)%nat.

Lemma fresh_os {A} (f : E -> A * E) n l s w Q : calm f -> fresh n l s w ->
  (forall a e, f (env w) = (a, e) -> fresh n l s (Os.on_env e w) -> Q a (Os.on_env e w)) ->
  Os.wp (Os.os f) Q w.
Proof.
  intros Hc [[H1 Hn] H2 H3 H4 H5] HQ. apply Os.wp_os. intros a e He. apply HQ; [done|].
  split; try done. split; [exact (others_env e _ H1)|].
  change (f (env w) = (a, e)) in He. specialize (Hc (env w)). rewrite He in Hc.
  split; [exact (Nat.le_trans _ _ _ Hc (proj1 Hn))|apply Hn].
Qed.

Lemma idle_os {A} (f : E -> A * E) n w Q : calm f -> idle_world n w ->
  (forall a e, f (env w) = (a, e) -> idle_world n (Os.on_env e w) -> Q a (Os.on_env e w)) ->
  Os.wp (Os.os f) Q w.
Proof.
  intros Hc [H1 Hn] HQ. apply Os.wp_os. intros a e He. apply HQ; [done|].
  split; [exact (others_env e _ H1)|].
  change (f (env w) = (a, e)) in He. specialize (Hc (env w)). rewrite He in Hc.
  split; [exact (Nat.le_trans _ _ _ Hc (proj1 Hn))|apply Hn].
Qed.

Lemma idle_close n fd w Q : idle_world n w -> (forall w', idle_world n w' -> Q tt w') ->
  Os.wp (Os.close fd) Q w.
Proof. intros [Ho Hn] HQ. apply Os.wp_emit, HQ. split; [by apply others_trace|done]. Qed.

(** ** The store *)

Lemma idle_set_store n w t o Q : idle_world n w -> (prog w).(store) = Some t ->
  (forall w', idle_world n w' -> Q tt w') ->
  Os.wp (set_store (Sessions.perform t o).2) Q w.
Proof.
  intros [Ho Hn] Ht HQ. apply (wp_set_store t); [done|]. apply HQ. split; [|done].
  apply others_prog; [done|done|cbn; lia|done| |done]. intros t' Ht' Hf. eexists. split; [done|].
  replace t' with t in * by congruence. by apply store_step.
Qed.

Lemma idle_store n w Q : idle_world n w ->
  (forall t, (prog w).(store) = Some t -> store_fine F.(fx_acl) t -> Q t w) -> Os.wp get_store Q w.
Proof.
  intros [[[W1 W2 W3 (t & W4 & W4') W5 W6 W7 W8] Hf] Hn] HQ. apply (wp_get_store t); [done|]. by apply HQ.
Qed.

Lemma idle_upd_store n w o f Q : idle_world n w -> (forall t, f t = (Sessions.perform t o).2) ->
  (forall w', idle_world n w' -> Q tt w') -> Os.wp (upd_store f) Q w.
Proof.
  intros Hi Hf HQ. apply Os.wp_bind, (idle_store n); [done|]. intros t Ht _. rewrite Hf.
  by apply (idle_set_store n).
Qed.

Lemma fresh_upd_store n l s w o f Q : fresh n l s w -> (forall t, f t = (Sessions.perform t o).2) ->
  (forall w', fresh n l s w' -> Q tt w') -> Os.wp (upd_store f) Q w.
Proof.
  intros [[Ho Hn] H2 H3 H4 H5] Hf HQ.
  destruct (wo_store _ _ _ (proj1 Ho)) as (t & Ht & Hfi). change (store (prog w) = Some t) in Ht.
  apply (wp_upd_store f t); [done|]. apply HQ. split; try done. split; [|done].
  apply (others_prog (fun p => p <| store := Some (f t) |>)) in Ho; [done..|cbn; lia|done| |done].
  intros t' Ht' Hf'. eexists. split; [done|]. rewrite Hf. by apply store_step.
Qed.

(** ** A new session *)

Lemma calm_alloc : calm Os.os_alloc.
Proof. intros e. apply Os.alloc_backlog. Qed.
Lemma calm_malloc n : calm (Os.os_malloc n).
Proof. intros e. apply Os.malloc_backlog. Qed.
Lemma calm_time : calm Os.os_time.
Proof. intros e. apply Os.time_backlog. Qed.
Lemma calm_fcntl fd : calm (Os.os_fcntl fd).
Proof. intros e. apply Os.fcntl_backlog. Qed.

Lemma rule_new_session n w Q : idle_world n w ->
  (forall w', idle_world n w' -> Q None w') ->
  (forall l w', fresh n l zero_session w' -> Q (Some l) w') -> Os.wp new_session Q w.
Proof.
  intros Hi Hnone Hsome. apply Os.wp_bind, (idle_os _ n); [apply calm_alloc|done|]. intros ok e _ Hi1.
  destruct ok; cbn [negb]; [|by apply Os.wp_ret, Hnone]. set (w1 := Os.on_env e w) in *.
  apply Os.wp_bind, Os.wp_gets. change (Selector.user w1).(Os.prog) with (prog w1).
  set (l := next_session (prog w1)). apply Os.wp_bind, Os.wp_modify, Os.wp_ret. apply Hsome.
  destruct Hi1 as [Ho Hn]. pose proof (wo_next _ _ _ (proj1 Ho)) as Hnext.
  assert (HB : B !! l = None).
  { destruct (B !! l) as [s|] eqn:HB; [|done]. exact (match Pos.lt_irrefl _ (Hnext l (mk_is_Some _ _ HB)) with end). }
  assert (Hm : (prog w1).(sessions) !! l = None).
  { destruct ((prog w1).(sessions) !! l) as [s|] eqn:Hl; [|done]. apply lookup_bare in Hl.
    rewrite (wo_bare _ _ _ (proj1 Ho)) in Hl. congruence. }
  split; [split; [|done]|apply lookup_insert_eq|done|apply Pos.lt_succ_diag_r|done].
  clearbody w1. destruct w1 as [sl [p e1 t1]]. unfold hide, Os.on_prog. cbn in *. unfold set. cbn.
  rewrite delete_insert_id by done.
  apply (others_prog (fun p => p <| next_session ::= Pos.succ |>)) in Ho; [exact Ho|done|cbn; lia|done| |done].
  intros t Ht Hfi. by exists t.
Qed.

Lemma rule_destroy_buffers n l s w Q : fresh n l s w ->
  (forall s' w', fresh n l s' w' -> Q tt w') -> Os.wp (socks_session_destroy_buffers l) Q w.
Proof.
  intros Hf HQ. apply (fresh_upd n l s); [done|apply Hf|]. intros Hf'. by apply (HQ _ _ Hf').
Qed.

Lemma rule_free n l s w Q : fresh n l s w -> (forall w', idle_world n w' -> Q tt w') ->
  Os.wp (free_session l) Q w.
Proof. intros Hf HQ. apply (wp_free_session l s); [apply Hf|]. apply HQ, Hf. Qed.

(** The two buffers, of the configured size. *)
Lemma rule_init_buffers n l s w Q : fresh n l s w ->
  (forall c o w', CBuffer.wf c -> CBuffer.wf o -> (1024 <= o.(CBuffer.limit))%nat -> o.(CBuffer.write) = 0%nat ->
     let s' := s <| c2o_backing := true |> <| o2c_backing := true |> <| c2o := c |> <| o2c := o |> in
     fresh n l s' w' -> Q true w') ->
  (forall s' w', fresh n l s' w' -> Q false w') ->
  Os.wp (socks_session_init_buffers l) Q w.
Proof.
  intros Hf Htrue Hfalse. unfold socks_session_init_buffers.
  destruct (wo_store _ _ _ (proj1 (proj1 (fr_hidden _ _ _ _ Hf)))) as (t & Ht & _ & Hio).
  apply Os.wp_bind, Os.wp_bind, (wp_get_store t); [exact Ht|]. apply Os.wp_ret.
  cbv zeta. set (size := Z.to_nat _). assert (Hsize : (1024 <= size)%nat).
  { subst size. cbn [store_config_get]. lia. }
  clearbody size.
  apply Os.wp_bind, (fresh_os _ n l s); [apply calm_malloc|done|]. intros c e1 Hc Hf1.
  apply Os.wp_bind, (fresh_os _ n l s); [apply calm_malloc|done|]. intros o e2 Ho Hf2.
  assert (Hno : Os.wp (socks_session_destroy_buffers l ;; mret false) Q (Os.on_env e2 (Os.on_env e1 w))).
  { apply Os.wp_bind, (rule_destroy_buffers n l s); [done|]. intros s' w' Hf'. by eapply Os.wp_ret, Hfalse. }
  destruct c as [c|], o as [o|]; [|exact Hno..].
  apply Os.wp_bind, (fresh_upd n l s); [done|apply Hf|]. intros Hf3. apply Os.wp_ret.
  apply Os.malloc_length in Hc, Ho.
  apply (Htrue (CBuffer.buffer_init size c) (CBuffer.buffer_init size o)); [by apply CBuffer.init_wf|by apply CBuffer.init_wf|exact Hsize|done|exact Hf3].
Qed.

Lemma waits_auth : auth_waits (Auth.socks_auth_parser_init zero_auth).
Proof. exists zero_auth, []. by repeat split. Qed.

Lemma waits_request p : Request.socks_request_parser_init zero_request = Ok p -> request_waits p.
Proof. intros Hp. by exists zero_request, p, []. Qed.

Lemma stm_init_run (k : key) l s w : session_of k = Some l -> (prog w).(sessions) !! l = Some s ->
  stm_init (socks_state_table garbage impl) k w = Ok (put l (s <| current := None |>) w).
Proof.
  intros Hk Hl. unfold stm_init. change (stm_check _ _ _) with (@Ok unit tt). rewrite ok_bind.
  rewrite decide_True by (cbn; unfold SOCKS_ST_AUTH_GREETING, SOCKS_ST_DONE; lia).
  by apply stm_set_current_run.
Qed.

Lemma rule_session_init n l s fd w Q : fresh n l s w -> s = zero_session -> in_table F fd ->
  (forall s' w', fresh n l s' w' -> session_ok (table_size F) s' -> s'.(client_fd) = fd ->
     s'.(origin_fd) = -1 -> state_of s' = SOCKS_ST_AUTH_GREETING -> Q true w') ->
  (forall s' w', fresh n l s' w' -> Q false w') ->
  Os.wp (socks_session_init garbage impl l fd) Q w.
Proof.
  intros Hf -> Hfd Htrue Hfalse. unfold socks_session_init.
  apply Os.wp_bind, (fresh_upd n l zero_session); [done..|]. intros Hf1.
  set (s1 := zero_session <| client_fd := fd |> <| origin_fd := -1 |> <| dest_addr_len := 0 |>
    <| c2o_backing := false |> <| o2c_backing := false |>) in *.
  apply Os.wp_bind, (rule_init_buffers n l s1); [done| |].
  2:{ intros s' w' Hf'. cbn [negb]. by eapply Os.wp_ret, Hfalse. }
  intros c o w2 Hc Ho Hlim Hwr s2 Hf2. cbn [negb].
  apply Os.wp_bind, (fresh_get n l s2); [done|].
  destruct (Request.request_drains [] zero_request eq_refl) as (p & Hp & _).
  apply Os.wp_bind, (Os.wp_lift _ p); [exact Hp|].
  apply Os.wp_bind, (fresh_os _ n l s2); [apply calm_time|done|]. intros now e _ Hf3.
  apply Os.wp_bind. eapply fresh_set; [exact Hf3|done|]. intros Hf4.
  apply Os.wp_bind. unfold Os.wp at 1, socks_session_stm_init, stm_do.
  erewrite stm_init_run; [|done|apply Hf4]. cbn [mbind res_bind].
  apply Os.wp_ret. eapply Htrue; [apply (fresh_put n l _ _ _ Hf4); done| |done|done|done].
  split; cbn; try done; try (intros; state_lia).
  - intros _. apply waits_auth.
  - intros _. by apply waits_request.
Qed.

(** ** Registering it *)

(** What is registered stays registered. *)
Definition extends (sl sl' : selector) : Prop :=
  forall k it, Selector.entry sl k = Some it -> Selector.entry sl' k = Some it.

(** After an accepted or refused connection. *)
Definition accepted (n : nat) w : Prop := inv F w /\ (waiting w <= n)%nat /\ extends base w.(Selector.sel).

Lemma tables_add_client l s sl sl' : tables F sl B -> B !! l = None -> 0 <= s.(client_fd) ->
  s.(origin_fd) = -1 -> Selector.entry sl s.(client_fd) = None ->
  entries_set sl sl' s.(client_fd)
    (Some (Selector.mk_item s.(client_fd) Selector.OP_READ (Some SocksClient) (Some (Session l)))) ->
  tables F sl' (<[l := s]> B).
Proof.
  intros [H1 H2 Hq Hp H3 H4 H5 H6] Hn H0 Ho He Hset. pose proof Hset as [S1 S2 S3 S4].
  pose proof (standing_set _ _ _ _ _ H6 Hset (free_apart _ _ _ H6 He)) as H6'.
  assert (Hreg : forall j h d, registered sl j h d -> registered sl' j h d).
  { intros j h d (it & Hit & Hh & Hd). exists it. rewrite S3, decide_False; [done|]. intros ->. congruence. }
  split; [done|congruence|auto| | | | |done].
  - intros j it. rewrite S3. case_decide; [by intros [= <-]|apply Hp].
  - intros j it. rewrite S3. case_decide as Hj.
    + intros [= <-]. subst. cbn. exists s. by rewrite lookup_insert_eq.
    + intros Hit. specialize (H3 j it Hit). unfold owner in *.
      destruct (Selector.handler it) as [[]|], (Selector.data it) as [[]|]; try done;
        destruct H3 as (s1 & Hs1 & Hx); exists s1; (rewrite lookup_insert_ne; [done|congruence]).
  - intros l' s' [[<- <-]|[Hne Hs']]%lookup_insert_Some; [|by apply Hreg, H4].
    eexists. rewrite S3. by rewrite decide_True.
  - intros l' s' [[<- <-]|[Hne Hs']]%lookup_insert_Some Hx; [done|by apply Hreg, H5].
Qed.

(** An unlisted session can come back to a heap. *)
Lemma idle_hidden m v v' L l s : idle (delete l m) v L -> m !! l = Some s -> s.(in_idle_list) = false ->
  v'.(idle_head) = v.(idle_head) -> v'.(idle_tail) = v.(idle_tail) -> (l ∉ L) /\ idle m v' L.
Proof.
  intros [I1 I2 I3 I4 I5] Hl Hi Hh Ht.
  assert (Hnot : l ∉ L).
  { intros Hin. apply list_elem_of_split in Hin as (L1 & L2 & ->).
    destruct (I5 L1 l L2 eq_refl) as (sx & Hx & _). by rewrite lookup_delete_eq in Hx. }
  split; [done|]. split; [done|congruence..| |].
  - intros x sx Hx. destruct (decide (x = l)) as [->|Hne].
    + rewrite Hl in Hx. injection Hx as <-. by rewrite bool_decide_false.
    + apply I4. by rewrite lookup_delete_ne.
  - intros L1 x L2 HL. destruct (I5 _ _ _ HL) as (sx & Hx & Hp).
    exists sx. by apply lookup_delete_Some in Hx as [_ Hx].
Qed.

(** The counter and the list: the world with the session. *)
Lemma rule_enlist n l s w sl : fresh n l s w -> session_ok (table_size F) s -> s.(origin_fd) = -1 ->
  state_of s = SOCKS_ST_AUTH_GREETING -> Selector.entry w.(Selector.sel) s.(client_fd) = None ->
  entries_set w.(Selector.sel) sl s.(client_fd)
    (Some (Selector.mk_item s.(client_fd) Selector.OP_READ (Some SocksClient) (Some (Session l)))) ->
  Os.wp (upd_socks (fun v => v <| active_sessions ::= Z.add 1 |>) ;; idle_list_push_tail l)
    (fun _ w' => accepted n w') (Os.on_sel sl w).
Proof.
  intros [[[[W1 (v & L & V1 & V2 & V3) W3 W4 W5 W6 W7 W8] Hfine] Hn] Hl HB Hnext Hlinks] Hok Ho Hst Hnone Hset.
  change (sessions (prog (hide l w))) with (delete l (sessions (prog w))) in W1, V2.
  change (socks (prog w) = Some v) in V1.
  apply Os.wp_bind, (wp_upd_socks _ v); [done|].
  set (v1 := v <| active_sessions ::= Z.add 1 |>).
  set (w1 := Os.on_prog (fun p => p <| socks := Some v1 |>) (Os.on_sel sl w)).
  destruct (idle_hidden (sessions (prog w)) v v1 L l s V2 Hl) as [Hfd Hidle]; [|done|done|].
  { by injection Hlinks. }
  rewrite <- (with_list_same w1 (sessions (prog w)) v1 eq_refl eq_refl).
  apply (wp_push_tail _ _ _ L l s); [done|done|]. intros m' v' Hi' Hb' (S1 & S2 & S3).
  destruct Hn as [Hn Hbase]. split; [|split; [exact Hn|]].
  2:{ rewrite <- Hbase. change (extends (Selector.sel w) sl). intros k it Hk.
      rewrite (es_entry _ _ _ _ Hset), decide_False; [done|]. intros ->. congruence. }
  set (s' := linked (strip s)).
  assert (Hbare : bare m' = <[l := s']> B).
  { rewrite Hb'. apply map_eq. intros j. rewrite lookup_alter, lookup_insert. case_decide.
    - subst. by rewrite (lookup_bare _ _ _ Hl).
    - rewrite <- W1, bare_delete, lookup_delete_ne by done. done. }
  exists (<[l := s']> B). split; [split|].
  - exact Hbare.
  - exists v', (without l L ++ [l]). split_and!; [done|done|].
    rewrite S3. cbn. rewrite V3, map_size_insert_None by done. lia.
  - intros x [sx Hx]. destruct (decide (x = l)) as [->|Hne]; [exact Hnext|].
    rewrite lookup_insert_ne in Hx by done. apply W3. eauto.
  - done.
  - apply (tables_add_client l s' w.(Selector.sel)); [done|done|apply Hok|done|done|done].
  - done.
  - done.
  - rewrite <- W8. unfold rest. change (prog (hide l w)) with ((prog w) <| sessions ::= delete l |>). cbn.
    by rewrite V1, S1.
  - assert (Hother : forall l' s1, B !! l' = Some s1 -> fine F sl s1).
    { intros l' s1 Hl'. destruct (Hfine _ _ Hl') as [Hok1 Ha1]. split; [done|].
      apply (armed_set w.(Selector.sel) sl _ _ s1 Hset); [|done].
      intros He. destruct (decide (origin_fd s1 = -1)) as [Hm|Hm]; [pose proof (so_client _ _ Hok); lia|].
      destruct (tb_origin _ _ _ W5 l' s1 Hl' Hm) as (it & Hit & _).
      change (Selector.sel (hide l w)) with (Selector.sel w) in Hit. congruence. }
    intros l' s1 [[<- <-]|[Hne Hl']]%lookup_insert_Some; [|by apply (Hother l')].
    split; [|intros Hx; change (state_of s') with (state_of s) in Hx; rewrite Hst in Hx; done].
    destruct Hok as [O1 O2 O3 O4 O5 O6 O7 O8 O9 O10].
    split; [exact O1|exact O2|exact O3|exact O4|exact O5|exact O6| | |exact O9|exact O10].
    + intros _ _. exact Ho.
    + intros _. apply O8. left. rewrite Hst. state_lia.
Qed.

(** A connection that is refused: its session ends in the store, and what was
    allocated is released. *)
Lemma rule_refuse_connection n id fd w : idle_world n w ->
  Os.wp (upd_store (fun t => Sessions.store_session_end t id) ;; Os.close fd)
    (fun _ w' => idle_world n w') w.
Proof.
  intros Hi. apply Os.wp_bind, (idle_upd_store n _ (Sessions.End id)); [done..|]. intros w1 Hi1.
  by apply (idle_close n).
Qed.

Lemma idle_inv n w : idle_world n w -> accepted n w.
Proof. intros [Ho [Hn Hb]]. split_and!; [by exists B|done|rewrite Hb; by intros k it]. Qed.

Lemma rule_accept_one n fd w : idle_world n w -> in_table F fd ->
  Os.wp (socks_accept_one garbage impl fd) (fun _ w' => accepted n w') w.
Proof.
  intros Hi Hfd. unfold socks_accept_one.
  assert (Hclose : forall w', idle_world n w' ->
    Os.wp (Os.close fd) (fun _ w' => accepted n w') w').
  { intros w' Hi'. apply (idle_close n); [done|]. intros w2. apply idle_inv. }
  apply Os.wp_bind, Os.wp_bind, (idle_os _ n); [apply calm_fcntl|done|]. intros [g f] e _ Hi1.
  apply Os.wp_ret. case_decide; [by apply Hclose|].
  apply Os.wp_bind, (idle_store n); [done|]. intros t Ht _.
  pose proof (fun w' Q => idle_set_store n w' t Sessions.Begin Q) as Hset. cbn [Sessions.perform] in Hset.
  destruct (Sessions.store_session_begin t) as [id t'].
  apply Os.wp_bind, Hset; [done|done|]. intros w2 Hi2. case_decide; [by apply Hclose|]. cbv zeta.
  apply Os.wp_bind, (rule_new_session n); [done| |].
  { intros w3 Hi3. eapply Os.wp_mono; [by apply (rule_refuse_connection n)|]. intros ? w4. apply idle_inv. }
  intros l w3 Hf3.
  apply Os.wp_bind, (rule_session_init n l zero_session); [done|done|done| |].
  2:{ intros s w4 Hf4. cbn [negb]. apply Os.wp_bind.
      apply (fresh_upd_store n l s _ (Sessions.End id)); [done..|]. intros w5 Hf5.
      apply Os.wp_bind, (rule_free n l s); [done|]. intros w6 Hi6. by apply Hclose. }
  intros s w4 Hf4 Hok Hc Ho Hst. cbn [negb].
  apply Os.wp_bind, (fresh_upd n l s); [done|apply Hf4|]. intros Hf5.
  set (s5 := s <| store_id := id |>) in *. set (w5 := put l s5 w4) in *.
  apply Os.wp_bind, Os.wp_bind, (fresh_os _ n l s5); [apply calm_alloc|done|]. intros ok e5 _ Hf6.
  set (w6 := Os.on_env e5 w5) in *.
  destruct (fr_hidden _ _ _ _ Hf6) as [[[_ _ _ _ Ht6 _ Hsz] _] _].
  change (Selector.sel (hide l w6)) with (Selector.sel w6) in Ht6.
  assert (Hsize : table_size F = Selector.fd_size w6.(Selector.sel)).
  { pose proof (tb_frame _ _ _ Ht6) as Hfr. unfold table_size. by rewrite <- Hfr. }
  unfold in_table in Hfd.
  destruct (register_entry ok garbage w6.(Selector.sel) fd SocksClient Selector.OP_READ (Session l) (tb_wf _ _ _ Ht6))
    as (r & sl & Heq & Hr); [lia..|].
  eapply Os.wp_selector; [exact Heq|]. destruct (decide (r = Selector.SELECTOR_SUCCESS)) as [->|Hne].
  - rewrite decide_False by (intros Hx; by apply Hx). destruct Hr as [Hnone Hreg].
    assert (Hfd5 : client_fd s5 = fd) by done.
    apply (rule_enlist n l s5 w6 sl); [done|by destruct Hok|done|done|by rewrite Hfd5|by rewrite Hfd5].
  - rewrite decide_True by done. subst sl.
    replace (Os.on_sel (Selector.sel w6) w6) with w6 by by destruct w6.
    apply Os.wp_bind, (fresh_upd_store n l s5 _ (Sessions.End id)); [done..|]. intros w7 Hf7.
    apply Os.wp_bind, (rule_destroy_buffers n l s5); [done|]. intros s8 w8 Hf8.
    apply Os.wp_bind, (rule_free n l s8); [done|]. intros w9 Hi9. by apply Hclose.
Qed.

End Accept.

Section Loop.
Context {E : Type} {OS : Os.Os E} {OL : Os.OsLaws E} {IN : Inet}.
Abbreviation st := (Os.st handler data program E).
Variables (F : fixed) (garbage : item) (impl : handler -> @Selector.fd_handler handler data (Os.sys program E)).
Hypothesis Hbelow : descriptors_below (E := E) (table_size F).
Implicit Types (w : st).

Lemma rule_accept_loop n : forall listen w, inv F w -> (waiting w <= n)%nat ->
  Os.wp (accept_loop (socks_accept_one garbage impl) n listen) (fun _ w' => inv F w' /\ extends w.(Selector.sel) w'.(Selector.sel)) w.
Proof.
  induction n as [|n IH]; intros listen w (B & Ho) Hn; cbn [accept_loop];
    apply Os.wp_bind, Os.wp_bind, Os.wp_os; intros fd e He;
    (apply Os.wp_bind; case_decide as Hfd;
      [apply Os.wp_ret, Os.wp_ret; rewrite decide_True by done; apply Os.wp_ret;
       split; [exists B; by apply others_env|by intros k it]|]);
    pose proof (Os.accept_backlog _ _ _ _ He ltac:(lia)) as Hb; change (Os.env _) with (env w) in Hb;
    unfold waiting in Hn; [lia|].
  apply Os.wp_emit, Os.wp_ret. rewrite decide_False by done. apply Os.wp_bind.
  set (w1 := Os.on_trace _ _). assert (Hi1 : idle_world F B w.(Selector.sel) n w1).
  { split; [by apply others_trace; [apply others_env|]|]. split; [|done]. change (Os.os_backlog e <= n)%nat. lia. }
  eapply Os.wp_mono; [apply (rule_accept_one F B garbage impl _ n fd w1 Hi1)|].
  - pose proof (proj2 Hbelow _ _ _ _ He). unfold in_table. lia.
  - intros _ w2 (Hinv & Hw2 & Hext). eapply Os.wp_mono; [by apply IH|]. intros _ w3 [Hinv3 Hext3].
    split; [done|]. intros k it Hk. by apply Hext3, Hext.
Qed.

Lemma rule_passive_read k w : inv F w ->
  Os.wp (socks_passive_read garbage impl k) (fun _ w' => inv F w' /\ extends w.(Selector.sel) w'.(Selector.sel)) w.
Proof. intros Hi. by apply rule_accept_loop. Qed.

End Loop.

End SocksAccept.
