(* ===== verification/SocksExpire.v ===== *)
(** The rules for the idle timeout: every turn of its loop takes a session off
    the list, so the loop ends. *)
From S2P Require Import Prelude CBuffer Stm Selector Os Inet Store Sessions Program Socks.
From S2P Require Import SocksServer IdleList SocksInv SocksRules SocksClose SocksFlush.
From S2P Require Import SocksHandshake SocksStates SocksEvents.
Import Store Program Socks SocksServer IdleList SocksInv SocksRules SocksClose SocksFlush.
Import SocksHandshake SocksStates SocksEvents.
Local Open Scope Z_scope.

Module SocksExpire.

(** How many sessions are listed. *)
Definition listed (B : gmap loc socks_session) : nat :=
  size (filter (fun p => p.2.(in_idle_list) = true) B).

Lemma listed_le B : (listed B <= size B)%nat.
Proof.
  unfold listed. apply (map_subseteq_size _ _ (map_filter_subseteq _ B)).
Qed.

Lemma listed_insert B l s : B !! l = None ->
  listed (<[l := s]> B) = ((if s.(in_idle_list) then 1 else 0) + listed B)%nat.
Proof.
  intros Hn. unfold listed. destruct (in_idle_list s) eqn:Hi.
  - rewrite map_filter_insert_True by done. rewrite map_size_insert_None; [done|].
    apply map_lookup_filter_None. by left.
  - rewrite map_filter_insert_False by (cbn; congruence). by rewrite delete_id.
Qed.

Section Expire.
Context {E : Type} {OS : Os.Os E} {OL : Os.OsLaws E} {IN : Inet}.
Abbreviation st := (Os.st handler data program E).
Abbreviation M := (Os.M handler data program E).
Abbreviation fd_handler := (@Selector.fd_handler handler data (Os.sys program E)).
Variables (F : fixed) (B : gmap loc socks_session).
Variables (garbage : item) (impl : handler -> fd_handler).
Hypothesis Hclient : closes_client garbage impl.
Implicit Types (w : st) (sl : selector).

(** The session is gone, or off the list. *)
Definition expired (l : loc) w : Prop :=
  (exists s, here F B l s w /\ fine F w.(Selector.sel) s /\ s.(in_idle_list) = false) \/ others F B w.

(** Off the list a session need not be able to answer. *)
Lemma session_ok_off N s s' : session_ok N s -> core s' = core s -> s'.(in_idle_list) = false ->
  state_of s <> SOCKS_ST_DONE -> session_ok N s'.
Proof.
  intros [H1 H2 H3 H4 H5 H6 H7 H8 H9 H10] Hc Hi Hs. core_fields Hc.
  assert (Hst : state_of s' = state_of s) by (unfold state_of; congruence).
  assert (Ha : answering s' -> answering s).
  { intros [Hx|[Hx _]]; [left; congruence|congruence]. }
  split; rewrite ?Hst, ?Hc0, ?Hc1, ?Hc2, ?Hc3, ?Hc5, ?Hc6; auto.
Qed.

Lemma rule_expire_pre_relay l s w : here F B l s w -> CBuffer.wf s.(c2o) -> CBuffer.wf s.(o2c) ->
  (1024 <= s.(o2c).(CBuffer.limit))%nat -> 0 <= s.(client_fd) < table_size F ->
  (s.(origin_fd) = -1 \/ 0 <= s.(origin_fd) < table_size F) ->
  s.(in_idle_list) = false -> (s.(o2c).(CBuffer.write) <= 14)%nat ->
  Os.wp (socks_expire_session_pre_relay impl l) (fun _ => expired l) w.
Proof.
  intros Hh H1 H2 H3 H4 H5 Hi Hw. unfold socks_expire_session_pre_relay, socks_send_connect_reply.
  apply Os.wp_bind, (rule_append F B l s); [done|done|cbn; lia|]. intros b Hb _ _ Hl s2 Hh2. cbn [negb].
  apply Os.wp_bind, (wp_upd F B l s2); [done..|]. intros Hh3.
  apply Os.wp_bind. unfold set_state. eapply wp_upd; [exact Hh3|done|]. intros Hh4.
  set (s4 := (s2 <| close_after_flush := true |>) <| current := Some SOCKS_ST_DONE |>) in *.
  assert (Hf4 : forall sl, fine F sl s4).
  { intros sl. split; [|done]. apply session_ok_done; try done; unfold s4, s2; cbn; [by rewrite Hl|congruence]. }
  apply Os.wp_bind, (rule_flush F B garbage impl Hclient l s4); [done|apply Hf4| |].
  2:{ intros w5 Ho. cbn [negb]. apply Os.wp_ret. by right. }
  intros s5 w5 Hh5 Hf5 He5. cbn [negb].
  apply Os.wp_bind, (rule_close_flushed F B garbage impl Hclient l s5); [done|done| |].
  2:{ intros w6 Ho. cbn [negb]. apply Os.wp_ret. by right. }
  cbn [negb]. apply Os.wp_bind, (wp_get F B l s5); [done|].
  apply (rule_client_interest F B l s5); [done..|]. intros w6 Hh6 Hf6. left. exists s5. split_and!; [done..|].
  by rewrite (ev_idle _ _ He5).
Qed.

Lemma rule_expire_one l s w : here F B l s w -> fine F w.(Selector.sel) s -> s.(in_idle_list) = true ->
  Os.wp (expire_one impl l) (fun _ => expired l) w.
Proof.
  intros Hh Hf Hin. pose proof (proj1 Hf) as Hok. unfold expire_one.
  apply Os.wp_bind, (wp_upd F B l s); [done..|]. intros Hh1. set (s1 := s <| ttl_expired := true |>) in *.
  apply Os.wp_bind, (rule_idle_remove F B l s1); [done|]. intros s2 w2 Hh2 Hc2 Hi2 _ _.
  assert (Hst : state_of s2 = state_of s).
  { unfold state_of. by rewrite (f_equal current Hc2 : current s2 = current s). }
  apply Os.wp_bind, (wp_get F B l s2); [done|].
  apply Os.wp_bind, (wp_state F B _ l s2); [done|done|rewrite Hst; apply Hok|].
  assert (Hok1 : session_ok (table_size F) s1) by by destruct Hok.
  rewrite Hst. case_decide as Hr.
  - apply (rule_unregister_client F B garbage impl l s2); [done|done| |done|by right].
    apply (session_ok_off _ s1); [done..|]. change (state_of s1) with (state_of s). by rewrite Hr.
  - assert (Ha : answering s).
    { pose proof (so_state _ _ Hok). unfold answering.
      destruct (decide (state_of s = SOCKS_ST_DONE)); [by right|left; state_lia]. }
    assert (Hw : (CBuffer.write (o2c s) <= 14)%nat).
    { pose proof (so_replies _ _ Hok Ha) as Hb. destruct (state_of s) as [|[|[|[|[|]]]]]; cbn in Hb; lia. }
    assert (Ec : c2o s2 = c2o s) by exact (f_equal c2o Hc2).
    assert (Eo : o2c s2 = o2c s) by exact (f_equal o2c Hc2).
    assert (Ef : client_fd s2 = client_fd s) by exact (f_equal client_fd Hc2).
    assert (Eg : origin_fd s2 = origin_fd s) by exact (f_equal origin_fd Hc2).
    apply (rule_expire_pre_relay l s2); rewrite ?Ec, ?Eo, ?Ef, ?Eg; (done || apply Hok).
Qed.

End Expire.

Section Loop.
Context {E : Type} {OS : Os.Os E} {OL : Os.OsLaws E} {IN : Inet}.
Abbreviation st := (Os.st handler data program E).
Abbreviation fd_handler := (@Selector.fd_handler handler data (Os.sys program E)).
Variables (F : fixed) (garbage : item) (impl : handler -> fd_handler).
Hypothesis Hclient : closes_client garbage impl.
Implicit Types (w : st).

Definition listing w : nat := listed (bare (prog w).(sessions)).

Lemma expired_inv B l w : expired F B l w -> inv F w /\ listing w = listed B.
Proof.
  unfold listing. intros [(s & Hh & Hf & Hi)|Ho].
  - split; [by eapply here_elim|]. rewrite (wo_bare _ _ _ (he_world _ _ _ _ _ Hh)).
    rewrite listed_insert by apply Hh. change (in_idle_list (strip s)) with (in_idle_list s). by rewrite Hi.
  - split; [by exists B|]. by rewrite (wo_bare _ _ _ (proj1 Ho)).
Qed.

Lemma rule_expire_loop n : forall now timeout w, inv F w -> (listing w <= n)%nat ->
  Os.wp (expire_loop impl n now timeout) (fun _ w' => inv F w') w.
Proof.
  induction n as [|n IH]; intros now timeout w Hinv Hn; cbn [expire_loop];
    pose proof Hinv as (B & [W1 (v & L & V1 & V2 & V3) W3 W4 W5 W6 W7 W8] & Hfine);
    (apply Os.wp_bind, (wp_get_socks v); [done|]); rewrite (idle_first _ _ _ V2);
    (destruct L as [|l L]; cbn [head]; [by apply Os.wp_ret|]);
    destruct (idle_links _ _ _ V2 [] l L eq_refl) as (s & Hs & _);
    pose proof (idle_flag _ _ _ V2 _ _ Hs) as Hi; rewrite bool_decide_true in Hi by set_solver;
    destruct (here_intro F w l s Hinv Hs) as [Hh Hf];
    (apply Os.wp_bind, (wp_get_session l s); [exact Hs|]); (case_decide; [by apply Os.wp_ret|]);
    unfold listing in Hn; rewrite (wo_bare _ _ _ (he_world _ _ _ _ _ Hh)), listed_insert in Hn by exact (he_new _ _ _ _ _ Hh);
    change (in_idle_list (strip s)) with (in_idle_list s) in Hn; rewrite Hi in Hn; [lia|].
  apply Os.wp_bind. eapply Os.wp_mono; [exact (rule_expire_one F _ garbage impl Hclient l s w Hh Hf Hi)|].
  intros ? w2 Hex. apply expired_inv in Hex as [Hinv2 Hn2]. apply IH; [done|]. lia.
Qed.

Lemma rule_expire_idle w : inv F w -> Os.wp (socks_server_expire_idle impl) (fun _ w' => inv F w') w.
Proof.
  intros Hinv. pose proof Hinv as (B & Hw & Hfine). pose proof Hw as [W1 _ _ (t & Ht & _) _ _ _ _].
  unfold socks_server_expire_idle. apply Os.wp_bind, (wp_get_store t); [done|].
  case_decide; [by apply Os.wp_ret|]. apply Os.wp_bind, Os.wp_os. intros now e _.
  apply Os.wp_bind, Os.wp_gets. apply rule_expire_loop.
  - exists B. split; [by destruct Hw|done].
  - unfold listing. etrans; [apply listed_le|]. by rewrite bare_size.
Qed.

End Loop.

End SocksExpire.
