(* ===== verification/ProxySafe.v ===== *)
(** The event loop over the proxy's callbacks: a round of [selector_select], a
    resolver thread that finishes, and the idle timeout keep the invariant and
    fault nowhere. *)
From S2P Require Import Prelude CBuffer Stm Selector Os Inet Store Sessions Program Socks.
From S2P Require Import SocksServer Proxy IdleList SocksInv SocksRules SocksClose SocksFlush.
From S2P Require Import SocksHandshake SocksStates SocksEvents SocksAccept SocksExpire.
Import Store Program Socks SocksServer IdleList SocksInv SocksRules SocksClose SocksFlush.
Import SocksHandshake SocksStates SocksEvents SocksAccept SocksExpire.
Local Open Scope Z_scope.

Module ProxySafe.

(** ** The parts of the table the invariant does not look at *)

Definition reframe (F : fixed) (fr : nat * Z * bool * list Z * Z) : fixed :=
  mk_fixed fr F.(fx_acl) F.(fx_monitor) F.(fx_rest) F.(fx_trace).

Lemma reframe_same F : reframe F F.(fx_frame) = F.
Proof. by destruct F. Qed.

Lemma tables_reframe F sl sl' B : Selector.fds sl' = Selector.fds sl ->
  Selector.fd_size sl' = Selector.fd_size sl -> tables F sl B -> tables (reframe F (frame sl')) sl' B.
Proof.
  intros Hfds Hsize [H1 H2 H3 H4 H5 H6 H7 [H8 H9]].
  assert (He : forall k, Selector.entry sl' k = Selector.entry sl k) by by apply Selector.entry_fds.
  assert (Hreg : forall k h d, registered sl k h d -> registered sl' k h d).
  { intros k h d (it & Hit & Hx). exists it. by rewrite He. }
  split; [by apply (Selector.wf_fds_eq sl)|done| | | | | |].
  - intros k it. rewrite (load_fds sl) by done. apply H3.
  - intros k it. rewrite He. apply H4.
  - intros k it. rewrite He. apply H5.
  - intros l s Hl. by apply Hreg, H6.
  - intros l s Hl Ho. by apply Hreg, H7.
  - split; [intros k it Hk; rewrite He; by apply H8|]. intros k Hk H0. by apply Hreg, H9.
Qed.

Lemma inv_reframe `{Os.Os E} `{Inet} F (w : Os.st handler data program E) sl' : inv F w ->
  Selector.fds sl' = Selector.fds (Selector.sel w) ->
  Selector.fd_size sl' = Selector.fd_size (Selector.sel w) ->
  inv (reframe F (frame sl')) (Os.on_sel sl' w).
Proof.
  intros (B & [W1 W2 W3 W4 W5 W6 W7 W8] & Hf) Hfds Hsize. pose proof (tb_frame _ _ _ W5) as Hfr.
  assert (Ht : table_size (reframe F (frame sl')) = table_size F).
  { unfold table_size. cbn. rewrite Hsize, <- Hfr. done. }
  exists B. split.
  - split; try done; [by apply (tables_reframe F (Selector.sel w))|by rewrite Ht].
  - intros l s Hl. destruct (Hf l s Hl) as [Hok Ha]. split; [by rewrite Ht|].
    intros Hs it. cbn. rewrite (Selector.entry_fds (Selector.sel w) sl' Hfds). by apply Ha.
Qed.

Section Safe.
Context {E : Type} {OS : Os.Os E} {OL : Os.OsLaws E} {IN : Inet}.
Abbreviation st := (Os.st handler data program E).
Abbreviation M := (Os.M handler data program E).
Abbreviation fd_handler := (@Selector.fd_handler handler data (Os.sys program E)).
Variables (F : fixed) (garbage : item).
Hypothesis Hrefusals : refusals_get_through (E := E).
Hypothesis Hbelow : descriptors_below (E := E) (table_size F).
Implicit Types (w : st) (sl : selector).

Abbreviation proxy := (Proxy.proxy garbage).
Abbreviation inner := (Proxy.closing garbage 2).

Lemma inner_client : closes_client garbage inner.
Proof. by exists (Proxy.closing garbage 1). Qed.
Lemma inner_origin : closes_origin inner.
Proof. done. Qed.
Lemma proxy_client : closes_client garbage proxy.
Proof. by exists inner. Qed.

(** ** One event *)

(** The descriptor is one of the proxy's, or unused. *)
Definition ours (fd : Z) : Prop := in_table F fd /\ F.(fx_monitor) !! fd = None.

(** What a descriptor is after its read callback, if it may still be written. *)
Definition same_target (it : item) (fd : Z) w : Prop := forall it',
  Selector.entry w.(Selector.sel) fd = Some it' ->
  Selector.has Selector.OP_WRITE it'.(Selector.interest) = true ->
  it'.(Selector.handler) = it.(Selector.handler) /\ it'.(Selector.data) = it.(Selector.data).

Lemma inv_tables w : inv F w -> tables F w.(Selector.sel) (bare (prog w).(sessions)).
Proof. intros (B & [W1 _ _ _ W5 _ _ _] & _). by rewrite W1. Qed.

Lemma inv_frame w : inv F w -> frame w.(Selector.sel) = F.(fx_frame).
Proof. intros Hi. apply (inv_tables w Hi). Qed.

Lemma frame_gen sl sl' : frame sl' = frame sl -> Selector.gen sl' = Selector.gen sl.
Proof. unfold frame. by intros [=]. Qed.

(** A descriptor of the session at hand leads to the session. *)
Lemma owner_session w fd it : inv F w -> ours fd -> Selector.entry w.(Selector.sel) fd = Some it ->
  (it.(Selector.handler) = Some SocksPassive /\ it.(Selector.data) = Some SocksServer) \/
  exists l s, it.(Selector.data) = Some (Session l) /\ (prog w).(sessions) !! l = Some s /\
    ((it.(Selector.handler) = Some SocksClient /\ s.(client_fd) = fd) \/
     (it.(Selector.handler) = Some SocksOrigin /\ s.(origin_fd) = fd)).
Proof.
  intros Hi [_ Hm] He. pose proof (tb_owner _ _ _ (inv_tables w Hi) fd it He) as Ho. unfold owner in Ho.
  destruct (Selector.handler it) as [[]|], (Selector.data it) as [[]|]; try done; try (by left); try congruence;
    destruct Ho as (s & Hs & Hfd); apply bare_lookup in Hs as (s0 & Hs0 & ->);
    right; exists l, s0; cbn in Hfd; (split_and!; [done|done|by auto]).
Qed.

(** The session at hand keeps its client's descriptor, and nobody else takes a
    descriptor that was its own. *)
Lemma after_target B l s fd h w w' : here F B l s w -> session_ok (table_size F) s -> after F B l s.(client_fd) w' ->
  (h = SocksClient /\ s.(client_fd) = fd \/ h = SocksOrigin /\ s.(origin_fd) = fd) -> ours fd ->
  forall it, it.(Selector.handler) = Some h -> it.(Selector.data) = Some (Session l) -> same_target it fd w'.
Proof.
  intros Hh Hok Haf Hfd [Hr Hm] it Hit Hdat it' He' Hw. unfold in_table in Hr.
  pose proof (wo_tables _ _ _ (he_world _ _ _ _ _ Hh)) as Ht. pose proof (he_new _ _ _ _ _ Hh) as Hn.
  assert (Hmine : mine (strip s) fd) by (destruct Hfd as [[_ <-]|[_ <-]]; [by left|by right]).
  assert (Hother : forall l' s', B !! l' = Some s' -> fd <> s'.(origin_fd) /\ fd <> s'.(client_fd)).
  { intros l' s' Hl'. by apply (not_theirs F B l (strip s) w.(Selector.sel) l'); [..|lia]. }
  rewrite Hit, Hdat. destruct Haf as [(s' & Hh' & Hf' & Hc')|[Ho' _]].
  - pose proof (wo_tables _ _ _ (he_world _ _ _ _ _ Hh')) as Ht'.
    pose proof (tb_owner _ _ _ Ht' fd it' He') as Hown. pose proof (tb_passive _ _ _ Ht' fd it' He') as Hpas.
    pose proof (two_descriptors F B l s w Hh Hok) as H2. pose proof (two_descriptors F B l s' w' Hh' (proj1 Hf')) as H2'.
    unfold owner in Hown. destruct (Selector.handler it') as [[]|], (Selector.data it') as [[]|]; try done; try congruence.
    + destruct Hown as (s1 & [[<- <-]|[_ Hs1]]%lookup_insert_Some & Hx); cbn in Hx; [|by destruct (Hother _ _ Hs1)].
      destruct Hfd as [[-> _]|[_ Ho]]; [done|congruence].
    + destruct Hown as (s1 & [[<- <-]|[_ Hs1]]%lookup_insert_Some & Hx); cbn in Hx; [|by destruct (Hother _ _ Hs1)].
      destruct Hfd as [[_ Hc]|[-> _]]; [congruence|done].
    + rewrite Hpas in Hw; done.
  - pose proof (tb_owner _ _ _ (wo_tables _ _ _ Ho') fd it' He') as Hown.
    pose proof (tb_passive _ _ _ (wo_tables _ _ _ Ho') fd it' He') as Hpas.
    unfold owner in Hown. destruct (Selector.handler it') as [[]|], (Selector.data it') as [[]|]; try done; try congruence.
    1,2: destruct Hown as (s1 & Hs1 & Hx); by destruct (Hother _ _ Hs1).
    rewrite Hpas in Hw; done.
Qed.

Lemma wp_callback (f : key -> M unit) k w (Q : st -> Prop) : Os.wp (f k) (fun _ => Q) w ->
  exists w', Os.callback f k w = Ok w' /\ Q w'.
Proof. unfold Os.wp, Os.callback. destruct (f k w) as [[[] w']|]; [|done]. intros HQ. by exists w'. Qed.

Lemma same_target_refl w it fd : Selector.entry w.(Selector.sel) fd = Some it -> same_target it fd w.
Proof. intros He it' He' _. by simplify_eq. Qed.

Definition read_event (fd : Z) (it : item) w : Prop := exists w',
  Selector.dispatch proxy Selector.handle_read Selector.OP_READ (Selector.item_at w.(Selector.sel) fd)
    (Selector.mk_key fd it.(Selector.data)) w = Ok w' /\ inv F w' /\ same_target it fd w'.

Lemma dispatch_read fd it w : inv F w -> ours fd -> Selector.entry w.(Selector.sel) fd = Some it ->
  read_event fd it w.
Proof.
  intros Hi Ho He. pose proof (tb_wf _ _ _ (inv_tables w Hi)) as Hwf.
  destruct (Selector.entry_used _ _ _ Hwf He) as (Hld & _ & _ & _ & _). unfold read_event, Selector.dispatch.
  rewrite Hld, ok_bind. destruct (Selector.has Selector.OP_READ (Selector.interest it)) eqn:Hint.
  2:{ exists w. split_and!; [done|done|by apply same_target_refl]. }
  destruct (owner_session w fd it Hi Ho He) as [[Hh Hd]|(l & s & Hd & Hl & [[Hh Hfd]|[Hh Hfd]])];
    rewrite Hh; cbn [or_fault]; rewrite ok_bind; rewrite Hd.
  - destruct (wp_callback (socks_passive_read garbage inner) (Selector.mk_key fd (Some SocksServer)) w
      (fun w' => inv F w' /\ extends w.(Selector.sel) w'.(Selector.sel))) as (w' & Hc & Hi' & Hext).
    { by apply rule_passive_read. }
    exists w'. split_and!; [exact Hc|done|]. intros it' He' _. rewrite (Hext _ _ He) in He'. by simplify_eq.
  - destruct (here_intro F w l s Hi Hl) as [Hh' Hf].
    destruct (wp_callback (socks_client_read garbage inner) (Selector.mk_key fd (Some (Session l))) w
      (after F (delete l (bare (prog w).(sessions))) l fd)) as (w' & Hc & Haf).
    { exact (rule_client_read F _ garbage inner inner_client Hrefusals Hbelow (Selector.mk_key fd (Some (Session l))) l s w Hh' Hf eq_refl (eq_sym Hfd)). }
    exists w'. split_and!; [exact Hc|by eapply after_inv|].
    rewrite <- Hfd in Haf. eapply (after_target _ l s); [exact Hh'|apply Hf|exact Haf|by left|done..].
  - destruct (here_intro F w l s Hi Hl) as [Hh' Hf]. destruct Ho as [Hr Hm]. unfold in_table in Hr.
    assert (Hst : state_of s <> SOCKS_ST_ORIGIN_CONNECTING).
    { intros Hs. destruct Hf as [_ Ha]. specialize (Ha Hs it). rewrite Hfd, He in Ha. specialize (Ha eq_refl).
      by rewrite Ha in Hint. }
    destruct (wp_callback (socks_origin_read inner) (Selector.mk_key fd (Some (Session l))) w
      (after F (delete l (bare (prog w).(sessions))) l s.(client_fd))) as (w' & Hc & Haf).
    { apply (rule_origin_read F _ garbage inner inner_client _ l s); try done. lia. }
    exists w'. split_and!; [exact Hc|by eapply after_inv|].
    eapply (after_target _ l s); [exact Hh'|apply Hf|exact Haf|by right|done..].
Qed.

(** The write half: the item is read again, and the key is the one taken before. *)
Lemma dispatch_write fd it w : inv F w -> ours fd -> same_target it fd w ->
  (exists it0, Selector.load (Selector.item_at w.(Selector.sel) fd) w.(Selector.sel) = Ok it0) ->
  exists w', Selector.dispatch proxy Selector.handle_write Selector.OP_WRITE
      (Selector.item_at w.(Selector.sel) fd) (Selector.mk_key fd it.(Selector.data)) w = Ok w' /\ inv F w'.
Proof.
  intros Hi Ho Hsame [it0 Hld]. unfold Selector.dispatch. rewrite Hld, ok_bind.
  destruct (Selector.has Selector.OP_WRITE (Selector.interest it0)) eqn:Hint; [|by exists w].
  assert (He : Selector.entry w.(Selector.sel) fd = Some it0).
  { unfold Selector.entry. rewrite Hld. destruct (Selector.ITEM_USED it0) eqn:Hu; [done|].
    by rewrite (tb_quiet _ _ _ (inv_tables w Hi) _ _ Hld Hu) in Hint. }
  destruct (Hsame it0 He Hint) as [_ Hdat]. rewrite <- Hdat.
  destruct (owner_session w fd it0 Hi Ho He) as [[Hh Hd]|(l & s & Hd & Hl & [[Hh Hfd]|[Hh Hfd]])];
    rewrite Hh; cbn [or_fault]; rewrite ok_bind; rewrite Hd.
  - by rewrite (tb_passive _ _ _ (inv_tables w Hi) fd it0 He Hh) in Hint.
  - destruct (here_intro F w l s Hi Hl) as [Hh' Hf].
    destruct (wp_callback (socks_client_write inner) (Selector.mk_key fd (Some (Session l))) w
      (after F (delete l (bare (prog w).(sessions))) l fd)) as (w' & Hc & Haf).
    { exact (rule_client_write F _ garbage inner inner_client (Selector.mk_key fd (Some (Session l))) l s w Hh' Hf eq_refl (eq_sym Hfd)). }
    exists w'. split; [exact Hc|by eapply after_inv].
  - destruct (here_intro F w l s Hi Hl) as [Hh' Hf]. destruct Ho as [Hr Hm]. unfold in_table in Hr.
    destruct (wp_callback (socks_origin_write garbage inner) (Selector.mk_key fd (Some (Session l))) w
      (after F (delete l (bare (prog w).(sessions))) l s.(client_fd))) as (w' & Hc & Haf).
    { apply (rule_origin_write F _ garbage inner inner_client inner_origin Hrefusals Hbelow _ l s); try done. lia. }
    exists w'. split; [exact Hc|by eapply after_inv].
Qed.

Lemma inv_load w fd : inv F w -> ours fd ->
  exists it, Selector.load (Selector.item_at w.(Selector.sel) fd) w.(Selector.sel) = Ok it.
Proof.
  intros Hi [Hr _]. pose proof (inv_tables w Hi) as Ht. unfold in_table, table_size in Hr.
  pose proof (tb_frame _ _ _ Ht) as Hfr. rewrite <- Hfr in Hr. cbn in Hr.
  destruct (Selector.load_wf w.(Selector.sel) fd (tb_wf _ _ _ Ht) Hr) as (a & it & _ & _ & Hld). by exists it.
Qed.

Lemma inv_counter w n : inv F w -> inv F (w <| Selector.sel ::= (fun s => s <| Selector.event_count := n |>) |>).
Proof.
  intros Hi. pose proof (inv_frame w Hi) as Hfr.
  set (sl' := (Selector.sel w) <| Selector.event_count := n |>).
  pose proof (inv_reframe F w sl' Hi eq_refl eq_refl) as Hi'.
  assert (Hf' : frame sl' = F.(fx_frame)) by by rewrite <- Hfr.
  rewrite Hf', reframe_same in Hi'. exact Hi'.
Qed.

(** What [epoll_wait] may report. *)
Definition reported (ev_fd : Z * Z) : Prop := ev_fd.2 = F.(fx_frame).2 \/ ours ev_fd.2.

Lemma handle_event_safe ev fd w : inv F w -> reported (ev, fd) ->
  exists w', Selector.handle_event proxy ev fd w = Ok w' /\ inv F w'.
Proof.
  intros Hi Hrep. unfold Selector.handle_event. pose proof (inv_frame w Hi) as Hfr.
  case_decide as Hev; [eexists; split; [done|by apply inv_counter]|].
  destruct Hrep as [Hx|Ho]; [rewrite <- Hfr in Hx; by destruct Hev|]. cbn in Ho. cbv zeta.
  destruct (inv_load w fd Hi Ho) as [it Hld]. rewrite Hld, ok_bind.
  destruct (Selector.ITEM_USED it) eqn:Hu; cbn [negb]; [|by exists w].
  assert (He : Selector.entry w.(Selector.sel) fd = Some it) by (unfold Selector.entry; by rewrite Hld, Hu).
  assert (Hread : exists w', (if Selector.has ev Selector.READ_EVENTS
    then Selector.dispatch proxy Selector.handle_read Selector.OP_READ (Selector.item_at w.(Selector.sel) fd)
      (Selector.mk_key fd it.(Selector.data)) w else Ok w) = Ok w' /\ inv F w' /\ same_target it fd w').
  { destruct (Selector.has ev _); [by apply dispatch_read|].
    exists w. split_and!; [done|done|by apply same_target_refl]. }
  destruct Hread as (w1 & Hread & Hi1 & Hs1). eapply (res_step _ w1); [exact Hread|].
  destruct (Selector.has ev Selector.WRITE_EVENTS); [|by exists w1].
  assert (Hp : Selector.item_at w.(Selector.sel) fd = Selector.item_at w1.(Selector.sel) fd).
  { unfold Selector.item_at. f_equal. apply frame_gen. by rewrite Hfr, (inv_frame w1 Hi1). }
  rewrite Hp. apply dispatch_write; [done..|]. by apply inv_load.
Qed.

Lemma handle_iteration_safe ready : forall w, inv F w -> Forall reported ready ->
  exists w', Selector.handle_iteration proxy ready w = Ok w' /\ inv F w'.
Proof.
  induction ready as [|[ev fd] ready IH]; intros w Hi Hall; [by exists w|].
  apply Forall_cons in Hall as [Hr Hall]. cbn [Selector.handle_iteration].
  destruct (handle_event_safe ev fd w Hi Hr) as (w1 & -> & Hi1). rewrite ok_bind. by apply IH.
Qed.

(** ** Notifications *)

(** The client of a session whose name is being resolved. *)
Definition awaiting w (j : Z) : Prop := exists l s, (prog w).(sessions) !! l = Some s /\
  s.(client_fd) = j /\ state_of s = SOCKS_ST_RESOLVING.

Lemma others_stay B l s c w w' l' s' : here F B l s w -> after F B l c w' -> l' <> l ->
  (prog w).(sessions) !! l' = Some s' ->
  exists s2, (prog w').(sessions) !! l' = Some s2 /\ strip s2 = strip s'.
Proof.
  intros Hh Haf Hne Hl'. apply lookup_bare in Hl'.
  rewrite (wo_bare _ _ _ (he_world _ _ _ _ _ Hh)), lookup_insert_ne in Hl' by done.
  assert (Hb : bare (prog w').(sessions) !! l' = Some (strip s')).
  { destruct Haf as [(s1 & Hh1 & _)|[Ho _]].
    - by rewrite (wo_bare _ _ _ (he_world _ _ _ _ _ Hh1)), lookup_insert_ne.
    - by rewrite (wo_bare _ _ _ Ho). }
  apply bare_lookup in Hb as (s2 & H2 & He). by exists s2.
Qed.

Lemma job_safe j w : inv F w -> awaiting w j ->
  exists w', (it ← Selector.load (Selector.item_at w.(Selector.sel) j) w.(Selector.sel);
     if Selector.ITEM_USED it then
       h ← or_fault NullDeref it.(Selector.handler);
       f ← or_fault NullDeref (Selector.handle_block (proxy h));
       f (Selector.mk_key it.(Selector.fd) it.(Selector.data)) w
     else Ok w) = Ok w' /\ inv F w' /\ forall j', j' <> j -> awaiting w j' -> awaiting w' j'.
Proof.
  intros Hi (l & s & Hl & Hfd & Hs). destruct (here_intro F w l s Hi Hl) as [Hh Hf].
  pose proof (inv_tables w Hi) as Ht.
  destruct (tb_client _ _ _ Ht l (strip s)) as (it & He & Hhd & Hd); [by apply lookup_bare|]. cbn in He. rewrite Hfd in He.
  destruct (Selector.entry_used _ _ _ (tb_wf _ _ _ Ht) He) as (Hld & Hu & Hit & _ & _).
  rewrite Hld, ok_bind, Hu, Hhd. cbn [or_fault]. rewrite ok_bind. cbn [Selector.handle_block].
  destruct (wp_callback (socks_client_block garbage inner) (Selector.mk_key j (Some (Session l))) w
      (after F (delete l (bare (prog w).(sessions))) l j)) as (w' & Hc & Haf).
  { exact (rule_client_block F _ garbage inner inner_client Hrefusals Hbelow (Selector.mk_key j (Some (Session l))) l s w
      Hh Hf eq_refl (eq_sym Hfd) Hs). }
  exists w'. rewrite Hit, Hd. split; [exact Hc|]. split; [by eapply after_inv|].
  intros j' Hne (l' & s' & Hl' & Hfd' & Hs').
  destruct (others_stay _ l s j w w' l' s' Hh Haf) as (s2 & H2 & Hst); [|done|].
  { intros ->. congruence. }
  exists l', s2. split; [done|]. split; [by rewrite <- Hfd', <- (f_equal client_fd Hst : client_fd s2 = client_fd s')|].
  unfold state_of in *. by rewrite <- (f_equal current Hst : current s2 = current s') in Hs'.
Qed.

Lemma run_jobs_safe jobs : forall w, inv F w -> NoDup jobs -> Forall (awaiting w) jobs ->
  exists w', Selector.run_jobs proxy jobs w = Ok w' /\ inv F w'.
Proof.
  induction jobs as [|j jobs IH]; intros w Hi Hn Hall; [by exists w|].
  apply NoDup_cons in Hn as [Hj Hn]. apply Forall_cons in Hall as [Ha Hall].
  destruct (job_safe j w Hi Ha) as (w1 & H1 & Hi1 & Hk). cbn [Selector.run_jobs].
  apply bind_ok in H1 as (it & Hld & H1). rewrite Hld, ok_bind.
  eapply (res_step _ w1); [exact H1|]. apply IH; [done|done|].
  apply Forall_forall. intros j' Hj'. apply Hk; [by intros ->|]. rewrite Forall_forall in Hall. by apply Hall.
Qed.

End Safe.

End ProxySafe.
