(* ===== verification/MonitorInv.v ===== *)
(** The invariant of the administration side, and how a step of the monitor
    looks from the proxy: the monitor's connections, its entries in the table
    and its counter agree, and what it does leaves the proxy's invariant. *)
From S2P Require Import Prelude CBuffer Selector Os Inet Store Acl MonCommands Program Socks.
From S2P Require Import Monitor IdleList SocksInv SocksRules SocksClose.
Import Store Program Socks Monitor IdleList SocksInv SocksRules SocksClose.
Local Open Scope Z_scope.

Module MonitorInv.

(** A connection of the monitor. *)
Record client_ok (s : monitor_session) : Prop := {
  co_rb : CBuffer.wf s.(rb);
  co_commands : MonCommands.good s.(commands);
}.

(** An entry of the table that is a connection's, and one that listens. *)
Definition seat (l : loc) (it : item) : Prop :=
  it.(Selector.handler) = Some MonitorClient /\ it.(Selector.data) = Some (Client l).
Definition listener (it : item) : Prop :=
  it.(Selector.handler) = Some MonitorPassive /\ it.(Selector.data) = Some MonitorServer /\
  Selector.has Selector.OP_WRITE it.(Selector.interest) = false.

(** Every connection has its entry and every entry its connection; the counter
    is the number of connections; the listening descriptor is registered. *)
Record monitor_ok (m : gmap Z item) (p : program) : Prop := {
  mo_client : forall l s, p.(clients) !! l = Some s -> client_ok s /\ (l < p.(next_client))%positive;
  mo_entry : forall k it, m !! k = Some it ->
    (exists l, seat l it /\ is_Some (p.(clients) !! l)) \/ listener it;
  mo_seat : forall l, is_Some (p.(clients) !! l) -> exists k it, m !! k = Some it /\ seat l it;
  mo_alone : forall l k k' it it', m !! k = Some it -> m !! k' = Some it' -> seat l it -> seat l it' -> k = k';
  mo_server : exists v, p.(monitor) = Some v /\ v.(m_active_sessions) = Z.of_nat (size p.(clients)) /\
    forall k it, m !! k = Some it -> listener it -> v.(m_listen_fd) = k;
  mo_listen : forall v, p.(monitor) = Some v -> 0 <= v.(m_listen_fd) ->
    exists it, m !! v.(m_listen_fd) = Some it /\ listener it;
}.

Lemma seat_listener l it : seat l it -> listener it -> False.
Proof. intros [H1 _] [H2 _]. congruence. Qed.

Section Shift.
Context {E : Type} {OS : Os.Os E} {IN : Inet}.
Abbreviation st := (Os.st handler data program E).
Abbreviation M := (Os.M handler data program E).
Implicit Types (w : st) (sl : selector).

(** ** What the proxy's invariant needs of a step that is not the proxy's *)

Lemma inv_shift F F' w w' : inv F w ->
  (prog w').(sessions) = (prog w).(sessions) -> (prog w').(next_session) = (prog w).(next_session) ->
  (forall v, (prog w).(socks) = Some v -> exists v', (prog w').(socks) = Some v' /\
     v'.(idle_head) = v.(idle_head) /\ v'.(idle_tail) = v.(idle_tail) /\
     v'.(active_sessions) = v.(active_sessions)) ->
  (exists t, (prog w').(store) = Some t /\ store_fine F'.(fx_acl) t) ->
  tables F' w'.(Selector.sel) (bare (prog w).(sessions)) ->
  (forall k it, Selector.entry w'.(Selector.sel) k = Some it -> it.(Selector.handler) = Some SocksOrigin ->
     Selector.entry w.(Selector.sel) k = Some it) ->
  table_size F' = table_size F -> trace w' = F'.(fx_trace) -> rest (prog w') = F'.(fx_rest) -> inv F' w'.
Proof.
  intros (B & [W1 (v & L & V1 & V2 & V3) W3 W4 W5 W6 W7 W8] & Hf) P1 P2 P3 Hst Ht Ho Hs Htr Hr.
  destruct (P3 v V1) as (v' & V1' & H1 & H2 & H3). rewrite W1 in Ht.
  exists B. split; [split|].
  - by rewrite P1.
  - exists v', L. rewrite P1. split_and!; [done| |congruence].
    destruct V2 as [I1 I2 I3 I4 I5]. split; congruence || done.
  - by rewrite P2.
  - done.
  - done.
  - by exists [].
  - by rewrite Hs.
  - done.
  - intros l s Hl. destruct (Hf l s Hl) as [Hok Ha]. split; [by rewrite Hs|]. intros Hst' it He.
    apply (Ha Hst'), Ho; [done|].
    destruct (decide (origin_fd s = -1)) as [Hm|Hm]; [by rewrite Hm, entry_negative in He by lia|].
    destruct (tb_origin _ _ _ Ht l s Hl Hm) as (it' & He' & Hh & _). congruence.
Qed.

(** What may stand in the table for the monitor. *)
Definition typed (it : item) : Prop := (exists l, seat l it) \/
  it.(Selector.handler) = Some MonitorPassive /\ it.(Selector.data) = Some MonitorServer.

(** Neither a session's entry nor the proxy's listening one. *)
Definition foreign F sl k : Prop := is_Some (F.(fx_monitor) !! k) \/ Selector.entry sl k = None.

Lemma foreign_not_session F sl B k l s : tables F sl B -> foreign F sl k -> B !! l = Some s ->
  s.(client_fd) <> k /\ (s.(origin_fd) <> -1 -> s.(origin_fd) <> k).
Proof.
  intros Ht Hf Hl. assert (Hno : forall h, registered sl k h (Session l) -> h = SocksClient \/ h = SocksOrigin -> False).
  { intros h Hreg Hh. destruct (session_apart F sl k h l (tb_standing _ _ _ Ht) Hreg Hh) as [Ha _].
    destruct Hf as [[it Hm]|He]; [congruence|]. destruct Hreg as (it & Hit & _). congruence. }
  split.
  - intros <-. apply (Hno SocksClient); [by eapply tb_client|by left].
  - intros Hm <-. apply (Hno SocksOrigin); [by eapply tb_origin|by right].
Qed.

Lemma foreign_not_listening F sl k : standing F sl -> foreign F sl k -> 0 <= k -> ~ listens F k.
Proof.
  intros [H1 H2] Hf H0 Hl. destruct (H2 k Hl H0) as (it & He & Hh & _).
  destruct Hf as [[it' Hm]|Hn]; [|congruence]. destruct (H1 k it' Hm) as [He' [Hx|Hx]]; congruence.
Qed.

Lemma typed_monitors it : typed it -> monitors it.
Proof. intros [(l & H & _)|[H _]]; [by left|by right]. Qed.

(** The monitor changes an entry that is its own or nobody's. *)
Lemma tables_shift F F' sl sl' B k o : tables F sl B -> entries_set sl sl' k o -> foreign F sl k -> 0 <= k ->
  F'.(fx_frame) = F.(fx_frame) -> F'.(fx_monitor) = partial_alter (fun _ => o) k F.(fx_monitor) ->
  F'.(fx_rest).2 = F.(fx_rest).2 -> (forall it, o = Some it -> typed it) -> tables F' sl' B.
Proof.
  intros Ht Hset Hk Hk0 E1 E2 E3 Ho. pose proof (foreign_not_session F sl B k) as Hns.
  pose proof (foreign_not_listening F sl k (tb_standing _ _ _ Ht) Hk Hk0) as Hnl.
  destruct Hset as [S1 S2 S3 S4]. pose proof Ht as [H1 H2 H3 H4 H5 H6 H7 [H8 H9]].
  assert (Hreg : forall j h d, j <> k -> registered sl j h d -> registered sl' j h d).
  { intros j h d Hj (it & ? & ? & ?). exists it. by rewrite S3, decide_False. }
  split; [done|congruence|auto| | | | |split].
  - intros j it. rewrite S3. case_decide; [|apply H4]. intros Hit Hh.
    destruct (typed_monitors it (Ho it Hit)); congruence.
  - intros j it. rewrite S3. case_decide as Hj.
    + intros Hit. subst j. pose proof (Ho it Hit) as Hty. unfold owner. rewrite E2, lookup_partial_alter_eq, Hit.
      destruct Hty as [(l & -> & ->)|[-> ->]]; done.
    + intros Hit. specialize (H5 j it Hit). unfold owner, listens in *. rewrite E2, E3, lookup_partial_alter_ne by done.
      exact H5.
  - intros l s Hl. apply Hreg; [by apply (Hns l s)|by apply H6].
  - intros l s Hl Hm. apply Hreg; [by apply (Hns l s)|by apply H7].
  - intros j it. rewrite E2, S3. case_decide as Hj.
    + subst. rewrite lookup_partial_alter_eq. intros Hit. split; [done|]. by apply typed_monitors, Ho.
    + rewrite lookup_partial_alter_ne by done. apply H8.
  - intros j Hj H0. unfold listens in *. rewrite E3 in Hj. apply Hreg; [|by apply H9].
    intros ->. by apply Hnl.
Qed.

(** Only the frame of the table, the deny lists, the monitor's part and the
    trace distinguish one [fixed] from another. *)
Lemma tables_same_frame F F' sl B : F'.(fx_frame) = F.(fx_frame) -> F'.(fx_monitor) = F.(fx_monitor) ->
  F'.(fx_rest).2 = F.(fx_rest).2 -> tables F sl B -> tables F' sl B.
Proof.
  intros E1 E2 E3 [H1 H2 H3 H4 H5 H6 H7 [H8 H9]]. split; [done|congruence|done|done| |done|done|split].
  - intros k it He. specialize (H5 k it He). unfold owner, listens in *. by rewrite E2, E3.
  - intros k it. rewrite E2. apply H8.
  - intros k Hk. unfold listens in *. rewrite E3 in Hk. by apply H9.
Qed.

(** The proxy gives up its listening descriptor. *)
Lemma tables_unlisten F F' sl sl' B k : tables F sl B -> entries_set sl sl' k None -> listens F k -> 0 <= k ->
  F'.(fx_frame) = F.(fx_frame) -> F'.(fx_monitor) = F.(fx_monitor) -> F'.(fx_rest).2 = Some (-1) ->
  tables F' sl' B.
Proof.
  intros [H1 H2 H3 H4 H5 H6 H7 [H8 H9]] [S1 S2 S3 S4] Hl H0 E1 E2 E3.
  pose proof (H9 k Hl H0) as Hk.
  assert (Hother : forall j h d, registered sl j h d -> h <> SocksPassive -> registered sl' j h d).
  { intros j h d Hreg Hh. assert (j <> k).
    { intros ->. destruct (registered_unique _ _ _ _ _ _ Hreg Hk) as [-> _]. done. }
    destruct Hreg as (it & ? & ? & ?). exists it. by rewrite S3, decide_False. }
  split; [done|congruence|auto| | | | |split].
  - intros j it. rewrite S3. case_decide; [done|apply H4].
  - intros j it. rewrite S3. case_decide as Hj; [done|]. intros Hit. specialize (H5 j it Hit).
    unfold owner, listens in *. rewrite E2. destruct (Selector.handler it) as [[]|], (Selector.data it) as [[]|]; try done.
    congruence.
  - intros l s Hs. by apply Hother; [apply H6|].
  - intros l s Hs Hm. by apply Hother; [apply H7|].
  - intros j it. rewrite E2, S3. intros Hj. destruct (H8 j it Hj) as [He Hm]. rewrite decide_False; [done|].
    intros ->. destruct Hk as (it' & He' & Hh' & _), Hm; congruence.
  - intros j Hj Hj0. unfold listens in Hj. rewrite E3 in Hj. injection Hj as <-. lia.
Qed.

End Shift.

End MonitorInv.
