(* ===== verification/MonitorSafe.v ===== *)
(** The rules for the callbacks of the administration port: from the invariant
    of the whole process each returns, keeps it, and makes no connection. *)
From S2P Require Import Prelude CBuffer Selector Os Inet Store Acl StoreInv MonCommands MonProtocol Program Socks.
From S2P Require Import SocksServer Monitor IdleList SocksInv SocksRules SocksClose SocksHandshake SocksAccept MonitorInv.
Import Store Program Socks SocksServer Monitor IdleList SocksInv SocksRules SocksClose SocksHandshake SocksAccept MonitorInv.
Local Open Scope Z_scope.

Module MonitorSafe.

(** The bytes a monitor's command can be made of. *)
Definition pending_line (s : monitor_session) : list byte :=
  take s.(commands).(MonCommands.line_len) s.(commands).(MonCommands.line_buf).

Definition no_connect (i : Os.io) : Prop := match i with Os.IoConnect _ _ => False | _ => True end.

Section Rules.
Context {E : Type} {OS : Os.Os E} {OL : Os.OsLaws E} {IN : Inet}.
Abbreviation st := (Os.st handler data program E).
Abbreviation M := (Os.M handler data program E).
Abbreviation fd_handler := (@Selector.fd_handler handler data (Os.sys program E)).
Variables (fr : nat * Z * bool * list Z * Z) (base : list Os.io).
Implicit Types (w : st) (sl : selector).

Definition view (a : Acl.acl) (m : gmap Z item) w : fixed := mk_fixed fr a m (rest (prog w)) (trace w).

(** The process while the monitor works: the invariants of both sides, with
    deny lists [a] and entries [m], and no connection since [base]. *)
Record at_work (a : Acl.acl) (m : gmap Z item) w : Prop := {
  aw_inv : inv (view a m w) w;
  aw_monitor : monitor_ok m (prog w);
  aw_trace : exists new, trace w = new ++ base /\ Forall no_connect new;
}.
Definition steady w : Prop := exists a m, at_work a m w.

(** ** What the process looks like after a step *)

Lemma at_work_tables a m w : at_work a m w -> tables (view a m w) w.(Selector.sel) (bare (prog w).(sessions)).
Proof. intros [(B & [W1 _ _ _ W5 _ _ _] & _) _ _]. by rewrite W1. Qed.

Lemma at_work_store a m w : at_work a m w -> exists t, (prog w).(store) = Some t /\ store_fine a t.
Proof. intros [(B & Hw & _) _ _]. exact (wo_store _ _ _ Hw). Qed.

Lemma at_work_frame a m w : at_work a m w -> frame w.(Selector.sel) = fr.
Proof. intros Hw. apply (tb_frame _ _ _ (at_work_tables a m w Hw)). Qed.

Lemma at_work_size a m w : at_work a m w -> Selector.fd_size w.(Selector.sel) = fr.1.1.1.2 /\ fr.1.1.1.2 <= 65536.
Proof.
  intros Hw. pose proof (at_work_frame a m w Hw) as Hfr. split; [by rewrite <- Hfr|].
  destruct Hw as [(B & [_ _ _ _ _ _ W7 _] & _) _ _]. exact W7.
Qed.

(** The program changes, the table does not. *)
Lemma at_work_prog a a' m f w : at_work a m w ->
  (f (prog w)).(sessions) = (prog w).(sessions) -> (f (prog w)).(next_session) = (prog w).(next_session) ->
  (f (prog w)).(socks) = (prog w).(socks) ->
  (exists t, (f (prog w)).(store) = Some t /\ store_fine a' t) -> monitor_ok m (f (prog w)) ->
  at_work a' m (Os.on_prog f w).
Proof.
  intros Hw F1 F2 F3 F4 Hm. split; [|exact Hm|apply Hw].
  apply (inv_shift (view a m w) _ w); [apply Hw|done|done| |done| |done|done|done|done].
  - intros v Hv. exists v. split_and!; [|done..]. change (socks (f (prog w)) = Some v). congruence.
  - apply (tables_same_frame (view a m w)); [done|done| |exact (at_work_tables a m w Hw)].
    change (listen_fd <$> socks (f (prog w)) = listen_fd <$> socks (prog w)). by rewrite F3.
Qed.

Lemma at_work_trace a m i w : at_work a m w -> no_connect i -> at_work a m (Os.on_trace i w).
Proof.
  intros Hw Hi. split; [|apply Hw|].
  - apply (inv_shift (view a m w) _ w); [apply Hw|done|done| |exact (at_work_store a m w Hw)| |done|done|done|done].
    + intros v Hv. by exists v.
    + apply (tables_same_frame (view a m w)); [done..|exact (at_work_tables a m w Hw)].
  - destruct (aw_trace _ _ _ Hw) as (new & Ht & Hn). exists (i :: new). split; [|by apply Forall_cons].
    change (i :: trace w = (i :: new) ++ base). by rewrite Ht.
Qed.

Lemma at_work_env a m e w : at_work a m w -> at_work a m (Os.on_env e w).
Proof.
  intros [(B & [] & Hf) Hm Ht]. by split; [exists B; split|..].
Qed.

(** An entry of the monitor's changes, and the program with it. *)
Lemma inv_entry a m k o f sl w w' : inv (view a m w) w -> entries_set w.(Selector.sel) sl k o ->
  foreign (view a m w) w.(Selector.sel) k -> 0 <= k -> (forall it, o = Some it -> typed it) ->
  prog w' = f (prog w) -> w'.(Selector.sel) = sl ->
  (f (prog w)).(sessions) = (prog w).(sessions) -> (f (prog w)).(next_session) = (prog w).(next_session) ->
  (f (prog w)).(socks) = (prog w).(socks) -> (f (prog w)).(store) = (prog w).(store) ->
  inv (view a (partial_alter (fun _ => o) k m) w') w'.
Proof.
  intros Hi Hset Hk H0 Ho Hp Hsel F1 F2 F3 F4. pose proof Hi as (B & Hwo & _).
  apply (inv_shift (view a m w) _ w); [done|by rewrite Hp|by rewrite Hp| | | | |done|done|done].
  - intros v Hv. exists v. rewrite Hp. split_and!; [congruence|done..].
  - rewrite Hp, F4. exact (wo_store _ _ _ Hwo).
  - rewrite Hsel, (wo_bare _ _ _ Hwo).
    apply (tables_shift (view a m w) _ w.(Selector.sel) _ _ k o); [apply Hwo|done..| |done].
    change (listen_fd <$> socks (prog w') = listen_fd <$> socks (prog w)). by rewrite Hp, F3.
  - intros j it. rewrite Hsel, (es_entry _ _ _ _ Hset). case_decide as Hj; [|done]. intros Hit Hh.
    destruct (typed_monitors it (Ho it Hit)); congruence.
Qed.

Lemma at_work_entry a m k o f sl w w' : at_work a m w -> entries_set w.(Selector.sel) sl k o ->
  foreign (view a m w) w.(Selector.sel) k -> 0 <= k -> (forall it, o = Some it -> typed it) ->
  prog w' = f (prog w) -> w'.(Selector.sel) = sl ->
  (f (prog w)).(sessions) = (prog w).(sessions) -> (f (prog w)).(next_session) = (prog w).(next_session) ->
  (f (prog w)).(socks) = (prog w).(socks) -> (f (prog w)).(store) = (prog w).(store) ->
  (exists new, trace w' = new ++ trace w /\ Forall no_connect new) ->
  monitor_ok (partial_alter (fun _ => o) k m) (f (prog w)) ->
  at_work a (partial_alter (fun _ => o) k m) w'.
Proof.
  intros Hw Hset Hk H0 Ho Hp Hsel F1 F2 F3 F4 (new & Ht & Hn) Hm.
  split; [|by rewrite Hp|].
  2:{ destruct (aw_trace _ _ _ Hw) as (new0 & Ht0 & Hn0). exists (new ++ new0).
      rewrite Ht, Ht0, app_assoc. split; [done|by apply Forall_app]. }
  apply (inv_entry a m k o f sl w w'); [apply Hw|done..].
Qed.

(** ** A connection at hand *)

(** The entry [k] is the connection [l], now [s]. *)
Record serving (k : Z) (l : loc) (s : monitor_session) w : Prop := {
  sv_work : exists a m it, at_work a m w /\ m !! k = Some it /\ seat l it;
  sv_at : (prog w).(clients) !! l = Some s;
  sv_range : 0 <= k;
}.

Lemma serving_ok k l s w : serving k l s w -> client_ok s.
Proof. intros [(a & m & it & Hw & _) Hl _]. apply (mo_client _ _ (aw_monitor _ _ _ Hw) l s Hl). Qed.

Lemma serving_get k l s w Q : serving k l s w -> Q s w -> Os.wp (get_client l) Q w.
Proof. intros Hs. apply (wp_get_client l s), Hs. Qed.

Lemma serving_env k l s e w : serving k l s w -> serving k l s (Os.on_env e w).
Proof.
  intros [(a & m & it & Hw & Hm) Hl H0]. split; [|done|done]. exists a, m, it. split; [by apply at_work_env|done].
Qed.

Lemma serving_trace k l s i w : serving k l s w -> no_connect i -> serving k l s (Os.on_trace i w).
Proof.
  intros [(a & m & it & Hw & Hm) Hl H0] Hi. split; [|done|done]. exists a, m, it.
  split; [by apply at_work_trace|done].
Qed.

Lemma monitor_ok_put m p l s s' : monitor_ok m p -> p.(clients) !! l = Some s -> client_ok s' ->
  monitor_ok m (p <| clients ::= <[l := s']> |>).
Proof.
  intros [H1 H2 H3 H4 H5 H6] Hl Hs. assert (Hin : forall l', is_Some (<[l := s']> (clients p) !! l') <-> is_Some (clients p !! l')).
  { intros l'. destruct (decide (l' = l)) as [->|Hne]; [rewrite lookup_insert_eq|by rewrite lookup_insert_ne].
    split; intros _; [by exists s|by exists s']. }
  split; cbn.
  - intros l' x [[<- <-]|[Hne Hx]]%lookup_insert_Some; [|by apply H1]. split; [done|by apply (H1 _ _ Hl)].
  - intros k it Hk. destruct (H2 k it Hk) as [(l' & Hse & Hi)|Hli]; [left|by right]. exists l'.
    split; [done|]. by apply Hin.
  - intros l' Hi. apply H3. by apply Hin.
  - exact H4.
  - destruct H5 as (v & V1 & V2 & V3). exists v. rewrite map_size_insert, Hl. done.
  - exact H6.
Qed.

(** The connection changes, with the store or without it. *)
Lemma serving_put k l s s' w : serving k l s w -> client_ok s' ->
  serving k l s' (Os.on_prog (fun p => p <| clients ::= <[l := s']> |>) w).
Proof.
  intros [(a & m & it & Hw & Hm) Hl H0] Hs. split; [|apply lookup_insert_eq|done]. exists a, m, it. split; [|done].
  apply (at_work_prog a); [done..|exact (at_work_store a m w Hw)|].
  apply (monitor_ok_put m (prog w) l s s'); [apply Hw|done|done].
Qed.

Lemma serving_set k l s s' w Q : serving k l s w -> client_ok s' ->
  (forall w', serving k l s' w' -> env w' = env w -> Q tt w') -> Os.wp (set_client l s') Q w.
Proof.
  intros Hs Hok HQ. apply Os.wp_bind, (serving_get k l s); [done|]. apply Os.wp_modify, HQ; [|done].
  by apply (serving_put k l s).
Qed.

Lemma serving_store k l s t a w Q : serving k l s w -> store_fine a t ->
  (forall w', serving k l s w' -> env w' = env w -> Q tt w') -> Os.wp (set_store t) Q w.
Proof.
  intros [(a0 & m & it & Hw & Hm) Hl H0] Ht HQ. destruct (at_work_store a0 m w Hw) as (t0 & Ht0 & _).
  apply (wp_set_store t0); [done|]. apply HQ; [|done]. split; [|done|done]. exists a, m, it. split; [|done].
  apply (at_work_prog a0); [done..|by exists t|]. by destruct (aw_monitor _ _ _ Hw); split.
Qed.

(** Running the commands' code: what it leaves is kept. *)
Lemma rule_commands k l s f w Q : serving k l s w ->
  (forall t a, store_fine a t -> exists (w2 : MonCommands.world) a', f (MonCommands.mk_world s.(commands) t) = Ok w2 /\
     MonCommands.good w2.(MonCommands.ses) /\ store_fine a' w2.(MonCommands.sto) /\
     (forall w', serving k l (s <| commands := w2.(MonCommands.ses) |>) w' -> env w' = env w -> Q tt w')) ->
  Os.wp (with_commands l f) Q w.
Proof.
  intros Hs Hf. pose proof Hs as [(a & m & it & Hw & _) _ _].
  destruct (at_work_store a m w Hw) as (t & Ht & Hft). destruct (Hf t a Hft) as (w2 & a' & H2 & Hg & Hf2 & HQ).
  unfold with_commands. apply Os.wp_bind, (serving_get k l s); [done|].
  apply Os.wp_bind, (wp_get_store t); [done|]. apply Os.wp_bind, (Os.wp_lift _ w2); [done|].
  pose proof (serving_ok _ _ _ _ Hs) as [Hrb _].
  apply Os.wp_bind, (serving_set k l s); [done|by split|]. intros w3 H3 He3.
  eapply (serving_store k l _ _ a'); [exact H3|done|]. intros w4 H4 He4. apply HQ; [done|congruence].
Qed.

(** ** Interests *)

Lemma seat_interest l it i : seat l it -> seat l (it <| Selector.interest := i |>).
Proof. done. Qed.

Lemma monitor_ok_entry m p k l it it' : monitor_ok m p -> m !! k = Some it -> seat l it -> seat l it' ->
  monitor_ok (partial_alter (fun _ => Some it') k m) p.
Proof.
  intros [H1 H2 H3 H4 H5 H6] Hk Hs Hs'. change (partial_alter (fun _ => Some it') k m) with (<[k := it']> m).
  assert (Hl : is_Some (clients p !! l)).
  { destruct (H2 k it Hk) as [(l' & [_ Hd] & Hi)|Hli]; [|by destruct (seat_listener l it)].
    destruct Hs as [_ Hd']. replace l with l' by congruence. done. }
  split; [done|..].
  - intros j jt [[<- <-]|[Hne Hj]]%lookup_insert_Some; [left; by exists l|by apply (H2 j)].
  - intros l' Hl'. destruct (H3 l' Hl') as (j & jt & Hj & Hse). destruct (decide (j = k)) as [->|Hne].
    + exists k, it'. rewrite lookup_insert_eq. split; [done|]. destruct Hse as [_ Hd], Hs as [_ Hd'].
      replace l' with l by congruence. done.
    + exists j, jt. by rewrite lookup_insert_ne.
  - assert (Hold : forall j jt l', <[k := it']> m !! j = Some jt -> seat l' jt ->
      exists jt', m !! j = Some jt' /\ seat l' jt').
    { intros j jt l' [[<- <-]|[Hne Hj]]%lookup_insert_Some Hse; [|by exists jt]. exists it. split; [done|].
      destruct Hse as [_ Hd], Hs' as [_ Hd']. replace l' with l by congruence. done. }
    intros l' j j' jt jt' Hj Hj' Hse Hse'. destruct (Hold _ _ _ Hj Hse) as (x & Hx & Hsx).
    destruct (Hold _ _ _ Hj' Hse') as (y & Hy & Hsy). by apply (H4 l' j j' x y).
  - destruct H5 as (v & V1 & V2 & V3). exists v. split_and!; [done..|].
    intros j jt [[<- <-]|[Hne Hj]]%lookup_insert_Some Hli; [by destruct (seat_listener l it')|by apply (V3 j jt)].
  - intros v Hv H0. destruct (H6 v Hv H0) as (jt & Hj & Hli). exists jt. rewrite lookup_insert_ne; [done|].
    intros ->. replace jt with it in * by congruence. by destruct (seat_listener l it).
Qed.

Lemma serving_entry k l s w : serving k l s w -> exists it, Selector.entry w.(Selector.sel) k = Some it /\ seat l it /\
  Selector.wf w.(Selector.sel) /\ k < Selector.fd_size w.(Selector.sel) <= 65536.
Proof.
  intros [(a & m & it & Hw & Hm & Hse) Hl H0]. pose proof (at_work_tables a m w Hw) as Ht.
  destruct (sd_monitor _ _ (tb_standing _ _ _ Ht) k it Hm) as [He _]. exists it.
  pose proof (tb_wf _ _ _ Ht) as Hwf. destruct (Selector.entry_used _ _ _ Hwf He) as (_ & _ & _ & _ & Hr).
  destruct (at_work_size a m w Hw) as [H1 H2]. split; [done|]. split; [done|]. split; [done|lia].
Qed.

Lemma rule_set_interest k l s i (key : key) w Q : serving k l s w -> key.(Selector.key_fd) = k ->
  (forall w', serving k l s w' -> Q tt w') -> Os.wp (Os.set_interest_key key i) Q w.
Proof.
  intros Hs Hk HQ. destruct (serving_entry k l s w Hs) as (it & He & Hse & Hwf & Hr).
  pose proof Hs as [(a & m & it0 & Hw & Hm & _) Hl H0].
  destruct (set_interest_entry w.(Selector.sel) k i Hwf) as (r & sl & Heq & Hset); [lia..|].
  rewrite He in Hset. cbn [fmap option_fmap option_map] in Hset.
  apply Os.wp_bind. eapply (Os.wp_selector _ r sl).
  - unfold Selector.selector_set_interest_key. rewrite Hk.
    by rewrite (in_range_valid w.(Selector.sel)) by (done || lia).
  - apply Os.wp_ret, HQ. split; [|done|done].
    exists a, (partial_alter (fun _ => Some (it <| Selector.interest := i |>)) k m), (it <| Selector.interest := i |>).
    split; [|split; [by rewrite lookup_partial_alter_eq|done]].
    destruct (sd_monitor _ _ (tb_standing _ _ _ (at_work_tables a m w Hw)) k it0 Hm) as [He0 _].
    replace it0 with it in Hm by congruence.
    apply (at_work_entry a m k _ id sl w); try done.
    + left. by exists it.
    + intros it1 [= <-]. left. by exists l.
    + by exists [].
    + apply (monitor_ok_entry m (prog w) k l it); [apply Hw|done..].
Qed.

(** ** Closing a connection *)

Definition closes_monitor (impl : handler -> fd_handler) : Prop :=
  Selector.handle_close (impl MonitorClient) = Some (Os.callback monitor_client_close).

Definition less (v : monitor_server) : monitor_server :=
  v <| m_active_sessions ::= (fun n => if decide (n > 0) then n - 1 else n) |>.

Lemma monitor_ok_close m p k l it s v : monitor_ok m p -> m !! k = Some it -> seat l it ->
  p.(clients) !! l = Some s -> p.(monitor) = Some v ->
  monitor_ok (partial_alter (fun _ => None) k m) (p <| monitor := Some (less v) |> <| clients ::= delete l |>).
Proof.
  intros [H1 H2 H3 H4 H5 H6] Hk Hse Hl Hv. change (partial_alter (fun _ => None) k m) with (delete k m).
  destruct H5 as (v' & V1 & V2 & V3). replace v' with v in * by congruence. split; cbn.
  - intros l' x [Hne Hx]%lookup_delete_Some. by apply H1.
  - intros j jt [Hne Hj]%lookup_delete_Some. destruct (H2 j jt Hj) as [(l' & Hs' & Hi)|Hli]; [left|by right].
    exists l'. split; [done|]. rewrite lookup_delete_ne; [done|]. intros <-. apply Hne. by apply (H4 l k j it jt).
  - intros l' [x Hx]. apply lookup_delete_Some in Hx as [Hne Hx]. destruct (H3 l') as (j & jt & Hj & Hs'); [by exists x|].
    exists j, jt. split; [|done]. rewrite lookup_delete_ne; [done|]. intros <-. apply Hne.
    replace jt with it in * by congruence. destruct Hse as [_ Hd], Hs' as [_ Hd']. congruence.
  - intros l' j j' jt jt' [_ Hj]%lookup_delete_Some [_ Hj']%lookup_delete_Some. by apply H4.
  - exists (less v). split; [done|]. split.
    + unfold less. cbn. rewrite V2, map_size_delete, Hl. pose proof (map_size_ne_0_lookup_2 (clients p) l (mk_is_Some _ _ Hl)).
      rewrite decide_True by lia. lia.
    + intros j jt [_ Hj]%lookup_delete_Some. by apply V3.
  - intros v0 [= <-] H0. change (m_listen_fd (less v)) with (m_listen_fd v) in *. destruct (H6 v Hv H0) as (jt & Hj & Hli).
    exists jt. rewrite lookup_delete_ne; [done|]. intros Hx. rewrite <- Hx in Hj. replace jt with it in * by congruence.
    by destruct (seat_listener l it).
Qed.

Lemma rule_monitor_unregister impl k l s w Q : closes_monitor impl -> serving k l s w ->
  (forall w', steady w' -> Selector.entry w'.(Selector.sel) k = None -> Q tt w') ->
  Os.wp (Os.unregister_fd impl k) Q w.
Proof.
  intros Hcl Hs HQ. destruct (serving_entry k l s w Hs) as (it & He & Hse & Hwf & Hr).
  pose proof Hs as [(a & m & it0 & Hw & Hm & _) Hl H0].
  destruct (sd_monitor _ _ (tb_standing _ _ _ (at_work_tables a m w Hw)) k it0 Hm) as [He0 _].
  replace it0 with it in Hm by congruence.
  destruct (mo_server _ _ (aw_monitor _ _ _ Hw)) as (v & Hv & _).
  eapply (wp_unregister impl k it MonitorClient); [done|lia|done|apply Hse|exact Hcl|].
  intros sl1 Hset1. destruct Hse as [Hh Hd]. rewrite Hd. unfold monitor_client_close, client_of. cbn [Selector.key_data Selector.key_fd].
  apply Os.wp_bind, (wp_upd_monitor _ v); [exact Hv|].
  apply Os.wp_bind. rewrite decide_True by lia. apply Os.wp_emit, (wp_free_client l s); [exact Hl|].
  split; [apply Hset1|]. split; [apply Hset1|]. intros sl3 Hset3.
  pose proof (entries_set_two _ _ _ _ _ _ Hset1 Hset3) as Hset. apply HQ.
  - exists a, (partial_alter (fun _ => None) k m).
    apply (at_work_entry a m k None (fun p => p <| monitor := Some (less v) |> <| clients ::= delete l |>) sl3 w); try done.
    + left. by exists it.
    + exists [Os.IoClose k]. split; [done|by apply Forall_singleton].
    + apply (monitor_ok_close m (prog w) k l it s v); [apply Hw|done..].
  - cbn. by rewrite (es_entry _ _ _ _ Hset), decide_True.
Qed.

(** ** The callbacks of a connection *)

Section Callbacks.
Variables (impl : handler -> fd_handler) (k : Z) (l : loc) (key : key).
Hypothesis Hcloses : closes_monitor impl.
Hypothesis Hfd : key.(Selector.key_fd) = k.
Hypothesis Hclient : client_of key = Some l.

(** The connection is still open, or its entry is gone. *)
Definition open w : Prop := exists s, serving k l s w.
Definition ended w : Prop := steady w /\ Selector.entry w.(Selector.sel) k = None.
Definition flushed (b : bool) w : Prop := if b then open w else ended w.
Definition served w : Prop := open w \/ ended w.

Lemma wp_the_client Q w : Q l w -> Os.wp (the_client key) Q w.
Proof. intros HQ. unfold the_client. rewrite Hclient. by apply (Os.wp_lift _ l). Qed.

Lemma rule_close s w Q : serving k l s w -> (forall w', ended w' -> Q tt w') ->
  Os.wp (monitor_unregister_session impl key) Q w.
Proof.
  intros Hs HQ. unfold monitor_unregister_session. rewrite Hfd. apply (rule_monitor_unregister impl k l s); [done..|].
  intros w' H1 H2. by apply HQ.
Qed.

Lemma client_ok_wb s b : client_ok s -> CBuffer.wf b ->
  b.(CBuffer.limit) = s.(commands).(MonCommands.wb).(CBuffer.limit) -> client_ok (set_wb b s).
Proof. intros [H1 [G1 G2 G3 G4]] Hb Hl. split; [done|]. split; cbn; [done|congruence|done|done]. Qed.

Lemma rule_monitor_flush s w : serving k l s w -> Os.wp (monitor_flush impl key) flushed w.
Proof.
  intros Hs. pose proof (serving_ok _ _ _ _ Hs) as Hok. pose proof Hok as [Hrb [G1 G2 G3 G4]].
  unfold monitor_flush. apply Os.wp_bind, wp_the_client. apply Os.wp_bind, (serving_get k l s); [done|].
  set (wb := MonCommands.wb (commands s)) in *.
  apply Os.wp_bind, (Os.wp_lift _ _ _ _ (CBuffer.read_ptr_wf wb G1)).
  assert (Hclose : forall s' w', serving k l s' w' -> Os.wp (monitor_unregister_session impl key ;; mret false) flushed w').
  { intros s' w' Hs'. apply Os.wp_bind, (rule_close s'); [done|]. intros w2 H2. by apply Os.wp_ret. }
  assert (Hgo : forall s' w', serving k l s' w' -> Os.wp (mret true) flushed w').
  { intros s' w' Hs'. apply Os.wp_ret. by exists s'. }
  case_decide as Hempty; [destruct (MonCommands.monitor_commands_should_close _); eauto|].
  apply Os.wp_bind, (Os.wp_lift _ _ _ _ (CBuffer.peek_spec wb (length (CBuffer.contents wb)) G1 (le_n _))).
  apply Os.wp_bind, Os.wp_bind, Os.wp_os. intros r e Hr.
  pose proof (serving_env _ _ _ e _ Hs) as Hs1. apply Os.wp_bind. destruct r as [n|errno].
  2:{ apply Os.wp_ret, Os.wp_ret. destruct (Os.would_block errno); eauto. }
  apply Os.wp_emit, Os.wp_ret. rewrite firstn_all in Hr |- *.
  set (w1 := Os.on_trace _ _). assert (Hs2 : serving k l s w1) by by apply serving_trace.
  destruct (CBuffer.read_adv_spec wb n G1 (Os.write_fits _ _ _ _ _ Hr)) as (b1 & H1 & Wf1 & _ & L1 & _).
  apply Os.wp_bind, (Os.wp_lift _ _ _ _ H1).
  destruct (CBuffer.compact_spec b1 Wf1) as (b2 & H2 & Wf2 & _ & _ & _ & L2).
  apply Os.wp_bind, (Os.wp_lift _ _ _ _ H2). apply Os.wp_bind, (serving_set k l s); [done| |].
  { apply client_ok_wb; [done|done|]. by rewrite L2, L1. }
  intros w3 Hs3 _. destruct (MonCommands.monitor_commands_should_close _); eauto.
Qed.

(** ** Feeding the commands *)

(** What the interpreter is given fits: no DENY_HOST line names a host longer
    than a rule holds. *)
Definition digests (s : monitor_session) (bs : list byte) : Prop :=
  Forall MonProtocol.event_fits (MonProtocol.frames (pending_line s) bs).1.

Lemma feed_ok s t a bs realloc_ok : MonCommands.good s.(commands) -> store_fine a t -> digests s bs ->
  exists (w2 : MonCommands.world) a',
    MonCommands.monitor_commands_feed true realloc_ok bs (MonCommands.mk_world s.(commands) t) = Ok w2 /\
    MonCommands.good w2.(MonCommands.ses) /\ store_fine a' w2.(MonCommands.sto) /\
    pending_line (s <| commands := w2.(MonCommands.ses) |>) = (MonProtocol.frames (pending_line s) bs).2.
Proof.
  intros Hg [Hr Hio] Hd.
  destruct (MonProtocol.feed_follows realloc_ok true MonProtocol.event_fits (fun _ t => 1024 <= io_buffer_size t)
    ltac:(by intros l0 c He _ _) ltac:(intros e c; apply MonProtocol.react_io) bs
    (MonCommands.mk_world s.(commands) t) (MonProtocol.conv_of s.(commands) t a)) as (w2 & H2 & [Hh Hi] & Hp).
  - split; [by apply MonProtocol.conv_of_holds|exact Hio].
  - exact Hd.
  - destruct Hh as [Hs Hst Ha]. exists w2, (MonProtocol.c_acl (foldl (MonProtocol.hear realloc_ok) (MonProtocol.conv_of s.(commands) t a) bs)).
    split; [done|]. split; [apply (MonProtocol.sp_good _ _ Hs)|]. split; [split; [exact Ha|by rewrite Hst]|].
    etrans; [apply (MonProtocol.sp_pending _ _ Hs)|exact Hp].
Qed.

Lemma eof_ok s t a realloc_ok : MonCommands.good s.(commands) -> store_fine a t ->
  MonCommands.host_fits (c_str (pending_line s)) ->
  exists (w2 : MonCommands.world) a',
    MonCommands.monitor_commands_flush_on_eof true realloc_ok (MonCommands.mk_world s.(commands) t) = Ok w2 /\
    MonCommands.good w2.(MonCommands.ses) /\ store_fine a' w2.(MonCommands.sto).
Proof.
  intros Hg [Hr Hio] Hd. set (c := MonProtocol.conv_of s.(commands) t a).
  destruct (MonProtocol.eof_hears realloc_ok true (MonCommands.mk_world s.(commands) t) c) as (w2 & H2 & Hh & _).
  - by apply MonProtocol.conv_of_holds.
  - by intros _.
  - destruct Hh as [Hs Hst Ha]. exists w2, (MonProtocol.c_acl (MonProtocol.converse realloc_ok MonProtocol.Eof c).2).
    split; [done|]. split; [apply (MonProtocol.sp_good _ _ Hs)|]. split; [exact Ha|]. rewrite Hst.
    unfold MonProtocol.converse. case_decide; [exact Hio|]. cbn [snd].
    apply (MonProtocol.react_io realloc_ok); [exact Hd|exact Hio].
Qed.

Definition allocates (e : E) : Prop := (Os.os_alloc e).1 = true.

Lemma rule_monitor_feed s w Q : serving k l s w -> digests s (CBuffer.contents s.(rb)) ->
  (CBuffer.contents s.(rb) <> [] -> allocates (env w)) ->
  (forall s' w', serving k l s' w' ->
     pending_line s' = (MonProtocol.frames (pending_line s) (CBuffer.contents s.(rb))).2 ->
     (env w' = env w \/ CBuffer.contents s.(rb) <> [] /\ env w' = (Os.os_alloc (env w)).2) -> Q tt w') ->
  Os.wp (feed_rb_to_commands l) Q w.
Proof.
  intros Hs Hd Hal HQ. pose proof (serving_ok _ _ _ _ Hs) as [Hrb Hg]. unfold feed_rb_to_commands. cbn [feed_loop].
  apply Os.wp_bind, (serving_get k l s); [done|]. destruct (CBuffer.buffer_can_read (rb s)) eqn:Hcan; cbn [negb].
  2:{ apply CBuffer.can_read_nil in Hcan; [|done]. apply Os.wp_ret, (HQ s); [done| |by left]. by rewrite Hcan. }
  assert (Hne : CBuffer.contents (rb s) <> []).
  { rewrite CBuffer.can_read_spec in Hcan by done. by apply bool_decide_eq_true in Hcan. }
  apply Os.wp_bind, (Os.wp_lift _ _ _ _ (CBuffer.read_ptr_wf _ Hrb)).
  apply Os.wp_bind, (Os.wp_lift _ _ _ _ (CBuffer.peek_spec _ _ Hrb (le_n _))). rewrite firstn_all.
  apply Os.wp_bind, Os.wp_os. intros ok e He. specialize (Hal Hne). unfold allocates in Hal.
  change (Os.os_alloc (env w) = (ok, e)) in He. rewrite He in Hal. cbn in Hal. subst ok.
  apply Os.wp_bind, (rule_commands k l s); [by apply serving_env|]. intros t a Hf.
  destruct (feed_ok s t a _ true Hg Hf Hd) as (w2 & a' & H2 & Hg2 & Hf2 & Hp2). exists w2, a'.
  split; [done|]. split; [done|]. split; [done|]. intros w3 Hs3 He3. set (s2 := s <| commands := _ |>) in *.
  apply Os.wp_bind, (serving_get k l s2); [done|].
  destruct (CBuffer.read_adv_spec (rb s) _ Hrb (le_n _)) as (b1 & H1 & Wf1 & C1 & _).
  apply Os.wp_bind, (Os.wp_lift _ _ _ _ H1).
  destruct (CBuffer.compact_spec b1 Wf1) as (b2 & H3 & Wf2 & C2 & _).
  apply Os.wp_bind, (Os.wp_lift _ _ _ _ H3). apply Os.wp_bind, (serving_set k l s2); [done|by split|].
  intros w4 Hs4 He4. set (s3 := s2 <| rb := b2 |>) in *.
  apply Os.wp_bind, (serving_get k l s3); [done|].
  assert (Hcan2 : CBuffer.buffer_can_read (rb s3) = false).
  { apply CBuffer.can_read_nil; [done|]. cbn. by rewrite C2, C1, drop_all. }
  rewrite Hcan2. cbn [negb]. apply Os.wp_ret, (HQ s3); [done|exact Hp2|]. right. split; [done|].
  rewrite He4, He3. cbn. by rewrite He.
Qed.

(** What a read may bring: lines that fit, memory for the rules they add. *)
Definition digestible (s : monitor_session) (r : Os.read_result) (e : E) : Prop :=
  match r with
  | Os.RError _ => True
  | Os.RData bs =>
    let input := CBuffer.contents s.(rb) ++ bs in
    digests s input /\ (input <> [] -> allocates e) /\
    (bs = [] -> MonCommands.host_fits (c_str (MonProtocol.frames (pending_line s) input).2) /\
       allocates (if decide (CBuffer.contents s.(rb) = []) then e else (Os.os_alloc e).2))
  end.

(** What both callbacks end with. *)
Lemma rule_rearm s w : serving k l s w ->
  Os.wp (Os.set_interest_key key (monitor_client_interest s)) (fun _ => served) w.
Proof.
  intros Hs. apply (rule_set_interest k l s); [done|done|]. intros w' Hs'. left. by exists s.
Qed.

Lemma rule_flush_rearm w : open w ->
  Os.wp (open ← monitor_flush impl key;
         if negb open then mret tt else
         s ← get_client l; Os.set_interest_key key (monitor_client_interest s)) (fun _ => served) w.
Proof.
  intros [s Hs]. apply Os.wp_bind. eapply Os.wp_mono; [by apply (rule_monitor_flush s)|].
  intros b w1 H1. destruct b; cbn [negb]; [|by apply Os.wp_ret; right].
  destruct H1 as [s1 Hs1]. apply Os.wp_bind, (serving_get k l s1); [done|]. by apply rule_rearm.
Qed.

Lemma rule_monitor_write w : open w -> Os.wp (monitor_client_write impl key) (fun _ => served) w.
Proof. intros Ho. apply Os.wp_bind, wp_the_client. by apply rule_flush_rearm. Qed.

Lemma rule_unregister_served s w : serving k l s w ->
  Os.wp (monitor_unregister_session impl key) (fun _ => served) w.
Proof. intros Hs. apply (rule_close s); [done|]. intros w' H'. by right. Qed.

(** The client closed its side. *)
Lemma rule_monitor_eof s w : serving k l s w -> digestible s (Os.RData []) (env w) ->
  Os.wp (feed_rb_to_commands l ;;
    ok ← Os.os Os.os_alloc;
    with_commands l (MonCommands.monitor_commands_flush_on_eof ok ok) ;;
    open ← monitor_flush impl key;
    if negb open then mret tt else
    s ← get_client l;
    if CBuffer.buffer_can_read s.(commands).(MonCommands.wb)
    then Os.set_interest_key key (monitor_client_interest s)
    else monitor_unregister_session impl key) (fun _ => served) w.
Proof.
  intros Hs (Hd & Hal & Heof). cbn zeta in *. rewrite app_nil_r in *. destruct (Heof eq_refl) as [Hfit Hal2].
  apply Os.wp_bind, (rule_monitor_feed s); [done|done|done|]. intros s1 w1 Hs1 Hp1 Hen.
  apply Os.wp_bind, Os.wp_os. intros ok e He. change (Os.os_alloc (env w1) = (ok, e)) in He.
  assert (Hok : ok = true).
  { change ok with (ok, e).1. rewrite <- He. destruct Hen as [->|[Hne ->]].
    - case_decide; [exact Hal2|by apply Hal].
    - by rewrite decide_False in Hal2. }
  subst ok. pose proof (serving_ok _ _ _ _ Hs1) as [_ Hg].
  apply Os.wp_bind, (rule_commands k l s1); [by apply serving_env|]. intros t a Hf.
  destruct (eof_ok s1 t a true Hg Hf) as (w2 & a' & H2 & Hg2 & Hf2); [by rewrite Hp1|].
  exists w2, a'. split; [done|]. split; [done|]. split; [done|]. intros w3 Hs3 _.
  apply Os.wp_bind. eapply Os.wp_mono; [by apply (rule_monitor_flush _ _ Hs3)|].
  intros b w4 H4. destruct b; cbn [negb]; [|by apply Os.wp_ret; right].
  destruct H4 as [s4 Hs4]. apply Os.wp_bind, (serving_get k l s4); [done|].
  destruct (CBuffer.buffer_can_read _); [by apply rule_rearm|by apply (rule_unregister_served s4)].
Qed.

Lemma rule_monitor_read s w : serving k l s w ->
  (forall r e, Os.os_read k (CBuffer.space s.(rb)) (env w) = (r, e) -> digestible s r e) ->
  Os.wp (monitor_client_read impl key) (fun _ => served) w.
Proof.
  intros Hs Hdig. pose proof (serving_ok _ _ _ _ Hs) as [Hrb Hg].
  unfold monitor_client_read. apply Os.wp_bind, wp_the_client. apply Os.wp_bind, (serving_get k l s); [done|].
  apply Os.wp_bind, (Os.wp_lift _ _ _ _ (CBuffer.write_ptr_wf _ Hrb)).
  case_decide as Hroom; [by apply rule_rearm|]. rewrite Hfd.
  apply Os.wp_bind, Os.wp_bind, Os.wp_os. intros r e Hr. specialize (Hdig r e Hr).
  pose proof (serving_env _ _ _ e _ Hs) as Hs1. apply Os.wp_bind.
  destruct r as [bs|errno].
  2:{ apply Os.wp_ret, Os.wp_ret. destruct (Os.would_block errno); [by apply rule_rearm|by apply (rule_unregister_served s)]. }
  apply Os.wp_emit, Os.wp_ret. set (w1 := Os.on_trace _ _).
  assert (Hs2 : serving k l s w1) by by apply serving_trace.
  destruct bs as [|b0 bs0] eqn:Hbs; [by apply (rule_monitor_eof s)|]. rewrite <- Hbs in *.
  destruct (CBuffer.append_spec (rb s) bs Hrb (Os.read_fits _ _ _ _ _ Hr)) as (b & Hb & Hwf & Hc & _).
  apply bind_ok in Hb as (b1 & H1 & H2).
  apply Os.wp_bind, (Os.wp_lift _ _ _ _ H1). apply Os.wp_bind, (Os.wp_lift _ _ _ _ H2).
  apply Os.wp_bind, (serving_set k l s); [done|by split|]. intros w2 Hs3 He2. set (s3 := s <| rb := b |>) in *.
  destruct Hdig as (Hd & Hal & _).
  apply Os.wp_bind, (rule_monitor_feed s3); [done| | |].
  - cbn. by rewrite Hc.
  - cbn. rewrite Hc. intros Hne. rewrite He2. by apply Hal.
  - intros s4 w4 Hs4 _ _. apply rule_flush_rearm. by exists s4.
Qed.

End Callbacks.

(** ** Accepting a connection *)

(** A connection that is being set up: without it the process is complete.
    At most [n] more connections wait, and the table is as it was. *)
Section Accept.
Variables (garbage : item) (sl0 : selector).

Definition hide (l : loc) w : st := Os.on_prog (fun p => p <| clients ::= delete l |>) w.

Record setting_up (n : nat) (l : loc) (s : monitor_session) w : Prop := {
  su_work : steady (hide l w);
  su_at : (prog w).(clients) !! l = Some s;
  su_next : (l < (prog w).(next_client))%positive;
  su_wait : (waiting w <= n)%nat;
  su_sel : Selector.sel w = sl0;
}.
Definition between (n : nat) w : Prop := steady w /\ (waiting w <= n)%nat /\ Selector.sel w = sl0.

Lemma steady_env e w : steady w -> steady (Os.on_env e w).
Proof. intros (a & m & Hw). exists a, m. by apply at_work_env. Qed.

Lemma between_os {A} (f : E -> A * E) n w Q : calm f -> between n w ->
  (forall a e, between n (Os.on_env e w) -> Q a (Os.on_env e w)) -> Os.wp (Os.os f) Q w.
Proof.
  intros Hc (Hw & Hn & Hsl) HQ. apply Os.wp_os. intros a e He. apply HQ. split; [by apply steady_env|].
  split; [|exact Hsl].
  change (f (env w) = (a, e)) in He. specialize (Hc (env w)). rewrite He in Hc. unfold waiting in *. cbn in *. lia.
Qed.

Lemma between_close n fd w : between n w -> Os.wp (Os.close fd) (fun _ => between n) w.
Proof.
  intros [(a & m & Hw) Hn]. apply Os.wp_emit. split; [|exact Hn]. exists a, m. by apply at_work_trace.
Qed.

Lemma rule_new_client n w Q : between n w -> (forall w', between n w' -> Q None w') ->
  (forall l w', setting_up n l zero_client w' -> Q (Some l) w') -> Os.wp new_client Q w.
Proof.
  intros Hb Hnone Hsome. apply Os.wp_bind, (between_os _ n); [apply calm_alloc|done|]. intros ok e Hb1.
  destruct ok; cbn [negb]; [|by apply Os.wp_ret, Hnone]. set (w1 := Os.on_env e w) in *.
  apply Os.wp_bind, Os.wp_gets. change (Selector.user w1).(Os.prog) with (prog w1).
  set (l := next_client (prog w1)). apply Os.wp_bind, Os.wp_modify, Os.wp_ret. apply Hsome.
  destruct Hb1 as ((a & m & Hw) & Hn & Hsl).
  assert (Hl : (prog w1).(clients) !! l = None).
  { destruct ((prog w1).(clients) !! l) as [s|] eqn:Hl; [|done].
    destruct (mo_client _ _ (aw_monitor _ _ _ Hw) l s Hl) as [_ Hlt]. by apply Pos.lt_irrefl in Hlt. }
  split; [|apply lookup_insert_eq|apply Pos.lt_succ_diag_r|exact Hn|exact Hsl]. exists a, m.
  apply (at_work_prog a a m (fun p => p <| next_client ::= Pos.succ |>)) in Hw; try done.
  - clearbody w1. destruct w1 as [sl [p e1 t1]]. unfold hide, Os.on_prog in *. cbn in *. unfold set in *. cbn in *.
    by rewrite delete_insert_id.
  - by apply (at_work_store a m).
  - destruct (aw_monitor _ _ _ Hw) as [H1 H2 H3 H4 H5 H6]. split; try done. cbn. intros l' s' Hs'.
    destruct (H1 l' s' Hs') as [H Hlt]. split; [done|]. by apply Pos.lt_lt_succ.
Qed.

Lemma hide_put l s w : hide l (Os.on_prog (fun p => p <| clients ::= <[l := s]> |>) w) = hide l w.
Proof.
  destruct w as [sl [p e t]]. destruct p. unfold hide, Os.on_prog. cbn. unfold set. cbn. by rewrite delete_insert_eq.
Qed.

Lemma setting_up_set n l s s' w Q : setting_up n l s w -> (forall w', setting_up n l s' w' -> Q tt w') ->
  Os.wp (set_client l s') Q w.
Proof.
  intros [Hw Hl Hx Hn Hsl] HQ. apply Os.wp_bind, (wp_get_client l s); [done|]. apply Os.wp_modify, HQ.
  split; [by rewrite hide_put|apply lookup_insert_eq|done|done|done].
Qed.

(** The greeting is queued. *)
Lemma rule_monitor_session_init n l s w Q : length s.(commands).(MonCommands.line_buf) = S MonCommands.MONITOR_LINE_MAX ->
  setting_up n l s w -> (forall s' w', setting_up n l s' w' -> client_ok s' -> Q tt w') ->
  Os.wp (monitor_session_init l) Q w.
Proof.
  intros Hline Hs HQ. unfold monitor_session_init. apply Os.wp_bind, (wp_get_client l s); [apply Hs|].
  apply Os.wp_bind. eapply setting_up_set; [exact Hs|]. intros w1 H1. set (s1 := s <| rb := _ |> <| commands := _ |>) in *.
  assert (Hlen : length (replicate MONITOR_BUFFER_SIZE x00) = MONITOR_BUFFER_SIZE) by apply length_replicate.
  assert (Hok1 : client_ok s1).
  { split; [by apply CBuffer.init_wf|]. split; [by apply CBuffer.init_wf|done|exact Hline|apply le_0_n]. }
  clearbody s1. unfold with_commands. apply Os.wp_bind, (wp_get_client l s1); [apply H1|].
  destruct (su_work _ _ _ _ H1) as (a & m & Hw). destruct (at_work_store _ _ _ Hw) as (t & Ht & Hf).
  apply Os.wp_bind, (wp_get_store t); [exact Ht|].
  destruct (MonCommands.append_wrote MonCommands.MONITOR_COMMANDS_GREETING (MonCommands.mk_world s1.(commands) t)
    (co_commands _ Hok1)) as (c1 & E1 & Hw1).
  pose proof (MonCommands.wrote_good _ _ _ Hw1 (co_commands _ Hok1)) as G1.
  destruct (MonCommands.append_wrote MonCommands.dot_line (MonCommands.mk_world c1 t) G1) as (c2 & E2 & Hw2).
  pose proof (MonCommands.wrote_good _ _ _ Hw2 G1) as G2.
  apply Os.wp_bind, (Os.wp_lift _ (MonCommands.mk_world c2 t)).
  { unfold MonCommands.monitor_commands_queue_greeting. by rewrite E1, ok_bind. }
  apply Os.wp_bind. eapply setting_up_set; [exact H1|]. intros w2 H2.
  destruct (su_work _ _ _ _ H2) as (a2 & m2 & Hw0). destruct (at_work_store _ _ _ Hw0) as (t2 & Ht2 & _).
  apply (wp_set_store t2); [exact Ht2|]. apply (HQ (s1 <| commands := c2 |>)); [|split; [apply Hok1|exact G2]].
  destruct H2 as [_ Hl Hx Hn Hsl]. split; [|exact Hl|exact Hx|exact Hn|exact Hsl]. exists a, m2.
  apply (at_work_prog a2 a m2 (fun p => p <| store := Some t |>)) in Hw0;
    [exact Hw0|reflexivity|reflexivity|reflexivity|by exists t|].
  destruct (aw_monitor _ _ _ Hw0) as [M1 M2 M3 M4 M5 M6]. split; assumption.
Qed.

Lemma monitor_ok_add m p k l it s v : monitor_ok m (p <| clients ::= delete l |>) -> m !! k = None ->
  seat l it -> p.(clients) !! l = Some s -> client_ok s -> (l < p.(next_client))%positive ->
  p.(monitor) = Some v ->
  monitor_ok (partial_alter (fun _ => Some it) k m)
    (p <| monitor := Some (v <| m_active_sessions ::= Z.add 1 |>) |>).
Proof.
  intros [H1 H2 H3 H4 H5 H6] Hk Hse Hl Hok Hx Hv.
  change (partial_alter (fun _ => Some it) k m) with (<[k := it]> m). cbn in *.
  assert (Hold : forall l', l' <> l -> delete l (clients p) !! l' = clients p !! l').
  { intros l' Hne. by rewrite lookup_delete_ne. }
  destruct H5 as (v' & V1 & V2 & V3). replace v' with v in * by congruence. split; cbn.
  - intros l' x Hx'. destruct (decide (l' = l)) as [->|Hne].
    { pose proof (eq_trans (eq_sym Hl) Hx') as Hsx. injection Hsx as <-. by split. }
    apply (H1 l'). by rewrite Hold.
  - intros j jt [[<- <-]|[Hne Hj]]%lookup_insert_Some; [left; by exists l|].
    destruct (H2 j jt Hj) as [(l' & Hs' & x & Hi)|Hli]; [left|by right]. apply lookup_delete_Some in Hi as [Hne' Hi].
    by exists l'.
  - intros l' [x Hx']. destruct (decide (l' = l)) as [->|Hne]; [exists k, it; by rewrite lookup_insert_eq|].
    destruct (H3 l') as (j & jt & Hj & Hs'); [exists x; by rewrite Hold|]. exists j, jt.
    rewrite lookup_insert_ne; [done|]. congruence.
  - assert (Hnew : forall j jt, m !! j = Some jt -> seat l jt -> False).
    { intros j jt Hj [Hh Hd]. destruct (H2 j jt Hj) as [(l' & [_ Hd'] & Hi)|[Hh' _]]; [|congruence].
      replace l' with l in Hi by congruence. by rewrite lookup_delete_eq in Hi; destruct Hi. }
    intros l' j j' jt jt' [[<- <-]|[Hne Hj]]%lookup_insert_Some [[<- <-]|[Hne' Hj']]%lookup_insert_Some Hs1 Hs2;
      [done| | |by apply (H4 l' j j' jt jt')]; exfalso; destruct Hse as [_ Hd].
    + destruct Hs1 as [_ Hd']. replace l' with l in Hs2 by congruence. by apply (Hnew j' jt').
    + destruct Hs2 as [_ Hd']. replace l' with l in Hs1 by congruence. by apply (Hnew j jt).
  - exists (v <| m_active_sessions ::= Z.add 1 |>). split; [done|]. split.
    + cbn. rewrite V2, map_size_delete, Hl. pose proof (map_size_ne_0_lookup_2 (clients p) l (mk_is_Some _ _ Hl)). lia.
    + intros j jt [[<- <-]|[Hne Hj]]%lookup_insert_Some Hli; [by destruct (seat_listener l it)|by apply (V3 j jt)].
  - intros v0 [= <-] H0. destruct (H6 v Hv H0) as (jt & Hj & Hli).
    exists jt. change (<[k := it]> m !! m_listen_fd v = Some jt /\ listener jt).
    rewrite lookup_insert_ne; [done|]. congruence.
Qed.

Lemma hide_id l s w : (prog w).(clients) !! l = Some s ->
  prog w = (prog (hide l w)) <| clients ::= <[l := s]> |>.
Proof.
  intros Hl. destruct w as [sl [p e t]]. destruct p. unfold hide, Os.on_prog in *. cbn in *. unfold set. cbn.
  by rewrite insert_delete_id.
Qed.

(** What is registered stays registered. *)
Definition grown (n : nat) w : Prop := steady w /\ (waiting w <= n)%nat /\ extends sl0 w.(Selector.sel).

Lemma between_grown n w : between n w -> grown n w.
Proof. intros (H1 & H2 & H3). split; [done|]. split; [done|]. rewrite H3. by intros k it. Qed.

Lemma rule_register n l s fd i w : setting_up n l s w -> client_ok s -> 0 <= fd < fr.1.1.1.2 ->
  Os.wp (status ← Os.register garbage fd MonitorClient i (Client l);
         if decide (status <> Selector.SELECTOR_SUCCESS) then free_client l ;; Os.close fd
         else upd_monitor (fun v => v <| m_active_sessions ::= Z.add 1 |>)) (fun _ => grown n) w.
Proof.
  intros [(a & m & Hw) Hl Hx Hn Hsl] Hok Hr. apply Os.wp_bind, Os.wp_bind, Os.wp_os. intros ok e He.
  change (Os.os_alloc (env w) = (ok, e)) in He.
  assert (Hn1 : (Os.os_backlog e <= n)%nat).
  { pose proof (calm_alloc (env w)) as Hc. rewrite He in Hc. unfold waiting in Hn. cbn in Hc. lia. }
  destruct (at_work_size a m _ Hw) as [Hsz Hmax]. pose proof (at_work_tables a m _ Hw) as Ht.
  change (Selector.sel (hide l w)) with (Selector.sel w) in *.
  destruct (register_entry ok garbage w.(Selector.sel) fd MonitorClient i (Client l) (tb_wf _ _ _ Ht))
    as (r & sl & Heq & Hreg); [lia..|].
  eapply Os.wp_selector; [exact Heq|]. destruct (decide (r = Selector.SELECTOR_SUCCESS)) as [->|Hne].
  - rewrite decide_False by (intros Hxx; by apply Hxx). destruct Hreg as [Hnone Hset].
    destruct (mo_server _ _ (aw_monitor _ _ _ Hw)) as (v & Hv & _).
    apply (wp_upd_monitor _ v); [exact Hv|]. split; [|split; [exact Hn1|]].
    + exists a, (partial_alter (fun _ => Some (Selector.mk_item fd i (Some MonitorClient) (Some (Client l)))) fd m).
      assert (Hm : m !! fd = None).
      { destruct (free_apart _ _ fd (tb_standing _ _ _ Ht) Hnone) as [Hm _]. exact Hm. }
      assert (Hprog : forall q, q = prog (hide l w) -> prog w = q <| clients ::= <[l := s]> |> ->
        (prog w) <| monitor := Some (v <| m_active_sessions ::= Z.add 1 |>) |> =
        q <| clients ::= <[l := s]> |> <| monitor := Some (v <| m_active_sessions ::= Z.add 1 |>) |>) by (by intros q _ ->).
      apply (at_work_entry a m fd _ (fun p => p <| clients ::= <[l := s]> |> <| monitor := Some (v <| m_active_sessions ::= Z.add 1 |>) |>)
        sl (hide l w)); try done.
      * by right.
      * lia.
      * intros it [= <-]. left. by exists l.
      * apply (Hprog _ eq_refl), hide_id, Hl.
      * by exists [].
      * rewrite <- (Hprog _ eq_refl (hide_id l s w Hl)).
        apply (monitor_ok_add m (prog w) fd l _ s v); try done. apply Hw.
    + intros k it Hk. change (Selector.entry sl k = Some it). rewrite <- Hsl in Hk. rewrite (es_entry _ _ _ _ Hset), decide_False; [done|].
      intros ->. congruence.
  - rewrite decide_True by done. subst sl.
    apply Os.wp_bind, (wp_free_client l s); [exact Hl|]. set (w2 := Os.on_prog _ _).
    assert (H2 : between n w2).
    { split; [|split; [exact Hn1|exact Hsl]]. exists a, m. apply (at_work_env a m e) in Hw. exact Hw. }
    eapply Os.wp_mono; [exact (between_close n fd w2 H2)|]. intros ? w3. apply between_grown.
Qed.

Lemma rule_monitor_accept_one n fd w : between n w -> 0 <= fd < fr.1.1.1.2 ->
  Os.wp (monitor_accept_one garbage fd) (fun _ => grown n) w.
Proof.
  intros Hb Hr. unfold monitor_accept_one.
  assert (Hclose : forall w', between n w' -> Os.wp (Os.close fd) (fun _ => grown n) w').
  { intros w' Hb'. eapply Os.wp_mono; [exact (between_close n fd w' Hb')|]. intros ? w2. apply between_grown. }
  apply Os.wp_bind, Os.wp_bind, (between_os _ n); [apply calm_fcntl|done|]. intros [g f] e1 Hb1.
  apply Os.wp_ret. case_decide; [by apply Hclose|].
  apply Os.wp_bind, (rule_new_client n); [done|done|]. intros l w1 H1.
  apply Os.wp_bind, (rule_monitor_session_init n l zero_client); [apply length_replicate|done|]. intros s w2 H2 Hok.
  apply Os.wp_bind, (wp_get_client l s); [apply H2|]. by apply (rule_register n l s).
Qed.

End Accept.

(** What was registered stays registered. *)
Definition accepted (sl0 : selector) w : Prop := steady w /\ extends sl0 w.(Selector.sel).

Lemma rule_monitor_accept_loop garbage n : descriptors_below (E := E) fr.1.1.1.2 ->
  forall listen w, steady w -> (waiting w <= n)%nat ->
  Os.wp (accept_loop garbage n listen) (fun _ => accepted w.(Selector.sel)) w.
Proof.
  intros Hbelow. induction n as [|n IH]; intros listen w Hs Hn; cbn [accept_loop];
    apply Os.wp_bind, Os.wp_bind, Os.wp_os; intros fd e He;
    (apply Os.wp_bind; case_decide as Hfd;
      [apply Os.wp_ret, Os.wp_ret; rewrite decide_True by done; apply Os.wp_ret;
       split; [by apply steady_env|by intros k it]|]);
    pose proof (Os.accept_backlog _ _ _ _ He ltac:(lia)) as Hb; change (Os.env _) with (env w) in Hb;
    unfold waiting in Hn; [lia|].
  apply Os.wp_emit, Os.wp_ret. rewrite decide_False by done. apply Os.wp_bind.
  set (w1 := Os.on_trace _ _). assert (H1 : between w.(Selector.sel) n w1).
  { split; [|split; [change (Os.os_backlog e <= n)%nat; lia|done]].
    destruct Hs as (a & m & Hw). exists a, m. by apply at_work_trace; [apply at_work_env|]. }
  eapply Os.wp_mono; [apply (rule_monitor_accept_one garbage w.(Selector.sel) n fd w1 H1)|].
  - pose proof (proj2 Hbelow _ _ _ _ He). lia.
  - intros ? w2 (Hs2 & Hn2 & Hx2). eapply Os.wp_mono; [by apply IH|]. intros ? w3 [Hs3 Hx3].
    split; [done|]. intros k it Hk. by apply Hx3, Hx2.
Qed.

Lemma rule_monitor_passive_read garbage key w : descriptors_below (E := E) fr.1.1.1.2 -> steady w ->
  Os.wp (monitor_passive_read garbage key) (fun _ => accepted w.(Selector.sel)) w.
Proof. intros Hbelow Hs. by apply rule_monitor_accept_loop. Qed.

(** ** Both servers stop listening *)

Lemma monitor_ok_deaf m p k it v : monitor_ok m p -> m !! k = Some it -> listener it ->
  p.(monitor) = Some v ->
  monitor_ok (partial_alter (fun _ => None) k m) (p <| monitor := Some (v <| m_listen_fd := -1 |>) |>).
Proof.
  intros [H1 H2 H3 H4 H5 H6] Hk Hli Hv. change (partial_alter (fun _ => None) k m) with (delete k m).
  destruct H5 as (v' & V1 & V2 & V3). replace v' with v in * by congruence. split; cbn.
  - done.
  - intros j jt [_ Hj]%lookup_delete_Some. by apply (H2 j).
  - intros l Hl. destruct (H3 l Hl) as (j & jt & Hj & Hse). exists j, jt. rewrite lookup_delete_ne; [done|].
    intros <-. replace jt with it in * by congruence. by destruct (seat_listener l it).
  - intros l j j' jt jt' [_ Hj]%lookup_delete_Some [_ Hj']%lookup_delete_Some. by apply H4.
  - exists (v <| m_listen_fd := -1 |>). split; [done|]. split; [done|].
    intros j jt [Hne Hj]%lookup_delete_Some Hli'. destruct Hne. by rewrite <- (V3 k it Hk Hli), <- (V3 j jt Hj Hli').
  - intros v0 [= <-] H0. cbn in H0. lia.
Qed.

(** The sessions and the connections there are. *)
Definition connected w := ((prog w).(sessions), (prog w).(clients)).

Lemma rule_monitor_stop impl w : Selector.handle_close (impl MonitorPassive) = Some (Os.callback monitor_passive_close) ->
  steady w -> Os.wp (monitor_server_stop_accepting impl) (fun _ w' => steady w' /\
    connected w' = connected w /\ (prog w').(socks) = (prog w).(socks) /\
    exists v, (prog w').(monitor) = Some v /\ v.(m_listen_fd) < 0) w.
Proof.
  intros Hcl (a & m & Hw). destruct (mo_server _ _ (aw_monitor _ _ _ Hw)) as (v & Hv & _ & V3).
  unfold monitor_server_stop_accepting. apply Os.wp_bind, (wp_get_monitor v); [done|].
  case_decide as Hneg; [apply Os.wp_ret; split; [by exists a, m|]; split; [done|]; split; [done|by exists v]|].
  set (k := m_listen_fd v) in *.
  destruct (mo_listen _ _ (aw_monitor _ _ _ Hw) v Hv) as (it & Hm & Hli); [fold k; lia|]. fold k in Hm.
  pose proof (at_work_tables a m w Hw) as Ht. destruct (sd_monitor _ _ (tb_standing _ _ _ Ht) k it Hm) as [He _].
  pose proof (tb_wf _ _ _ Ht) as Hwf. destruct (Selector.entry_used _ _ _ Hwf He) as (_ & _ & _ & _ & Hr).
  destruct (at_work_size a m w Hw) as [Hz1 Hz2].
  pose proof Hli as (Hh & Hd & _).
  apply Os.wp_bind. eapply (wp_unregister impl k it MonitorPassive); [done|lia|done|done|exact Hcl|].
  intros sl1 Hset1. rewrite Hd. unfold monitor_passive_close. cbn [Selector.key_fd].
  apply Os.wp_bind, (wp_upd_monitor _ v); [exact Hv|]. rewrite decide_True by lia. apply Os.wp_emit.
  split; [apply Hset1|]. split; [apply Hset1|]. intros sl3 Hset3.
  pose proof (entries_set_two _ _ _ _ _ _ Hset1 Hset3) as Hset.
  apply (wp_upd_monitor _ (v <| m_listen_fd := -1 |>)); [done|]. split; [|split; [done|]; split; [done|by eexists]].
  exists a, (partial_alter (fun _ => None) k m).
  apply (at_work_entry a m k None (fun p => p <| monitor := Some (v <| m_listen_fd := -1 |>) |>) sl3 w); try done.
  - left. by exists it.
  - lia.
  - exists [Os.IoClose k]. split; [done|by apply Forall_singleton].
  - apply (monitor_ok_deaf m (prog w) k it v); [apply Hw|done..].
Qed.

Lemma rule_socks_stop impl w : Selector.handle_close (impl SocksPassive) = Some (Os.callback socks_passive_close) ->
  steady w -> Os.wp (socks_server_stop_accepting impl) (fun _ w' => steady w' /\
    connected w' = connected w /\ exists v, (prog w').(socks) = Some v /\ v.(listen_fd) < 0) w.
Proof.
  intros Hcl (a & m & Hw). pose proof (aw_inv _ _ _ Hw) as (B & [_ (v & L & Hv & _) _ _ _ _ _ _] & _).
  unfold socks_server_stop_accepting. apply Os.wp_bind, (wp_get_socks v); [done|].
  case_decide as Hneg; [apply Os.wp_ret; split; [by exists a, m|split; [done|by exists v]]|]. set (k := listen_fd v) in *.
  pose proof (at_work_tables a m w Hw) as Ht.
  assert (Hl : listens (view a m w) k) by (unfold listens, view, rest; cbn; by rewrite Hv).
  destruct (sd_listen _ _ (tb_standing _ _ _ Ht) k Hl) as (it & He & Hh & Hd); [lia|].
  pose proof (tb_wf _ _ _ Ht) as Hwf. destruct (Selector.entry_used _ _ _ Hwf He) as (_ & _ & _ & _ & Hr).
  destruct (at_work_size a m w Hw) as [Hz1 Hz2].
  apply Os.wp_bind. eapply (wp_unregister impl k it SocksPassive); [done|lia|done|done|exact Hcl|].
  intros sl1 Hset1. rewrite Hd. unfold socks_passive_close. cbn [Selector.key_fd].
  apply Os.wp_bind, (wp_upd_socks _ v); [exact Hv|]. rewrite decide_True by lia. apply Os.wp_emit.
  split; [apply Hset1|]. split; [apply Hset1|]. intros sl3 Hset3.
  pose proof (entries_set_two _ _ _ _ _ _ Hset1 Hset3) as Hset.
  apply (wp_upd_socks _ (v <| listen_fd := -1 |>)); [done|]. split; [|split; [done|by eexists]].
  exists a, m. set (w' := Os.on_prog _ _). split.
  - apply (inv_shift (view a m w) _ w); [apply Hw|done|done| |exact (at_work_store a m w Hw)| | |done|done|done].
    + intros v0 Hv0. replace v0 with v in * by congruence. by exists (v <| listen_fd := -1 |>).
    + by apply (tables_unlisten (view a m w) _ w.(Selector.sel) _ _ k); [..|lia| | |].
    + intros j jt. change (Selector.sel w') with sl3. rewrite (es_entry _ _ _ _ Hset). by case_decide.
  - by destruct (aw_monitor _ _ _ Hw); split.
  - destruct (aw_trace _ _ _ Hw) as (new & Htr & Hn). exists (Os.IoClose k :: new). split; [|by apply Forall_cons].
    change (Os.IoClose k :: trace w = (Os.IoClose k :: new) ++ base). by rewrite Htr.
Qed.

End Rules.

End MonitorSafe.
