(* ===== verification/ServerRuns.v ===== *)
(** What the server process does: any sequence of events of its descriptors, of
    notifications handled, of resolver threads that finish, of idle timeouts,
    and the end of accepting connections.  The rounds of [selector_select] and
    the turns of [main]'s loop are such sequences. *)
From S2P Require Import Prelude CBuffer Request Stm Selector Os Scripted Inet Store Users Sessions Acl.
From S2P Require Import Program Socks SocksServer Monitor Proxy IdleList SocksInv SocksRules SocksClose SocksFlush.
From S2P Require Import SocksHandshake SocksStates SocksEvents SocksAccept SocksExpire ProxySafe MonitorInv MonitorSafe.
Import Store Program Socks SocksServer IdleList SocksInv SocksRules SocksClose SocksFlush.
Import SocksHandshake SocksStates SocksEvents SocksAccept SocksExpire ProxySafe MonitorInv MonitorSafe.
Local Open Scope Z_scope.

Module ServerRuns.

Section Runs.
Context {E : Type} {OS : Os.Os E} {OL : Os.OsLaws E} {IN : Inet}.
Abbreviation st := (Os.st handler data program E).
Abbreviation M := (Os.M handler data program E).
Variable garbage : item.
Implicit Types (w : st) (sl : selector).

Abbreviation proxy := (Proxy.proxy garbage).

(** * The invariant of the process, its table of [N] elements *)

Record good (N : Z) w : Prop := {
  good_work : steady (frame w.(Selector.sel)) (trace w) w;
  good_size : Selector.fd_size w.(Selector.sel) = N;
  good_unlocked : Selector.resolution_mutex w.(Selector.sel) = false;
}.

(** What was done meanwhile connects to no address that the deny list held. *)
Definition lawful w w' : Prop := exists t a new, (prog w).(store) = Some t /\ Acl.rep t a /\
  trace w' = new ++ trace w /\ Forall (allowed a) new.

(** * What happens to the process *)

Inductive act :=
| Event (events fd : Z)      (* [epoll_wait] reported a descriptor *)
| Notified                   (* the notifications are looked at *)
| Resolve (i : nat)          (* the [i]-th resolver thread ends *)
| Expire                     (* the check of the idle timeout *)
| Stop.                      (* both servers stop listening *)

Definition perform (x : act) : M unit :=
  match x with
  | Event events fd => fun w => w ← Selector.handle_event proxy events fd w; Ok (tt, w)
  | Notified => fun w => w ← Selector.handle_block_notifications proxy w; Ok (tt, w)
  | Resolve i => Proxy.finish_thread i
  | Expire => socks_server_expire_idle proxy
  | Stop => socks_server_stop_accepting proxy ;; Monitor.monitor_server_stop_accepting proxy
  end.

Fixpoint run (xs : list act) : M unit :=
  match xs with [] => mret tt | x :: xs => perform x ;; run xs end.

(** A round of the selector. *)
Definition Select (r : Selector.epoll_result) : list act :=
  match r with
  | Selector.Ready evs => ((fun ev => Event ev.1 ev.2) <$> evs) ++ [Notified]
  | Selector.WaitEINTR => [Notified]
  | _ => []
  end.

Lemma run_app xs ys w : run (xs ++ ys) w = match run xs w with Ok (_, w1) => run ys w1 | Fault f => Fault f end.
Proof.
  revert w. induction xs as [|x xs IH]; intros w; [done|]. cbn [run app]. unfold mbind, Os.M_bind in *.
  destruct (perform x w) as [[[] w1]|]; [apply IH|done].
Qed.

Lemma run_events evs w : run ((fun ev => Event ev.1 ev.2) <$> evs) w =
  (w' ← Selector.handle_iteration proxy evs w; Ok (tt, w')).
Proof.
  revert w. induction evs as [|[ev fd] evs IH]; intros w; [done|].
  cbn [fmap list_fmap run perform Selector.handle_iteration fst snd]. unfold mbind, Os.M_bind, res_bind in *.
  destruct (Selector.handle_event _ _ _ _); [apply IH|done].
Qed.

Lemma run_select r w : (status ← (Selector.selector_select proxy r : M Selector.selector_status); mret tt) w =
  run (Select r) w.
Proof.
  destruct r as [evs| | |]; [|..]; cbn [Select]; unfold Selector.selector_select.
  - rewrite run_app, run_events. cbn [run perform]. unfold mbind, Os.M_bind, res_bind.
    destruct (Selector.handle_iteration _ _ _) as [w1|]; [|done].
    by destruct (Selector.handle_block_notifications _ w1).
  - cbn [run perform]. unfold mbind, Os.M_bind, res_bind. by destruct (Selector.handle_block_notifications _ w).
  - done.
  - done.
Qed.

(** ** What the code relies on *)

(** Every notification that waits is for a session that waits for it. *)
Definition jobs_fit w : Prop :=
  NoDup (Selector.resolution_jobs w.(Selector.sel)) /\
  Forall (awaiting w) (Selector.resolution_jobs w.(Selector.sel)).

(** What an administrator's connection may bring. *)
Definition input_fits w (fd : Z) : Prop := forall it l s r e,
  Selector.entry w.(Selector.sel) fd = Some it -> seat l it -> (prog w).(clients) !! l = Some s ->
  Os.os_read fd (CBuffer.space s.(rb)) (env w) = (r, e) -> digestible s r e.

(** [epoll_wait] reports descriptors of the table; no notification is left for
    a session that is gone or moved on; a thread that ends finds its session;
    the administrator's lines fit. *)
Definition admissible (N : Z) (x : act) w : Prop :=
  match x with
  | Event events fd => fd = Selector.event_fd w.(Selector.sel) \/ 0 <= fd < N /\ input_fits w fd
  | Notified => jobs_fit w
  | Resolve i => forall ctx, (prog w).(threads) !! i = Some ctx ->
      is_Some ((prog w).(sessions) !! ctx.(ctx_session))
  | Expire | Stop => True
  end.

Fixpoint admissible_run (N : Z) (xs : list act) w : Prop :=
  match xs with
  | [] => True
  | x :: xs => admissible N x w /\
    forall w', perform x w = Ok (tt, w') -> admissible_run N xs w'
  end.

(** Every step of a run is lawful. *)
Fixpoint lawful_run (xs : list act) w : Prop :=
  match xs with
  | [] => True
  | x :: xs => forall w', perform x w = Ok (tt, w') -> lawful w w' /\ lawful_run xs w'
  end.

(** These conditions can be computed. *)
Definition awaitingb w (j : Z) : bool := existsb (fun ls =>
  bool_decide (ls.2.(client_fd) = j) && bool_decide (state_of ls.2 = SOCKS_ST_RESOLVING))
  (map_to_list (prog w).(sessions)).
Definition jobs_fitb w : bool :=
  bool_decide (NoDup (Selector.resolution_jobs w.(Selector.sel))) &&
  forallb (awaitingb w) (Selector.resolution_jobs w.(Selector.sel)).

#[export] Instance event_fits_dec e : Decision (MonProtocol.MonProtocol.event_fits e).
Proof. destruct e; cbn; unfold MonCommands.MonCommands.host_fits; apply _. Defined.
#[export] Instance digestible_dec s r (e : E) : Decision (digestible s r e).
Proof.
  destruct r as [bs|errno]; cbn; [|apply _]. unfold digests, allocates, MonCommands.MonCommands.host_fits.
  apply _.
Defined.

Definition input_fitsb w (fd : Z) : bool :=
  match Selector.entry w.(Selector.sel) fd with
  | Some it =>
    match it.(Selector.data) with
    | Some (Client l) =>
      match (prog w).(clients) !! l with
      | Some s => let '(r, e) := Os.os_read fd (CBuffer.space s.(rb)) (env w) in bool_decide (digestible s r e)
      | None => true
      end
    | _ => true
    end
  | None => true
  end.

Definition admissibleb (N : Z) (x : act) w : bool :=
  match x with
  | Event events fd => bool_decide (fd = Selector.event_fd w.(Selector.sel)) ||
      (bool_decide (0 <= fd < N) && input_fitsb w fd)
  | Notified => jobs_fitb w
  | Resolve i =>
    match (prog w).(threads) !! i with
    | Some ctx => bool_decide (is_Some ((prog w).(sessions) !! ctx.(ctx_session)))
    | None => true
    end
  | Expire | Stop => true
  end.
Fixpoint admissible_runb (N : Z) (xs : list act) w : bool :=
  match xs with
  | [] => true
  | x :: xs => admissibleb N x w &&
    match perform x w with Ok (_, w') => admissible_runb N xs w' | Fault _ => true end
  end.

Lemma awaitingb_ok w j : awaitingb w j = true -> awaiting w j.
Proof.
  intros ([l s] & Hin & Hb)%existsb_exists. apply andb_true_iff in Hb as [Hc%bool_decide_eq_true Hs%bool_decide_eq_true].
  exists l, s. split; [|done]. apply elem_of_map_to_list. by apply list_elem_of_In.
Qed.

Lemma jobs_fitb_ok w : jobs_fitb w = true -> jobs_fit w.
Proof.
  intros [Hn%bool_decide_eq_true Hall]%andb_true_iff. split; [done|]. apply Forall_forall. intros j Hj.
  rewrite forallb_forall in Hall. by apply awaitingb_ok, Hall, list_elem_of_In.
Qed.

Lemma input_fitsb_ok w fd : input_fitsb w fd = true -> input_fits w fd.
Proof.
  unfold input_fitsb. intros Hb it l s r e He [Hh Hd] Hl Hr. rewrite He, Hd, Hl, Hr in Hb.
  by apply bool_decide_eq_true in Hb.
Qed.

Lemma admissibleb_ok N x w : admissibleb N x w = true -> admissible N x w.
Proof.
  destruct x as [ev fd| |i| |]; cbn [admissibleb admissible]; try done.
  - intros [H%bool_decide_eq_true|[H%bool_decide_eq_true Hf]%andb_true_iff]%orb_true_iff; [by left|right].
    split; [done|]. by apply input_fitsb_ok.
  - apply jobs_fitb_ok.
  - intros Hb ctx Hctx. rewrite Hctx in Hb. by apply bool_decide_eq_true in Hb.
Qed.

Lemma admissible_runb_ok N xs : forall w, admissible_runb N xs w = true -> admissible_run N xs w.
Proof.
  induction xs as [|x xs IH]; intros w; [done|]. intros [Hx Hr]%andb_true_iff.
  split; [by apply admissibleb_ok|]. intros w' Hw'. rewrite Hw' in Hr. by apply IH.
Qed.

(** * One step *)

Variable N : Z.
Hypothesis Hrefusals : refusals_get_through (E := E).
Hypothesis Hbelow : descriptors_below (E := E) N.

Definition stepped w w' : Prop := good N w' /\ lawful w w'.

Lemma monitor_ok_rest m p p' : rest p' = rest p -> monitor_ok m p -> monitor_ok m p'.
Proof.
  intros Hr [H1 H2 H3 H4 H5 H6]. unfold rest in Hr. injection Hr as E1 E2 E3 _ _.
  split; rewrite ?E1, ?E2, ?E3; done.
Qed.

(** The trace so far and the present frame can be taken as given. *)
Lemma inv_view F w : inv F w -> inv (view (frame w.(Selector.sel)) F.(fx_acl) F.(fx_monitor) w) w.
Proof.
  intros (B & [W1 W2 W3 W4 W5 W6 W7 W8] & Hf). pose proof (tb_frame _ _ _ W5) as Hfr.
  assert (Hs : table_size (view (frame w.(Selector.sel)) F.(fx_acl) F.(fx_monitor) w) = table_size F).
  { unfold table_size, view. cbn. by rewrite <- Hfr. }
  exists B. split; [split|]; try done.
  - apply (tables_same_frame F); [done|done|cbn; by rewrite <- W8|done].
  - by exists [].
  - by rewrite Hs.
  - intros l s Hl. destruct (Hf l s Hl). split; [by rewrite Hs|done].
Qed.

(** What the proxy did. *)
Lemma proxy_stepped w0 F w : inv F w -> F.(fx_rest) = rest (prog w0) -> F.(fx_trace) = trace w0 ->
  monitor_ok F.(fx_monitor) (prog w0) -> table_size F = N -> F.(fx_frame).1.1.2 = false ->
  (exists t, (prog w0).(store) = Some t /\ Acl.rep t F.(fx_acl)) -> stepped w0 w.
Proof.
  intros Hi Hr Ht Hm HN Hmx (t & Hst & Hrep). pose proof (inv_frame F w Hi) as Hfr.
  pose proof Hi as (B & [_ _ _ _ _ (new & Hn & Ha) _ W8] & _). split; [split|].
  - exists F.(fx_acl), F.(fx_monitor). split; [by apply inv_view| |by exists []].
    apply (monitor_ok_rest _ (prog w0)); [congruence|done].
  - rewrite <- HN. unfold table_size. by rewrite <- Hfr.
  - by rewrite <- Hmx, <- Hfr.
  - exists t, F.(fx_acl), new. by rewrite <- Ht.
Qed.

(** What the monitor did. *)
Lemma monitor_stepped w0 w : good N w0 -> steady (frame w0.(Selector.sel)) (trace w0) w -> stepped w0 w.
Proof.
  intros [(a0 & m0 & Hw0) HN Hmx] (a & m & Hw). pose proof (at_work_frame _ _ a m w Hw) as Hfr.
  split; [split|].
  - exists a, m. destruct Hw as [Hi Hm _]. split; [|done|by exists []].
    by apply (inv_view _ _ Hi).
  - rewrite <- HN. unfold frame in Hfr. by injection Hfr.
  - rewrite <- Hmx. unfold frame in Hfr. by injection Hfr.
  - destruct (at_work_store _ _ _ _ _ Hw0) as (t & Ht & Hrep & _). destruct (aw_trace _ _ _ _ _ Hw) as (new & Hn & Hno).
    exists t, a0, new. split_and!; [done..|]. eapply Forall_impl; [exact Hno|]. by intros [].
Qed.

Lemma good_view w : good N w -> exists a m, at_work (frame w.(Selector.sel)) (trace w) a m w /\
  table_size (view (frame w.(Selector.sel)) a m w) = N /\
  (frame w.(Selector.sel)).1.1.2 = false /\
  exists t, (prog w).(store) = Some t /\ Acl.rep t a.
Proof.
  intros [(a & m & Hw) HN Hmx]. exists a, m. split; [done|]. split; [exact HN|]. split; [exact Hmx|].
  destruct (at_work_store _ _ _ _ _ Hw) as (t & Ht & Hrep & _). by exists t.
Qed.

(** The invariant does not ask what happened before. *)
Definition afresh e w : st := Selector.mk_state w.(Selector.sel) (Os.mk_sys (prog w) e []).

Lemma good_afresh e w : good N w -> good N (afresh e w).
Proof.
  intros [(a & m & Hw) HN Hmx]. split; [|exact HN|exact Hmx]. exists a, m.
  destruct Hw as [Hi Hm _]. split; [|exact Hm|by exists []].
  apply (inv_shift (view (frame (Selector.sel w)) a m w) _ w); try done; cbn.
  - intros v Hv. by exists v.
  - by destruct Hi as (B & [_ _ _ Hs _ _ _ _] & _).
  - destruct Hi as (B & [W1 _ _ _ W5 _ _ _] & _). rewrite W1. apply (tables_same_frame (view (frame (Selector.sel w)) a m w)); try done.
Qed.

(** ** Events *)

Lemma closes_the_client : closes_monitor (Proxy.closing garbage 2).
Proof. done. Qed.

(** A descriptor of the monitor whose callback is run. *)
Lemma monitor_read_event fd it l s w : good N w -> Selector.entry w.(Selector.sel) fd = Some it -> seat l it ->
  serving (frame w.(Selector.sel)) (trace w) fd l s w -> input_fits w fd ->
  exists w', Selector.dispatch proxy Selector.handle_read Selector.OP_READ (Selector.item_at w.(Selector.sel) fd)
    (Selector.mk_key fd it.(Selector.data)) w = Ok w' /\
    served (frame w.(Selector.sel)) (trace w) fd l w'.
Proof.
  intros Hg He Hse Hs Hfit. destruct (serving_entry _ _ _ _ _ _ Hs) as (it' & He' & _ & Hwf & _).
  destruct (Selector.entry_used _ _ _ Hwf He) as (Hld & _). unfold Selector.dispatch. rewrite Hld, ok_bind.
  destruct (Selector.has Selector.OP_READ _); [|by exists w; split; [|left; exists s]].
  destruct Hse as [Hh Hd]. rewrite Hh. cbn [or_fault]. rewrite ok_bind, Hd.
  destruct (wp_callback (Monitor.monitor_client_read (Proxy.closing garbage 2)) (Selector.mk_key fd (Some (Client l))) w
    (served (frame w.(Selector.sel)) (trace w) fd l)) as (w' & Hc & Hq); [|by exists w'].
  apply (rule_monitor_read _ _ _ fd l (Selector.mk_key fd (Some (Client l))) closes_the_client eq_refl eq_refl s); [done|].
  intros r e Hr. eapply Hfit; [exact He|split; [exact Hh|exact Hd]|apply Hs|exact Hr].
Qed.

Lemma steady_load fr base w fd : steady fr base w -> 0 <= fd < fr.1.1.1.2 ->
  exists it, Selector.load (Selector.item_at w.(Selector.sel) fd) w.(Selector.sel) = Ok it /\
  (Selector.has Selector.OP_WRITE it.(Selector.interest) = true -> Selector.entry w.(Selector.sel) fd = Some it).
Proof.
  intros (a & m & Hw) Hr. pose proof (at_work_tables _ _ _ _ _ Hw) as Ht. destruct (at_work_size _ _ _ _ _ Hw) as [Hz _].
  destruct (Selector.load_wf w.(Selector.sel) fd (tb_wf _ _ _ Ht)) as (x & it & _ & _ & Hld); [lia|].
  exists it. split; [done|]. intros Hint. unfold Selector.entry. rewrite Hld.
  destruct (Selector.ITEM_USED it) eqn:Hu; [done|]. by rewrite (tb_quiet _ _ _ Ht _ _ Hld Hu) in Hint.
Qed.

Lemma open_steady fr base fd l w : open fr base fd l w -> steady fr base w.
Proof. intros (s & [(a & m & it & Hw & _) _ _]). by exists a, m. Qed.

Lemma served_steady fr base fd l w : served fr base fd l w -> steady fr base w.
Proof. intros [Ho|[Hs _]]; [by eapply open_steady|done]. Qed.

Lemma monitor_write_event fr base fd l w d : served fr base fd l w -> 0 <= fd < fr.1.1.1.2 -> d = Some (Client l) ->
  exists w', Selector.dispatch proxy Selector.handle_write Selector.OP_WRITE (Selector.item_at w.(Selector.sel) fd)
    (Selector.mk_key fd d) w = Ok w' /\ steady fr base w'.
Proof.
  intros Hs Hr ->. destruct (steady_load fr base w fd (served_steady _ _ _ _ _ Hs) Hr) as (it & Hld & Hent).
  unfold Selector.dispatch. rewrite Hld, ok_bind.
  destruct (Selector.has Selector.OP_WRITE _) eqn:Hint; [|exists w; split; [done|by eapply served_steady]].
  specialize (Hent eq_refl). destruct Hs as [Ho|[_ Hnone]]; [|congruence].
  pose proof Ho as [s Hsv]. destruct (serving_entry _ _ _ _ _ _ Hsv) as (it' & He' & [Hh Hd] & _).
  replace it' with it in * by congruence. rewrite Hh. cbn [or_fault]. rewrite ok_bind.
  destruct (wp_callback (Monitor.monitor_client_write (Proxy.closing garbage 2)) (Selector.mk_key fd (Some (Client l))) w
    (served fr base fd l)) as (w' & Hc & Hq).
  - by apply (rule_monitor_write _ _ _ fd l (Selector.mk_key fd (Some (Client l))) closes_the_client eq_refl eq_refl).
  - exists w'. split; [exact Hc|by eapply served_steady].
Qed.

Lemma frame_item_at sl sl' fd : frame sl' = frame sl -> Selector.item_at sl' fd = Selector.item_at sl fd.
Proof. intros Hf. unfold Selector.item_at. by rewrite (frame_gen _ _ Hf). Qed.

Lemma steady_frame fr base w : steady fr base w -> frame w.(Selector.sel) = fr.
Proof. intros (a & m & Hw). by eapply at_work_frame. Qed.

Lemma connection_event ev fd it l s w : good N w -> 0 <= fd < N -> Selector.entry w.(Selector.sel) fd = Some it ->
  seat l it -> serving (frame w.(Selector.sel)) (trace w) fd l s w -> input_fits w fd ->
  exists w', (st ← (if Selector.has ev Selector.READ_EVENTS
      then Selector.dispatch proxy Selector.handle_read Selector.OP_READ (Selector.item_at w.(Selector.sel) fd)
        (Selector.mk_key fd it.(Selector.data)) w else Ok w);
    if Selector.has ev Selector.WRITE_EVENTS
      then Selector.dispatch proxy Selector.handle_write Selector.OP_WRITE (Selector.item_at w.(Selector.sel) fd)
        (Selector.mk_key fd it.(Selector.data)) st else Ok st) = Ok w' /\ stepped w w'.
Proof.
  intros Hg Hr He Hse Hs Hfit.
  assert (Hread : exists w1, (if Selector.has ev Selector.READ_EVENTS
    then Selector.dispatch proxy Selector.handle_read Selector.OP_READ (Selector.item_at w.(Selector.sel) fd)
        (Selector.mk_key fd it.(Selector.data)) w else Ok w) = Ok w1 /\
    served (frame w.(Selector.sel)) (trace w) fd l w1).
  { destruct (Selector.has ev _); [by apply (monitor_read_event fd it l s)|]. exists w. split; [done|]. left. by exists s. }
  destruct Hread as (w1 & Hread & Hsv). eapply (res_step _ w1); [exact Hread|].
  pose proof (served_steady _ _ _ _ _ Hsv) as Hst.
  destruct (Selector.has ev Selector.WRITE_EVENTS); [|exists w1; split; [done|by apply monitor_stepped]].
  rewrite <- (frame_item_at w.(Selector.sel) w1.(Selector.sel)) by by apply (steady_frame _ (trace w)).
  destruct (monitor_write_event _ _ fd l w1 it.(Selector.data) Hsv) as (w2 & H2 & Hs2); [|apply Hse|].
  { destruct Hg as [_ HN _]. change ((frame w.(Selector.sel)).1.1.1.2) with (Selector.fd_size w.(Selector.sel)). lia. }
  exists w2. split; [exact H2|by apply monitor_stepped].
Qed.

(** The monitor's listening descriptor. *)
Lemma listening_event ev fd it w : good N w -> 0 <= fd < N -> Selector.entry w.(Selector.sel) fd = Some it ->
  listener it ->
  exists w', (st ← (if Selector.has ev Selector.READ_EVENTS
      then Selector.dispatch proxy Selector.handle_read Selector.OP_READ (Selector.item_at w.(Selector.sel) fd)
        (Selector.mk_key fd it.(Selector.data)) w else Ok w);
    if Selector.has ev Selector.WRITE_EVENTS
      then Selector.dispatch proxy Selector.handle_write Selector.OP_WRITE (Selector.item_at w.(Selector.sel) fd)
        (Selector.mk_key fd it.(Selector.data)) st else Ok st) = Ok w' /\ stepped w w'.
Proof.
  intros Hg Hr He (Hh & Hd & Hint). pose proof Hg as [Hst HN Hmx].
  assert (Hrange : 0 <= fd < (frame w.(Selector.sel)).1.1.1.2) by (cbn; lia).
  assert (Hread : exists w1, (if Selector.has ev Selector.READ_EVENTS
    then Selector.dispatch proxy Selector.handle_read Selector.OP_READ (Selector.item_at w.(Selector.sel) fd)
        (Selector.mk_key fd it.(Selector.data)) w else Ok w) = Ok w1 /\
    steady (frame w.(Selector.sel)) (trace w) w1 /\ extends w.(Selector.sel) w1.(Selector.sel)).
  { destruct (Selector.has ev _); [|exists w; split_and!; [done|done|by intros k0 it0]].
    pose proof Hst as (a & m & Hw). pose proof (tb_wf _ _ _ (at_work_tables _ _ _ _ _ Hw)) as Hwf.
    destruct (Selector.entry_used _ _ _ Hwf He) as (Hld & _). unfold Selector.dispatch. rewrite Hld, ok_bind.
    destruct (Selector.has Selector.OP_READ _); [|exists w; split_and!; [done|done|by intros k0 it0]].
    rewrite Hh. cbn [or_fault]. rewrite ok_bind.
    destruct (wp_callback (Monitor.monitor_passive_read garbage) (Selector.mk_key fd it.(Selector.data)) w
      (MonitorSafe.accepted (frame w.(Selector.sel)) (trace w) w.(Selector.sel))) as (w1 & Hc & H1 & H2); [|by exists w1].
    apply rule_monitor_passive_read; [|done]. cbn. by rewrite HN. }
  destruct Hread as (w1 & Hread & Hs1 & Hx). eapply (res_step _ w1); [exact Hread|].
  destruct (Selector.has ev Selector.WRITE_EVENTS); [|exists w1; split; [done|by apply monitor_stepped]].
  rewrite <- (frame_item_at w.(Selector.sel) w1.(Selector.sel)) by by apply (steady_frame _ (trace w)).
  destruct (steady_load _ _ w1 fd Hs1 Hrange) as (it1 & Hld & Hent). unfold Selector.dispatch. rewrite Hld, ok_bind.
  destruct (Selector.has Selector.OP_WRITE (Selector.interest it1)) eqn:Hw1; [|exists w1; split; [done|by apply monitor_stepped]].
  specialize (Hent eq_refl). rewrite (Hx _ _ He) in Hent. injection Hent as <-. congruence.
Qed.

Lemma event_step ev fd w : good N w -> admissible N (Event ev fd) w ->
  exists w', Selector.handle_event proxy ev fd w = Ok w' /\ stepped w w'.
Proof.
  intros Hg Hadm. destruct (good_view w Hg) as (a & m & Hw & HN & Hmx & Hst).
  set (F := view (frame w.(Selector.sel)) a m w) in *.
  assert (Hproxy : reported F (ev, fd) -> exists w', Selector.handle_event proxy ev fd w = Ok w' /\ stepped w w').
  { intros Hr. destruct (handle_event_safe F garbage Hrefusals ltac:(by rewrite HN) ev fd w (aw_inv _ _ _ _ _ Hw) Hr)
      as (w' & H1 & H2). exists w'. split; [done|]. by apply (proxy_stepped w F); [..|apply Hw| | |]. }
  destruct Hadm as [Hev|[Hr Hfit]]; [apply Hproxy; by left|].
  destruct (m !! fd) as [it|] eqn:Hm.
  2:{ apply Hproxy. right. split; [unfold in_table; by rewrite HN|exact Hm]. }
  destruct (decide (fd = Selector.event_fd w.(Selector.sel))) as [->|Hne]; [apply Hproxy; by left|].
  pose proof (at_work_tables _ _ _ _ _ Hw) as Ht.
  destruct (sd_monitor _ _ (tb_standing _ _ _ Ht) fd it Hm) as [He _].
  destruct (Selector.entry_used _ _ _ (tb_wf _ _ _ Ht) He) as (Hld & Hu & _).
  unfold Selector.handle_event. rewrite decide_False by done. rewrite Hld, ok_bind, Hu. cbn [negb].
  destruct (mo_entry _ _ (aw_monitor _ _ _ _ _ Hw) fd it Hm) as [(l & Hse & s & Hl)|Hli].
  - apply (connection_event ev fd it l s); try done. split; [|done|lia]. by exists a, m, it.
  - by apply listening_event.
Qed.

(** ** The other steps *)

Lemma notified_step w : good N w -> jobs_fit w ->
  exists w', Selector.handle_block_notifications proxy w = Ok w' /\ stepped w w'.
Proof.
  intros Hg [Hnd Hall]. destruct (good_view w Hg) as (a & m & Hw & HN & Hmx & Hst).
  set (F := view (frame w.(Selector.sel)) a m w) in *. pose proof (aw_inv _ _ _ _ _ Hw) as Hi.
  change (inv F w) in Hi. pose proof (good_unlocked _ _ Hg) as Hlock.
  unfold Selector.handle_block_notifications, Selector.lock. rewrite Hlock, ok_bind.
  set (s1 := (Selector.sel w) <| Selector.resolution_mutex := true |>).
  pose proof (inv_reframe F w s1 Hi eq_refl eq_refl) as Hi1.
  destruct (run_jobs_safe (reframe F (frame s1)) garbage Hrefusals ltac:(by rewrite <- HN in Hbelow)
    (Selector.resolution_jobs s1) (Os.on_sel s1 w) Hi1 Hnd) as (w2 & Hrun & Hi2); [exact Hall|].
  eapply res_step; [exact Hrun|]. eexists. split; [done|].
  set (s3 := (Selector.sel w2) <| Selector.resolution_jobs := [] |> <| Selector.resolution_mutex := false |>).
  pose proof (inv_reframe _ w2 s3 Hi2 eq_refl eq_refl) as Hi3.
  apply (proxy_stepped w (reframe (reframe F (frame s1)) (frame s3))); try done; [apply Hw|].
  rewrite <- HN. pose proof (inv_frame _ w2 Hi2) as Hfr2. unfold table_size, frame in *. cbn. by injection Hfr2.
Qed.

Lemma expire_step w : good N w -> Os.wp (perform Expire) (fun _ => stepped w) w.
Proof.
  intros Hg. destruct (good_view w Hg) as (a & m & Hw & HN & Hmx & Hst).
  set (F := view (frame w.(Selector.sel)) a m w) in *.
  eapply Os.wp_mono; [apply (rule_expire_idle F garbage proxy (proxy_client garbage)), Hw|].
  intros ? w' Hi'. by apply (proxy_stepped w F); [..|apply Hw| | |].
Qed.

(** The answer reaches its session, and the loop is told. *)
Lemma thread_step w0 F ctx w : inv F w -> F.(fx_rest) = rest (prog w0) -> F.(fx_trace) = trace w0 ->
  monitor_ok F.(fx_monitor) (prog w0) -> table_size F = N -> F.(fx_frame).1.1.2 = false ->
  (exists t, (prog w0).(store) = Some t /\ Acl.rep t F.(fx_acl)) ->
  is_Some ((prog w).(sessions) !! ctx.(ctx_session)) -> Os.wp (socks_dns_thread ctx) (fun _ => stepped w0) w.
Proof.
  intros Hi Hre Htr Hm HN Hmx Hst [s Hs]. unfold socks_dns_thread.
  apply Os.wp_bind, Os.wp_os. intros [rc result] e _.
  assert (Hi1 : inv F (Os.on_env e w)) by (destruct Hi as (B & Ho); exists B; by apply others_env).
  destruct (here_intro F _ _ s Hi1 Hs) as [Hh Hf].
  apply Os.wp_bind, (wp_upd F _ _ s _ _ _ Hh); [done|]. intros Hh2. set (s2 := s <| dns_resolving := _ |> <| dns_gai_rc := _ |> <| dns_result := _ |>) in *.
  assert (Hi2 : inv F (put (ctx_session ctx) s2 (Os.on_env e w))).
  { eapply here_elim; [exact Hh2|]. destruct Hf as [[] Hf]. by split. }
  set (w2 := put _ _ _) in *.
  apply Os.wp_bind, Os.wp_os. intros ok e2 _.
  assert (Hi3 : inv F (Os.on_env e2 w2)) by (destruct Hi2 as (B & Ho); exists B; by apply others_env).
  set (w3 := Os.on_env e2 w2) in *. pose proof (inv_frame F w3 Hi3) as Hfr.
  apply Os.wp_bind. assert (Hmx3 : Selector.resolution_mutex w3.(Selector.sel) = false) by by rewrite <- Hmx, <- Hfr.
  assert (Hn : exists r sl', Selector.selector_notify_block ok w3.(Selector.sel) (notify_fd ctx) = Ok (r, sl') /\
    Selector.fds sl' = Selector.fds (Selector.sel w3) /\ Selector.fd_size sl' = Selector.fd_size (Selector.sel w3) /\
    Selector.resolution_mutex sl' = false).
  { unfold Selector.selector_notify_block, Selector.lock. destruct ok; [|by eexists _, _].
    rewrite Hmx3, ok_bind. by eexists _, _. }
  destruct Hn as (r & sl' & Heq & Hfds & Hsize & Hm').
  eapply Os.wp_selector; [exact Heq|]. apply Os.wp_ret.
  apply (proxy_stepped w0 (reframe F (frame sl'))); try done; [by apply inv_reframe|].
  rewrite <- HN. unfold table_size. cbn. by rewrite Hsize, <- Hfr.
Qed.

Lemma resolve_step i w : good N w -> admissible N (Resolve i) w -> Os.wp (perform (Resolve i)) (fun _ => stepped w) w.
Proof.
  intros Hg Hadm. destruct (good_view w Hg) as (a & m & Hw & HN & Hmx & Hst).
  set (F := view (frame w.(Selector.sel)) a m w) in *. pose proof (aw_inv _ _ _ _ _ Hw) as Hi. change (inv F w) in Hi.
  apply Os.wp_bind, Os.wp_gets. change (Selector.user w).(Os.prog) with (prog w).
  destruct (threads (prog w) !! i) as [ctx|] eqn:Hctx.
  2:{ apply Os.wp_ret. by apply (proxy_stepped w F); [..|apply Hw| | |]. }
  apply Os.wp_bind, Os.wp_modify. apply (thread_step w F); try done; [|apply Hw|by apply Hadm].
  destruct Hi as (B & Ho). exists B. apply others_prog; [done|done|cbn; lia|done| |done]. intros t Ht Hft. by exists t.
Qed.

(** Neither server listens. *)
Definition deaf w : Prop := exists v u, (prog w).(socks) = Some v /\ v.(listen_fd) < 0 /\
  (prog w).(monitor) = Some u /\ u.(m_listen_fd) < 0.

Lemma stop_spec w : good N w -> Os.wp (perform Stop) (fun _ w' => steady (frame w.(Selector.sel)) (trace w) w' /\
  connected w' = connected w /\ deaf w') w.
Proof.
  intros Hg. apply Os.wp_bind. eapply Os.wp_mono;
    [apply (rule_socks_stop (frame w.(Selector.sel)) (trace w)); [done|apply Hg]|].
  intros ? w1 (H1 & C1 & v & Hv & Hvl).
  eapply Os.wp_mono; [exact (rule_monitor_stop (frame w.(Selector.sel)) (trace w) proxy w1 eq_refl H1)|].
  intros ? w2 (H2 & C2 & Hs & u & Hu & Hul). split; [done|]. split; [by rewrite C2|]. exists v, u. by rewrite Hs.
Qed.

Lemma stop_step w : good N w -> Os.wp (perform Stop) (fun _ => stepped w) w.
Proof.
  intros Hg. eapply Os.wp_mono; [by apply stop_spec|]. intros ? w' [Hs _]. by apply monitor_stepped.
Qed.

Lemma act_step x w : good N w -> admissible N x w -> Os.wp (perform x) (fun _ => stepped w) w.
Proof.
  intros Hg Hadm. destruct x as [ev fd| |i| |].
  - destruct (event_step ev fd w Hg Hadm) as (w' & H1 & H2). unfold Os.wp. cbn [perform]. by rewrite H1.
  - destruct (notified_step w Hg Hadm) as (w' & H1 & H2). unfold Os.wp. cbn [perform]. by rewrite H1.
  - by apply resolve_step.
  - by apply expire_step.
  - by apply stop_step.
Qed.

Lemma run_steps xs : forall w, good N w -> admissible_run N xs w ->
  Os.wp (run xs) (fun _ => good N) w /\ lawful_run xs w.
Proof.
  induction xs as [|x xs IH]; intros w Hg Hadm; cbn [run lawful_run]; [by split; [apply Os.wp_ret|]|].
  destruct Hadm as [Hx Hxs]. pose proof (act_step x w Hg Hx) as Hstep. apply Os.wp_ok in Hstep as ([] & w1 & H1 & Hg1 & Hl).
  destruct (IH w1 Hg1 (Hxs w1 H1)) as [Hrun Hlaw]. split.
  - apply Os.wp_bind, Os.wp_ok. by exists tt, w1.
  - intros w' Hw'. by replace w' with w1 by congruence.
Qed.

Lemma run_good xs w : good N w -> admissible_run N xs w ->
  match run xs w with Ok (_, w') => good N w' | Fault _ => False end.
Proof.
  intros Hg Ha. destruct (run_steps xs w Hg Ha) as [Hr _]. unfold Os.wp in Hr.
  by destruct (run xs w) as [[? w']|].
Qed.

End Runs.

End ServerRuns.
