(* ===== verification/ServerLife.v ===== *)
(** The life of the server process, from the command line to the exit status:
    [main] of src/server/main.c with its start, its loop and its shutdown. *)
From S2P Require Import Prelude CBuffer Request Stm Selector Os Trace Scripted Inet Store Users Sessions Acl StoreInv.
From S2P Require Import Program Socks SocksServer Monitor Flags Proxy IdleList SocksInv SocksRules SocksClose SocksFlush.
From S2P Require Import SocksHandshake SocksAccept ProxySafe MonitorInv MonitorSafe ServerRuns.
Import Trace Store Program Socks SocksServer IdleList SocksInv SocksRules SocksClose SocksFlush.
Import SocksHandshake SocksAccept ProxySafe MonitorInv MonitorSafe ServerRuns.
Local Open Scope Z_scope.

Module ServerLife.

Section Life.
Context {E : Type} {OS : Os.Os E} {OL : Os.OsLaws E} {IN : Inet}.
Abbreviation st := (Os.st handler data program E).
Abbreviation M := (Os.M handler data program E).
Variable garbage : item.
Implicit Types (w : st) (sl : selector).

Abbreviation proxy := (Proxy.proxy garbage).

Lemma destroy_vacant k : forall i w, vacant w.(Selector.sel) -> 0 <= i ->
  i + Z.of_nat k <= Selector.fd_size w.(Selector.sel) -> Selector.destroy_items proxy k i w = Ok w.
Proof.
  induction k as [|k IH]; intros i w Hv Hi Hk; [done|]. cbn [Selector.destroy_items].
  pose proof Hv as [Hwf He].
  destruct (Selector.load_wf w.(Selector.sel) i Hwf) as (x & it & _ & _ & Hld); [lia|].
  specialize (He i). unfold Selector.entry in He. rewrite Hld in He. rewrite Hld, ok_bind.
  destruct (Selector.ITEM_USED it); [done|]. rewrite ok_bind. apply IH; [done|lia|lia].
Qed.

(** Nothing of the program is left but sessions' remains. *)
Definition released (p : program) : Prop :=
  p.(sessions) = ∅ /\ p.(clients) = ∅ /\ p.(socks) = None /\ p.(monitor) = None /\ p.(store) = None.

Definition stored (a : Acl.acl) w : Prop := exists t, (prog w).(store) = Some t /\ store_fine a t.

Lemma rule_destroy_selector w (Q : unit -> st -> Prop) : vacant w.(Selector.sel) -> Q tt w ->
  Os.wp (Proxy.destroy_selector garbage) Q w.
Proof.
  intros Hv HQ. unfold Os.wp, Proxy.destroy_selector, Selector.selector_destroy.
  pose proof Hv as [[Hs (x & Hx & _)] _]. rewrite Hx, destroy_vacant, !ok_bind; [|done|lia|lia].
  by destruct w.
Qed.

Lemma rule_store_destroy a w (Q : unit -> st -> Prop) : stored a w ->
  Q tt (Os.on_prog (fun p => p <| store := None |>) w) -> Os.wp Proxy.store_destroy Q w.
Proof.
  intros (t & Ht & Hr & _) HQ. unfold Proxy.store_destroy. apply Os.wp_bind, (wp_get_store t); [done|].
  apply Os.wp_bind, (Os.wp_lift _ _ _ _ (Acl.destroy_spec t a Hr)). by apply Os.wp_modify.
Qed.

(** ** The users of the command line *)

Lemma add_flag_user_fine a t input adm ok t' : store_fine a t ->
  Proxy.add_flag_user t input adm = Ok (ok, t') -> store_fine a t'.
Proof.
  intros Hf. unfold Proxy.add_flag_user. intros (s & _ & Hb)%bind_ok.
  destruct (Proxy.split_colon s) as [[u p]|]; [|by injection Hb as _ <-].
  destruct (decide _); [by injection Hb as _ <-|].
  destruct (Users.store_user_add t u p adm) as [r t1] eqn:Hadd. injection Hb as _ <-.
  destruct (StoreInv.users_frame t (Users.Add u p adm) (Users.AUser r) t1) as (_ & _ & F3 & F4);
    [cbn [Users.perform]; by rewrite Hadd|].
  destruct Hf as [Hr Hio]. split; [by eapply StoreInv.acl_same|]. injection F3 as _ F. lia.
Qed.

Lemma add_flag_users_fine a inputs adm : forall t ok t', store_fine a t ->
  Proxy.add_flag_users t inputs adm = Ok (ok, t') -> store_fine a t'.
Proof.
  induction inputs as [|i inputs IH]; intros t ok t' Hf; cbn [Proxy.add_flag_users]; [by intros [= _ <-]|].
  intros ([ok1 t1] & H1 & H2)%bind_ok. pose proof (add_flag_user_fine _ _ _ _ _ _ Hf H1) as Hf1.
  destruct ok1; [by eapply IH|by injection H2 as _ <-].
Qed.

Lemma add_flag_users_ok inputs adm : Forall is_Some inputs -> forall t,
  exists ok t', Proxy.add_flag_users t inputs adm = Ok (ok, t').
Proof.
  intros Hall. induction Hall as [|i inputs [s ->] Hall IH]; intros t; cbn [Proxy.add_flag_users]; [by exists true, t|].
  unfold Proxy.add_flag_user. cbn [or_fault]. rewrite ok_bind.
  destruct (Proxy.split_colon s) as [[u p]|]; [|by rewrite ok_bind; exists false, t].
  destruct (decide _); [by rewrite ok_bind; exists false, t|].
  destruct (Users.store_user_add t u p adm) as [r t1]. rewrite ok_bind. case_bool_decide; [apply IH|by exists false, t1].
Qed.

(** The store as the command line wants it. *)
Definition provisioned (users admins : list (option cstring)) (t : monitor_store) : Prop := exists t1,
  Proxy.add_flag_users initial_store users false = Ok (true, t1) /\
  Proxy.add_flag_users t1 admins true = Ok (true, t).

(** ** The start *)

Variable N : Z.
Hypothesis Hbelow : descriptors_below (E := E) N.

(** ** The two servers start *)

(** Before the first; after the proxy, which listens on [fd]; what is left of
    the trace is what is open. *)
Record blank (a : Acl.acl) w : Prop := {
  bl_vacant : vacant w.(Selector.sel);
  bl_quiet : quiet w.(Selector.sel);
  bl_size : Selector.fd_size w.(Selector.sel) = N;
  bl_unlocked : Selector.resolution_mutex w.(Selector.sel) = false;
  bl_sessions : (prog w).(sessions) = ∅;
  bl_clients : (prog w).(clients) = ∅;
  bl_monitor : (prog w).(monitor) = None;
  bl_store : stored a w;
}.
Record half (a : Acl.acl) (fd : Z) w : Prop := {
  ha_inv : inv (view (frame w.(Selector.sel)) a ∅ w) w;
  ha_size : Selector.fd_size w.(Selector.sel) = N;
  ha_unlocked : Selector.resolution_mutex w.(Selector.sel) = false;
  ha_sessions : (prog w).(sessions) = ∅;
  ha_clients : (prog w).(clients) = ∅;
  ha_monitor : (prog w).(monitor) = None;
  ha_socks : exists v, (prog w).(socks) = Some v /\ v.(listen_fd) = fd /\ 0 <= fd;
}.
Hypothesis Hsize : N <= 65536.

(** The proxy's entry in a table without others. *)
Lemma half_made a fd w w' v sl : blank a w -> 0 <= fd ->
  entries_set w.(Selector.sel) sl fd (Some (Selector.mk_item fd Selector.OP_READ (Some SocksPassive) (Some SocksServer))) ->
  w'.(Selector.sel) = sl -> prog w' = (prog w) <| socks := Some v |> ->
  v = mk_socks_server fd (port v) 0 None None -> half a fd w'.
Proof.
  intros [[Hwf Hnone] Hq Hsz Hmx Hse Hcl Hmo Hst] Hfd Hset Hsel Hp Hv. destruct Hset as [S1 S2 S3 S4].
  assert (Hent : forall k it, Selector.entry sl k = Some it ->
    k = fd /\ it = Selector.mk_item fd Selector.OP_READ (Some SocksPassive) (Some SocksServer)).
  { intros k it. rewrite S3. case_decide; [by intros [= <-]|by rewrite Hnone]. }
  assert (Hfs : Selector.fd_size sl = N /\ Selector.resolution_mutex sl = false).
  { unfold frame in S2. injection S2 as _ E1 E2 _ _. by rewrite E1, E2. }
  assert (Hs : sessions (prog w') = ∅) by by rewrite Hp.
  split; rewrite ?Hsel; try apply Hfs; [|by rewrite Hp..|by exists v; rewrite Hp, Hv].
  exists ∅. split; [split|done].
  - by rewrite Hs.
  - exists v, []. rewrite Hs, Hp. split_and!; [done| |by rewrite Hv]. rewrite Hv.
    split; [constructor|done|done|done|]. by intros [].
  - by intros l [x Hx].
  - destruct Hst as (t & Ht & Hf). exists t. by rewrite Hp.
  - rewrite Hsel. split; [done|done|by apply S4| | |done|done|split; [done|]].
    + intros k it He _. by destruct (Hent k it He) as [_ ->].
    + intros k it He. destruct (Hent k it He) as [-> ->]. unfold owner, listens. cbn. by rewrite Hp, Hv.
    + intros k Hk _. unfold listens in Hk. cbn in Hk. rewrite Hp, Hv in Hk. injection Hk as <-.
      eexists. rewrite S3. by rewrite decide_True.
  - by exists [].
  - unfold table_size. cbn. destruct Hfs as [-> _]. done.
  - done.
Qed.

Lemma socks_init_spec a wanted w : blank a w ->
  Os.wp (socks_server_init garbage wanted) (fun r w' =>
    if decide (r = Selector.SELECTOR_SUCCESS)
    then exists fd, half a fd w' /\ held (trace w') = fd :: held (trace w) /\ (prog w').(store) = (prog w).(store)
    else only_io w w' /\ held (trace w') = held (trace w)) w.
Proof.
  intros Hb. unfold socks_server_init.
  apply Os.wp_bind, Os.wp_os. intros ok e1 _. destruct ok; cbn [negb].
  2:{ apply Os.wp_ret. by rewrite decide_False. }
  apply Os.wp_bind. eapply Os.wp_mono; [apply (listen_socket_spec N Hbelow)|].
  intros [[fd bound]|] w2 [[Hsel Hprog] Htr]; [|apply Os.wp_ret; by rewrite decide_False].
  destruct Htr as [Hfd Htr]. change (Selector.sel w2 = Selector.sel w) in Hsel. change (prog w2 = prog w) in Hprog.
  change (trace w2 = Os.IoOpen fd :: trace w) in Htr.
  apply Os.wp_bind, Os.wp_bind, Os.wp_os. intros ok2 e3 _.
  destruct (bl_vacant _ _ Hb) as [Hwf Hnone]. pose proof (bl_size _ _ Hb) as Hsz.
  destruct (register_entry ok2 garbage w.(Selector.sel) fd SocksPassive Selector.OP_READ SocksServer Hwf)
    as (r & s' & Heq & Hr); [lia..|].
  eapply Os.wp_selector; [cbn; rewrite Hsel; exact Heq|]. destruct (decide (r = Selector.SELECTOR_SUCCESS)) as [->|Hne].
  - rewrite decide_False by (intros Hx; by apply Hx). destruct Hr as [_ Hset].
    apply Os.wp_bind, Os.wp_modify, Os.wp_ret. rewrite decide_True by done. exists fd.
    split; [|split; [change (held (trace w2) = fd :: held (trace w)); by rewrite Htr|by rewrite <- Hprog]].
    apply (half_made a fd w _ (mk_socks_server fd bound 0 None None) s'); try done; [lia|].
    change (((prog w2) <| socks := Some (mk_socks_server fd bound 0 None None) |>) =
      ((prog w) <| socks := Some (mk_socks_server fd bound 0 None None) |>)). by rewrite Hprog.
  - rewrite decide_True by done. subst s'. apply Os.wp_bind, Os.wp_emit, Os.wp_ret. rewrite decide_False by done.
    split; [split; [done|exact Hprog]|].
    change (drop_one fd (held (trace w2)) = held (trace w)). rewrite Htr. cbn. by rewrite decide_True.
Qed.

Lemma monitor_init_spec a fd0 wanted w : half a fd0 w ->
  Os.wp (Monitor.monitor_server_init garbage wanted) (fun r w' =>
    if decide (r = Selector.SELECTOR_SUCCESS) then good N w' /\ (prog w').(store) = (prog w).(store)
    else only_io w w' /\ held (trace w') = held (trace w)) w.
Proof.
  intros Hh. unfold Monitor.monitor_server_init.
  apply Os.wp_bind, Os.wp_os. intros ok e1 _. destruct ok; cbn [negb].
  2:{ apply Os.wp_ret. by rewrite decide_False. }
  apply Os.wp_bind. eapply Os.wp_mono; [apply (listen_socket_spec N Hbelow)|].
  intros [[fd bound]|] w2 [[Hsel Hprog] Htr]; [|apply Os.wp_ret; by rewrite decide_False].
  destruct Htr as [Hfd Htr]. change (Selector.sel w2 = Selector.sel w) in Hsel. change (prog w2 = prog w) in Hprog.
  change (trace w2 = Os.IoOpen fd :: trace w) in Htr.
  apply Os.wp_bind, Os.wp_bind, Os.wp_os. intros ok2 e3 _. pose proof (ha_inv _ _ _ Hh) as Hi.
  pose proof Hi as (B & [_ _ _ _ Ht _ _ _] & _).
  destruct (register_entry ok2 garbage w.(Selector.sel) fd MonitorPassive Selector.OP_READ MonitorServer (tb_wf _ _ _ Ht))
    as (r & s' & Heq & Hr); [rewrite (ha_size _ _ _ Hh); lia|lia|].
  eapply Os.wp_selector; [cbn; rewrite Hsel; exact Heq|]. destruct (decide (r = Selector.SELECTOR_SUCCESS)) as [->|Hne].
  - rewrite decide_False by (intros Hx; by apply Hx). destruct Hr as [Hnone Hset].
    apply Os.wp_bind, Os.wp_modify, Os.wp_ret. rewrite decide_True by done. set (w' := Os.on_prog _ _).
    assert (Hp : prog w' = (prog w) <| monitor := Some (Program.mk_monitor_server fd bound 0) |>).
    { change (((prog w2) <| monitor := Some (Program.mk_monitor_server fd bound 0) |>) =
      ((prog w) <| monitor := Some (Program.mk_monitor_server fd bound 0) |>)). by rewrite Hprog. }
    split; [|by rewrite Hp].
    set (it := Selector.mk_item fd Selector.OP_READ (Some MonitorPassive) (Some MonitorServer)) in *.
    pose proof (inv_entry (frame w.(Selector.sel)) a ∅ fd (Some it)
      (fun p => p <| monitor := Some (Program.mk_monitor_server fd bound 0) |>) s' w w' Hi Hset) as Hi'.
    assert (Hli : listener it) by done.
    pose proof (es_frame _ _ _ _ Hset) as Hfr.
    assert (Hfs : Selector.fd_size s' = N /\ Selector.resolution_mutex s' = false).
    { unfold frame in Hfr. injection Hfr as _ E1 E2 _ _. rewrite E1, E2. split; apply Hh. }
    split; [|apply Hfs|apply Hfs]. exists a, {[fd := it]}. split; [| |by exists []].
    + change (frame (Selector.sel w')) with (frame s'). rewrite Hfr. apply Hi'; try done; [by right|lia|].
      intros it' [= <-]. by right.
    + assert (Hcl : clients (prog w') = ∅) by (rewrite Hp; apply Hh). rewrite Hp in *. cbn in Hcl. split; cbn; rewrite ?Hcl.
      * done.
      * intros k jt [<- <-]%lookup_singleton_Some. by right.
      * by intros l [x Hx].
      * intros l k k' jt jt' [<- <-]%lookup_singleton_Some [<- _]%lookup_singleton_Some. done.
      * eexists. split; [done|]. split; [done|]. by intros k jt [<- <-]%lookup_singleton_Some _.
      * intros v [= <-] _. exists it. cbn. by rewrite lookup_singleton_eq.
  - rewrite decide_True by done. subst s'. apply Os.wp_bind, Os.wp_emit, Os.wp_ret. rewrite decide_False by done.
    split; [split; [done|exact Hprog]|].
    change (drop_one fd (held (trace w2)) = held (trace w)). rewrite Htr. cbn. by rewrite decide_True.
Qed.

(** ** A start that fails is undone *)

(** Nothing is registered, and the store is all there is. *)
Record bare_store (a : Acl.acl) w : Prop := {
  bs_vacant : vacant w.(Selector.sel);
  bs_store : stored a w;
  bs_rest : (prog w).(sessions) = ∅ /\ (prog w).(clients) = ∅ /\ (prog w).(socks) = None /\ (prog w).(monitor) = None;
}.

Lemma rule_abandon a w : bare_store a w ->
  Os.wp (Proxy.abandon garbage) (fun r w' => r = false /\ released (prog w') /\ trace w' = trace w) w.
Proof.
  intros [Hv Hs (R1 & R2 & R3 & R4)]. apply Os.wp_bind, (rule_store_destroy a); [done|].
  apply Os.wp_bind, rule_destroy_selector; [exact Hv|]. by apply Os.wp_ret.
Qed.

Lemma half_entries a fd w : half a fd w -> forall k it, Selector.entry w.(Selector.sel) k = Some it -> k = fd.
Proof.
  intros [Hi _ _ Hse _ _ (v & Hv & Hl & H0)] k it He.
  pose proof Hi as (B & [W1 _ _ _ Ht _ _ _] & _). rewrite Hse in W1. subst B.
  pose proof (tb_owner _ _ _ Ht k it He) as Ho. unfold owner, listens in Ho. cbn in Ho. rewrite Hv in Ho.
  destruct (Selector.handler it) as [[]|], (Selector.data it) as [[]|]; try done.
  - by destruct Ho as (s & Hs & _).
  - by destruct Ho as (s & Hs & _).
  - cbn in Ho. congruence.
Qed.

Lemma rule_destroy_half a fd w : half a fd w ->
  Os.wp (socks_server_destroy proxy) (fun _ w' => bare_store a w' /\
    held (trace w') = drop_one fd (held (trace w))) w.
Proof.
  intros Hh. pose proof (half_entries a fd w Hh) as Hent.
  pose proof Hh as [Hi Hsz _ Hse Hcl Hmo (v & Hv & Hl & H0)].
  pose proof Hi as (B & [_ _ _ (t & Ht & Hf) Htb _ _ _] & _). pose proof (tb_wf _ _ _ Htb) as Hwf.
  assert (Hlis : listens (view (frame (Selector.sel w)) a ∅ w) fd) by (unfold listens; cbn; by rewrite Hv, <- Hl).
  destruct (sd_listen _ _ (tb_standing _ _ _ Htb) fd Hlis H0) as (it & He & Hha & Hd).
  destruct (Selector.entry_used _ _ _ Hwf He) as (_ & _ & _ & _ & Hr).
  unfold socks_server_destroy, socks_server_stop_accepting.
  apply Os.wp_bind, Os.wp_bind, (wp_get_socks v); [done|]. rewrite Hl, decide_False by lia.
  apply Os.wp_bind. eapply (wp_unregister proxy fd it SocksPassive); [done|lia|done|done|done|].
  intros sl1 Hset1. rewrite Hd. unfold socks_passive_close. cbn [Selector.key_fd].
  apply Os.wp_bind, (wp_upd_socks _ v); [exact Hv|]. rewrite decide_True by lia. apply Os.wp_emit.
  split; [apply Hset1|]. split; [apply Hset1|]. intros sl3 Hset3.
  pose proof (entries_set_two _ _ _ _ _ _ Hset1 Hset3) as Hset.
  apply (wp_upd_socks _ (v <| listen_fd := -1 |>)); [done|].
  apply Os.wp_bind. eapply wp_get_socks; [done|]. apply Os.wp_modify. split; [|done].
  split; [|by exists t|by rewrite <- Hcl, <- Hse, <- Hmo].
  split; [apply Hset|]. intros k. change (Selector.entry sl3 k = None). rewrite (es_entry _ _ _ _ Hset).
  case_decide as Hk; [done|]. destruct (Selector.entry (Selector.sel w) k) as [jt|] eqn:Hj; [|done].
  by destruct Hk; eapply Hent.
Qed.

Lemma rule_set_store a t w (Q : unit -> st -> Prop) : stored a w -> store_fine a t ->
  (forall w', Selector.sel w' = Selector.sel w -> prog w' = (prog w) <| store := Some t |> -> trace w' = trace w -> Q tt w') ->
  Os.wp (set_store t) Q w.
Proof. intros (t0 & Ht0 & _) Ht HQ. apply (wp_set_store t0); [done|]. by apply HQ. Qed.

Definition started (users admins : list (option cstring)) (ok : bool) w : Prop :=
  if ok then good N w /\ exists t, (prog w).(store) = Some t /\ provisioned users admins t
  else released (prog w) /\ held (trace w) = [].

Record fresh_process w : Prop := {
  fp_vacant : vacant w.(Selector.sel);
  fp_quiet : quiet w.(Selector.sel);
  fp_size : Selector.fd_size w.(Selector.sel) = N;
  fp_unlocked : Selector.resolution_mutex w.(Selector.sel) = false;
  fp_prog : prog w = Proxy.no_program;
  fp_trace : trace w = [];
}.

Lemma initial_fine : store_fine (Acl.mk_acl [] []) initial_store.
Proof. split; [apply Acl.initial_rep|done]. Qed.

(** The servers start, the store being there. *)
Lemma rule_start_servers a socks_port monitor_port w : blank a w -> held (trace w) = [] -> (prog w).(socks) = None ->
  Os.wp (status ← SocksServer.socks_server_init garbage socks_port;
    if decide (status <> Selector.SELECTOR_SUCCESS) then Proxy.abandon garbage else
    status ← Monitor.monitor_server_init garbage monitor_port;
    if decide (status <> Selector.SELECTOR_SUCCESS) then
      SocksServer.socks_server_destroy proxy ;; Proxy.abandon garbage
    else mret true) (fun ok w' => if ok : bool then good N w' /\ (prog w').(store) = (prog w).(store)
      else released (prog w') /\ held (trace w') = []) w.
Proof.
  intros Hb Htr Hso. apply Os.wp_bind. eapply Os.wp_mono; [by apply (socks_init_spec a)|].
  intros r w1 H1. cbn beta in H1. destruct (decide (r = Selector.SELECTOR_SUCCESS)) as [->|Hne].
  2:{ rewrite decide_True by done. destruct H1 as [[Hs1 Hp1] Ht1]. change (prog w1 = prog w) in Hp1.
      eapply Os.wp_mono; [apply (rule_abandon a)|intros r1 w2 H2; cbn beta in H2; destruct H2 as (-> & H2 & ->); split; [done|congruence]].
      pose proof Hb as [B1 B2 B3 B4 B5 B6 B7 B8]. split; [by rewrite Hs1|by unfold stored; rewrite Hp1|by rewrite Hp1]. }
  rewrite decide_False by (intros Hx; by apply Hx). destruct H1 as (fd & Hh & Ht1 & Hs1).
  apply Os.wp_bind. eapply Os.wp_mono; [by apply (monitor_init_spec a fd)|].
  intros r w2 H2. cbn beta in H2. destruct (decide (r = Selector.SELECTOR_SUCCESS)) as [->|Hne].
  - rewrite decide_False by (intros Hx; by apply Hx). apply Os.wp_ret. split; [apply H2|]. rewrite <- Hs1. apply H2.
  - rewrite decide_True by done. destruct H2 as [[Hs2 Hp2] Ht2]. change (prog w2 = prog w1) in Hp2.
    assert (Hh2 : half a fd w2).
    { destruct Hh as [Hi A1 A2 A3 A4 A5 A6].
      assert (Hi2 : inv (view (frame (Selector.sel w2)) a ∅ w2) w2); [|split; [exact Hi2|rewrite ?Hs2, ?Hp2; done..]].
      rewrite Hs2. apply (inv_shift (view (frame (Selector.sel w1)) a ∅ w1) _ w1); rewrite ?Hs2, ?Hp2; try done.
      - intros v Hv. by exists v.
      - destruct Hi as (B & [_ _ _ Hst _ _ _ _] & _). exact Hst.
      - destruct Hi as (B & [W1 _ _ _ W5 _ _ _] & _). rewrite W1.
        apply (tables_same_frame (view (frame (Selector.sel w1)) a ∅ w1)); [done|done| |done].
        cbn. by rewrite Hp2.
      - cbn. by rewrite Hp2. }
    apply Os.wp_bind. eapply Os.wp_mono; [by apply (rule_destroy_half a fd)|]. intros ? w3 [Hb3 Ht3].
    eapply Os.wp_mono; [by apply (rule_abandon a)|]. intros r1 w4 H4. cbn beta in H4; destruct H4 as (-> & H4 & ->). split; [done|].
    rewrite Ht3, Ht2, Ht1, Htr. cbn. by rewrite decide_True.
Qed.

(** The start of the process. *)
Lemma start_servers_spec users admins socks_port monitor_port w :
  Forall is_Some users -> Forall is_Some admins -> fresh_process w ->
  Os.wp (Proxy.start_servers garbage users admins socks_port monitor_port) (started users admins) w.
Proof.
  intros Hu Ha [F1 F2 F3 F4 F5 F6]. unfold Proxy.start_servers.
  apply Os.wp_bind, Os.wp_os. intros ok e1 _. apply Os.wp_bind, Os.wp_os. intros ok2 e2 _.
  unfold store_create. set (w0 := Os.on_env e2 (Os.on_env e1 w)).
  assert (Hnone : Os.wp (Proxy.destroy_selector garbage ;; mret false : M bool) (started users admins) w0).
  { apply Os.wp_bind, rule_destroy_selector; [exact F1|]. apply Os.wp_ret.
    change (released (prog w) /\ held (trace w) = []). rewrite F5, F6. done. }
  destruct ok; [|exact Hnone]. destruct ok2; [|exact Hnone]. clear Hnone.
  apply Os.wp_bind, Os.wp_modify. set (w1 := Os.on_prog _ w0).
  pose proof (conj F1 (conj F2 (conj F3 F4))) as Hsel.
  assert (Hw1 : Selector.sel w1 = Selector.sel w /\ prog w1 = Proxy.no_program <| store := Some initial_store |> /\ trace w1 = []).
  { split; [done|]. split; [|exact F6]. change (prog w1) with ((prog w) <| store := Some initial_store |>). by rewrite F5. }
  clearbody w1. clear w0 F1 F2 F3 F4 F5 F6. destruct Hw1 as (S1 & P1 & T1).
  assert (Hblank : forall w' t, Selector.sel w' = Selector.sel w -> prog w' = Proxy.no_program <| store := Some t |> ->
    store_fine (Acl.mk_acl [] []) t -> trace w' = [] ->
    blank (Acl.mk_acl [] []) w' /\ bare_store (Acl.mk_acl [] []) w' /\ held (trace w') = [] /\ (prog w').(socks) = None).
  { intros w' t S P Hf T. destruct Hsel as (F1 & F2 & F3 & F4).
    split_and!; [split|split| |]; rewrite ?S, ?P, ?T; try done; exists t; by rewrite P. }
  assert (Hab : forall w' t, Selector.sel w' = Selector.sel w -> prog w' = Proxy.no_program <| store := Some t |> ->
    store_fine (Acl.mk_acl [] []) t -> trace w' = [] -> Os.wp (Proxy.abandon garbage) (started users admins) w').
  { intros w' t S P Hf T. destruct (Hblank w' t S P Hf T) as (_ & Hb & Hh & _).
    eapply Os.wp_mono; [by apply (rule_abandon (Acl.mk_acl [] []))|]. intros r w2 H2. cbn beta in H2; destruct H2 as (-> & H2 & Ht). split; [done|by rewrite Ht]. }
  destruct (add_flag_users_ok users false Hu initial_store) as (b1 & t1 & A1).
  pose proof (add_flag_users_fine _ _ _ _ _ _ initial_fine A1) as Hf1.
  apply Os.wp_bind, (Os.wp_lift _ _ _ _ A1).
  apply Os.wp_bind, (rule_set_store (Acl.mk_acl [] [])); [exists initial_store; rewrite P1; split; [done|apply initial_fine]|done|].
  intros w2 S2 P2 T2. rewrite P1 in P2. change (prog w2 = Proxy.no_program <| store := Some t1 |>) in P2.
  destruct b1; cbn [negb]; [|by apply (Hab w2 t1); [congruence|..|congruence]].
  destruct (add_flag_users_ok admins true Ha t1) as (b2 & t2 & A2).
  pose proof (add_flag_users_fine _ _ _ _ _ _ Hf1 A2) as Hf2.
  apply Os.wp_bind, (Os.wp_lift _ _ _ _ A2).
  apply Os.wp_bind, (rule_set_store (Acl.mk_acl [] [])); [exists t1; rewrite P2; by split|done|].
  intros w3 S3 P3 T3. rewrite P2 in P3. change (prog w3 = Proxy.no_program <| store := Some t2 |>) in P3.
  destruct b2; cbn [negb]; [|by apply (Hab w3 t2); [congruence|..|congruence]].
  destruct (Hblank w3 t2) as (B3 & _ & H3 & So3); [congruence|done|done|congruence|].
  eapply Os.wp_mono; [by apply (rule_start_servers (Acl.mk_acl [] []))|].
  intros ok w4 H4. destruct ok; [|exact H4]. split; [apply H4|]. destruct H4 as [_ H4]. exists t2.
  split; [by rewrite H4, P3|]. by exists t1.
Qed.

Lemma start_good users admins socks_port monitor_port w :
  Forall is_Some users -> Forall is_Some admins -> fresh_process w ->
  match Proxy.start_servers garbage users admins socks_port monitor_port w with
  | Ok (true, w') => good N w'
  | Ok (false, _) => True
  | Fault _ => False
  end.
Proof.
  intros Hu Ha Hf. pose proof (start_servers_spec users admins socks_port monitor_port w Hu Ha Hf) as Hs.
  unfold Os.wp in Hs. destruct (Proxy.start_servers _ _ _ _ _ _) as [[[] w']|]; [apply Hs|done..].
Qed.

(** ** The loop *)

(** Neither server listens or has a connection. *)
Definition idleb (p : program) : bool :=
  match p.(socks), p.(monitor) with
  | Some v, Some u => (bool_decide (v.(listen_fd) < 0) && bool_decide (v.(active_sessions) = 0)) &&
      (bool_decide (u.(m_listen_fd) < 0) && bool_decide (u.(m_active_sessions) = 0))
  | _, _ => false
  end.

Lemma good_servers w : good N w -> exists v u, (prog w).(socks) = Some v /\ (prog w).(monitor) = Some u.
Proof.
  intros [(a & m & Hw) _ _]. pose proof (aw_inv _ _ _ _ _ Hw) as (B & [_ (v & L & Hv & _) _ _ _ _ _ _] & _).
  destruct (mo_server _ _ (aw_monitor _ _ _ _ _ Hw)) as (u & Hu & _). by exists v, u.
Qed.

Lemma is_empty_run w : good N w -> (Proxy.servers_is_empty : M bool) w = Ok (idleb (prog w), w).
Proof.
  intros Hg. destruct (good_servers w Hg) as (v & u & Hv & Hu). unfold idleb. rewrite Hv, Hu.
  assert (Hwp : Os.wp Proxy.servers_is_empty (fun b w' => b = (bool_decide (v.(listen_fd) < 0) && bool_decide (v.(active_sessions) = 0)) &&
      (bool_decide (u.(m_listen_fd) < 0) && bool_decide (u.(m_active_sessions) = 0)) /\ w' = w) w).
  { unfold Proxy.servers_is_empty. apply Os.wp_bind, Os.wp_bind, (wp_get_socks v); [done|]. apply Os.wp_ret.
    destruct (bool_decide _ && bool_decide _); [|by apply Os.wp_ret].
    apply Os.wp_bind, (wp_get_monitor u); [done|]. by apply Os.wp_ret. }
  apply Os.wp_ok in Hwp as (b & w' & -> & -> & ->). done.
Qed.

(** What a turn does, after it was asked to stop or not. *)
Definition fails (t : Proxy.turn) : bool :=
  match t.(Proxy.ready) with
  | Selector.WaitEBADF | Selector.WaitError => negb t.(Proxy.interrupted)
  | _ => false
  end.
Definition asked (t : Proxy.turn) w : st :=
  if t.(Proxy.shutdown_requested) then Os.on_prog (fun p => p <| stop := true |>) w else w.
Definition turn_acts (t : Proxy.turn) (stopping : bool) : list act :=
  (if stopping then [Stop] else []) ++ (Resolve <$> t.(Proxy.finished)) ++ Select t.(Proxy.ready) ++
  (if fails t then [] else [Expire]).

Lemma run_threads ids w : run garbage (Resolve <$> ids) w = Proxy.finish_threads ids w.
Proof.
  revert w. induction ids as [|i ids IH]; intros w; [done|]. cbn [fmap list_fmap run perform Proxy.finish_threads].
  unfold mbind, Os.M_bind. destruct (Proxy.finish_thread i w) as [[[] w1]|]; [apply IH|done].
Qed.

Lemma expire_last w : (socks_server_expire_idle proxy ;; mret true) w =
  '(_, w') ← run garbage [Expire] w; Ok (true, w').
Proof.
  cbn [run perform]. unfold mbind, Os.M_bind, res_bind.
  by destruct (socks_server_expire_idle proxy w) as [[[] w']|].
Qed.

Lemma turn_run t w : good N w -> Proxy.main_turn garbage t w =
  if idleb (prog w) then Ok (false, w) else
  '(_, w') ← run garbage (turn_acts t (prog (asked t w)).(stop)) (asked t w); Ok (negb (fails t), w').
Proof.
  intros Hg. unfold Proxy.main_turn. unfold mbind at 1, Os.M_bind at 1. rewrite is_empty_run by done.
  destruct (idleb (prog w)); [done|]. unfold turn_acts. rewrite run_app.
  assert (Hask : (if Proxy.shutdown_requested t then Os.modify (fun p => p <| stop := true |>) else mret tt) w =
    Ok (tt, asked t w)) by (unfold asked; by destruct (Proxy.shutdown_requested t)).
  unfold mbind at 1, Os.M_bind at 1. rewrite Hask. generalize (asked t w). intros w1.
  unfold mbind at 1, Os.M_bind at 1. change (Os.gets stop w1) with (@Ok (bool * st) (stop (prog w1), w1)). cbn iota.
  assert (Hstop : (if stop (prog w1) then socks_server_stop_accepting proxy ;; Monitor.monitor_server_stop_accepting proxy
    else mret tt) w1 = run garbage (if stop (prog w1) then [Stop] else []) w1).
  { destruct (stop (prog w1)); [|done]. cbn [run perform]. unfold mbind, Os.M_bind.
    destruct (socks_server_stop_accepting proxy w1) as [[[] w2]|]; [|done].
    by destruct (Monitor.monitor_server_stop_accepting proxy w2) as [[[] w3]|]. }
  unfold mbind at 1, Os.M_bind at 1. rewrite Hstop.
  destruct (run garbage (if stop (prog w1) then [Stop] else []) w1) as [[[] w2]|]; [|done].
  rewrite run_app, run_threads. unfold mbind at 1, Os.M_bind at 1.
  destruct (Proxy.finish_threads (Proxy.finished t) w2) as [[[] w3]|]; [|done].
  rewrite run_app, <- run_select. unfold mbind, Os.M_bind, fails. unfold Selector.selector_select.
  destruct (Proxy.ready t) as [evs| | |].
  - destruct (Selector.handle_iteration proxy evs w3) as [w4|]; [|done]. cbn.
    destruct (Selector.handle_block_notifications proxy w4) as [w5|]; [|done]. cbn.
    rewrite decide_False by (intros [Hx _]; by apply Hx). apply expire_last.
  - cbn. destruct (Selector.handle_block_notifications proxy w3) as [w5|]; [|done]. cbn.
    rewrite decide_False by (intros [Hx _]; by apply Hx). apply expire_last.
  - destruct (Proxy.interrupted t); cbn; [|done]. rewrite decide_False by (by intros []). apply expire_last.
  - destruct (Proxy.interrupted t); cbn; [|done]. rewrite decide_False by (by intros []). apply expire_last.
Qed.

Hypothesis Hrefusals : refusals_get_through (E := E).

(** What the loop's turns rely on: [epoll_wait] fails only when interrupted,
    and what happens in a turn is admissible. *)
Definition turn_fits (t : Proxy.turn) w : Prop := idleb (prog w) = false ->
  fails t = false /\ admissible_run garbage N (turn_acts t (prog (asked t w)).(stop)) (asked t w).
Fixpoint turns_fit (ts : list Proxy.turn) w : Prop :=
  match ts with
  | [] => True
  | t :: ts => turn_fits t w /\ forall w', Proxy.main_turn garbage t w = Ok (true, w') -> turns_fit ts w'
  end.

Fixpoint turns_fitb (ts : list Proxy.turn) w : bool :=
  match ts with
  | [] => true
  | t :: ts =>
    (idleb (prog w) || (negb (fails t) &&
      admissible_runb garbage N (turn_acts t (prog (asked t w)).(stop)) (asked t w))) &&
    match Proxy.main_turn garbage t w with Ok (true, w') => turns_fitb ts w' | _ => true end
  end.

Lemma turns_fitb_ok ts : forall w, turns_fitb ts w = true -> turns_fit ts w.
Proof.
  induction ts as [|t ts IH]; intros w; [done|]. cbn [turns_fitb turns_fit]. intros [Ht Hts]%andb_true_iff. split.
  - intros Hi. rewrite Hi in Ht. apply andb_true_iff in Ht as [Hf%negb_true_iff Ha]. split; [done|].
    by apply admissible_runb_ok.
  - intros w' Hw'. rewrite Hw' in Hts. by apply IH.
Qed.

Lemma asked_good t w : good N w -> good N (asked t w).
Proof.
  intros Hg. unfold asked. destruct (Proxy.shutdown_requested t); [|done].
  destruct Hg as [(a & m & Hw) H1 H2]. split; [|done|done]. exists a, m.
  apply (at_work_prog _ _ a); [done..|exact (at_work_store _ _ a m w Hw)|].
  by destruct (aw_monitor _ _ _ _ _ Hw); split.
Qed.

Lemma turn_spec t w : good N w -> turn_fits t w ->
  Os.wp (Proxy.main_turn garbage t) (fun go w' => good N w' /\ (go = false -> idleb (prog w') = true)) w.
Proof.
  intros Hg Hf. unfold Os.wp. rewrite turn_run by done. destruct (idleb (prog w)) eqn:Hi; [done|].
  destruct (Hf Hi) as [Hok Hadm].
  destruct (run_steps garbage N Hrefusals Hbelow _ _ (asked_good t w Hg) Hadm) as [Hrun _].
  apply Os.wp_ok in Hrun as ([] & w' & -> & Hg'). cbn. by rewrite Hok.
Qed.

Lemma loop_spec ts : forall w, good N w -> turns_fit ts w ->
  Os.wp (Proxy.main_loop garbage ts) (fun left w' => good N w' /\ (left = true -> idleb (prog w') = true)) w.
Proof.
  induction ts as [|t ts IH]; intros w Hg Hf; cbn [Proxy.main_loop turns_fit] in *.
  { unfold Os.wp. by rewrite is_empty_run. }
  destruct Hf as [Ht Hts]. pose proof (turn_spec t w Hg Ht) as Hwp. apply Os.wp_ok in Hwp as (go & w1 & H1 & Hg1 & Hgo).
  apply Os.wp_bind, Os.wp_ok. exists go, w1. split; [done|]. destruct go; [apply IH; auto|].
  apply Os.wp_ret. split; auto.
Qed.

(** ** The exit *)

Lemma idle_process w : good N w -> idleb (prog w) = true -> exists v u,
  (prog w).(socks) = Some v /\ (prog w).(monitor) = Some u /\ v.(listen_fd) < 0 /\ u.(m_listen_fd) < 0 /\
  (prog w).(sessions) = ∅ /\ (prog w).(clients) = ∅ /\ vacant w.(Selector.sel) /\
  exists a, stored a w.
Proof.
  intros Hg Hi. destruct (good_servers w Hg) as (v & u & Hv & Hu). destruct Hg as [(a & m & Hw) HN _].
  unfold idleb in Hi. rewrite Hv, Hu in Hi.
  apply andb_true_iff in Hi as [[Hl%bool_decide_eq_true Hn%bool_decide_eq_true]%andb_true_iff
    [Hml%bool_decide_eq_true Hmn%bool_decide_eq_true]%andb_true_iff].
  pose proof (aw_inv _ _ _ _ _ Hw) as (B & [W1 (v' & L & V1 & V2 & V3) _ W4 W5 _ _ _] & _).
  replace v' with v in * by congruence.
  assert (HB : B = ∅) by (apply map_size_empty_iff; lia). subst B.
  destruct (mo_server _ _ (aw_monitor _ _ _ _ _ Hw)) as (u' & U1 & U2 & U3). replace u' with u in * by congruence.
  assert (Hc : (prog w).(clients) = ∅) by (apply map_size_empty_iff; lia).
  exists v, u. split_and!; try done.
  - apply map_eq. intros l. rewrite lookup_empty. destruct (sessions (prog w) !! l) as [s|] eqn:Hs; [|done].
    apply lookup_bare in Hs. by rewrite HB in Hs.
  - split; [exact (tb_wf _ _ _ W5)|].
    intros k. destruct (Selector.entry w.(Selector.sel) k) as [it|] eqn:He; [exfalso|done].
    destruct (Selector.entry_used _ _ _ (tb_wf _ _ _ W5) He) as (_ & _ & _ & _ & Hr).
    pose proof (tb_owner _ _ _ W5 k it He) as Ho. unfold owner in Ho.
    assert (Hmon : m !! k = Some it -> False).
    { intros Hm. destruct (mo_entry _ _ (aw_monitor _ _ _ _ _ Hw) k it Hm) as [(l & _ & x & Hx)|Hli].
      - by rewrite Hc in Hx.
      - rewrite (U3 k it Hm Hli) in Hml. lia. }
    destruct (Selector.handler it) as [[]|], (Selector.data it) as [[]|]; try done; try (by apply Hmon).
    + destruct Ho as (s & Hs & _). by rewrite HB in Hs.
    + destruct Ho as (s & Hs & _). by rewrite HB in Hs.
    + unfold listens in Ho. cbn in Ho. rewrite Hv in Ho. cbn in Ho. injection Ho as Ho. lia.
  - exists a. exact W4.
Qed.

Lemma exit_spec w : good N w -> idleb (prog w) = true ->
  Os.wp (Proxy.main_exit garbage) (fun _ w' => released (prog w') /\ trace w' = trace w) w.
Proof.
  intros Hg Hi. destruct (idle_process w Hg Hi) as (v & u & Hv & Hu & Hl & Hm & Hs & Hc & Hvac & a & Hst).
  unfold Proxy.main_exit, Monitor.monitor_server_destroy, Monitor.monitor_server_stop_accepting.
  apply Os.wp_bind, Os.wp_bind, Os.wp_bind, (wp_get_monitor u); [done|]. rewrite decide_True by lia. apply Os.wp_ret.
  apply Os.wp_bind, (wp_get_monitor u); [done|]. apply Os.wp_modify.
  unfold socks_server_destroy, socks_server_stop_accepting.
  apply Os.wp_bind, Os.wp_bind, Os.wp_bind, (wp_get_socks v); [done|]. rewrite decide_True by lia. apply Os.wp_ret.
  apply Os.wp_bind, (wp_get_socks v); [done|]. apply Os.wp_modify.
  apply Os.wp_bind, (rule_store_destroy a); [exact Hst|].
  apply rule_destroy_selector; [exact Hvac|]. done.
Qed.

(** Every option's arguments were kept, and the turns after the start fit. *)
Definition options_fit opts ts w : Prop := forall socks_port monitor_port f,
  Proxy.read_command_line opts = Proxy.Serve socks_port monitor_port f ->
  (Forall is_Some (Proxy.flag_args f "u"%byte) /\ Forall is_Some (Proxy.flag_args f "a"%byte)) /\
  forall w', Proxy.start_servers garbage (Proxy.flag_args f "u"%byte) (Proxy.flag_args f "a"%byte)
    socks_port monitor_port w = Ok (true, w') -> turns_fit ts w'.

Definition options_fitb opts ts w : bool :=
  match Proxy.read_command_line opts with
  | Proxy.Serve socks_port monitor_port f =>
    let us := Proxy.flag_args f "u"%byte in
    let admins := Proxy.flag_args f "a"%byte in
    bool_decide (Forall is_Some us /\ Forall is_Some admins) &&
    match Proxy.start_servers garbage us admins socks_port monitor_port w with
    | Ok (true, w') => turns_fitb ts w'
    | _ => true
    end
  | _ => true
  end.

Lemma options_fitb_ok opts ts w : options_fitb opts ts w = true -> options_fit opts ts w.
Proof.
  unfold options_fitb. intros Hb p q f Hf. rewrite Hf in Hb. apply andb_true_iff in Hb as [Ha%bool_decide_eq_true Hb].
  split; [exact Ha|]. intros w' Hw'. rewrite Hw' in Hb. by apply turns_fitb_ok.
Qed.

Lemma main_spec opts ts w : fresh_process w -> options_fit opts ts w ->
  Os.wp (Proxy.main garbage opts ts) (fun status w' =>
    match status with Some _ => released (prog w') | None => good N w' end) w.
Proof.
  intros Hw Hfit. unfold Proxy.main.
  assert (Hrel : released (prog w)) by (rewrite (fp_prog _ Hw); done).
  destruct (Proxy.read_command_line opts) as [| |socks_port monitor_port f] eqn:Hcl; [by apply Os.wp_ret..|].
  destruct (Hfit _ _ _ Hcl) as [[Hu Ha] Hturns].
  pose proof (start_servers_spec (Proxy.flag_args f "u"%byte) (Proxy.flag_args f "a"%byte) socks_port monitor_port w Hu Ha Hw) as Hstart.
  apply Os.wp_ok in Hstart as (ok & w1 & H1 & Hs1). apply Os.wp_bind, Os.wp_ok. exists ok, w1. split; [done|].
  destruct ok; [|apply Os.wp_ret; apply Hs1]. destruct Hs1 as [Hg1 _].
  apply Os.wp_bind. eapply Os.wp_mono; [apply (loop_spec ts w1 Hg1); by apply Hturns|].
  intros left w2 H2. destruct H2 as [Hg2 Hl]. destruct left; [|by apply Os.wp_ret].
  apply Os.wp_bind. eapply Os.wp_mono; [apply (exit_spec w2 Hg2); by apply Hl|]. intros ? w3 [H3 _]. by apply Os.wp_ret.
Qed.

End Life.

End ServerLife.
