(* ===== verification/ServerEnd.v ===== *)
(** How the server's loop ends: once both servers are deaf and the last
    connection is gone nothing brings it back to work. *)
From S2P Require Import Prelude CBuffer Request Stm Selector Os Inet Store Acl.
From S2P Require Import Program Socks SocksServer Monitor Proxy IdleList SocksInv SocksRules SocksHandshake SocksAccept ProxySafe.
From S2P Require Import MonitorInv MonitorSafe ServerRuns ServerLife.
Import Store Program Socks SocksServer IdleList SocksInv SocksRules SocksHandshake SocksAccept ProxySafe MonitorInv MonitorSafe.
Import ServerRuns ServerLife.
Local Open Scope Z_scope.

Module ServerEnd.

Section End_.
Context {E : Type} {OS : Os.Os E} {OL : Os.OsLaws E} {IN : Inet}.
Abbreviation st := (Os.st handler data program E).
Variables (garbage : item) (N : Z).
Hypothesis Hrefusals : refusals_get_through (E := E).
Hypothesis Hbelow : descriptors_below (E := E) N.
Implicit Types (w : st).

Abbreviation proxy := (Proxy.proxy garbage).

(** With no session and no connection, servers that do not listen are idle. *)
Lemma deaf_idle w : good N w -> deaf w -> connected w = (∅, ∅) -> idleb (prog w) = true.
Proof.
  intros [(a & m & Hw) _ _] (v & u & Hv & Hvl & Hu & Hul) Hc. injection Hc as Hs Hc.
  pose proof (aw_inv _ _ _ _ _ Hw) as (B & [W1 (v' & L & V1 & _ & V3) _ _ _ _ _ _] & _).
  destruct (mo_server _ _ (aw_monitor _ _ _ _ _ Hw)) as (u' & U1 & U2 & _).
  replace v' with v in * by congruence. replace u' with u in * by congruence.
  assert (HB : B = ∅) by (by rewrite <- W1, Hs).
  unfold idleb. rewrite Hv, Hu, V3, U2, HB, Hc, !bool_decide_true; [done|..]; (done || lia).
Qed.

Lemma idle_connected w : good N w -> idleb (prog w) = true -> connected w = (∅, ∅) /\ deaf w.
Proof.
  intros Hg Hi. destruct (idle_process N w Hg Hi) as (v & u & Hv & Hu & Hl & Hm & Hs & Hc & _).
  unfold connected. rewrite Hs, Hc. split; [done|]. by exists v, u.
Qed.

(** ** Nothing happens to idle servers *)

Lemma idle_event ev fd w w' : good N w -> idleb (prog w) = true ->
  Selector.handle_event proxy ev fd w = Ok w' -> prog w' = prog w.
Proof.
  intros Hg Hi. destruct (idle_process N w Hg Hi) as (_ & _ & _ & _ & _ & _ & _ & _ & [_ Hnone] & _).
  unfold Selector.handle_event. case_decide; [by intros [= <-]|]. intros (it & Hld & Hr)%bind_ok.
  specialize (Hnone fd). unfold Selector.entry in Hnone. rewrite Hld in Hnone.
  destruct (Selector.ITEM_USED it); [done|]. by injection Hr as <-.
Qed.

Lemma idle_notified w w' : jobs_fit w -> (prog w).(sessions) = ∅ ->
  Selector.handle_block_notifications proxy w = Ok w' -> prog w' = prog w.
Proof.
  intros [_ Hall] Hs. unfold Selector.handle_block_notifications, Selector.lock.
  destruct (Selector.resolution_mutex _); [done|]. rewrite ok_bind.
  change (Selector.resolution_jobs (_ <| Selector.resolution_mutex := true |>)) with
    (Selector.resolution_jobs (Selector.sel w)).
  destruct (Selector.resolution_jobs (Selector.sel w)) as [|j js].
  - by intros [= <-].
  - apply Forall_cons in Hall as [(l & s & Hl & _) _]. by rewrite Hs in Hl.
Qed.

Lemma idle_expire w : good N w -> (prog w).(sessions) = ∅ ->
  Os.wp (socks_server_expire_idle proxy) (fun _ w' => prog w' = prog w) w.
Proof.
  intros [(a & m & Hw) _ _] Hs.
  pose proof (aw_inv _ _ _ _ _ Hw) as (B & [W1 (v & L & V1 & V2 & _) _ (t & Ht & _) _ _ _ _] & _).
  assert (HL : L = []).
  { destruct L as [|l L]; [done|]. destruct (idle_links _ _ _ V2 [] l L eq_refl) as (s & Hl & _).
    apply lookup_bare in Hl. by rewrite Hs in Hl. }
  unfold socks_server_expire_idle. apply Os.wp_bind, (wp_get_store t); [done|].
  case_decide; [by apply Os.wp_ret|]. apply Os.wp_bind, Os.wp_os. intros now e _.
  apply Os.wp_bind, Os.wp_gets. change (sessions (Os.prog _)) with (prog w).(sessions). rewrite Hs. cbn [map_size].
  change (size (∅ : gmap loc socks_session)) with 0%nat. cbn [expire_loop].
  apply Os.wp_bind, (wp_get_socks v); [done|]. rewrite (idle_first _ _ _ V2), HL. by apply Os.wp_ret.
Qed.

Lemma idle_act x w w' : good N w -> idleb (prog w) = true -> admissible N x w ->
  perform garbage x w = Ok (tt, w') -> idleb (prog w') = true.
Proof.
  intros Hg Hi Hx Hw'. destruct (idle_connected w Hg Hi) as [Hc Hd]. injection Hc as Hs Hc.
  destruct x as [ev fd| |i| |]; cbn [perform] in Hw'.
  - apply bind_ok in Hw' as (w1 & H1 & [= <-]). by rewrite (idle_event ev fd w w1).
  - apply bind_ok in Hw' as (w1 & H1 & [= <-]). by rewrite (idle_notified w w1).
  - unfold Proxy.finish_thread, mbind, Os.M_bind in Hw'. cbn in Hw'. cbn [admissible] in Hx.
    change (threads (Os.prog _)) with (prog w).(threads) in Hw'.
    destruct ((prog w).(threads) !! i) as [ctx|]; [|by injection Hw' as <-].
    destruct (Hx ctx eq_refl) as [s Hl]. by rewrite Hs in Hl.
  - pose proof (idle_expire w Hg Hs) as Hwp. apply Os.wp_ok in Hwp as ([] & w1 & H1 & Hp).
    replace w1 with w' in Hp by congruence. by rewrite Hp.
  - pose proof (stop_spec garbage N w Hg) as Hstop. apply Os.wp_ok in Hstop as ([] & w1 & H1 & _ & Hc1 & Hd1).
    pose proof (act_step garbage N Hrefusals Hbelow Stop w Hg I) as Hst.
    apply Os.wp_ok in Hst as ([] & w2 & H2 & Hg2 & _). replace w2 with w1 in Hg2 by congruence.
    replace w' with w1 by (cbn [perform] in H1; congruence). apply deaf_idle; [done..|]. by rewrite Hc1; unfold connected; rewrite Hs, Hc.
Qed.

Lemma idle_run xs : forall w, good N w -> idleb (prog w) = true -> admissible_run garbage N xs w ->
  Os.wp (run garbage xs) (fun _ w' => good N w' /\ idleb (prog w') = true) w.
Proof.
  induction xs as [|x xs IH]; intros w Hg Hi Ha; cbn [run]; [by apply Os.wp_ret|]. destruct Ha as [Hx Hxs].
  pose proof (act_step garbage N Hrefusals Hbelow x w Hg Hx) as Hst. apply Os.wp_ok in Hst as ([] & w1 & H1 & Hg1 & _).
  apply Os.wp_bind, Os.wp_ok. exists tt, w1. split; [done|]. apply IH; [done|exact (idle_act x w w1 Hg Hi Hx H1)|by apply Hxs].
Qed.

(** A turn that stops the servers when the last connection is gone. *)
Lemma last_turn t w : good N w -> connected w = (∅, ∅) -> (prog (asked t w)).(stop) = true ->
  turn_fits garbage N t w ->
  Os.wp (Proxy.main_turn garbage t) (fun _ w' => good N w' /\ idleb (prog w') = true) w.
Proof.
  intros Hg Hc Hs Hf. unfold Os.wp. rewrite (turn_run garbage N) by done.
  destruct (idleb (prog w)) eqn:Hi; [done|]. destruct (Hf Hi) as [Hok Hadm]. rewrite Hs in Hadm |- *.
  pose proof (asked_good N t w Hg) as Hg1. unfold turn_acts in *. cbn [app admissible_run run] in Hadm |- *.
  destruct Hadm as [_ Hadm]. pose proof (stop_spec garbage N _ Hg1) as Hstop.
  apply Os.wp_ok in Hstop as ([] & w1 & H1 & _ & Hc1 & Hd1).
  pose proof (act_step garbage N Hrefusals Hbelow Stop _ Hg1 I) as Hst.
  apply Os.wp_ok in Hst as ([] & w2 & H2 & Hg2 & _). replace w2 with w1 in Hg2 by congruence.
  assert (Hi1 : idleb (prog w1) = true).
  { apply deaf_idle; [done..|]. rewrite Hc1, <- Hc. unfold asked. by destruct (Proxy.shutdown_requested t). }
  pose proof (idle_run _ w1 Hg2 Hi1 (Hadm w1 H1)) as Hrun. apply Os.wp_ok in Hrun as ([] & w3 & H3 & Hg3).
  assert (Hr : forall xs, (perform garbage Stop ;; run garbage xs) (asked t w) = run garbage xs w1).
  { intros xs. unfold mbind, Os.M_bind. by rewrite H1. }
  rewrite Hr, H3. by rewrite ok_bind.
Qed.

(** The loop sees at its next check that it is done. *)
Lemma idle_loop ts w : good N w -> idleb (prog w) = true -> Proxy.main_loop garbage ts w = Ok (true, w).
Proof.
  intros Hg Hi. destruct ts as [|t ts]; cbn [Proxy.main_loop]; [by rewrite (is_empty_run N), Hi|].
  unfold mbind, Os.M_bind. by rewrite (turn_run garbage N), Hi.
Qed.

Lemma loop_ends t ts w : good N w -> connected w = (∅, ∅) -> (prog (asked t w)).(stop) = true ->
  turn_fits garbage N t w ->
  Os.wp (Proxy.main_loop garbage (t :: ts)) (fun left w' => left = true /\ good N w' /\ idleb (prog w') = true) w.
Proof.
  intros Hg Hc Hs Hf. cbn [Proxy.main_loop]. pose proof (last_turn t w Hg Hc Hs Hf) as Hwp.
  apply Os.wp_ok in Hwp as (go & w1 & H1 & Hg1 & Hi1). apply Os.wp_bind, Os.wp_ok. exists go, w1. split; [done|].
  destruct go; [|by apply Os.wp_ret]. apply Os.wp_ok. exists true, w1. by rewrite idle_loop.
Qed.

End End_.

End ServerEnd.
