(* ===== verification/Samples.v ===== *)
(** A sample process: the server started by a scripted operating system, and
    what a client, an administrator and an origin then do to it. *)
From S2P Require Import Prelude CBuffer Request Stm Selector Os Scripted Inet Store Acl.
From S2P Require Import Program Socks SocksServer Monitor Proxy SocksInv SocksHandshake SocksAccept ProxySafe.
From S2P Require Import MonitorInv MonitorSafe ServerRuns ServerLife.
Import Store Program Socks SocksServer SocksInv SocksHandshake SocksAccept ProxySafe MonitorInv MonitorSafe ServerRuns.
Import ServerLife.
Local Open Scope Z_scope.

Module Samples.

#[local] Existing Instance SampleInet.sample_inet.
#[local] Instance sample_os : Os.Os Scripted.script := Scripted.tame 17.
#[local] Instance sample_laws : Os.OsLaws Scripted.script := Scripted.tame_laws 17.

Abbreviation state := (Os.st handler data program Scripted.script).

Lemma sample_refusals : refusals_get_through (E := Scripted.script) (OS := sample_os).
Proof.
  intros fd pre rep _ (errno & e & e' & Hw & Hb). cbn in Hw. destruct (Scripted.pop _ _) as [r l] in Hw.
  injection Hw as Hr <-. destruct r; [done|]. injection Hr as <-. done.
Qed.

Lemma sample_below : descriptors_below (E := Scripted.script) (OS := sample_os) 17.
Proof. by apply Scripted.tame_below. Qed.

(** * The start *)

Definition zero : item := Selector.zero_item.
Definition no_selector : selector := Selector.mk_selector None 0 0 false [] 0 0 0 0 [].
Definition new_selector : selector :=
  match Selector.selector_new 100 101 true true true zero 8 with Ok (Some s) => s | _ => no_selector end.

(** [-u ana:pw -a root:pw]. *)
Definition arguments : list (byte * option cstring) :=
  [("u"%byte, Some (lit "ana:pw")); ("a"%byte, Some (lit "root:pw"))].
Definition users : list (option cstring) := [Some (lit "ana:pw")].
Definition admins : list (option cstring) := [Some (lit "root:pw")].

Definition boot (e : Scripted.script) : state :=
  Selector.mk_state new_selector (Os.mk_sys Proxy.no_program e []).
Definition boot_script : Scripted.script := Scripted.mk_script [] [] [] [3; 4] [] [] [] 0.

(** The server's sockets are 3 and 4; nothing has happened yet. *)
Definition sample (e : Scripted.script) : state :=
  match Proxy.start_servers zero users admins 1080 8080 (boot boot_script) with
  | Ok (true, w) => afresh e w
  | _ => boot e
  end.

Lemma new_selector_made : Selector.selector_new 100 101 true true true zero 8 = Ok (Some new_selector).
Proof. vm_compute. reflexivity. Qed.

Lemma boot_fresh e : fresh_process 17 (boot e).
Proof.
  destruct (new_quiet _ _ _ _ _ _ _ _ (ltac:(lia) : 0 <= 8) new_selector_made) as [Hq Hmx].
  destruct (Selector.new_inv _ _ _ _ _ _ _ _ (ltac:(lia) : 0 <= 8) new_selector_made) as ([Hwf _ _] & _ & Hnone).
  by split.
Qed.

Definition starts (e : Scripted.script) : bool :=
  match Proxy.start_servers zero users admins 1080 8080 (boot e) with Ok (b, _) => b | Fault _ => false end.
Lemma sample_starts : starts boot_script = true.
Proof. vm_compute. reflexivity. Qed.

Lemma sample_good e : good 17 (sample e).
Proof.
  pose proof (start_good zero 17 sample_below (ltac:(lia) : 17 <= 65536) users admins 1080 8080 (boot boot_script)
    ltac:(repeat constructor; done) ltac:(repeat constructor; done) (boot_fresh _)) as Hg.
  pose proof sample_starts as Ht. unfold starts, sample in *.
  destruct (Proxy.start_servers zero users admins 1080 8080 (boot boot_script)) as [[[] w]|]; [|done..].
  by apply good_afresh.
Qed.

(** * Events *)

Definition loopback : Request.sockaddr_storage :=
  Request.mk_sockaddr Request.AF_INET [x00; x50] [x7f; x00; x00; x01] (replicate 16 x00).
Definition local_name : Z * list Os.addrinfo := (0, [Os.mk_addrinfo (Some loopback) 16]).

Definition readable (fd : Z) : list act := Select (Selector.Ready [(Selector.EPOLLIN, fd)]).
Definition writable (fd : Z) : list act := Select (Selector.Ready [(Selector.EPOLLOUT, fd)]).

(** A client that asks for a name, and its origin. *)
Definition session_script : Scripted.script :=
  Scripted.mk_script
    [Os.RData [x05; x01; x00]; Os.RData ([x05; x01; x00; x03; x03] ++ lit "a.b" ++ [x00; x50]);
     Os.RData (lit "GET"); Os.RData (lit "OK"); Os.RData []]
    [] [7] [9] [] [] [local_name] 0.
Definition connecting_acts : list act :=
  readable 3 ++ readable 7 ++ readable 7 ++ [Resolve 0] ++ readable 101 ++ writable 9.
Definition session_acts : list act :=
  connecting_acts ++ readable 7 ++ [Expire] ++ readable 9 ++ Select Selector.WaitEINTR ++
  Select (Selector.Ready [(Selector.EPOLLIN, 9); (Selector.EPOLLIN, 7)]).

(** The run reaches the origin, relays both ways and closes both descriptors. *)
Example session_trace :
  match run (OS := sample_os) zero session_acts (sample session_script) with
  | Ok (_, w) => rev (trace w)
  | Fault _ => []
  end = [Os.IoOpen 7; Os.IoRead 7 [x05; x01; x00]; Os.IoWrite 7 [x05; x00];
         Os.IoRead 7 ([x05; x01; x00; x03; x03] ++ lit "a.b" ++ [x00; x50]);
         Os.IoOpen 9; Os.IoConnect 9 loopback; Os.IoWrite 7 (connect_reply x00);
         Os.IoRead 7 (lit "GET"); Os.IoWrite 9 (lit "GET"); Os.IoRead 9 (lit "OK");
         Os.IoWrite 7 (lit "OK"); Os.IoRead 9 []; Os.IoClose 9; Os.IoClose 7].
Proof. vm_compute. reflexivity. Qed.

(** An administrator logs in, forbids the client's origin and leaves; the
    client that then comes is refused. *)
Definition crlf : list byte := [x0d; x0a].
Definition denying_script : Scripted.script :=
  Scripted.mk_script
    [Os.RData (lit "AUTH root pw" ++ crlf ++ lit "DENY_IP 127.0.0.1" ++ crlf); Os.RData [];
     Os.RData [x05; x01; x00]; Os.RData [x05; x01; x00; x01; x7f; x00; x00; x01; x00; x50]]
    [] [7; -1; 8] [9] [] [] [] 0.
Definition denying_acts : list act :=
  readable 4 ++ readable 7 ++ readable 7 ++ readable 3 ++ readable 8 ++ readable 8.

Example denying_trace :
  match run zero denying_acts (sample denying_script) with
  | Ok (_, w) => drop 4 (rev (trace w))
  | Fault _ => []
  end = [Os.IoClose 7; Os.IoOpen 8; Os.IoRead 8 [x05; x01; x00]; Os.IoWrite 8 [x05; x00];
         Os.IoRead 8 [x05; x01; x00; x01; x7f; x00; x00; x01; x00; x50];
         Os.IoWrite 8 (connect_reply x02); Os.IoClose 8].
Proof. vm_compute. reflexivity. Qed.

(** The life of a process: a client and an administrator come, it is asked to
    stop, and it ends when they have left. *)
Definition life_script : Scripted.script :=
  Scripted.mk_script [Os.RData (lit "AUTH root pw" ++ crlf); Os.RData []; Os.RData []] []
    [7; -1; 8] [3; 4] [] [] [] 0.
Definition reports (fd : Z) : Proxy.turn :=
  Proxy.mk_turn false [] (Selector.Ready [(Selector.EPOLLIN, fd)]) false.
Definition asks_to_stop : Proxy.turn := Proxy.mk_turn true [] Selector.WaitEINTR true.
(** Asked to stop while a client waits. *)
Definition last_chance : Proxy.turn := Proxy.mk_turn true [] (Selector.Ready [(Selector.EPOLLIN, 3)]) false.
Definition life_turns : list Proxy.turn :=
  [reports 3; reports 4; reports 8; asks_to_stop; reports 7; reports 8; reports 8].

End Samples.
