(* ===== verification/ProxyFaults.v ===== *)
(** Runs of the server that fault or lose data: where what the main theorem
    assumes does not hold, and what the shutdown does to live sessions. *)
From S2P Require Import Prelude CBuffer Request Stm Selector Os Scripted Inet Store Sessions Acl.
From S2P Require Import Program Socks SocksServer Monitor Proxy SocksInv ServerRuns ServerLife Samples.
Import Store Program Socks SocksServer ServerRuns Samples.
Local Open Scope Z_scope.

Module ProxyFaults.

#[local] Existing Instance SampleInet.sample_inet.
#[local] Existing Instances Scripted.os Scripted.eta_script.

Definition outcome (xs : list act) (w : state) : res (list Os.io) :=
  '(_, w) ← run zero xs w; Ok (rev (trace w)).

Definition ask_name : list Os.read_result :=
  [Os.RData [x05; x01; x00]; Os.RData ([x05; x01; x00; x03; x03] ++ lit "a.b" ++ [x00; x50])].
Definition to_resolving : list act := readable 3 ++ readable 7 ++ readable 7.

(** The client that asked for a name leaves while the name is being
    resolved: the session is released, and the thread then writes its answer
    into it. *)
Theorem resolver_outlives_session :
  outcome (to_resolving ++ readable 7)
    (sample (Scripted.mk_script (ask_name ++ [Os.RData []]) [] [7] [] [] [] [] 0))
  = Ok [Os.IoOpen 7; Os.IoRead 7 [x05; x01; x00]; Os.IoWrite 7 [x05; x00];
        Os.IoRead 7 ([x05; x01; x00; x03; x03] ++ lit "a.b" ++ [x00; x50]); Os.IoRead 7 []; Os.IoClose 7] /\
  outcome (to_resolving ++ readable 7 ++ [Resolve 0])
    (sample (Scripted.mk_script (ask_name ++ [Os.RData []]) [] [7] [] [] [] [] 0))
  = Fault UseAfterFree.
Proof. split; vm_compute; reflexivity. Qed.

(** The same, when [seconds] pass between the two lists of events. *)
Definition outcome_later (xs : list act) (seconds : Z) (ys : list act) (w : state) : res (list Os.io) :=
  '(_, w) ← run zero xs w;
  '(_, w) ← run zero ys (Os.on_env ((env w) <| Scripted.clock ::= Z.add seconds |>) w);
  Ok (rev (trace w)).
Definition with_timeout (seconds : Z) (w : state) : state :=
  Os.on_prog (fun p => p <| store := Some (initial_store <| timeout := seconds |>) |>) w.

Definition ask_address : list Os.read_result :=
  [Os.RData [x05; x01; x00]; Os.RData [x05; x01; x00; x01; x7f; x00; x00; x01; x00; x50]].
Definition ask_bind : list Os.read_result :=
  [Os.RData [x05; x01; x00]; Os.RData [x05; x02; x00; x01; x7f; x00; x00; x01; x00; x50]].

(** A notification that finds another state behind its descriptor stops
    the server: an assert when the client left and a new connection got its
    number before the loop looked at the notification, or when the idle timeout
    answered the session while the name was being resolved; a call through NULL
    when another session's connection to its origin got the number. *)
Theorem notification_finds_other_state :
  outcome (to_resolving ++ [Resolve 0] ++
      Select (Selector.Ready [(Selector.EPOLLIN, 7); (Selector.EPOLLIN, 3)]))
    (sample (Scripted.mk_script (ask_name ++ [Os.RData []]) [] [7; -1; 7] [] [] [] [] 0))
  = Fault Aborted /\
  outcome_later to_resolving 60 ([Expire; Resolve 0] ++ Select Selector.WaitEINTR)
    (with_timeout 30 (sample (Scripted.mk_script ask_name [Os.WDone 2; Os.WError Os.EAGAIN] [7] [] [] [] [] 0)))
  = Fault Aborted /\
  outcome (to_resolving ++ readable 3 ++ readable 8 ++ readable 8 ++ [Resolve 0; Resolve 0] ++ readable 7)
    (sample (Scripted.mk_script (ask_name ++ ask_name ++ [Os.RData []]) [] [7; -1; 8] [7] [] []
      [local_name; local_name] 0))
  = Fault NullDeref.
Proof. split_and!; vm_compute; reflexivity. Qed.

(** A refused request whose answer cannot be written to a client that has
    gone: the write's failure releases the session, and the callbacks above it
    go on using it.  With an answer that can be written, both descriptors'
    bookkeeping ends as it should. *)
Theorem refusal_outlives_session :
  outcome to_resolving
    (sample (Scripted.mk_script ask_bind [Os.WDone 2; Os.WError Os.EPIPE] [7] [] [] [] [] 0))
  = Fault UseAfterFree /\
  outcome to_resolving (sample (Scripted.mk_script ask_bind [] [7] [] [] [] [] 0))
  = Ok [Os.IoOpen 7; Os.IoRead 7 [x05; x01; x00]; Os.IoWrite 7 [x05; x00];
        Os.IoRead 7 [x05; x02; x00; x01; x7f; x00; x00; x01; x00; x50];
        Os.IoWrite 7 (Socks.connect_reply x07); Os.IoClose 7].
Proof. split; vm_compute; reflexivity. Qed.

(** When the origin closes its side while bytes it sent wait in the buffer
    for a client that is slow, the session is closed at once: the client never
    gets them. *)
Theorem origin_eof_drops_tail :
  outcome (to_resolving ++ writable 9 ++ readable 9 ++ readable 9)
    (sample (Scripted.mk_script (ask_address ++ [Os.RData (lit "OK"); Os.RData []])
      [Os.WDone 2; Os.WDone 10; Os.WError Os.EAGAIN] [7] [9] [] [] [] 0))
  = Ok [Os.IoOpen 7; Os.IoRead 7 [x05; x01; x00]; Os.IoWrite 7 [x05; x00];
        Os.IoRead 7 [x05; x01; x00; x01; x7f; x00; x00; x01; x00; x50];
        Os.IoOpen 9; Os.IoConnect 9 loopback; Os.IoWrite 7 (Socks.connect_reply x00);
        Os.IoRead 9 (lit "OK"); Os.IoRead 9 []; Os.IoClose 9; Os.IoClose 7].
Proof. vm_compute. reflexivity. Qed.

(** * The shutdown *)

Definition ends (opts : list (byte * option cstring)) (ts : list Proxy.turn) (e : Scripted.script)
  : res (option Z * list Os.io) :=
  '(status, w) ← Proxy.main zero opts ts (boot e); Ok (status, rev (trace w)).
(** The process that is asked to stop ends in order: the listening sockets
    close, the sessions that are left run to their end, and only then are the
    servers and the store released.  When [epoll_wait] fails the loop ends at
    once, servers and store are released first, and closing the sessions that
    are left then uses them. *)
Theorem shutdown_order :
  ends arguments [reports 3; asks_to_stop; reports 7]
    (Scripted.mk_script [Os.RData []] [] [7] [3; 4] [] [] [] 0)
  = Ok (Some 0, [Os.IoOpen 3; Os.IoOpen 4; Os.IoOpen 7; Os.IoClose 3; Os.IoClose 4; Os.IoRead 7 []; Os.IoClose 7]) /\
  ends arguments [reports 3; Proxy.mk_turn false [] Selector.WaitError false]
    (Scripted.mk_script [] [] [7] [3; 4] [] [] [] 0)
  = Fault UseAfterFree.
Proof. split; vm_compute; reflexivity. Qed.

(** With 257 users on the command line the process starts by following a NULL
    pointer: only 256 arguments of an option are kept, all are counted. *)
Definition many_users : list (byte * option cstring) :=
  (fun i => ("u"%byte, Some (lit "u" ++ dec (Z.of_nat i) ++ lit ":p"))) <$> seq 0 257.

Theorem repeated_flag_null : ends (many_users ++ [("a"%byte, Some (lit "root:pw"))]) [] Scripted.quiet
  = Fault NullDeref.
Proof. vm_compute. reflexivity. Qed.

End ProxyFaults.
