(* ===== verification/SocksRelay.v ===== *)
(** The relay of a session: whatever its callbacks do, the bytes read on one
    side are the bytes written on the other, in order, followed by those that
    wait in the buffer between. *)
From S2P Require Import Prelude CBuffer Request Stm Selector Os Scripted Inet Store Sessions Acl.
From S2P Require Import Program Socks SocksServer Proxy IdleList SocksInv SocksRules SocksClose.
From S2P Require Import SocksTraffic SocksFlush SocksHandshake SocksStates SocksEvents ProxySafe MonitorInv.
From S2P Require Import MonitorSafe ServerRuns ServerLife Samples.
Import Store Program Socks SocksServer IdleList SocksInv SocksRules SocksClose.
Import SocksTraffic SocksFlush SocksHandshake SocksEvents ProxySafe MonitorSafe ServerRuns Samples.
Local Open Scope Z_scope.

Module SocksRelay.

(** Bytes on two descriptors. *)
Definition two (c : Z) (p : list byte) (o : Z) (q : list byte) (k : Z) : list byte :=
  if decide (k = c) then p else if decide (k = o) then q else [].

Lemma two_app c p1 p2 o q1 q2 k : two c p1 o q1 k ++ two c p2 o q2 k = two c (p1 ++ p2) o (q1 ++ q2) k.
Proof. unfold two. by repeat case_decide. Qed.
Lemma two_nothing c o k : nothing k = two c [] o [] k.
Proof. unfold two. by repeat case_decide. Qed.
Lemma two_first c o bs k : only c bs k = two c bs o [] k.
Proof. unfold only, two. repeat case_decide; congruence. Qed.
Lemma two_second c o bs k : c <> o -> only o bs k = two c [] o bs k.
Proof. unfold only, two. intros ?. repeat case_decide; congruence. Qed.

Section Relay.
Context {E : Type} {OS : Os.Os E} {OL : Os.OsLaws E} {IN : Inet}.
Abbreviation st := (Os.st handler data program E).
Abbreviation M := (Os.M handler data program E).
Abbreviation fd_handler := (@Selector.fd_handler handler data (Os.sys program E)).
Variables (F : fixed) (B : gmap loc socks_session).
Variables (garbage : item) (impl : handler -> fd_handler).
Hypothesis Hclient : closes_client garbage impl.
Hypothesis Hsilent : closes_silently impl.
Implicit Types (w : st) (sl : selector).

(** Session [l] was [s0] in [w0]; since then [u] came from the client and [u']
    went to the origin, [d] came from the origin and [d'] went to the client. *)
Variables (l : loc) (s0 : socks_session) (w0 : st).
Abbreviation c := (client_fd s0).
Abbreviation o := (origin_fd s0).

Definition moved (u d u' d' : list byte) w : Prop :=
  moves (trace w0) (trace w) (two c u o d) (two c d' o u').

Record open (s : socks_session) (w : st) : Prop := {
  op_here : here F B l s w;
  op_fine : fine F w.(Selector.sel) s;
  op_client : s.(client_fd) = c;
  op_origin : s.(origin_fd) = o;
  op_state : state_of s = SOCKS_ST_RELAY;
  op_moved : exists u d u' d', moved u d u' d' w /\
    CBuffer.contents s0.(c2o) ++ u = u' ++ CBuffer.contents s.(c2o) /\
    CBuffer.contents s0.(o2c) ++ d = d' ++ CBuffer.contents s.(o2c);
}.

Definition shut (w : st) : Prop := others F B w /\ exists u d u' d', moved u d u' d' w /\
  u' `prefix_of` CBuffer.contents s0.(c2o) ++ u /\ d' `prefix_of` CBuffer.contents s0.(o2c) ++ d.

Definition relayed w : Prop := (exists s, open s w) \/ shut w.

Lemma open_distinct s w : open s w -> c <> o.
Proof.
  intros [Hh [Hok _] Hc Ho _ _]. rewrite <- Hc, <- Ho.
  exact (two_descriptors F B l s w Hh Hok).
Qed.

Lemma open_step s s' w w' u d u' d' : open s w -> here F B l s' w' -> fine F w'.(Selector.sel) s' ->
  s'.(client_fd) = s.(client_fd) -> s'.(origin_fd) = s.(origin_fd) -> state_of s' = state_of s ->
  moves (trace w) (trace w') (two c u o d) (two c d' o u') ->
  CBuffer.contents s.(c2o) ++ u = u' ++ CBuffer.contents s'.(c2o) ->
  CBuffer.contents s.(o2c) ++ d = d' ++ CBuffer.contents s'.(o2c) -> open s' w'.
Proof.
  intros [Hh Hf Hc Ho Hs (u1 & d1 & u1' & d1' & Hm & Hu & Hd)] Hh' Hf' Ec Eo Es Hm' Hu' Hd'.
  split; [done|done|congruence..|]. exists (u1 ++ u), (d1 ++ d), (u1' ++ u'), (d1' ++ d').
  split; [|by rewrite !app_assoc, Hu, Hd, <- !app_assoc, Hu', Hd'].
  eapply moves_ext; [exact (moves_trans _ _ _ _ _ _ _ Hm Hm')|intros k; apply two_app..].
Qed.

Lemma open_still s s' w w' : open s w -> here F B l s' w' -> fine F w'.(Selector.sel) s' ->
  s'.(client_fd) = s.(client_fd) -> s'.(origin_fd) = s.(origin_fd) -> state_of s' = state_of s ->
  s'.(c2o) = s.(c2o) -> s'.(o2c) = s.(o2c) -> still (trace w) (trace w') -> open s' w'.
Proof.
  intros Hop Hh Hf Hc Ho Hs H1 H2 Ht. apply (open_step s s' w w' [] [] [] []); try done.
  - eapply moves_ext; [exact Ht|intros k; apply two_nothing..].
  - by rewrite app_nil_r, H1.
  - by rewrite app_nil_r, H2.
Qed.

Lemma shut_still s w w' : open s w -> others F B w' -> still (trace w) (trace w') -> shut w'.
Proof.
  intros [_ _ _ _ _ (u & d & u' & d' & Hm & Hu & Hd)] Ho Ht. split; [done|].
  exists u, d, u', d'. rewrite Hu, Hd. split_and!; [by eapply moves_still|by eexists..].
Qed.

(** ** The parts of the callbacks *)

Lemma relay_flush_client s w Q : open s w -> (forall s' w', open s' w' -> Q true w') ->
  (forall w', shut w' -> Q false w') -> Os.wp (socks_flush_client impl l) Q w.
Proof.
  intros Hop Ht Hn. pose proof Hop as [Hh Hf Hc Ho Hs _].
  apply (rule_flush_client F B garbage impl Hclient l s); [done|apply Hf| |].
  - intros s' w' Hh' He Hsel (out & Hout & Hm). destruct (evolved_fields _ _ He) as (E1 & E2 & E3 & _).
    apply (Ht s'), (open_step s s' w w' [] [] [] out); try done.
    + rewrite Hsel. by eapply fine_evolved.
    + by rewrite (ev_state _ _ He).
    + rewrite Hc in Hm. eapply moves_ext; [exact Hm|intros k; apply two_nothing|intros k; apply two_first].
    + by rewrite app_nil_r, E3.
    + by rewrite app_nil_r.
  - intros w' _ Hot Hq. by apply Hn, (shut_still s w), Hq.
Qed.

Lemma relay_flush_origin s w Q : open s w -> (forall s' w', open s' w' -> Q true w') ->
  (forall w', shut w' -> Q false w') -> Os.wp (socks_flush_origin impl l) Q w.
Proof.
  intros Hop Ht Hn. pose proof (open_distinct s w Hop) as Hne. pose proof Hop as [Hh Hf Hc Ho Hs _].
  apply (rule_flush_origin F B garbage impl Hclient l s); [done|done| |].
  - intros s' w' Hh' Hf' Es Eo Ec Eb (out & Hout & Hm).
    apply (Ht s'), (open_step s s' w w' [] [] out []); try done.
    + rewrite Ho in Hm. eapply moves_ext; [exact Hm|intros k; apply two_nothing|intros k; by apply two_second].
    + by rewrite app_nil_r.
    + by rewrite app_nil_r, Eb.
  - intros w' Hot Hq. by apply Hn, (shut_still s w), Hq.
Qed.

Lemma relay_close s w k Q : open s w -> k = c -> (forall w', shut w' -> Q tt w') ->
  Os.wp (Os.unregister_fd impl k) Q w.
Proof.
  intros Hop -> HQ. pose proof Hop as [Hh Hf Hc Ho Hs _].
  apply (rule_unregister_silent F B garbage impl Hclient l s); [done|apply Hf|done|].
  intros w' Hot Hq. by apply HQ, (shut_still s w), Hq.
Qed.

Lemma relay_close_if_flushed s w Q : open s w -> Q true w -> (forall w', shut w' -> Q false w') ->
  Os.wp (socks_close_if_flushed impl l) Q w.
Proof.
  intros Hop Ht Hn. unfold socks_close_if_flushed. apply Os.wp_bind, (wp_get F B l s); [apply Hop|].
  destruct (_ || _); [by apply Os.wp_ret|]. apply Os.wp_bind.
  apply (relay_close s); [done|by rewrite <- (op_client _ _ Hop)|]. intros w' Hw'. by apply Os.wp_ret, Hn.
Qed.

Lemma not_connecting s w : open s w -> state_of s <> SOCKS_ST_ORIGIN_CONNECTING.
Proof. intros Hop. rewrite (op_state _ _ Hop). done. Qed.

Lemma open_here s w w' : open s w -> here F B l s w' -> fine F w'.(Selector.sel) s ->
  still (trace w) (trace w') -> open s w'.
Proof. intros Hop Hh Hf. by apply (open_still s). Qed.

Lemma relay_client_interest s w k i Q : open s w -> k = c -> (forall w', open s w' -> Q tt w') ->
  Os.wp (Os.set_interest k i) Q w.
Proof.
  intros Hop -> HQ. pose proof (op_client _ _ Hop) as Hc. rewrite <- Hc.
  apply wp_silent; [apply silent_set_interest|].
  apply (rule_client_interest F B l s); [apply Hop..|].
  intros w' Hh Hf Hst. by apply HQ, (open_here s w).
Qed.

Lemma relay_origin_interest s w k i Q : open s w -> k = o -> (forall w', open s w' -> Q tt w') ->
  Os.wp (Os.set_interest k i) Q w.
Proof.
  intros Hop -> HQ. pose proof (op_origin _ _ Hop) as Ho. rewrite <- Ho.
  apply wp_silent; [apply silent_set_interest|].
  apply (rule_origin_interest F B l s); [apply Hop|apply Hop|by eapply not_connecting|].
  intros w' Hh Hf Hst. by apply HQ, (open_here s w).
Qed.

Lemma relay_client_key s w k i Q : open s w -> k.(Selector.key_fd) = c ->
  (forall w', open s w' -> Q tt w') -> Os.wp (Os.set_interest_key k i) Q w.
Proof.
  intros Hop Hk HQ. apply wp_silent; [apply silent_set_interest_key|].
  apply (rule_client_interest_key F B l s); [apply Hop|apply Hop|by rewrite (op_client _ _ Hop)|].
  intros w' Hh Hf Hst. by apply HQ, (open_here s w).
Qed.

Lemma relay_origin_key s w k i Q : open s w -> k.(Selector.key_fd) = o -> 0 <= o ->
  (forall w', open s w' -> Q tt w') -> Os.wp (Os.set_interest_key k i) Q w.
Proof.
  intros Hop Hk H0 HQ. pose proof (op_origin _ _ Hop) as Ho.
  apply wp_silent; [apply silent_set_interest_key|].
  apply (rule_origin_interest_key F B l s); [apply Hop|apply Hop|by rewrite Ho|by rewrite Ho|by eapply not_connecting|].
  intros w' Hh Hf Hst. by apply HQ, (open_here s w).
Qed.

Lemma relay_touch s w Q : open s w -> (forall s' w', open s' w' -> Q tt w') ->
  Os.wp (socks_session_touch l) Q w.
Proof.
  intros Hop HQ. pose proof Hop as [Hh Hf _ _ _ _]. apply (rule_touch F B l s); [done|].
  intros s' w' Hh' Hc Hs Ht. pose proof (proj1 Hc) as Hcore. core_fields Hcore.
  apply (HQ s'), (open_still s s' w); try done.
  - rewrite Hs. by eapply fine_core.
  - unfold state_of. congruence.
  - rewrite Ht. apply still_refl.
Qed.

Lemma relay_add_bytes s w up down Q : open s w -> (forall w', open s w' -> Q tt w') ->
  Os.wp (add_bytes l up down) Q w.
Proof.
  intros Hop HQ. pose proof Hop as [Hh Hf _ _ _ _]. apply (rule_add_bytes F B l s); [done|].
  intros w' Hh' Hs Ht. apply HQ, (open_here s w); [done|done|by rewrite Hs|]. rewrite Ht. apply still_refl.
Qed.

Lemma relay_state s w k Q : open s w -> session_of k = Some l -> Q SOCKS_ST_RELAY w ->
  Os.wp (socks_state k) Q w.
Proof.
  intros Hop Hk HQ. pose proof Hop as [Hh [Hok _] _ _ Hs _].
  apply (wp_state F B k l s); [done|done|apply Hok|]. by rewrite Hs.
Qed.

Lemma relayed_open s w : open s w -> relayed w.
Proof. left. by exists s. Qed.

(** ** The callbacks *)

Lemma relay_flush_and_rearm k s w : open s w -> k.(Selector.key_fd) = c ->
  Os.wp (flush_and_rearm impl k l) (fun _ => relayed) w.
Proof.
  intros Hop Hk. apply Os.wp_bind, (relay_flush_client s); [done| |].
  2:{ intros w' Hw'. cbn [negb]. apply Os.wp_ret. by right. }
  intros s1 w1 Hop1. cbn [negb]. apply Os.wp_bind, (relay_close_if_flushed s1); [done| |].
  2:{ intros w' Hw'. cbn [negb]. apply Os.wp_ret. by right. }
  cbn [negb]. apply Os.wp_bind, (wp_get F B l s1); [apply Hop1|].
  apply (relay_client_key s1); [done|done|]. intros w2. apply relayed_open.
Qed.

Lemma relay_client_write k s w : open s w -> session_of k = Some l -> k.(Selector.key_fd) = c ->
  Os.wp (socks_client_write impl k) (fun _ => relayed) w.
Proof. intros Hop Hk Hfd. unfold socks_client_write. rewrite Hk. by apply (relay_flush_and_rearm k s). Qed.

(** What arrives from the client is stored in [c2o]. *)
Lemma open_from_client s w w1 w2 b bs : open s w -> trace w1 = Os.IoRead c bs :: trace w ->
  Selector.sel w1 = Selector.sel w -> CBuffer.wf b -> CBuffer.contents b = CBuffer.contents s.(c2o) ++ bs ->
  here F B l (s <| c2o := b |>) w2 -> Selector.sel w2 = Selector.sel w1 -> trace w2 = trace w1 ->
  open (s <| c2o := b |>) w2.
Proof.
  intros Hop Ht1 Hs1 Hb Hbs Hh Hs2 Ht2.
  apply (open_step s _ w w2 bs [] [] []); try done.
  - rewrite Hs2, Hs1. apply fine_c2o; [done|apply Hop].
  - rewrite Ht2, Ht1. eapply moves_ext; [apply moves_read|intros k; apply two_first|intros k; apply two_nothing].
  - cbn. by rewrite app_nil_r.
Qed.

Lemma open_from_origin s w w1 w2 b bs : open s w -> trace w1 = Os.IoRead o bs :: trace w -> 0 <= o ->
  Selector.sel w1 = Selector.sel w -> CBuffer.wf b -> b.(CBuffer.limit) = s.(o2c).(CBuffer.limit) ->
  CBuffer.contents b = CBuffer.contents s.(o2c) ++ bs ->
  here F B l (s <| o2c := b |>) w2 -> Selector.sel w2 = Selector.sel w1 -> trace w2 = trace w1 ->
  open (s <| o2c := b |>) w2.
Proof.
  intros Hop Ht1 H0 Hs1 Hb Hl Hbs Hh Hs2 Ht2. pose proof (open_distinct s w Hop) as Hne.
  apply (open_step s _ w w2 [] bs [] []); try done.
  - rewrite Hs2, Hs1. apply fine_o2c; [done|done| |apply Hop].
    apply (not_answering (table_size F)); [apply Hop|by rewrite (op_origin _ _ Hop)|by eapply not_connecting].
  - rewrite Ht2, Ht1. eapply moves_ext; [apply moves_read|intros k; by apply two_second|intros k; apply two_nothing].
  - cbn. by rewrite app_nil_r.
Qed.

Lemma relay_client_read k s w : open s w -> session_of k = Some l -> k.(Selector.key_fd) = c ->
  Os.wp (socks_client_read garbage impl k) (fun _ => relayed) w.
Proof.
  intros Hop Hk Hfd. pose proof Hop as [Hh Hf Hc Ho Hs _]. unfold socks_client_read. rewrite Hk.
  apply Os.wp_bind, (wp_get F B l s); [done|]. pose proof (so_c2o _ _ (proj1 Hf)) as Hwf.
  apply Os.wp_bind, (Os.wp_lift _ _ _ _ (CBuffer.write_ptr_wf _ Hwf)).
  assert (Hrearm : forall w', open s w' ->
    Os.wp (Os.set_interest_key k (socks_client_interest s)) (fun _ => relayed) w').
  { intros w' Hop'. apply (relay_client_key s); [done|done|]. intros w2. apply relayed_open. }
  assert (Hend : forall w', open s w' -> Os.wp (socks_unregister_session impl k) (fun _ => relayed) w').
  { intros w' Hop'. apply (relay_close s); [done|done|]. intros w2. by right. }
  case_decide; [by apply Hrearm|]. apply Os.wp_bind, (rule_read F B l s); [done|..].
  2:{ intros errno w1 Hh1 Hs1 Ht1. assert (open s w1).
      { apply (open_here s w); [done|done|by rewrite Hs1|rewrite Ht1; apply still_refl]. }
      destruct (Os.would_block errno); [by apply Hrearm|by apply Hend]. }
  intros bs w1 Hbs Hh1 Hs1 Ht1. rewrite Hfd in Ht1. destruct bs as [|x bs].
  { apply Hend, (open_here s w); [done|done|by rewrite Hs1|]. rewrite Ht1.
    eapply moves_ext; [apply moves_read| |done]. intros j. unfold only. by case_decide. }
  apply wp_store_read; [done..|]. intros b Hb Hbc _.
  apply Os.wp_bind, (wp_set F B l s); [done..|]. intros Hh2.
  apply Os.wp_bind, (relay_touch (s <| c2o := b |>)); [by eapply open_from_client|].
  intros s3 w3 Hop3. apply Os.wp_bind, (relay_state s3); [done|done|].
  rewrite decide_True by done. apply Os.wp_bind, Os.wp_bind, (wp_get F B l s3); [apply Hop3|].
  assert (Hfin : forall s4 w4, open s4 w4 ->
    Os.wp (open ← socks_close_if_flushed impl l; if negb open then mret tt else
      s ← get_session l; Os.set_interest_key k (socks_client_interest s)) (fun _ => relayed) w4).
  { intros s4 w4 Hop4. apply Os.wp_bind, (relay_close_if_flushed s4); [done| |].
    - cbn [negb]. apply Os.wp_bind, (wp_get F B l s4); [apply Hop4|].
      apply (relay_client_key s4); [done|done|]. intros w5. apply relayed_open.
    - intros w5 Hw5. cbn [negb]. apply Os.wp_ret. by right. }
  case_decide; [apply Os.wp_ret; cbn [negb]; by apply (Hfin s3)|].
  apply Os.wp_bind, (relay_flush_origin s3); [done| |].
  2:{ intros w4 Hw4. cbn [negb]. apply Os.wp_ret, Os.wp_ret. by right. }
  intros s4 w4 Hop4. cbn [negb]. apply Os.wp_bind, (wp_get F B l s4); [apply Hop4|].
  apply Os.wp_bind, (relay_origin_interest s4); [done|apply Hop4|]. intros w5 Hop5.
  apply Os.wp_ret. cbn [negb]. by apply (Hfin s4).
Qed.

Lemma relay_origin_write k s w : open s w -> session_of k = Some l -> k.(Selector.key_fd) = o -> 0 <= o ->
  Os.wp (socks_origin_write garbage impl k) (fun _ => relayed) w.
Proof.
  intros Hop Hk Hfd H0. unfold socks_origin_write. apply Os.wp_bind, (wp_the_session _ l); [done|].
  apply Os.wp_bind, (relay_state s); [done|done|]. rewrite decide_False by done.
  apply Os.wp_bind, (relay_flush_origin s); [done| |].
  - intros s' w' Hop'. cbn [negb]. apply Os.wp_bind, (wp_get F B l s'); [apply Hop'|].
    apply Os.wp_bind, (relay_origin_key s'); [done..|]. intros w2 Hop2.
    apply (relay_client_interest s'); [done|apply Hop'|]. intros w3. apply relayed_open.
  - intros w' Hw'. cbn [negb]. apply Os.wp_ret. by right.
Qed.

Lemma relay_origin_read k s w : open s w -> session_of k = Some l -> k.(Selector.key_fd) = o -> 0 <= o ->
  Os.wp (socks_origin_read impl k) (fun _ => relayed) w.
Proof.
  intros Hop Hk Hfd H0. pose proof Hop as [Hh Hf Hc Ho Hs _].
  unfold socks_origin_read. apply Os.wp_bind, (wp_the_session _ l); [done|].
  apply Os.wp_bind, (wp_get F B l s); [done|]. pose proof (so_o2c _ _ (proj1 Hf)) as Hwf.
  apply Os.wp_bind, (Os.wp_lift _ _ _ _ (CBuffer.write_ptr_wf _ Hwf)).
  assert (Hrearm : forall w', open s w' ->
    Os.wp (Os.set_interest_key k (socks_origin_interest s)) (fun _ => relayed) w').
  { intros w' Hop'. apply (relay_origin_key s); [done..|]. intros w2. apply relayed_open. }
  assert (Hend : forall w', open s w' -> Os.wp (socks_session_close_from_origin impl l) (fun _ => relayed) w').
  { intros w' Hop'. apply Os.wp_bind, (wp_get F B l s); [apply Hop'|].
    apply (relay_close s); [done|done|]. intros w2. by right. }
  case_decide; [by apply Hrearm|]. apply Os.wp_bind, (rule_read F B l s); [done|..].
  2:{ intros errno w1 Hh1 Hs1 Ht1. assert (open s w1).
      { apply (open_here s w); [done|done|by rewrite Hs1|rewrite Ht1; apply still_refl]. }
      destruct (Os.would_block errno); [by apply Hrearm|by apply Hend]. }
  intros bs w1 Hbs Hh1 Hs1 Ht1. rewrite Hfd in Ht1. destruct bs as [|x bs].
  { apply Hend, (open_here s w); [done|done|by rewrite Hs1|]. rewrite Ht1.
    eapply moves_ext; [apply moves_read| |done]. intros j. unfold only. by case_decide. }
  apply wp_store_read; [done..|]. intros b Hb Hbc Hl.
  apply Os.wp_bind, (wp_set F B l s); [done..|]. intros Hh2.
  apply Os.wp_bind, (relay_touch (s <| o2c := b |>)); [by eapply open_from_origin|].
  intros s3 w3 Hop3. apply Os.wp_bind, (relay_add_bytes s3); [done|]. intros w4 Hop4.
  apply Os.wp_bind, (relay_flush_client s3); [done| |].
  2:{ intros w5 Hw5. cbn [negb]. apply Os.wp_ret. by right. }
  intros s5 w5 Hop5. cbn [negb]. apply Os.wp_bind, (wp_get F B l s5); [apply Hop5|].
  apply Os.wp_bind, (relay_client_interest s5); [done|apply Hop5|]. intros w6 Hop6.
  apply (relay_origin_key s5); [done..|]. intros w7. apply relayed_open.
Qed.

End Relay.

(** * Runs of the relay *)

Section Streams.
Context {E : Type} {OS : Os.Os E} {OL : Os.OsLaws E} {IN : Inet}.
Abbreviation st := (Os.st handler data program E).
Abbreviation M := (Os.M handler data program E).
Variable garbage : item.
Implicit Types (w : st).

Inductive event := ClientReadable | ClientWritable | OriginReadable | OriginWritable.

(** The callback the loop runs for a session on descriptors [c] and [o]. *)
Definition react (c o : Z) (l : loc) (e : event) : M unit :=
  let key fd := Selector.mk_key fd (Some (Session l)) in
  match e with
  | ClientReadable => socks_client_read garbage (Proxy.closing garbage 2) (key c)
  | ClientWritable => socks_client_write (Proxy.closing garbage 2) (key c)
  | OriginReadable => socks_origin_read (Proxy.closing garbage 2) (key o)
  | OriginWritable => socks_origin_write garbage (Proxy.closing garbage 2) (key o)
  end.

(** Events of one session, while it is there. *)
Fixpoint relay (c o : Z) (l : loc) (es : list event) : M unit :=
  match es with
  | [] => mret tt
  | e :: es =>
    session ← Os.gets (fun p => p.(sessions) !! l);
    match session with
    | None => mret tt
    | Some _ => react c o l e ;; relay c o l es
    end
  end.

Variables (F : fixed) (B : gmap loc socks_session) (l : loc) (s0 : socks_session) (w0 : st).
Abbreviation c := (client_fd s0).
Abbreviation o := (origin_fd s0).

Lemma react_relayed e s w : open F B l s0 w0 s w -> 0 <= o ->
  Os.wp (react c o l e) (fun _ => relayed F B l s0 w0) w.
Proof.
  intros Hop H0. destruct e; cbn [react].
  - by apply (relay_client_read F B garbage _ (inner_client garbage) (closing_silent garbage 2) l s0 w0 _ s).
  - by apply (relay_client_write F B garbage _ (inner_client garbage) (closing_silent garbage 2) l s0 w0 _ s).
  - by apply (relay_origin_read F B garbage _ (inner_client garbage) (closing_silent garbage 2) l s0 w0 _ s).
  - by apply (relay_origin_write F B garbage _ (inner_client garbage) (closing_silent garbage 2) l s0 w0 _ s).
Qed.

Lemma shut_gone w : B !! l = None -> shut F B s0 w0 w -> (prog w).(sessions) !! l = None.
Proof.
  intros Hn [[Hw _] _]. apply eq_None_not_Some. intros [s Hs%lookup_bare].
  rewrite (wo_bare _ _ _ Hw) in Hs. congruence.
Qed.

Lemma relay_relayed es : forall w, B !! l = None -> relayed F B l s0 w0 w -> 0 <= o ->
  Os.wp (relay c o l es) (fun _ => relayed F B l s0 w0) w.
Proof.
  induction es as [|e es IH]; intros w Hn Hr H0; cbn [relay]; [by apply Os.wp_ret|].
  apply Os.wp_bind, Os.wp_gets. destruct Hr as [[s Hop]|Hs].
  - change (Os.prog (Selector.user w)) with (prog w). rewrite (he_at _ _ _ _ _ (op_here _ _ _ _ _ _ _ Hop)).
    apply Os.wp_bind. eapply Os.wp_mono; [by apply (react_relayed e s)|]. intros ? w' Hr'. by apply IH.
  - change (Os.prog (Selector.user w)) with (prog w). rewrite (shut_gone w Hn Hs). apply Os.wp_ret. by right.
Qed.

Lemma relayed_inv w : relayed F B l s0 w0 w -> inv F w.
Proof.
  intros [[s Hop]|[Ho _]]; [by eapply here_elim; [apply (op_here _ _ _ _ _ _ _ Hop)|apply Hop]|by exists B].
Qed.

End Streams.

Section Theorem_.
Context {E : Type} {OS : Os.Os E} {OL : Os.OsLaws E} {IN : Inet}.
Abbreviation st := (Os.st handler data program E).
Variable garbage : item.
Implicit Types (w : st).

(** C5. The relay is transparent: from any state of the invariant with a session
    in the relay, after any sequence of its callbacks - partial reads and
    writes, full buffers, descriptors that would block, ends of input, errors -
    none of which faults, the bytes its client sent, behind those that waited,
    are those the origin was given followed by those that wait now, and the same
    in the other direction; nothing else was moved on any descriptor.  Once the
    session is closed each side was given a beginning of what the other sent. *)
Theorem relay_streams N es w l s : good N w -> (prog w).(sessions) !! l = Some s ->
  state_of s = SOCKS_ST_RELAY -> 0 <= s.(origin_fd) ->
  Os.wp (relay garbage s.(client_fd) s.(origin_fd) l es) (fun _ w' => good N w' /\
    exists u d u' d', moves (trace w) (trace w')
      (two s.(client_fd) u s.(origin_fd) d) (two s.(client_fd) d' s.(origin_fd) u') /\
    match (prog w').(sessions) !! l with
    | Some s' =>
      CBuffer.contents s.(c2o) ++ u = u' ++ CBuffer.contents s'.(c2o) /\
      CBuffer.contents s.(o2c) ++ d = d' ++ CBuffer.contents s'.(o2c)
    | None =>
      u' `prefix_of` CBuffer.contents s.(c2o) ++ u /\ d' `prefix_of` CBuffer.contents s.(o2c) ++ d
    end) w.
Proof.
  intros Hg Hl Hs H0. destruct (good_view N w Hg) as (a & m & Hw & HN & Hmx & Hst).
  set (F := view (frame w.(Selector.sel)) a m w) in *.
  destruct (here_intro F w l s (aw_inv _ _ _ _ _ Hw) Hl) as [Hh Hf].
  set (B := delete l (bare (sessions (prog w)))) in *. pose proof (he_new _ _ _ _ _ Hh) as Hn.
  assert (Hop : open F B l s w s w).
  { split; try done. exists [], [], [], []. rewrite !app_nil_r. split; [|done].
    eapply moves_ext; [apply still_refl|intros k; apply two_nothing..]. }
  eapply Os.wp_mono; [apply (relay_relayed garbage F B l s w); [done|left; by exists s|done]|].
  intros ? w' Hr. split.
  { apply (proxy_stepped N w F w'); try done; [exact (relayed_inv F B l s w w' Hr)|apply Hw]. }
  destruct Hr as [[s' [Hh' _ _ _ _ (u & d & u' & d' & Hm & Hu)]]|Hsh].
  - exists u, d, u', d'. split; [exact Hm|]. by rewrite (he_at _ _ _ _ _ Hh').
  - rewrite (shut_gone F B l s w w' Hn Hsh). by destruct Hsh as [_ Hsh].
Qed.

End Theorem_.

(** * A sample *)

#[local] Existing Instance SampleInet.sample_inet.
#[local] Existing Instances sample_os sample_laws.

(** A session that reached its origin. *)
Definition relay_script : Scripted.script :=
  Scripted.mk_script
    [Os.RData [x05; x01; x00]; Os.RData ([x05; x01; x00; x03; x03] ++ lit "a.b" ++ [x00; x50] ++ lit "GE");
     Os.RData (lit "T /"); Os.RData (lit "OK"); Os.RData []]
    [Os.WDone 2; Os.WDone 10; Os.WDone 1; Os.WDone 2; Os.WDone 9; Os.WDone 1] [7] [9] [] []
    [(0, [Os.mk_addrinfo (Some loopback) 16])] 0.
Definition connected : Os.st handler data program Scripted.script :=
  match run zero connecting_acts (sample relay_script) with Ok (_, w) => w | Fault _ => sample relay_script end.
Definition relaying : socks_session := default zero_session ((prog connected).(sessions) !! 1%positive).
Definition relay_events : list event :=
  [ClientReadable; OriginReadable; OriginWritable; ClientWritable; OriginReadable].

Lemma connected_good : good 17 connected.
Proof.
  assert (Ha : admissible_run zero 17 connecting_acts (sample relay_script))
    by (apply admissible_runb_ok; vm_compute; reflexivity).
  pose proof (run_good zero 17 sample_refusals sample_below _ _ (sample_good _) Ha) as Hr.
  unfold connected. destruct (run zero connecting_acts (sample relay_script)) as [[? w]|]; [exact Hr|done].
Qed.

Lemma relay_streams_witness :
  Os.wp (relay zero 7 9 1%positive relay_events) (fun _ w' => good 17 w' /\
    exists u d u' d', moves (trace connected) (trace w') (two 7 u 9 d) (two 7 d' 9 u') /\
    match (prog w').(sessions) !! 1%positive with
    | Some s' =>
      CBuffer.contents relaying.(c2o) ++ u = u' ++ CBuffer.contents s'.(c2o) /\
      CBuffer.contents relaying.(o2c) ++ d = d' ++ CBuffer.contents s'.(o2c)
    | None =>
      u' `prefix_of` CBuffer.contents relaying.(c2o) ++ u /\ d' `prefix_of` CBuffer.contents relaying.(o2c) ++ d
    end) connected.
Proof.
  apply (relay_streams zero 17 relay_events connected 1%positive relaying).
  - exact connected_good.
  - vm_compute. reflexivity.
  - vm_compute. reflexivity.
  - vm_compute. discriminate.
Defined.

End SocksRelay.
