(* ===== verification/Client.v ===== *)
(** The administration client's side of the protocol, src/client/protocol.c:
    the connection, lines and responses read from it, and the commands. *)
From S2P Require Import Prelude Request Selector Os MonCommands.
Local Open Scope Z_scope.

Module Client.

Definition LINE_BUF_SIZE : nat := Z.to_nat 4096.
Definition MAX_RESP_LINES : nat := Z.to_nat 512.
Definition MAX_RESP_LINE_LEN : nat := Z.to_nat 256.
Definition EINTR : Z := 4.

(** * Connecting *)

Section Connect.
Context {H D P E : Type} `{Os.Os E}.
Abbreviation M := (Os.M H D P E).

(** The loop over [getaddrinfo]'s list; [fd] is what the last turn left. *)
Fixpoint connect_loop (cursor : list Os.addrinfo) (fd : Z) : M Z :=
  match cursor with
  | [] => mret fd
  | a :: cursor =>
    addr ← Os.lift (or_fault NullDeref a.(Os.ai_addr));
    fd ← Os.socket addr.(Request.ss_family);
    if decide (fd < 0) then connect_loop cursor fd else
    failed ← Os.connect fd addr a.(Os.ai_addrlen);
    match failed with
    | None => mret fd
    | Some _ => Os.close fd ;; connect_loop cursor (-1)
    end
  end.

Definition connect_server (host : cstring) (port : Z) : M Z :=
  '(rc, result) ← Os.os (Os.os_getaddrinfo host (take 7 (dec port)));
  if decide (rc <> 0) then mret (-1) else connect_loop result (-1).

End Connect.

(** * Reading and writing

    The blocking socket: what each [read] of one byte and each [write] will
    answer, and what was written.  When the answers run out the peer has closed
    its side, and writes take everything. *)
Record conn := mk_conn {
  inp : list Os.read_result;
  takes : list Os.write_result;
  sent : list byte;
}.
#[export] Instance eta_conn : Eta conn := fun c => mk_conn c.(inp) c.(takes) c.(sent).

(** False: -1. *)
Fixpoint write_loop (takes : list Os.write_result) (sent data : list byte)
  : bool * list Os.write_result * list byte :=
  match data with
  | [] => (true, takes, sent)
  | _ =>
    match takes with
    | [] => (true, [], sent ++ data)
    | Os.WError errno :: takes =>
      if decide (errno = EINTR) then write_loop takes sent data else (false, takes, sent)
    | Os.WDone n :: takes => write_loop takes (sent ++ take n data) (drop n data)
    end
  end.

Definition write_all (data : cstring) (c : conn) : bool * conn :=
  let '(ok, t, s) := write_loop c.(takes) c.(sent) data in (ok, c <| takes := t |> <| sent := s |>).

(** The carriage return before a line end is overwritten with NUL. *)
Definition chop_cr (buf : list byte) : list byte :=
  if decide (last buf = Some x0d) then take (length buf - 1) buf else buf.

(** [read_line]: [buf] holds the first [pos] bytes; the result is the string in
    the buffer, or [None] for -1. *)
Fixpoint read_loop (inp : list Os.read_result) (buf : list byte) (buf_len : nat)
  : option cstring * list Os.read_result :=
  if decide (length buf + 1 < buf_len)%nat then
    match inp with
    | [] => (None, [])
    | Os.RData [] :: inp => (None, inp)
    | Os.RError errno :: inp =>
      if decide (errno = EINTR) then read_loop inp buf buf_len else (None, inp)
    | Os.RData (b :: _) :: inp =>
      if decide (b = x0a) then (Some (c_str (chop_cr buf)), inp)
      else read_loop inp (buf ++ [b]) buf_len
    end
  else (None, inp).

Definition read_line (buf_len : nat) (c : conn) : option cstring * conn :=
  let '(l, i) := read_loop c.(inp) [] buf_len in (l, c <| inp := i |>).

(** [read_response]: the lines stored, or [None] for -1. *)
Fixpoint read_response (max_lines : nat) (c : conn) : option (list cstring) * conn :=
  match max_lines with
  | O => (Some [], c)
  | S n =>
    match read_line LINE_BUF_SIZE c with
    | (None, c) => (None, c)
    | (Some buf, c) =>
      if decide (buf = lit ".") then (Some [], c)
      else let '(ls, c) := read_response n c in
        (cons (strncpy_nul (MAX_RESP_LINE_LEN - 1) buf) <$> ls, c)
    end
  end.

(** * Commands *)

(** [snprintf] into a buffer of [n] bytes. *)
Definition snprintf (n : nat) (text : cstring) : cstring := take (n - 1) text.

(** The message after "-ERR". *)
Definition error_of (line : cstring) : option cstring :=
  if decide (take 4 line = lit "-ERR") then
    Some match drop 4 line with
         | c :: msg => if decide (c = " "%byte) then msg else c :: msg
         | [] => []
         end
  else None.

(** The failure's text in [err], or success. *)
Definition result := (cstring + unit)%type.

Definition cmd_simple (cmd : cstring) (err_sz : nat) (c : conn) : result * conn :=
  let '(written, c) := write_all cmd c in
  if negb written then (inl (snprintf err_sz (lit "Error de escritura")), c) else
  match read_response 2 c with
  | (Some (line :: _), c) =>
    match error_of line with
    | Some msg => (inl (snprintf err_sz msg), c)
    | None => (inr tt, c)
    end
  | (_, c) => (inl (snprintf err_sz (lit "Conexion perdida")), c)
  end.

Definition sp : cstring := lit " ".
Definition nl : cstring := [x0a].
Definition command (text : cstring) : cstring := snprintf LINE_BUF_SIZE text.

Definition cmd_auth (user pass : cstring) : nat -> conn -> result * conn :=
  cmd_simple (command (lit "AUTH " ++ user ++ sp ++ pass ++ nl)).

(** [sscanf]: literal bytes, white space, and unsigned numbers converted to
    their width. *)
Inductive directive := DChar (c : byte) | DSpace | DNum (width : Z).

Definition format (text : cstring) : list directive :=
  (fun c => if MonCommands.is_space c then DSpace else DChar c) <$> text.

Definition scan_num (s : cstring) : option (Z * cstring) :=
  let s := MonCommands.skip_space s in
  let '(neg, s) := match s with
    | c :: s' => if decide (c = "-"%byte) then (true, s')
                 else if decide (c = "+"%byte) then (false, s') else (false, s)
    | [] => (false, s)
    end in
  let '(v, any, rest) := MonCommands.strtol_digits s 0 false in
  if negb any then None
  else Some (if decide (2 ^ 64 <= v) then 2 ^ 64 - 1 else if neg : bool then u64 (- v) else v, rest).

(** The values stored, in order. *)
Fixpoint scan (f : list directive) (s : cstring) : list Z :=
  match f with
  | [] => []
  | DChar c :: f =>
    match s with
    | x :: s => if decide (x = c) then scan f s else []
    | [] => []
    end
  | DSpace :: f => scan f (MonCommands.skip_space s)
  | DNum width :: f =>
    match scan_num s with
    | Some (v, s) => v mod 2 ^ width :: scan f s
    | None => []
    end
  end.

Definition stats_format : list directive :=
  format (lit "+OK total_connections=") ++ [DNum 64] ++ format (lit " concurrent_connections=") ++ [DNum 64] ++
  format (lit " bytes_up=") ++ [DNum 64] ++ format (lit " bytes_down=") ++ [DNum 64].

(** True with the numbers stored behind the pointers, in their order. *)
Definition cmd_stats (c : conn) : option (list Z) * conn :=
  let '(written, c) := write_all (lit "STATS" ++ nl) c in
  if negb written then (None, c) else
  match read_response 2 c with
  | (Some (line :: _), c) =>
    if decide (head line = Some "-"%byte) then (None, c) else (Some (scan stats_format line), c)
  | (_, c) => (None, c)
  end.

(** [None] for -1. *)
Definition cmd_list (cmd : cstring) (max_lines : nat) (c : conn) : option (list cstring) * conn :=
  let '(written, c) := write_all cmd c in
  if negb written then (None, c) else read_response max_lines c.

Definition cmd_connections := cmd_list (lit "CONNECTIONS" ++ nl).
Definition cmd_users := cmd_list (lit "USERS" ++ nl).
Definition cmd_deny_list := cmd_list (lit "DENY_LIST" ++ nl).

Definition cmd_access_log (filter : option cstring) : nat -> conn -> option (list cstring) * conn :=
  cmd_list (command match filter with
                    | Some ((_ :: _) as f) => lit "ACCESS_LOG " ++ f ++ nl
                    | _ => lit "ACCESS_LOG" ++ nl
                    end).

Definition cmd_config_get (param : cstring) (err_sz : nat) (c : conn) : (cstring + Z) * conn :=
  let '(written, c) := write_all (command (lit "CONFIG " ++ param ++ nl)) c in
  if negb written then (inl (snprintf err_sz (lit "Error de escritura")), c) else
  match read_response 2 c with
  | (Some (line :: _), c) =>
    match error_of line with
    | Some msg => (inl (snprintf err_sz msg), c)
    | None =>
      match scan (format (lit "+OK ") ++ [DNum 32]) line with
      | [parsed] => (inr parsed, c)
      | _ => (inl (snprintf err_sz (lit "respuesta invalida")), c)
      end
    end
  | (_, c) => (inl (snprintf err_sz (lit "Conexion perdida")), c)
  end.

Definition cmd_config (param : cstring) (value : Z) : nat -> conn -> result * conn :=
  cmd_simple (command (lit "CONFIG " ++ param ++ sp ++ dec value ++ nl)).

Definition cmd_add_user (user pass : cstring) (admin : bool) : nat -> conn -> result * conn :=
  cmd_simple (command (if admin then lit "ADD_USER " ++ user ++ sp ++ pass ++ lit " admin" ++ nl
                       else lit "ADD_USER " ++ user ++ sp ++ pass ++ nl)).
Definition cmd_del_user (user : cstring) : nat -> conn -> result * conn :=
  cmd_simple (command (lit "DEL_USER " ++ user ++ nl)).
Definition cmd_set_password (user pass : cstring) : nat -> conn -> result * conn :=
  cmd_simple (command (lit "SET_PASSWORD " ++ user ++ sp ++ pass ++ nl)).
Definition cmd_deny_host (hostname : cstring) : nat -> conn -> result * conn :=
  cmd_simple (command (lit "DENY_HOST " ++ hostname ++ nl)).
Definition cmd_deny_ip (ip : cstring) : nat -> conn -> result * conn :=
  cmd_simple (command (lit "DENY_IP " ++ ip ++ nl)).
Definition cmd_undeny (target : cstring) : nat -> conn -> result * conn :=
  cmd_simple (command (lit "UNDENY " ++ target ++ nl)).

(** [fuel]: the reads still to be answered. *)
Fixpoint quit_loop (fuel : nat) (c : conn) : res conn :=
  match read_line LINE_BUF_SIZE c with
  | (None, c) => Ok c
  | (Some buf, c) =>
    if decide (buf = lit ".") then Ok c else
    match fuel with O => Fault OutOfFuel | S fuel => quit_loop fuel c end
  end.

Definition cmd_quit (c : conn) : res conn :=
  let c := (write_all (lit "QUIT" ++ nl) c).2 in quit_loop (length c.(inp)) c.

End Client.
