(* ===== verification/Blocking.v ===== *)
(** Blocking sockets of the client side programs: an environment in which what
    is still to come is finite, what one call does to a connection, and the
    connecting of src/client/protocol.c that the load generator repeats. *)
From S2P Require Import Prelude Request Selector Os Trace Scripted MonCommands Client.
Import Trace.
Local Open Scope Z_scope.

Module Blocking.

#[export] Instance write_result_eq_dec : EqDecision Os.write_result.
Proof. solve_decision. Defined.

(** What the outside world still brings: bytes, and interruptions of calls.  A
    blocking write of something takes something unless it is interrupted. *)
Class Finite (E : Type) `{Os.Os E} := {
  to_come : E -> nat;
  read_comes : forall fd n e bs e', Os.os_read fd n e = (Os.RData bs, e') ->
    (to_come e' + length bs <= to_come e)%nat;
  read_fails : forall fd n e errno e', Os.os_read fd n e = (Os.RError errno, e') ->
    (to_come e' + (if decide (errno = Client.EINTR) then 1 else 0) <= to_come e)%nat;
  write_comes : forall fd bs e r e', Os.os_write fd bs e = (r, e') ->
    (to_come e' + (if decide (r = Os.WError Client.EINTR) then 1 else 0) <= to_come e)%nat;
  write_nothing : forall fd bs e e', bs <> [] -> Os.os_write fd bs e = (Os.WDone 0, e') ->
    (to_come e' < to_come e)%nat;
}.

Section Rules.
Context {H D P E : Type} {OS : Os.Os E} {OL : Os.OsLaws E} {FE : Finite E}.
Abbreviation st := (Os.st H D P E).
Abbreviation M := (Os.M H D P E).
Implicit Types (w : st).

Abbreviation tr w := (Os.trace (Selector.user w)).
Abbreviation prog w := (Os.prog (Selector.user w)).
Definition coming w : nat := to_come (Os.env (Selector.user w)).

(** From [w] to [w'] all that happened is that [out] was written to [fd] and
    [inp] read from it. *)
Record talked (fd : Z) (out inp : list byte) w w' : Prop := {
  tk_said : said fd (tr w') = said fd (tr w) ++ out;
  tk_heard : heard fd (tr w') = heard fd (tr w) ++ inp;
  tk_others : forall k, k <> fd -> said k (tr w') = said k (tr w) /\ heard k (tr w') = heard k (tr w);
  tk_held : held (tr w') = held (tr w);
  tk_handed : handed_out (tr w') <-> handed_out (tr w);
  tk_prog : prog w' = prog w;
}.

Lemma talked_refl fd w : talked fd [] [] w w.
Proof. split; try done; by rewrite app_nil_r. Qed.

Lemma talked_trans fd o1 i1 o2 i2 w1 w2 w3 : talked fd o1 i1 w1 w2 -> talked fd o2 i2 w2 w3 ->
  talked fd (o1 ++ o2) (i1 ++ i2) w1 w3.
Proof.
  intros [A1 A2 A3 A4 A5 A6] [B1 B2 B3 B4 B5 B6]. split.
  - by rewrite B1, A1, app_assoc.
  - by rewrite B2, A2, app_assoc.
  - intros k Hk. specialize (A3 k Hk). specialize (B3 k Hk).
    destruct A3, B3. split; congruence.
  - congruence.
  - by rewrite B5.
  - congruence.
Qed.

Lemma talked_env fd w e : talked fd [] [] w (Os.on_env e w).
Proof. split; try done; by rewrite app_nil_r. Qed.

(** ** One call *)

Definition read_data (r : Os.read_result) : list byte := match r with Os.RData bs => bs | Os.RError _ => [] end.
Definition interrupted (r : Os.read_result) : nat :=
  match r with Os.RError errno => if decide (errno = Client.EINTR) then 1 else 0 | _ => 0 end%nat.

Lemma call_read fd n w : Os.wp (Os.read fd n : M Os.read_result) (fun r w' =>
  talked fd [] (read_data r) w w' /\ Os.os_read fd n (Os.env (Selector.user w)) = (r, Os.env (Selector.user w'))) w.
Proof.
  unfold Os.read. apply Os.wp_bind, Os.wp_os. intros r e Hr. apply Os.wp_bind. destruct r as [bs|errno].
  - apply Os.wp_emit, Os.wp_ret. split; [|done]. split; try done; cbn.
    + by rewrite app_nil_r.
    + by rewrite decide_True.
    + intros k Hk. split; [done|]. rewrite decide_False by congruence. apply app_nil_r.
  - apply Os.wp_ret, Os.wp_ret. split; [apply talked_env|done].
Qed.

Definition taken (bs : list byte) (r : Os.write_result) : list byte :=
  match r with Os.WDone n => take n bs | Os.WError _ => [] end.

Lemma call_write fd bs w : Os.wp (Os.write fd bs : M Os.write_result) (fun r w' =>
  talked fd (taken bs r) [] w w' /\ Os.os_write fd bs (Os.env (Selector.user w)) = (r, Os.env (Selector.user w'))) w.
Proof.
  unfold Os.write. apply Os.wp_bind, Os.wp_os. intros r e Hr. apply Os.wp_bind. destruct r as [n|errno].
  - apply Os.wp_emit, Os.wp_ret. split; [|done]. split; try done; cbn.
    + by rewrite decide_True.
    + by rewrite app_nil_r.
    + intros k Hk. split; [|done]. rewrite decide_False by congruence. apply app_nil_r.
  - apply Os.wp_ret, Os.wp_ret. split; [apply talked_env|done].
Qed.

Lemma rule_blocking_read fd n (Q : Os.read_result -> st -> Prop) w :
  (forall r w', talked fd [] (read_data r) w w' -> (length (read_data r) <= n)%nat ->
     (coming w' + length (read_data r) + interrupted r <= coming w)%nat -> Q r w') ->
  Os.wp (Os.read fd n : M Os.read_result) Q w.
Proof.
  intros HQ. eapply Os.wp_mono; [apply call_read|]. intros r w' [Ht Hr]. destruct r as [bs|errno].
  - apply HQ; [done|exact (Os.read_fits _ _ _ _ _ Hr)|].
    pose proof (read_comes _ _ _ _ _ Hr) as Hc. unfold coming. cbn. lia.
  - apply HQ; [done|cbn; lia|]. pose proof (read_fails _ _ _ _ _ Hr) as Hc. unfold coming. cbn. case_decide; lia.
Qed.

Lemma rule_blocking_write fd bs (Q : Os.write_result -> st -> Prop) w :
  (forall n w', talked fd (take n bs) [] w w' -> (n <= length bs)%nat ->
     (coming w' + (if decide (n = 0 /\ bs <> []) then 1 else 0) <= coming w)%nat -> Q (Os.WDone n) w') ->
  (forall errno w', talked fd [] [] w w' ->
     (coming w' + (if decide (errno = Client.EINTR) then 1 else 0) <= coming w)%nat -> Q (Os.WError errno) w') ->
  Os.wp (Os.write fd bs : M Os.write_result) Q w.
Proof.
  intros HQ HE. eapply Os.wp_mono; [apply call_write|]. intros r w' [Ht Hr].
  pose proof (write_comes _ _ _ _ _ Hr) as Hc. destruct r as [n|errno].
  - apply HQ; [done|exact (Os.write_fits _ _ _ _ _ Hr)|]. unfold coming.
    destruct (decide (n = 0%nat /\ bs <> [])) as [[-> Hne]|].
    + pose proof (write_nothing _ _ _ _ Hne Hr). lia.
    + destruct (decide _) in Hc; lia.
  - apply HE; [done|]. unfold coming. repeat case_decide; naive_solver lia.
Qed.

(** ** Connecting *)

(** [getaddrinfo] lists addresses. *)
Definition lists_addresses : Prop := forall host port e,
  Forall (fun ai => Os.ai_addr ai <> None) (Os.os_getaddrinfo host port e).1.2.

(** From [w] to [w'] the descriptor [fd] was opened, if it is one, and nothing
    was said on any other connection. *)
Record opened (fd : Z) w w' : Prop := {
  op_held : held (tr w') = (if decide (fd < 0) then [] else [fd]) ++ held (tr w);
  op_fresh : 0 <= fd -> said fd (tr w') = [] /\ heard fd (tr w') = [];
  op_handed : handed_out (tr w') -> handed_out (tr w) /\ (0 <= fd -> fd ∉ held (tr w)) /\
    forall k, k ∈ held (tr w) -> said k (tr w') = said k (tr w) /\ heard k (tr w') = heard k (tr w);
  op_prog : prog w' = prog w;
}.

(** The socket that fails is closed before the next is opened. *)
Lemma connect_loop_opens cursor : forall fd0 w, Forall (fun ai => Os.ai_addr ai <> None) cursor -> fd0 < 0 ->
  Os.wp (Client.connect_loop cursor fd0 : M Z) (fun fd w' => opened fd w w') w.
Proof.
  induction cursor as [|ai cursor IH]; intros fd0 w Hc Hfd; cbn [Client.connect_loop].
  { apply Os.wp_ret. split; [by rewrite decide_True|lia| |done]. intros Hh. split_and!; [done|lia|done]. }
  apply Forall_cons in Hc as [Ha Hc]. destruct (Os.ai_addr ai) as [addr|] eqn:Ea; [|done].
  apply Os.wp_bind, (Os.wp_lift _ addr); [done|]. apply Os.wp_bind. unfold Os.socket, Os.open.
  apply Os.wp_bind, Os.wp_os. intros fd e _. apply Os.wp_bind. case_decide as Hneg.
  { apply Os.wp_ret, Os.wp_ret. rewrite decide_True by done. eapply Os.wp_mono; [by apply IH|].
    intros fd1 w' [O1 O2 O3 O4]. by split. }
  apply Os.wp_emit, Os.wp_ret. rewrite decide_False by done.
  apply Os.wp_bind. unfold Os.connect. apply Os.wp_bind, Os.wp_emit, Os.wp_os. intros failed e2 _.
  destruct failed as [errno|].
  - apply Os.wp_bind. unfold Os.close. apply Os.wp_emit. eapply Os.wp_mono; [by apply IH|].
    intros fd1 w' [O1 O2 O3 O4]. cbn in O1, O3. rewrite (decide_True (P := fd = fd)) in O1, O3 by done.
    split; [done|done| |done]. intros Hh. destruct (O3 Hh) as ([Hnew Hold] & Hnot & Hk). split; [done|]. split; [done|].
    intros k Hin. destruct (Hk k Hin) as [-> ->]. assert (k <> fd) by (intros ->; done). cbn.
    by rewrite !decide_False by congruence.
  - apply Os.wp_ret. split; [by rewrite decide_False|by intros _; cbn; rewrite !decide_True| |done].
    cbn. intros [Hnew Hold]. split; [done|]. split; [done|]. intros k Hin. assert (k <> fd) by (intros ->; done).
    by rewrite !decide_False by congruence.
Qed.

Lemma connect_server_opens host port w : lists_addresses ->
  Os.wp (Client.connect_server host port : M Z) (fun fd w' => opened fd w w') w.
Proof.
  intros Hl. unfold Client.connect_server. apply Os.wp_bind, Os.wp_os. intros [rc result] e Ho. case_decide.
  - apply Os.wp_ret. split; [done|lia| |done]. intros Hh. split_and!; [done|lia|done].
  - eapply Os.wp_mono; [apply connect_loop_opens; [|lia]|].
    + specialize (Hl host (take 7 (dec port)) w.(Selector.user).(Os.env)). by rewrite Ho in Hl.
    + intros fd1 w' [O1 O2 O3 O4]. by split.
Qed.

End Rules.

(** Two talks in a row are one. *)
Tactic Notation "chain" hyp(T1) hyp(T2) "as" ident(T) :=
  pose proof (talked_trans _ _ _ _ _ _ _ _ T1 T2) as T; clear T1 T2.

Create HintDb talk.
#[export] Hint Resolve talked_refl talked_env prefix_nil : talk.

(** The sample environment is finite, and its names have addresses. *)
Definition left_in (e : Scripted.script) : nat :=
  (length (Scripted.reads e) + length (concat (read_data <$> Scripted.reads e)) + length (Scripted.writes e))%nat.

Lemma tame_reads N fd n e r e' : @Os.os_read _ (Scripted.tame N) fd n e = (r, e') ->
  (left_in e' + length (read_data r) + interrupted r <= left_in e)%nat.
Proof.
  unfold left_in. cbn. destruct (Scripted.reads e) as [|r0 rs] eqn:Er; cbn.
  - intros [= <- <-]. cbn. rewrite decide_False by done. lia.
  - destruct r0 as [l|errno]; cbn; intros [= <- <-]; cbn; [rewrite length_app, length_take; lia|]. case_decide; lia.
Qed.

Lemma tame_writes N fd bs e r e' : @Os.os_write _ (Scripted.tame N) fd bs e = (r, e') ->
  (left_in e' + (if decide (r = Os.WError Client.EINTR \/ r = Os.WDone 0 /\ bs <> []) then 1 else 0) <= left_in e)%nat.
Proof.
  unfold left_in. cbn. destruct (Scripted.writes e) as [|r0 rs] eqn:Er; cbn; intros [= <- <-]; cbn.
  - rewrite Nat.min_id. destruct (decide _) as [[Hx|[Hx Hne]]|]; [done| |rewrite ?Er; cbn; lia].
    injection Hx as Hx. by destruct bs.
  - destruct (decide _); lia.
Qed.

#[export] Instance tame_finite N : @Finite Scripted.script (Scripted.tame N).
Proof.
  refine (@Build_Finite _ (Scripted.tame N) left_in _ _ _ _).
  - intros fd n e bs e' Hr. apply tame_reads in Hr. cbn in Hr. lia.
  - intros fd n e errno e' Hr. apply tame_reads in Hr. cbn [read_data interrupted length] in Hr. lia.
  - intros fd bs e r e' Hw. apply tame_writes in Hw. repeat destruct (decide _); naive_solver lia.
  - intros fd bs e e' Hne Hw. apply tame_writes in Hw. destruct (decide _); naive_solver lia.
Defined.

Lemma tame_lists N : @lists_addresses Scripted.script (Scripted.tame N).
Proof.
  intros host port e. unfold Os.os_getaddrinfo, Scripted.tame.
  destruct (@Os.os_getaddrinfo _ Scripted.os host port e) as [[rc l] e']. cbn [fst snd].
  induction l as [|ai l IH]; cbn [List.filter]; [constructor|]. unfold Scripted.has_addr at 1.
  destruct (Os.ai_addr ai) eqn:Ha; [|done]. constructor; [by rewrite Ha|done].
Qed.

End Blocking.
