(* ===== verification/ClientWire.v ===== *)
(** What the client of src/client/protocol.c and the server of
    src/server/monitor/monitor_commands.c make of each other's bytes. *)
From S2P Require Import Prelude CBuffer Request Selector Os Inet Store Users Acl StoreInv.
From S2P Require Import MonCommands MonProtocol MonText Client.
Import Store MonCommands MonProtocol MonText Client.
Local Open Scope Z_scope.

Module ClientWire.

(** * Writing *)

(** Interrupted and partial writes lose nothing: on success everything was
    written, otherwise a beginning. *)
Lemma write_loop_spec takes : forall sent data,
  let '(ok, _, sent') := write_loop takes sent data in
  exists done, sent' = sent ++ done /\ done `prefix_of` data /\ (ok = true -> done = data).
Proof.
  induction takes as [|t takes IH]; intros sent data.
  - destruct data as [|b data]; cbn [write_loop].
    + exists []. by rewrite app_nil_r.
    + by exists (b :: data).
  - destruct data as [|b data]; [cbn; exists []; by rewrite app_nil_r|].
    destruct t as [n|errno]; cbn [write_loop].
    + specialize (IH (sent ++ take n (b :: data)) (drop n (b :: data))).
      destruct (write_loop _ _ _) as [[ok t'] s']. destruct IH as (d & -> & Hp & Hok).
      exists (take n (b :: data) ++ d). rewrite app_assoc. split; [done|]. split.
      * rewrite <- (take_drop n (b :: data)) at 2. by apply prefix_app.
      * intros H. by rewrite Hok, take_drop.
    + case_decide; [apply IH|]. exists []. rewrite app_nil_r. split_and!; [done|apply prefix_nil|done].
Qed.

(** * Reading *)

(** The reads deliver [bs] first, byte by byte; some are interrupted. *)
Inductive delivers : list Os.read_result -> list byte -> Prop :=
| delivers_nothing inp : delivers inp []
| delivers_byte b inp bs : delivers inp bs -> delivers (Os.RData [b] :: inp) (b :: bs)
| delivers_late inp bs : delivers inp bs -> delivers (Os.RError EINTR :: inp) bs.

Lemma read_loop_delivers inp bs0 : delivers inp bs0 -> forall line bs buf n,
  bs0 = line ++ x0a :: bs -> x0a ∉ line -> (length buf + length line + 1 < n)%nat ->
  exists inp', read_loop inp buf n = (Some (c_str (chop_cr (buf ++ line))), inp') /\ delivers inp' bs.
Proof.
  induction 1 as [inp|b inp bs1 Hd IH|inp bs1 Hd IH]; intros line bs buf n Heq Hnl Hn.
  - by destruct line.
  - cbn [read_loop]. rewrite decide_True by lia. destruct line as [|c line].
    + injection Heq as -> ->. rewrite decide_True, app_nil_r by done. by exists inp.
    + injection Heq as -> ->. apply not_elem_of_cons in Hnl as [Hc Hnl]. rewrite decide_False by done.
      destruct (IH line bs (buf ++ [c]) n) as (inp' & E & Hd'); [done|done|rewrite length_app; cbn in *; lia|].
      exists inp'. by rewrite E, <- app_assoc.
  - cbn [read_loop]. rewrite decide_True by lia. rewrite decide_True by done. by apply IH.
Qed.

(** A line a server may send: no line end or NUL inside, no carriage return at
    its end, room in the client's buffer. *)
Record reply_line (l : cstring) : Prop := {
  rl_nl : x0a ∉ l;
  rl_nul : nul_free l;
  rl_cr : last l <> Some x0d;
  rl_len : (length l + 1 < LINE_BUF_SIZE)%nat;
}.

Lemma read_line_delivers l bs c : reply_line l -> delivers c.(inp) (l ++ x0a :: bs) ->
  exists c', read_line LINE_BUF_SIZE c = (Some l, c') /\ delivers c'.(inp) bs /\
    c'.(sent) = c.(sent) /\ c'.(takes) = c.(takes).
Proof.
  intros [H1 H2 H3 H4] Hd. unfold read_line.
  destruct (read_loop_delivers _ _ Hd l bs [] LINE_BUF_SIZE) as (i & -> & Hi); [done|done|cbn; lia|].
  exists (c <| inp := i |>). split; [|done]. cbn [app]. unfold chop_cr. rewrite decide_False by done. by rewrite c_str_id.
Qed.

(** A response: lines, then a dot. *)
Definition response (ls : list cstring) : list byte := concat ((.++ [x0a]) <$> (ls ++ [lit "."])).

Lemma response_cons l ls : response (l :: ls) = l ++ x0a :: response ls.
Proof. unfold response. cbn. by rewrite <- app_assoc. Qed.

Lemma dot_reply : reply_line (lit ".").
Proof. split; [by_decision|by_decision|done|vm_compute; lia]. Qed.

(** What the client keeps of a line. *)
Definition kept (l : cstring) : cstring := take (MAX_RESP_LINE_LEN - 1) l.

(** C24. The client reads a response as the lines it consists of, each cut to
    255 bytes, and stops behind its dot, whatever the pieces it arrives in; of a
    response with [max] lines or more it reads the first [max], and leaves the
    rest of it, which it will take for the answer to its next command. *)
Theorem response_roundtrip max : forall ls bs c,
  Forall (fun l => reply_line l /\ l <> lit ".") ls -> delivers c.(inp) (response ls ++ bs) ->
  exists c', read_response max c = (Some (kept <$> take max ls), c') /\
    delivers c'.(inp) (if decide (length ls < max)%nat then bs else response (drop max ls) ++ bs) /\
    c'.(sent) = c.(sent).
Proof.
  induction max as [|max IH]; intros ls bs c Hls Hd; cbn [read_response].
  { rewrite take_0, drop_0, decide_False by lia. by exists c. }
  destruct Hls as [|l ls [Hl Hne] Hls].
  - change (response []) with (lit "." ++ [x0a]) in Hd. rewrite <- app_assoc in Hd.
    destruct (read_line_delivers _ _ _ dot_reply Hd) as (c' & -> & Hd' & Hs & _).
    rewrite decide_True by done. exists c'. rewrite decide_True by (cbn; lia). done.
  - rewrite response_cons, <- app_assoc in Hd. cbn [app] in Hd.
    destruct (read_line_delivers l _ c Hl Hd) as (c1 & -> & Hd1 & Hs1 & _). rewrite decide_False by done.
    destruct (IH ls bs c1 Hls Hd1) as (c2 & -> & Hd2 & Hs2). exists c2. split; [done|].
    split; [|congruence]. cbn [length drop]. destruct (decide (length ls < max)%nat).
    + by rewrite decide_True by lia.
    + by rewrite decide_False by lia.
Qed.

Definition each_byte (bs : list byte) : list Os.read_result := (fun b => Os.RData [b]) <$> bs.

Lemma each_byte_delivers bs : forall tail, delivers (each_byte bs ++ tail) bs.
Proof. induction bs as [|b bs IH]; intros tail; [apply delivers_nothing|]. cbn. by constructor. Qed.

Lemma response_roundtrip_witness :
  let ls := [lit "+OK root (admin)"; lit "+OK ana (user)"] in
  let c := mk_conn (each_byte (response ls ++ lit "+OK") ++ []) [] [] in
  exists c', read_response MAX_RESP_LINES c = (Some (kept <$> take MAX_RESP_LINES ls), c') /\
    delivers c'.(inp) (if decide (length ls < MAX_RESP_LINES)%nat then lit "+OK"
      else response (drop MAX_RESP_LINES ls) ++ lit "+OK") /\ c'.(sent) = c.(sent).
Proof.
  cbv zeta. apply response_roundtrip.
  - repeat (apply Forall_cons; split); try done;
      (split; [split; [by_decision|by_decision|done|vm_compute; lia]|done]).
  - apply each_byte_delivers.
Defined.

(** The dot ends every [QUIT]. *)
Lemma read_loop_shorter inp : forall buf n l inp', read_loop inp buf n = (Some l, inp') ->
  (length inp' < length inp)%nat.
Proof.
  induction inp as [|[[|b bs]|e] inp IH]; intros buf n l inp'; cbn [read_loop]; destruct (decide _); try done.
  - case_decide; [intros [= _ <-]; cbn; lia|]. intros Hs%IH. cbn. lia.
  - case_decide; [|done]. intros Hs%IH. cbn. lia.
Qed.

Lemma quit_loop_ends fuel : forall c, (length c.(inp) <= fuel)%nat -> exists c', quit_loop fuel c = Ok c'.
Proof.
  induction fuel as [|fuel IH]; intros c Hc; cbn [quit_loop]; unfold read_line;
    destruct (read_loop (inp c) [] LINE_BUF_SIZE) as [[l|] i] eqn:Hr; try (by eexists);
    (case_decide; [by eexists|]); apply read_loop_shorter in Hr; [lia|].
  apply IH. cbn. lia.
Qed.

Lemma read_loop_sent n c : (read_line n c).2.(sent) = c.(sent).
Proof. unfold read_line. by destruct (read_loop _ _ _). Qed.

Lemma read_response_sent n : forall c, (read_response n c).2.(sent) = c.(sent).
Proof.
  induction n as [|n IH]; intros c; cbn [read_response]; [done|].
  pose proof (read_loop_sent LINE_BUF_SIZE c) as Hs. destruct (read_line _ c) as [[l|] c1]; [|done].
  case_decide; [done|]. specialize (IH c1). destruct (read_response n c1). cbn in *. congruence.
Qed.

Lemma quit_loop_sent fuel : forall c c', quit_loop fuel c = Ok c' -> c'.(sent) = c.(sent).
Proof.
  induction fuel as [|fuel IH]; intros c c'; cbn [quit_loop]; pose proof (read_loop_sent LINE_BUF_SIZE c) as Hs;
    destruct (read_line _ c) as [[l|] c1]; cbn [snd] in Hs; try (by intros [= <-]);
    (case_decide; [by intros [= <-]|]); [done|]. intros E%IH. congruence.
Qed.

(** * The commands *)

Inductive admin_command :=
| Auth (user pass : cstring) | Stats | Connections | ListUsers | AccessLog (user : option cstring)
| ConfigGet (param : cstring) | ConfigSet (param : cstring) (value : Z)
| AddUser (user pass : cstring) (admin : bool) | DelUser (user : cstring)
| SetPassword (user pass : cstring) | DenyHost (host : cstring) | DenyIp (ip : cstring)
| Undeny (target : cstring) | DenyList | Quit.

(** The connection after the client's function for a command. *)
Definition issue (err_sz max_lines : nat) (a : admin_command) (c : conn) : res conn :=
  match a with
  | Auth u p => Ok (cmd_auth u p err_sz c).2
  | Stats => Ok (cmd_stats c).2
  | Connections => Ok (cmd_connections max_lines c).2
  | ListUsers => Ok (cmd_users max_lines c).2
  | AccessLog u => Ok (cmd_access_log u max_lines c).2
  | ConfigGet p => Ok (cmd_config_get p err_sz c).2
  | ConfigSet p v => Ok (cmd_config p v err_sz c).2
  | AddUser u p admin => Ok (cmd_add_user u p admin err_sz c).2
  | DelUser u => Ok (cmd_del_user u err_sz c).2
  | SetPassword u p => Ok (cmd_set_password u p err_sz c).2
  | DenyHost h => Ok (cmd_deny_host h err_sz c).2
  | DenyIp i => Ok (cmd_deny_ip i err_sz c).2
  | Undeny t => Ok (cmd_undeny t err_sz c).2
  | DenyList => Ok (cmd_deny_list max_lines c).2
  | Quit => cmd_quit c
  end.

(** The words the server is to read. *)
Definition words (a : admin_command) : list cstring :=
  match a with
  | Auth u p => [lit "AUTH"; u; p]
  | Stats => [lit "STATS"]
  | Connections => [lit "CONNECTIONS"]
  | ListUsers => [lit "USERS"]
  | AccessLog u => lit "ACCESS_LOG" :: option_list u
  | ConfigGet p => [lit "CONFIG"; p]
  | ConfigSet p v => [lit "CONFIG"; p; dec v]
  | AddUser u p admin => [lit "ADD_USER"; u; p] ++ (if admin then [lit "admin"] else [])
  | DelUser u => [lit "DEL_USER"; u]
  | SetPassword u p => [lit "SET_PASSWORD"; u; p]
  | DenyHost h => [lit "DENY_HOST"; h]
  | DenyIp i => [lit "DENY_IP"; i]
  | Undeny t => [lit "UNDENY"; t]
  | DenyList => [lit "DENY_LIST"]
  | Quit => [lit "QUIT"]
  end.

Definition line_of (ws : list cstring) : cstring :=
  match ws with [] => [] | cmd :: args => cmd ++ spaced ((fun w => (0%nat, w)) <$> args) end.

(** Arguments the protocol can carry. *)
Definition sendable (a : admin_command) : Prop :=
  Forall word (words a) /\ text_line (line_of (words a)).

(** A socket whose writes fail only by interruption. *)
Definition patient (t : Os.write_result) : Prop :=
  match t with Os.WError errno => errno = EINTR | Os.WDone _ => True end.

Lemma write_loop_patient takes : Forall patient takes -> forall sent data,
  exists takes', write_loop takes sent data = (true, takes', sent ++ data).
Proof.
  induction 1 as [|t takes Ht Hts IH]; intros sent data; destruct data as [|b data]; cbn [write_loop].
  1,3: eexists; by rewrite app_nil_r.
  { by eexists. }
  destruct t as [n|errno].
  - destruct (IH (sent ++ take n (b :: data)) (drop n (b :: data))) as [t' ->]. exists t'.
    by rewrite <- app_assoc, take_drop.
  - rewrite decide_True by done. apply IH.
Qed.

Lemma write_all_patient data c : Forall patient c.(takes) ->
  exists c', write_all data c = (true, c') /\ c'.(sent) = c.(sent) ++ data /\ c'.(inp) = c.(inp).
Proof.
  intros Hp. unfold write_all. destruct (write_loop_patient _ Hp c.(sent) data) as [t ->]. by eexists.
Qed.

(** ** What each kind of command writes *)

Definition writes (text : cstring) (c c' : conn) : Prop := c'.(sent) = c.(sent) ++ text.

Lemma simple_writes text err_sz c : Forall patient c.(takes) -> writes text c (cmd_simple text err_sz c).2.
Proof.
  intros Hp. unfold cmd_simple. destruct (write_all_patient text c Hp) as (c1 & -> & Hs & _). cbn [negb].
  pose proof (read_response_sent 2 c1) as Hr. unfold writes.
  destruct (read_response 2 c1) as [[[|line ls]|] c2]; cbn [snd] in *; try congruence.
  destruct (error_of line); cbn [snd]; congruence.
Qed.

Lemma list_writes text n c : Forall patient c.(takes) -> writes text c (cmd_list text n c).2.
Proof.
  intros Hp. unfold cmd_list, writes. destruct (write_all_patient text c Hp) as (c1 & -> & Hs & _). cbn [negb].
  by rewrite read_response_sent.
Qed.

Lemma stats_writes c : Forall patient c.(takes) -> writes (lit "STATS" ++ nl) c (cmd_stats c).2.
Proof.
  intros Hp. unfold cmd_stats, writes. destruct (write_all_patient (lit "STATS" ++ nl) c Hp) as (c1 & -> & Hs & _).
  cbn [negb]. pose proof (read_response_sent 2 c1) as Hr.
  destruct (read_response 2 c1) as [[[|line ls]|] c2]; cbn [snd] in *; try congruence.
  case_decide; cbn [snd]; congruence.
Qed.

Lemma get_writes param err_sz c : Forall patient c.(takes) ->
  writes (command (lit "CONFIG " ++ param ++ nl)) c (cmd_config_get param err_sz c).2.
Proof.
  intros Hp. unfold cmd_config_get, writes.
  destruct (write_all_patient (command (lit "CONFIG " ++ param ++ nl)) c Hp) as (c1 & -> & Hs & _). cbn [negb].
  pose proof (read_response_sent 2 c1) as Hr.
  destruct (read_response 2 c1) as [[[|line ls]|] c2]; cbn [snd] in *; try congruence.
  destruct (error_of line); [cbn [snd]; congruence|]. destruct (scan _ _) as [|v [|v2 vs]]; cbn [snd]; congruence.
Qed.

Lemma quit_writes c : Forall patient c.(takes) ->
  exists c', cmd_quit c = Ok c' /\ writes (lit "QUIT" ++ nl) c c'.
Proof.
  intros Hp. unfold cmd_quit, writes. destruct (write_all_patient (lit "QUIT" ++ nl) c Hp) as (c1 & -> & Hs & _).
  cbn [snd]. destruct (quit_loop_ends (length (inp c1)) c1) as [c2 E]; [done|]. exists c2. split; [done|].
  by rewrite (quit_loop_sent _ _ _ E).
Qed.

(** A line that fits is not cut by [snprintf]. *)
Lemma command_whole text : (length text < LINE_BUF_SIZE)%nat -> command text = text.
Proof. intros Hl. unfold command, snprintf. apply take_ge. lia. Qed.

Lemma command_line l text : text_line l -> text = l ++ nl -> command text = l ++ nl.
Proof.
  intros Hl ->. apply command_whole. rewrite length_app. pose proof (tl_len _ Hl) as Hn.
  unfold MONITOR_LINE_MAX in Hn. assert (512 < LINE_BUF_SIZE)%nat by (vm_compute; lia). cbn [length nl]. lia.
Qed.

Lemma issue_writes err_sz max a c : Forall patient c.(takes) -> sendable a ->
  exists c', issue err_sz max a c = Ok c' /\ writes (line_of (words a) ++ nl) c c'.
Proof.
  intros Hp [Hw Hl].
  assert (Hs : forall text, text = line_of (words a) ++ nl -> writes (line_of (words a) ++ nl) c
    (cmd_simple (command text) err_sz c).2).
  { intros text Ht. rewrite (command_line _ _ Hl Ht). by apply simple_writes. }
  assert (Hlist : forall text, text = line_of (words a) ++ nl -> writes (line_of (words a) ++ nl) c
    (cmd_list text max c).2) by (intros text ->; by apply list_writes).
  destruct a; cbn [issue]; try (eexists; split; [done|]).
  all: try (apply Hs; cbn; rewrite ?app_nil_r, <- ?app_assoc; reflexivity).
  all: try (apply Hlist; reflexivity).
  - by apply stats_writes.
  - unfold cmd_access_log. destruct user as [[|b u]|].
    + apply Forall_inv_tail, Forall_inv in Hw. by destruct Hw as [Hne _].
    + rewrite (command_line _ _ Hl) by (cbn; rewrite app_nil_r; reflexivity). by apply list_writes.
    + rewrite (command_line _ _ Hl) by reflexivity. by apply list_writes.
  - rewrite <- (command_line _ (lit "CONFIG " ++ param ++ nl) Hl) by (cbn; by rewrite app_nil_r).
    by apply get_writes.
  - destruct admin.
    + apply Hs. cbn. rewrite <- app_assoc. cbn. by rewrite <- app_assoc.
    + apply Hs. cbn. rewrite ?app_nil_r, <- ?app_assoc. reflexivity.
  - by apply quit_writes.
Qed.

(** C23. Each command of the client, with arguments the protocol can carry and
    however its writes are split and interrupted, reaches the server as one line
    whose words are the command and its arguments; the client's function
    returns. *)
Theorem commands_understood err_sz max a c : Forall patient c.(takes) -> sendable a ->
  exists c', issue err_sz max a c = Ok c' /\ c'.(sent) = c.(sent) ++ line_of (words a) ++ nl /\
    frames [] (line_of (words a) ++ nl) = ([Line (line_of (words a))], []) /\
    split_line (line_of (words a)) = words a.
Proof.
  intros Hp Hs. destruct (issue_writes err_sz max a c Hp Hs) as (c' & E & Hw). exists c'.
  destruct Hs as [Hws Hl]. split_and!; [done|done| |].
  - exact (frames_line (line_of (words a), false) Hl).
  - destruct (words a) as [|cmd args] eqn:Ha; [by destruct a|]. apply Forall_cons in Hws as [Hc Hargs].
    cbn [line_of]. rewrite split_spaced; [|done| |].
    + f_equal. rewrite <- list_fmap_compose. apply list_fmap_id.
    + apply Forall_fmap. exact Hargs.
    + rewrite length_fmap. apply (f_equal length) in Ha. cbn in Ha.
      destruct a; cbn in Ha; try lia; [by destruct user; cbn in Ha; lia|by destruct admin; cbn in Ha; lia].
Qed.

Lemma commands_understood_witness :
  let a := AddUser (lit "ana") (lit "secret") true in
  let c := mk_conn [] [Os.WError EINTR; Os.WDone 3] [] in
  exists c', issue 100 512 a c = Ok c' /\ c'.(sent) = c.(sent) ++ line_of (words a) ++ nl /\
    frames [] (line_of (words a) ++ nl) = ([Line (line_of (words a))], []) /\
    split_line (line_of (words a)) = words a.
Proof.
  cbv zeta. apply commands_understood.
  - repeat (apply Forall_cons; split); done.
  - split; [|split; [by_decision|by_decision|done|vm_compute; lia]].
    repeat (apply Forall_cons; split); try done; (split; [done|by_decision]).
Defined.

End ClientWire.
