(* ===== verification/ClientAdmin.v ===== *)
(** Administration end to end: the functions of src/client/protocol.c against
    the command interpreter of src/server/monitor/monitor_commands.c. *)
From S2P Require Import Prelude CBuffer Selector Os Inet Store Users Acl StoreInv.
From S2P Require Import MonCommands MonProtocol MonText Client ClientWire.
Import Store MonCommands MonProtocol MonText Client ClientWire.
Local Open Scope Z_scope.

Module ClientAdmin.

(** * Numbers as text *)

(** [sscanf] reads back what [printf] wrote. *)
Lemma scan_dec width v s f : 0 <= v < 2 ^ 64 -> v < 2 ^ width ->
  match s with c :: _ => is_digit c = false | [] => True end ->
  scan (DNum width :: f) (dec v ++ s) = v :: scan f s.
Proof.
  intros Hv Hw Hs. cbn [scan]. unfold scan_num.
  destruct (dec_head v ltac:(lia)) as (d & t & E & Hd). destruct (digit_ok d Hd) as [H1 H2].
  rewrite E. cbn [app skip_space]. unfold is_space. rewrite H2, bool_decide_false by lia.
  rewrite decide_False by (intros F; apply (f_equal bz) in F; rewrite H2 in F; change (bz "-"%byte) with 45 in F; lia).
  rewrite decide_False by (intros F; apply (f_equal bz) in F; rewrite H2 in F; change (bz "+"%byte) with 43 in F; lia).
  rewrite app_comm_cons, <- E. unfold dec.
  destruct (strtol_dec_digits 20 v s 0 false) as (k & ->); [change (10 ^ Z.of_nat 20) with (10 ^ 20); lia|lia|].
  rewrite Z.mul_0_l, Z.add_0_l.
  assert (Hstop : strtol_digits s v true = (v, true, s)).
  { destruct s as [|c s]; [done|]. cbn [strtol_digits]. by rewrite Hs. }
  rewrite Hstop. cbn [negb]. rewrite decide_False by lia. by rewrite Z.mod_small by lia.
Qed.

(** * One-line responses *)

Lemma read_one l bs c : reply_line l -> l <> lit "." -> (length l < MAX_RESP_LINE_LEN)%nat ->
  delivers c.(inp) (l ++ nl ++ dot_line ++ bs) -> exists c', read_response 2 c = (Some [l], c').
Proof.
  intros Hl Hne Hlen Hd. cbn [read_response].
  destruct (read_line_delivers l (dot_line ++ bs) c Hl Hd) as (c1 & -> & Hd1 & _).
  rewrite decide_False by done. change (dot_line ++ bs) with (lit "." ++ x0a :: bs) in Hd1.
  destruct (read_line_delivers _ _ c1 dot_reply Hd1) as (c2 & -> & _). rewrite decide_True by done.
  exists c2. cbn [fmap option_fmap option_map]. unfold strncpy_nul. rewrite take_ge by lia. done.
Qed.

(** ** Statistics *)

Definition in_u64 (v : Z) : Prop := 0 <= v < 2 ^ 64.

Definition stats_text (m : store_metrics) : cstring :=
  lit "+OK total_connections=" ++ dec m.(total_connections) ++
  lit " concurrent_connections=" ++ dec m.(concurrent_connections) ++
  lit " bytes_up=" ++ dec m.(m_bytes_up) ++ lit " bytes_down=" ++ dec m.(m_bytes_down).

(** Text read by the same text, here by computation. *)
Lemma scan_stats m :
  in_u64 m.(total_connections) -> in_u64 m.(concurrent_connections) -> in_u64 m.(m_bytes_up) ->
  in_u64 m.(m_bytes_down) ->
  scan stats_format (stats_text m) =
    [m.(total_connections); m.(concurrent_connections); m.(m_bytes_up); m.(m_bytes_down)].
Proof.
  unfold in_u64, stats_format, stats_text. intros H1 H2 H3 H4.
  trans (scan ([DNum 64] ++ format (lit " concurrent_connections=") ++ [DNum 64] ++
    format (lit " bytes_up=") ++ [DNum 64] ++ format (lit " bytes_down=") ++ [DNum 64])
    (dec (total_connections m) ++ lit " concurrent_connections=" ++ dec (concurrent_connections m) ++
     lit " bytes_up=" ++ dec (m_bytes_up m) ++ lit " bytes_down=" ++ dec (m_bytes_down m))); [reflexivity|].
  cbn [app]. rewrite scan_dec by (done || lia). f_equal.
  trans (scan (DNum 64 :: format (lit " bytes_up=") ++ DNum 64 :: format (lit " bytes_down=") ++ [DNum 64])
    (dec (concurrent_connections m) ++
     lit " bytes_up=" ++ dec (m_bytes_up m) ++ lit " bytes_down=" ++ dec (m_bytes_down m))); [reflexivity|].
  rewrite scan_dec by (done || lia). f_equal.
  trans (scan (DNum 64 :: format (lit " bytes_down=") ++ [DNum 64])
    (dec (m_bytes_up m) ++ lit " bytes_down=" ++ dec (m_bytes_down m))); [reflexivity|].
  rewrite scan_dec by (done || lia). f_equal.
  trans (scan [DNum 64] (dec (m_bytes_down m) ++ [])); [by rewrite app_nil_r|].
  by rewrite scan_dec by (done || lia).
Qed.

(** A byte that is in none of the parts of a text. *)
Ltac absent := repeat (apply not_elem_of_app; split);
  first [apply dec_free; [lia|reflexivity] | by_decision].

Lemma plain_reply l : x0a ∉ l -> x00 ∉ l -> x0d ∉ l -> (length l < MAX_RESP_LINE_LEN)%nat -> reply_line l.
Proof.
  intros H1 H2 H3 Hl. split; [done|done| |].
  - intros [l' Hl']%last_Some. apply H3. rewrite Hl'. set_solver.
  - assert (MAX_RESP_LINE_LEN + 1 < LINE_BUF_SIZE)%nat by (vm_compute; lia). lia.
Qed.

Lemma stats_text_length m : (length (stats_text m) < MAX_RESP_LINE_LEN)%nat.
Proof.
  change MAX_RESP_LINE_LEN with 256%nat. unfold stats_text. rewrite !length_app.
  change (length (lit "+OK total_connections=")) with 22%nat.
  change (length (lit " concurrent_connections=")) with 24%nat.
  change (length (lit " bytes_up=")) with 10%nat. change (length (lit " bytes_down=")) with 12%nat.
  pose proof (dec_length (total_connections m)). pose proof (dec_length (concurrent_connections m)).
  pose proof (dec_length (m_bytes_up m)). pose proof (dec_length (m_bytes_down m)). lia.
Qed.

(** C25. The statistics the client shows are the server's counters: what the
    server prints is read back number by number, whatever pieces it arrives in
    and whatever follows. *)
Theorem stats_reach_client m bs c : in_u64 m.(total_connections) -> in_u64 m.(concurrent_connections) ->
  in_u64 m.(m_bytes_up) -> in_u64 m.(m_bytes_down) -> Forall patient c.(takes) ->
  delivers c.(inp) (stats_line m ++ dot_line ++ bs) ->
  (cmd_stats c).1 =
    Some [m.(total_connections); m.(concurrent_connections); m.(m_bytes_up); m.(m_bytes_down)].
Proof.
  intros H1 H2 H3 H4 Hp Hd. unfold cmd_stats.
  destruct (write_all_patient (lit "STATS" ++ nl) c Hp) as (c1 & -> & _ & Hi). cbn [negb]. rewrite <- Hi in Hd.
  assert (Hline : stats_line m ++ dot_line ++ bs = stats_text m ++ nl ++ dot_line ++ bs).
  { unfold stats_line, stats_text. by rewrite <- !app_assoc. }
  rewrite Hline in Hd. unfold in_u64 in *.
  destruct (read_one (stats_text m) bs c1) as [c2 ->]; [|done|apply stats_text_length|done|].
  - apply plain_reply; [unfold stats_text; absent..|apply stats_text_length].
  - rewrite decide_False by done. cbn [fst]. by rewrite scan_stats.
Qed.

Lemma stats_reach_client_witness :
  let m := mk_metrics 12 3 4096 (2 ^ 63) in
  let c := mk_conn (Os.RError EINTR :: each_byte (stats_line m ++ dot_line ++ []) ++ []) [] [] in
  (cmd_stats c).1 = Some [12; 3; 4096; 2 ^ 63].
Proof.
  cbv zeta. apply (stats_reach_client (mk_metrics 12 3 4096 (2 ^ 63)) []).
  1,2,3,4: unfold in_u64; cbn; lia.
  - constructor.
  - apply delivers_late, each_byte_delivers.
Defined.

(** * Configuration, through the server *)

Section Serve.
Context `{Inet}.
Variable realloc_ok : bool.

(** The server hears data and sends what it has to say. *)
Definition serve (data : list byte) (w : world) : res (list byte * world) :=
  MonProtocol.run realloc_ok true [Bytes data; Take MONITOR_BUFFER_SIZE] w.

(** An administrator is logged in, and nothing is under way. *)
Definition idle (c : conv) : Prop := c.(c_state) = MONITOR_ST_AUTHENTICATED /\ c.(c_pending) = [] /\
  c.(c_out) = [] /\ c.(c_room) = MONITOR_BUFFER_SIZE.

Lemma foldl_react_pending es p : forall c,
  foldl (fun c e => react realloc_ok e c) (c <| c_pending := p |>) es =
  (foldl (fun c e => react realloc_ok e c) c es) <| c_pending := p |>.
Proof. induction es as [|e es IH]; intros c; cbn [foldl]; [done|]. by rewrite react_pending, IH. Qed.

Lemma foldl_hear data : forall c, foldl (hear realloc_ok) c data =
  (foldl (fun c e => react realloc_ok e c) c (frames c.(c_pending) data).1)
    <| c_pending := (frames c.(c_pending) data).2 |>.
Proof.
  induction data as [|b data IH]; intros c; cbn [foldl frames]; [by destruct c|].
  rewrite IH, (hear_pending realloc_ok c b). unfold hear.
  destruct (frame (c_pending c) b) as [p [e|]]; cbn [fst]; destruct (frames p data) as [es q]; cbn [fst snd foldl];
    by rewrite ?react_pending, foldl_react_pending.
Qed.

(** Everything there is to say is sent. *)
Lemma take_all c t : c.(c_out) = t -> c.(c_room) = (MONITOR_BUFFER_SIZE - length t)%nat ->
  (length t <= MONITOR_BUFFER_SIZE)%nat ->
  exists c', converse realloc_ok (Take MONITOR_BUFFER_SIZE) c = (t, c') /\ c'.(c_state) = c.(c_state) /\
    c'.(c_pending) = c.(c_pending) /\ c'.(c_out) = [] /\ c'.(c_room) = MONITOR_BUFFER_SIZE /\
    c'.(c_store) = c.(c_store).
Proof.
  intros Hout. unfold converse. rewrite Hout. generalize MONITOR_BUFFER_SIZE. intros N Hroom Ht.
  rewrite (Nat.min_r _ _ Ht). destruct (decide (length t = 0%nat)) as [Hz|Hz].
  - apply length_zero_iff_nil in Hz. subst t. exists c. rewrite Hz in *. split_and!; try done. cbn in Hroom. lia.
  - eexists. split; [by rewrite take_ge by lia|]. cbn. rewrite Hout, drop_ge by lia. split_and!; try done. lia.
Qed.

Lemma react_answer l c ps os s' N : c.(c_state) = MONITOR_ST_AUTHENTICATED ->
  respond realloc_ok MONITOR_ST_AUTHENTICATED c.(c_store) c.(c_acl) l = mk_response ps os Stays ->
  StoreInv.run c.(c_store) os = Ok s' -> c.(c_out) = [] -> c.(c_room) = N ->
  let c1 := react realloc_ok (Line l) c in
  c_state c1 = MONITOR_ST_AUTHENTICATED /\ c_out c1 = fit N ps /\
  c_room c1 = (N - length (fit N ps))%nat /\ c_store c1 = s'.
Proof.
  intros Hst Hr Hs Ho HN. unfold react. rewrite Hst, Hr. unfold settle. cbn [says does becomes turn]. rewrite Hs.
  destruct c as [st cl pd o r s a]. cbn in *. by subst.
Qed.

(** One line, one answer. *)
Lemma serve_line w c l ps os s' : holds w c -> StoreInv.store_ok c.(c_store) -> idle c -> text_line l -> host_fits l ->
  respond realloc_ok MONITOR_ST_AUTHENTICATED c.(c_store) c.(c_acl) l = mk_response ps os Stays ->
  StoreInv.run c.(c_store) os = Ok s' ->
  exists w' c', serve (l ++ nl) w = Ok (fit MONITOR_BUFFER_SIZE ps, w') /\ holds w' c' /\ StoreInv.store_ok c'.(c_store) /\ idle c' /\
    c'.(c_store) = s'.
Proof.
  intros Hh Hok (I1 & I2 & I3 & I4) Hl Hfit Hr Hs.
  pose proof (frames_line (l, false) Hl) as Hfr. cbn [fst] in Hfr. unfold send_line in Hfr. cbn [fst snd] in Hfr.
  destruct (run_follows realloc_ok true (fun e => event_fits e) (fun _ => StoreInv.store_ok)) with
    (ins := [Bytes (l ++ nl); Take MONITOR_BUFFER_SIZE]) (w := w) (c := c) as (w' & Hrun & [Hh' Hok']).
  - intros l0 c0 He _ _. split; [done|exact He].
  - intros e c0. apply react_ok.
  - by split.
  - cbn [all_lines lines_in]. rewrite I2. change nl with [x0a]. rewrite Hfr. by apply Forall_singleton.
  - set (n := length (fit MONITOR_BUFFER_SIZE ps)).
    pose proof (fit_length MONITOR_BUFFER_SIZE ps) as Hn. fold n in Hn.
    set (c1 := foldl (hear realloc_ok) c (l ++ nl)).
    assert (Hc1 : c_state c1 = MONITOR_ST_AUTHENTICATED /\ c_pending c1 = [] /\
      c_out c1 = fit MONITOR_BUFFER_SIZE ps /\ c_room c1 = (MONITOR_BUFFER_SIZE - n)%nat /\ c_store c1 = s').
    { subst c1. rewrite foldl_hear, I2. change nl with [x0a]. rewrite Hfr. cbn [fst snd foldl].
      by destruct (react_answer l c ps os s' MONITOR_BUFFER_SIZE I1 Hr Hs I3 I4) as (? & ? & ? & ?). }
    destruct Hc1 as (J1 & J2 & J3 & J4 & J5).
    destruct (take_all c1 (fit MONITOR_BUFFER_SIZE ps) J3 J4 Hn) as (c2 & E2 & K1 & K2 & K3 & K4 & K5).
    assert (Hspec : run_spec realloc_ok [Bytes (l ++ nl); Take MONITOR_BUFFER_SIZE] c =
      (fit MONITOR_BUFFER_SIZE ps, c2)).
    { cbn [run_spec]. change (converse realloc_ok (Bytes (l ++ nl)) c) with (@nil byte, c1). cbn iota.
      rewrite E2. unfold prod_map. cbn [fst snd app]. by rewrite app_nil_r. }
    rewrite Hspec in Hrun, Hh', Hok'. exists w', c2. unfold serve. rewrite Hrun.
    split_and!; [done|done|done| |by rewrite K5, J5]. unfold idle. by rewrite K1, K2, K3, K4.
Qed.

(** ** The two lines, and the answers to them *)

Definition config_set (name : cstring) (v : Z) : cstring := line_of (words (ConfigSet name v)).
Definition config_get (name : cstring) : cstring := line_of (words (ConfigGet name)).

Lemma config_set_spaced name v : config_set name v = config_set_line name v 0 0.
Proof. done. Qed.
Lemma config_get_spaced name : config_get name = config_get_line name 0.
Proof. done. Qed.

Lemma plain_line l : x0a ∉ l -> x00 ∉ l -> x0d ∉ l -> (S (length l) < MONITOR_LINE_MAX)%nat -> text_line l.
Proof.
  intros H1 H2 H3 Hl. split; [done|done| |done]. intros [l' Hl']%last_Some. apply H3. rewrite Hl'. set_solver.
Qed.

Lemma param_plain name key c : store_config_key_from_name name = Some key ->
  c = x0a \/ c = x00 \/ c = x0d -> c ∉ name /\ (length name <= 20)%nat.
Proof.
  unfold store_config_key_from_name. intros Hk Hc.
  repeat (destruct (decide _) as [->|]; [split; [destruct Hc as [->|[->| ->]]; by_decision|vm_compute; lia]|]).
  done.
Qed.

Lemma set_text name key v : store_config_key_from_name name = Some key -> 0 <= v -> text_line (config_set name v).
Proof.
  intros Hk Hv. unfold config_set. cbn [words line_of fmap list_fmap spaced replicate app].
  assert (Habs : forall c, c = x0a \/ c = x00 \/ c = x0d -> c ∉ lit "CONFIG" ++ " "%byte :: name ++ " "%byte :: dec v ++ []).
  { intros c Hc. destruct (param_plain name key c Hk Hc) as [Hn _].
    assert (Hd : c ∉ dec v) by (apply dec_free; [done|by destruct Hc as [->|[->| ->]]]).
    assert (Hlit : c ∉ lit "CONFIG") by (destruct Hc as [->|[->| ->]]; by_decision).
    assert (c <> " "%byte) by (by destruct Hc as [->|[->| ->]]). set_solver. }
  destruct (param_plain name key x0a Hk) as [_ Hn]; [by left|].
  apply plain_line; [apply Habs; auto..|]. pose proof (dec_length v).
  rewrite length_app. cbn [length]. rewrite length_app. cbn [length]. rewrite length_app. cbn [length].
  change (length (lit "CONFIG")) with 6%nat. unfold MONITOR_LINE_MAX. lia.
Qed.

Lemma get_text name key : store_config_key_from_name name = Some key -> text_line (config_get name).
Proof.
  unfold store_config_key_from_name. intros Hk.
  repeat (destruct (decide _) as [->|]; [split; [by_decision|by_decision|done|vm_compute; lia]|]). done.
Qed.

(** The parameter's name and number are those the server reads. *)
Lemma first_word_fits l args : split_line l = lit "CONFIG" :: args -> host_fits l.
Proof. intros E. unfold host_fits. by rewrite E. Qed.

Lemma stored_u32 s key : config_ok s -> 0 <= store_config_get s key < 2 ^ 32.
Proof.
  intros [H1 H2 H3]. change STORE_SESSIONS_CAP_MAX with 16384 in *. destruct key; cbn; lia.
Qed.

(** ** What the client makes of the answers *)

Lemma client_ok text err_sz c bs : Forall patient c.(takes) -> delivers c.(inp) (ok_line ++ dot_line ++ bs) ->
  (cmd_simple text err_sz c).1 = inr tt.
Proof.
  intros Hp Hd. unfold cmd_simple. destruct (write_all_patient text c Hp) as (c1 & -> & _ & Hi). cbn [negb].
  rewrite <- Hi in Hd. destruct (read_one (lit "+OK") bs c1) as [c2 ->]; [|done| |exact Hd|done].
  - apply plain_reply; [by_decision..|vm_compute; lia].
  - vm_compute; lia.
Qed.

Lemma client_refused text err_sz c bs : Forall patient c.(takes) ->
  delivers c.(inp) (err "invalid value" ++ dot_line ++ bs) ->
  (cmd_simple text err_sz c).1 = inl (snprintf err_sz (lit "invalid value")).
Proof.
  intros Hp Hd. unfold cmd_simple. destruct (write_all_patient text c Hp) as (c1 & -> & _ & Hi). cbn [negb].
  rewrite <- Hi in Hd. destruct (read_one (lit "-ERR invalid value") bs c1) as [c2 ->]; [|done| |exact Hd|done].
  - apply plain_reply; [by_decision..|vm_compute; lia].
  - vm_compute; lia.
Qed.

Lemma client_gets name v err_sz c bs : Forall patient c.(takes) -> 0 <= v < 2 ^ 32 ->
  delivers c.(inp) ((lit "+OK " ++ dec v ++ nl) ++ dot_line ++ bs) ->
  (cmd_config_get name err_sz c).1 = inr v.
Proof.
  intros Hp Hv Hd. unfold cmd_config_get.
  destruct (write_all_patient (command (lit "CONFIG " ++ name ++ nl)) c Hp) as (c1 & -> & _ & Hi). cbn [negb].
  rewrite <- Hi in Hd. rewrite <- !app_assoc in Hd.
  assert (Hlen : (length (lit "+OK " ++ dec v) < MAX_RESP_LINE_LEN)%nat).
  { rewrite length_app. pose proof (dec_length v). change (length (lit "+OK ")) with 4%nat.
    change MAX_RESP_LINE_LEN with 256%nat. lia. }
  destruct (read_one (lit "+OK " ++ dec v) bs c1) as [c2 ->]; [|done|done|by rewrite <- app_assoc|].
  - apply plain_reply; [absent..|done].
  - change (error_of (lit "+OK " ++ dec v)) with (@None cstring). cbn iota.
    assert (Hscan : scan (format (lit "+OK ") ++ [DNum 32]) (lit "+OK " ++ dec v) = [v]).
    { trans (scan [DNum 32] (skip_space (dec v ++ []))).
      - by rewrite app_nil_r.
      - assert (Hsk : skip_space (dec v ++ []) = dec v ++ []).
        { destruct (dec_head v ltac:(lia)) as (d & t & E & Hdg). destruct (digit_ok d Hdg) as [_ H2].
          rewrite E. cbn [app skip_space]. unfold is_space. by rewrite H2, bool_decide_false by lia. }
        by rewrite Hsk, scan_dec by (done || lia). }
    by rewrite Hscan.
Qed.

Lemma get_said v : fit MONITOR_BUFFER_SIZE [Fmt (lit "+OK " ++ dec v ++ nl); Lit dot_line] =
  (lit "+OK " ++ dec v ++ nl) ++ dot_line.
Proof.
  assert (Hlen : (length (lit "+OK " ++ dec v ++ nl) <= 25)%nat).
  { rewrite !length_app. pose proof (dec_length v). change (length (lit "+OK ")) with 4%nat. cbn [length nl]. lia. }
  revert Hlen. generalize (lit "+OK " ++ dec v ++ nl). intros t Ht.
  assert (HM : (27 < MONITOR_BUFFER_SIZE)%nat) by (vm_compute; lia).
  rewrite fit_all; [done| |].
  - cbn [fmap list_fmap piece_text concat]. rewrite length_app. change (length (dot_line ++ [])) with 2%nat. lia.
  - apply Forall_cons; split; [lia|]. by apply Forall_singleton.
Qed.


End Serve.

Import SampleInet.

(** The administrator's session, as it is after AUTH and its answer. *)
Definition admin_session : monitor_commands_session :=
  MonCommands.mk_session MONITOR_ST_AUTHENTICATED (CBuffer.buffer_init MONITOR_BUFFER_SIZE sample_backing)
    sample_line 0 false.
Definition admin_world : world := mk_world admin_session sample_store.
Definition admin_conv : conv :=
  mk_conv MONITOR_ST_AUTHENTICATED false [] [] MONITOR_BUFFER_SIZE sample_store (Acl.mk_acl [] []).

Lemma admin_holds : holds admin_world admin_conv.
Proof.
  pose proof (init_holds sample_backing sample_line sample_store (Acl.mk_acl [] []) (length_replicate _ _)
    (length_replicate _ _) (proj2 sample_ok)) as [[[G1 G2 G3 G4] H1 H2 H3 H4 H5] Hs Ha].
  split; [|done|done]. split; [|done|done|done|exact H4|exact H5]. split; [exact G1|exact G2|exact G3|exact G4].
Qed.


End ClientAdmin.
