(* ===== verification/ClientUi.v ===== *)
(** The terminal of the administration client, src/client/ui.c: keys, answers,
    menus and what is printed. *)
From S2P Require Import Prelude Os MonCommands Client.
Local Open Scope Z_scope.

Module ClientUi.

(** * Interactive actions

    An action returns, waits at the terminal for what nobody has typed yet, or
    spins: the bound the model puts on a loop ran out. *)
Inductive outcome (S A : Type) :=
| Done (a : A) (s : S)
| Waits (s : S)
| Spins (s : S).
Arguments Done {S A} _ _.
Arguments Waits {S A} _.
Arguments Spins {S A} _.

Definition U (S A : Type) : Type := S -> outcome S A.
#[export] Instance U_ret S : MRet (U S) := fun A a s => Done a s.
#[export] Instance U_bind S : MBind (U S) := fun A B f m s =>
  match m s with Done a s' => f a s' | Waits s' => Waits s' | Spins s' => Spins s' end.

Definition spin {S A} : U S A := fun s => Spins s.
(** An action whose bound depends on the state it starts from. *)
Definition bounded {S A} (size : S -> nat) (m : nat -> U S A) : U S A := fun s => m (size s) s.

(** * The terminal

    [keys] is what each [read] of the terminal will answer, for all that has been
    typed; [ahead] are the bytes stdio has read and not handed out yet. *)
Record term := mk_term {
  keys : list Os.read_result;
  ahead : list byte;
  at_eof : bool;            (* stdin's end-of-file indicator *)
  c_lflag : Z;
  saved_term : Z;
  raw_active : bool;
  out : list byte;          (* stdout, oldest first *)
}.
#[export] Instance eta_term : Eta term := fun t =>
  mk_term t.(keys) t.(ahead) t.(at_eof) t.(c_lflag) t.(saved_term) t.(raw_active) t.(out).

Definition MAX_INPUT_LEN : nat := 200.
Definition ICANON : Z := 2.
Definition ECHO : Z := 8.

Definition KEY_NONE : Z := 0.
Definition KEY_UP : Z := 1.
Definition KEY_DOWN : Z := 2.
Definition KEY_ENTER : Z := 3.
Definition KEY_ESC : Z := 4.

Abbreviation M := (U term).
Definition upd (f : term -> term) : M unit := fun t => Done tt (f t).
Definition print (text : list byte) : M unit := upd (fun t => t <| out ::= (.++ text) |>).

Definition esc (text : cstring) : list byte := x1b :: text.

Definition term_enter_raw : M unit := upd (fun t =>
  t <| saved_term := t.(c_lflag) |>
    <| c_lflag := Z.land t.(c_lflag) (Z.lnot (Z.lor ICANON ECHO)) |>
    <| raw_active := true |>).

Definition term_exit_raw : M unit := upd (fun t =>
  if t.(raw_active) then t <| c_lflag := t.(saved_term) |> <| raw_active := false |> else t).

(** [read] of one byte: [None] unless it returns 1. *)
Definition read_byte : M (option byte) := fun t =>
  match t.(keys) with
  | [] => Waits t
  | Os.RData (b :: _) :: ks => Done (Some b) (t <| keys := ks |>)
  | _ :: ks => Done None (t <| keys := ks |>)
  end.

Definition term_getkey : M Z :=
  o ← read_byte;
  match o with
  | None => mret KEY_NONE
  | Some c =>
    if decide (c = x1b) then
      o ← read_byte;
      match o with
      | None => mret KEY_ESC
      | Some seq0 =>
        o ← read_byte;
        match o with
        | None => mret KEY_ESC
        | Some seq1 =>
          mret (if decide (seq0 = "["%byte) then
                  if decide (seq1 = "A"%byte) then KEY_UP
                  else if decide (seq1 = "B"%byte) then KEY_DOWN else KEY_ESC
                else KEY_ESC)
        end
      end
    else if decide (c = x0a \/ c = x0d) then mret KEY_ENTER
    else mret (bz c)
  end.

(** * Lines *)

(** Up to [room] bytes of what stdio has, through the first line end: those
    bytes, the rest, and whether [fgets] is done. *)
Fixpoint cut (room : nat) (s : list byte) : list byte * list byte * bool :=
  match room, s with
  | O, _ => ([], s, true)
  | S _, [] => ([], [], false)
  | S r, c :: s => if decide (c = x0a) then ([c], s, true)
                   else let '(p, s, full) := cut r s in (c :: p, s, full)
  end.

(** [fgets(buf, max, stdin)] with [room] bytes left: the bytes stored behind
    [line], or [None] for NULL. *)
Fixpoint fgets_loop (ks : list Os.read_result) (line s : list byte) (room : nat) (t : term)
  : outcome term (option (list byte)) :=
  let '(p, s, full) := cut room s in
  let line := line ++ p in
  if full : bool then Done (Some line) (t <| keys := ks |> <| ahead := s |>) else
  match ks with
  | [] => Waits (t <| keys := [] |> <| ahead := [] |>)
  | Os.RData [] :: ks =>
    Done (if decide (line = []) then None else Some line)
      (t <| keys := ks |> <| ahead := [] |> <| at_eof := true |>)
  | Os.RError _ :: ks => Done None (t <| keys := ks |> <| ahead := [] |>)
  | Os.RData bs :: ks => fgets_loop ks line bs (room - length p) t
  end.

(** Once the end has been seen [stdin] is not read again. *)
Definition fgets (max : nat) : M (option (list byte)) := fun t =>
  if t.(at_eof) then Done None t else fgets_loop t.(keys) [] t.(ahead) (max - 1) t.

Definition line_end (b : byte) : bool := bool_decide (b = x0a) || bool_decide (b = x0d).

(** The loop that takes line ends off [buf], of [len] bytes. *)
Fixpoint chop_ends (len : nat) (buf : cstring) : cstring :=
  match len with
  | O => []
  | S l => match buf !! l with
           | Some c => if line_end c then chop_ends l buf else take len buf
           | None => take len buf
           end
  end.

(** The string left in [buf]. *)
Definition answer (o : option (list byte)) : cstring :=
  match o with
  | None => []
  | Some line => let buf := c_str line in chop_ends (length buf) buf
  end.

Definition input_line (prompt : cstring) (max : nat) : M cstring :=
  print prompt ;;
  o ← fgets max;
  mret (answer o).

Definition input_password (prompt : cstring) (max : nat) : M cstring := fun t =>
  let old := t.(c_lflag) in
  (upd (fun t => t <| saved_term := old |> <| c_lflag := Z.land old (Z.lnot ECHO) |>) ;;
   print prompt ;;
   o ← fgets max;
   upd (fun t => t <| c_lflag := old |>) ;;
   print [x0a] ;;
   mret (answer o)) t.

(** [strtol(buf, &end, 10)]: the value and whether [*end] is the terminator;
    without digits [end] is [buf]. *)
Definition number_of (buf : cstring) : Z * bool :=
  let '(val, any, rest) := MonCommands.strtol buf in
  (val, if any : bool then bool_decide (rest = []) else bool_decide (buf = [])).

Definition dec_long (z : Z) : cstring := if decide (z < 0) then "-"%byte :: dec (- z) else dec z.

Fixpoint number_loop (fuel : nat) (prompt : cstring) (min max : Z) : M Z :=
  buf ← input_line prompt 64;
  let '(val, whole) := number_of buf in
  if decide (whole = true /\ min <= val <= max) then mret val else
  print (lit "  Invalid (range " ++ dec_long min ++ lit "-" ++ dec_long max ++ lit ")" ++ [x0a]) ;;
  match fuel with O => spin | S fuel => number_loop fuel prompt min max end.

(** What is left to be read: a bound on the calls of [fgets] before they all
    fail. *)
Definition data_of (r : Os.read_result) : list byte := match r with Os.RData bs => bs | Os.RError _ => [] end.
Definition left_to_read (t : term) : nat :=
  (length t.(ahead) + length (concat (data_of <$> t.(keys))) + length t.(keys))%nat.

Definition input_number (prompt : cstring) (min max : Z) : M Z :=
  bounded left_to_read (fun fuel => number_loop fuel prompt min max).

Definition wait_enter : M unit :=
  print (x0a :: lit "Press Enter to continue...") ;;
  _ ← fgets 64;
  mret tt.

(** * Menus *)

Definition mark (sel i : nat) : byte := if decide (i = sel) then ">"%byte else " "%byte.

(** The items, each line behind [start], and the help line. *)
Definition picture (start : list byte) (items : list cstring) (sel : nat) : list byte :=
  concat (imap (fun i item => start ++ mark sel i :: " "%byte :: item ++ [x0a]) items).
Definition help (quit_label : cstring) : list byte :=
  lit "[Enter] Select  [" ++ [xe2; x86; x91; xe2; x86; x93] ++ lit "] Navigate  [q] " ++ quit_label ++ [x0a].

Definition first_picture (items : list cstring) (quit_label : cstring) : list byte :=
  x0a :: picture [] items 0 ++ x0a :: help quit_label.

Definition clear_line : list byte := x0d :: esc (lit "[K").
Definition redrawn (items : list cstring) (quit_label : cstring) (sel : nat) : list byte :=
  esc (lit "[" ++ dec (Z.of_nat (length items) + 3) ++ lit "A") ++ clear_line ++ [x0a] ++
  picture clear_line items sel ++ clear_line ++ [x0a] ++ clear_line ++ help quit_label.

(** [fuel]: the reads that can be answered. *)
Fixpoint menu_loop (fuel : nat) (items : list cstring) (quit_label : cstring) (sel : Z) : M Z :=
  let count := Z.of_nat (length items) in
  let again (sel : Z) : M Z := match fuel with O => spin | S fuel => menu_loop fuel items quit_label sel end in
  let redraw (sel : Z) : M Z := print (redrawn items quit_label (Z.to_nat sel)) ;; again sel in
  key ← term_getkey;
  if decide (key = KEY_UP) then redraw (Z.rem (sel - 1 + count) count)
  else if decide (key = KEY_DOWN) then redraw (Z.rem (sel + 1) count)
  else if decide (key = KEY_ENTER) then term_exit_raw ;; mret sel
  else if decide (key = KEY_ESC \/ key = bz "q"%byte) then term_exit_raw ;; mret (count - 1)
  else again sel.

Definition select_menu (items : list cstring) (quit_label : cstring) : M Z :=
  print (first_picture items quit_label) ;;
  term_enter_raw ;;
  bounded (fun t => length t.(keys)) (fun fuel => menu_loop fuel items quit_label 0).

(** * Texts *)

(** [(double)bytes]: the nearest multiple of a power of two with 53 bits of
    mantissa, ties to the even one. *)
Definition round_even (n d : Z) : Z :=
  let q := n / d in
  let r := n mod d in
  if decide (2 * r < d) then q else if decide (d < 2 * r) then q + 1 else q + q mod 2.
Definition to_double (bytes : Z) : Z :=
  let ulp := 2 ^ (Z.log2 bytes - 52) in
  if decide (bytes < 2 ^ 53) then bytes else round_even bytes ulp * ulp.

(** ["%.1f"] of [bytes / unit]. *)
Definition tenths (bytes unit : Z) : cstring :=
  let v := round_even (to_double bytes * 10) unit in dec (v / 10) ++ lit "." ++ dec (v mod 10).

Definition fmt_bytes (bytes : Z) : cstring :=
  Client.snprintf 32
    (if decide (bytes >= 1073741824) then tenths bytes 1073741824 ++ lit " GiB"
     else if decide (bytes >= 1048576) then tenths bytes 1048576 ++ lit " MiB"
     else if decide (bytes >= 1024) then tenths bytes 1024 ++ lit " KiB"
     else dec bytes ++ lit " B").

Definition show_line (line : cstring) : cstring :=
  lit "  " ++ (if decide (take 4 line = lit "+OK ") then drop 4 line else line) ++ [x0a].

Definition show_lines (title : cstring) (lines : list cstring) (skip : nat) : M unit :=
  print (x0a :: title ++ [x0a] ++ concat (show_line <$> drop skip lines)).

End ClientUi.
