(* ===== verification/ClientMain.v ===== *)
(** The administration client's screens and [main], src/client/main.c. *)
From S2P Require Import Prelude Request Os MonCommands Flags Client ClientUi.
Import Client ClientUi.
Local Open Scope Z_scope.

Module ClientMain.

Record config_param := mk_param {
  name : cstring;
  label : cstring;
  min : Z;
  max : Z;
  value : Z;
}.
#[export] Instance eta_param : Eta config_param := fun p =>
  mk_param p.(name) p.(label) p.(min) p.(max) p.(value).

Definition CFG_TIMEOUT_DEFAULT : Z := 0.
Definition CFG_MAX_CONN_DEFAULT : Z := 1024.
Definition CFG_IO_BUF_DEFAULT : Z := 4096.

Definition params_initial : list config_param := [
  mk_param (lit "timeout") (lit "Max idle time (seconds)") 0 86400 CFG_TIMEOUT_DEFAULT;
  mk_param (lit "max_connections") (lit "Max concurrent conns") 1 16384 CFG_MAX_CONN_DEFAULT;
  mk_param (lit "io_buffer_size") (lit "I/O buffer size (bytes)") 1024 65536 CFG_IO_BUF_DEFAULT].
Definition config_count : nat := 3.

(** The process: the terminal, the connection behind [fd], the static array and
    what went to stderr. *)
Record client := mk_client {
  tty : term;
  fd : conn;
  params : list config_param;
  errors : list byte;
}.
#[export] Instance eta_client : Eta client := fun a => mk_client a.(tty) a.(fd) a.(params) a.(errors).

Abbreviation M := (U client).

Definition term_do {A} (m : U term A) : M A := fun a =>
  match m a.(tty) with
  | Done x t => Done x (a <| tty := t |>)
  | Waits t => Waits (a <| tty := t |>)
  | Spins t => Spins (a <| tty := t |>)
  end.
Definition server {A} (f : conn -> A * conn) : M A := fun a =>
  let '(x, c) := f a.(fd) in Done x (a <| fd := c |>).
Definition gets {A} (f : client -> A) : M A := fun a => Done (f a) a.
Definition modify (f : client -> client) : M unit := fun a => Done tt (f a).
Definition say (text : list byte) : M unit := term_do (print text).
Definition complain (text : list byte) : M unit := modify (fun a => a <| errors ::= (.++ text) |>).

Definition save_cursor : list byte := esc (lit "[s").
Definition restore_cursor : list byte := esc (lit "[u") ++ esc (lit "[J").
Definition up_lines (n : Z) : list byte := esc (lit "[" ++ dec n ++ lit "A") ++ esc (lit "[J").
Definition hide_cursor : list byte := esc (lit "[?25l").
Definition show_cursor : list byte := esc (lit "[?25h").

(** ["%-<n>s"]. *)
Definition pad (n : nat) (s : cstring) : cstring := s ++ replicate (n - length s) " "%byte.

(** * Configuration values *)

Fixpoint fetch_loop (todo : nat) (i : nat) : M bool :=
  match todo with
  | O => mret true
  | S todo =>
    p ← gets (fun a => a.(params) !! i);
    match p with
    | None => mret true
    | Some p =>
      val ← server (cmd_config_get p.(name) MAX_RESP_LINE_LEN);
      match val with
      | inl _ => mret false
      | inr val =>
        modify (fun a => a <| params ::= alter (set value (fun _ => val)) i |>) ;;
        fetch_loop todo (S i)
      end
    end
  end.

Definition fetch_config_values : M bool := fetch_loop config_count 0.

(** * The screens *)

(** What the buffer [screen_del_user] reads its confirmation into holds before. *)
Variant leftover := Leftover (b : byte).

Section Screens.
Variable stale : leftover.

Definition stale_byte : byte := let '(Leftover b) := stale in b.

(** The terminal's reads that can be answered. *)
Definition answers (a : client) : nat := length a.(tty).(keys).

(** The text for a command's result. *)
Definition report (done : cstring) (r : result) : M unit :=
  say match r with
      | inr _ => lit "  " ++ done ++ nl
      | inl err => lit "  Error: " ++ err ++ nl
      end.

Fixpoint login_loop (fuel : nat) : M bool :=
  say nl ;;
  user ← term_do (input_line (lit "Username: ") MAX_INPUT_LEN);
  if decide (user = []) then say restore_cursor ;; mret false else
  pass ← term_do (input_password (lit "Password: ") MAX_INPUT_LEN);
  say (lit "Authenticating..." ++ nl) ;;
  r ← server (cmd_auth user pass MAX_RESP_LINE_LEN);
  match r with
  | inr _ => say restore_cursor ;; say (lit "User: " ++ user ++ nl) ;; mret true
  | inl err =>
    say (lit "Error: " ++ err ++ nl) ;;
    say (lit "[Enter] Retry  [q] Quit" ++ nl) ;;
    term_do term_enter_raw ;;
    key ← term_do term_getkey;
    term_do term_exit_raw ;;
    if decide (key = bz "q"%byte \/ key = KEY_ESC) then mret false else
    say restore_cursor ;;
    match fuel with O => spin | S fuel => login_loop fuel end
  end.

Definition screen_login : M bool :=
  say save_cursor ;; bounded answers login_loop.

Definition stat (name : cstring) (v : Z) : cstring := lit "  " ++ pad 22 name ++ lit " " ++ dec v ++ nl.

Definition screen_stats : M unit :=
  say (nl ++ lit "Stats" ++ nl) ;;
  r ← server cmd_stats;
  match r with
  | None => say (lit "  Error fetching stats" ++ nl)
  | Some vs =>
    say (stat (lit "Total connections:") (nth 0 vs 0)) ;;
    say (stat (lit "Active connections:") (nth 1 vs 0)) ;;
    say (stat (lit "Bytes uploaded:") (nth 2 vs 0)) ;;
    say (stat (lit "Bytes downloaded:") (nth 3 vs 0))
  end ;;
  term_do wait_enter.

Definition screen_connections : M unit :=
  count ← server (cmd_connections MAX_RESP_LINES);
  match count with
  | None => say (nl ++ lit "  Error fetching connections" ++ nl)
  | Some lines =>
    if decide (lines = [lit "+OK"])
    then say (nl ++ lit "Active connections" ++ nl ++ lit "  No active connections o7" ++ nl)
    else term_do (show_lines (lit "Active connections") lines 0)
  end ;;
  term_do wait_enter.

Definition screen_users : M unit :=
  count ← server (cmd_users MAX_RESP_LINES);
  match count with
  | None => say (nl ++ lit "  Error fetching users" ++ nl)
  | Some lines => term_do (show_lines (lit "Registered users") lines 0)
  end ;;
  term_do wait_enter.

Definition config_label (p : config_param) : cstring :=
  snprintf 64 (pad 30 p.(label) ++ lit " [" ++ dec p.(value) ++ lit "]").

(** The menu chose parameter [sel]. *)
Definition change_param (sel : nat) (p : config_param) : M unit :=
  say (up_lines (Z.of_nat config_count + 4)) ;;
  say (nl ++ p.(label) ++ nl) ;;
  val ← term_do (input_number (lit "  New value: ") p.(min) p.(max));
  say nl ;;
  r ← server (cmd_config p.(name) (u32 val) MAX_RESP_LINE_LEN);
  match r with
  | inr _ =>
    modify (fun a => a <| params ::= alter (set value (fun _ => u32 val)) sel |>) ;;
    say (lit "  Configuration updated o7" ++ nl)
  | inl err => say (lit "  Error: " ++ err ++ nl)
  end ;;
  term_do wait_enter ;;
  say restore_cursor.

Fixpoint config_loop (fuel : nat) : M unit :=
  labels ← gets (fun a => config_label <$> a.(params));
  say save_cursor ;;
  sel ← term_do (select_menu (labels ++ [lit "Back"]) (lit "Back"));
  p ← gets (fun a => if decide (0 <= sel < Z.of_nat config_count) then a.(params) !! Z.to_nat sel else None);
  match p with
  | None => say restore_cursor
  | Some p =>
    change_param (Z.to_nat sel) p ;;
    match fuel with O => spin | S fuel => config_loop fuel end
  end.

Definition screen_config : M unit :=
  fetched ← fetch_config_values;
  if fetched : bool then bounded answers config_loop else
  say (nl ++ lit "  Warning: could not refresh configuration from server" ++ nl) ;;
  term_do wait_enter.

Definition screen_add_user : M unit :=
  say (nl ++ lit "Add user" ++ nl) ;;
  user ← term_do (input_line (lit "  Username: ") MAX_INPUT_LEN);
  if decide (user = []) then mret tt else
  pass ← term_do (input_password (lit "  Password: ") MAX_INPUT_LEN);
  if decide (pass = []) then mret tt else
  err ← term_do (input_line (lit "Admin? (y/n): ") MAX_RESP_LINE_LEN);
  let admin := bool_decide (head err = Some "y"%byte \/ head err = Some "Y"%byte) in
  say nl ;;
  r ← server (cmd_add_user user pass admin MAX_RESP_LINE_LEN);
  report (lit "User created o7") r ;;
  term_do wait_enter.

Definition screen_del_user : M unit :=
  say (nl ++ lit "Delete user" ++ nl) ;;
  user ← term_do (input_line (lit "  Username: ") MAX_INPUT_LEN);
  if decide (user = []) then mret tt else
  say (lit "  Delete '" ++ user ++ lit "'? (y/N): ") ;;
  o ← term_do (fgets 64);
  let buf0 := match o with Some (b :: _) => b | _ => stale_byte end in
  if decide (buf0 <> "y"%byte /\ buf0 <> "Y"%byte) then say (lit "  Cancelled." ++ nl) else
  say nl ;;
  r ← server (cmd_del_user user MAX_RESP_LINE_LEN);
  report (lit "User deleted o7") r ;;
  term_do wait_enter.

Definition screen_set_password : M unit :=
  say (nl ++ lit "Change password" ++ nl) ;;
  user ← term_do (input_line (lit "  Username: ") MAX_INPUT_LEN);
  if decide (user = []) then mret tt else
  pass ← term_do (input_password (lit "  New password: ") MAX_INPUT_LEN);
  if decide (pass = []) then mret tt else
  say nl ;;
  r ← server (cmd_set_password user pass MAX_RESP_LINE_LEN);
  report (lit "Password updated o7") r ;;
  term_do wait_enter.

Definition screen_access_log : M unit :=
  count ← server (cmd_access_log None MAX_RESP_LINES);
  match count with
  | None => say (nl ++ lit "  Error fetching access log" ++ nl)
  | Some lines => term_do (show_lines (lit "Access log") lines 1)
  end ;;
  term_do wait_enter.

Definition screen_deny_host : M unit :=
  say (nl ++ lit "Deny host" ++ nl) ;;
  hostname ← term_do (input_line (lit "  Hostname: ") MAX_INPUT_LEN);
  if decide (hostname = []) then mret tt else
  say nl ;;
  r ← server (cmd_deny_host hostname MAX_RESP_LINE_LEN);
  report (lit "Host denied o7") r ;;
  term_do wait_enter.

Definition screen_deny_ip : M unit :=
  say (nl ++ lit "Deny IP" ++ nl) ;;
  ip ← term_do (input_line (lit "  IP address: ") MAX_INPUT_LEN);
  if decide (ip = []) then mret tt else
  say nl ;;
  r ← server (cmd_deny_ip ip MAX_RESP_LINE_LEN);
  report (lit "IP denied o7") r ;;
  term_do wait_enter.

Definition screen_undeny : M unit :=
  say (nl ++ lit "Undeny" ++ nl) ;;
  target ← term_do (input_line (lit "  Hostname or IP: ") MAX_INPUT_LEN);
  if decide (target = []) then mret tt else
  say nl ;;
  r ← server (cmd_undeny target MAX_RESP_LINE_LEN);
  report (lit "Rule removed o7") r ;;
  term_do wait_enter.

Definition screen_deny_list : M unit :=
  count ← server (cmd_deny_list MAX_RESP_LINES);
  match count with
  | None => say (nl ++ lit "  Error fetching deny list" ++ nl)
  | Some lines => term_do (show_lines (lit "Denied hosts and IPs") lines 0)
  end ;;
  term_do wait_enter.

(** * The main menu *)

Definition main_menu : list (cstring * option (M unit)) := [
  (lit "Stats", Some screen_stats);
  (lit "Active connections", Some screen_connections);
  (lit "Registered users", Some screen_users);
  (lit "Configuration", Some screen_config);
  (lit "Add user", Some screen_add_user);
  (lit "Delete user", Some screen_del_user);
  (lit "Change password", Some screen_set_password);
  (lit "Access log", Some screen_access_log);
  (lit "Deny host", Some screen_deny_host);
  (lit "Deny IP", Some screen_deny_ip);
  (lit "Undeny", Some screen_undeny);
  (lit "Deny list", Some screen_deny_list);
  (lit "Quit", None)].
Definition menu_count : Z := Z.of_nat (length main_menu).

Fixpoint main_menu_loop (fuel : nat) : M unit :=
  say save_cursor ;;
  opt ← term_do (select_menu main_menu.*1 (lit "Quit"));
  if decide (opt >= menu_count \/ opt < 0) then mret tt else
  match main_menu !! Z.to_nat opt with
  | Some (_, Some handler) =>
    say (up_lines (menu_count + 3)) ;;
    handler ;;
    say restore_cursor ;;
    match fuel with O => spin | S fuel => main_menu_loop fuel end
  | _ => mret tt
  end.

Definition screen_main_menu : M unit := bounded answers main_menu_loop.

(** * main *)

(** The server's greeting; [fuel]: the reads still to be answered. *)
Definition skip_greeting : M unit := fun a =>
  match quit_loop (length a.(fd).(inp)) a.(fd) with
  | Ok c => Done tt (a <| fd := c |>)
  | Fault _ => Spins a
  end.

Definition quit : M unit := fun a =>
  match cmd_quit a.(fd) with Ok c => Done tt (a <| fd := c |>) | Fault _ => Spins a end.

(** [main] once the connection is made, up to its [return]. *)
Definition session (port : Z) : M unit :=
  skip_greeting ;;
  say (lit "Connected." ++ nl ++ nl) ;;
  say (esc (lit "[3A") ++ esc (lit "[J")) ;;
  say (lit "ChungusMonitor v1.0 - 127.0.0.1:" ++ dec port ++ nl ++ hide_cursor) ;;
  logged_in ← screen_login;
  if negb logged_in then mret tt else
  fetched ← fetch_config_values;
  (if fetched : bool then mret tt
   else complain (lit "Warning: could not load server configuration" ++ nl)) ;;
  screen_main_menu ;;
  say (show_cursor ++ nl ++ lit "Disconnecting..." ++ nl) ;;
  quit.

(** What the command line asks for. *)
Inductive launch := Usage | Help | Connect (port : Z).

Definition launch_of (opts : list (byte * option cstring)) : launch :=
  let '(rc, f) := Flags.setup_flags (lit "p:h") opts Flags.zero_flags in
  if decide (rc <> 0) then Usage else
  if Flags.has_flag f "h"%byte then Help else
  if Flags.has_flag f "p"%byte then
    let value := Flags.get_flag_long f "p"%byte in
    if decide (value <= 0 \/ value > 65535) then Usage else Connect (u16 value)
  else Connect 8080.

Definition EXIT_SUCCESS : Z := 0.
Definition EXIT_FAILURE : Z := 1.

Context {H D P E : Type} {OS : Os.Os E}.

(** [argv0] is the program's name, [why] the text of [strerror]; the bytes of
    the connection are those of [a]. *)
Definition main (argv0 why : cstring) (opts : list (byte * option cstring)) (a : client)
  : Os.M H D P E (outcome client Z) :=
  let usage (status : Z) : Os.M H D P E (outcome client Z) :=
    mret (Done status (a <| errors ::= (.++ lit "Usage: " ++ argv0 ++ lit " [-p port]" ++ nl) |>)) in
  match launch_of opts with
  | Usage => usage EXIT_FAILURE
  | Help => usage EXIT_SUCCESS
  | Connect port =>
    let a := a <| tty ::= set out (.++ lit "Connecting to 127.0.0.1:" ++ dec port ++ lit "..." ++ nl) |> in
    sock ← connect_server (lit "127.0.0.1") port;
    if decide (sock < 0)
    then mret (Done EXIT_FAILURE (a <| errors ::= (.++ lit "Error: " ++ why ++ nl) |>)) else
    match session port a with
    | Done _ a => Os.close sock ;; mret (Done EXIT_SUCCESS a)
    | Waits a => mret (Waits a)
    | Spins a => mret (Spins a)
    end
  end.

End Screens.

End ClientMain.
