(* ===== verification/ClientKeys.v ===== *)
(** What the terminal functions of src/client/ui.c promise: rules for actions
    that may wait or spin, keys, menus. *)
From S2P Require Import Prelude Os MonCommands Client ClientWire ClientUi.
Import Client ClientWire ClientUi.
Local Open Scope Z_scope.

Module ClientKeys.

(** * Rules for interactive actions

    [wp W X m Q s]: from [s] the action returns and [Q] holds of its result, or
    it waits in a state of [W], or it spins in a state of [X]. *)
Section Rules.
Context {S : Type} (W X : S -> Prop).

Definition wp {A} (m : U S A) (Q : A -> S -> Prop) (s : S) : Prop :=
  match m s with Done a s' => Q a s' | Waits s' => W s' | Spins s' => X s' end.

Lemma wps_mono {A} (m : U S A) (Q R : A -> S -> Prop) s :
  wp m Q s -> (forall a s', Q a s' -> R a s') -> wp m R s.
Proof. unfold wp. destruct (m s); auto. Qed.
Lemma wps_ret {A} (a : A) Q s : Q a s -> wp (mret a) Q s.
Proof. done. Qed.
Lemma wps_bind {A B} (m : U S A) (f : A -> U S B) Q s :
  wp m (fun a => wp (f a) Q) s -> wp (m ≫= f) Q s.
Proof. unfold wp, mbind, U_bind. by destruct (m s). Qed.
Lemma wps_spin {A} (Q : A -> S -> Prop) s : X s -> wp spin Q s.
Proof. done. Qed.
Lemma wps_bounded {A} size (m : nat -> U S A) Q s : wp (m (size s)) Q s -> wp (bounded size m) Q s.
Proof. done. Qed.

End Rules.

Lemma wps_weaken {S} (W W' X X' : S -> Prop) {A} (m : U S A) (Q R : A -> S -> Prop) s :
  wp W X m Q s -> (forall a s', Q a s' -> R a s') -> (forall s', W s' -> W' s') ->
  (forall s', X s' -> X' s') -> wp W' X' m R s.
Proof. unfold wp. destruct (m s); auto. Qed.

Lemma wps_upd W X f (Q : unit -> term -> Prop) t : Q tt (f t) -> wp W X (upd f) Q t.
Proof. done. Qed.
Lemma wps_print W X text (Q : unit -> term -> Prop) t :
  Q tt (t <| out ::= (.++ text) |>) -> wp W X (print text) Q t.
Proof. done. Qed.

Lemma printed_nothing t ks : t <| keys := ks |> <| out ::= (.++ []) |> = t <| keys := ks |>.
Proof. destruct t; cbv; f_equal. apply app_nil_r. Qed.
Lemma printed_more t ks ks' a b :
  t <| keys := ks |> <| out ::= (.++ a) |> <| keys := ks' |> <| out ::= (.++ b) |> =
  t <| keys := ks' |> <| out ::= (.++ a ++ b) |>.
Proof. unfold set; cbn. by rewrite app_assoc. Qed.

Lemma print_then {A} text (m : U term A) t : (print text ;; m) t = m (t <| out ::= (.++ text) |>).
Proof. done. Qed.

(** * Keys *)

(** What a person may do with a menu; [Other] keys mean nothing to it. *)
Inductive press := Up | Down | Return (c : byte) | Leave (c : list byte) | Other (c : byte).

Definition struck (p : press) : list byte :=
  match p with
  | Up => esc (lit "[A")
  | Down => esc (lit "[B")
  | Return c | Other c => [c]
  | Leave c => c
  end.

(** A letter q, or the escape key with two more bytes that are no arrow. *)
Definition leaves (c : list byte) : Prop :=
  c = lit "q" \/ exists c1 c2, c = esc [c1; c2] /\ (c1 = "["%byte -> c2 <> "A"%byte /\ c2 <> "B"%byte).
Definition meaningless (c : byte) : Prop :=
  c <> x1b /\ line_end c = false /\ c <> "q"%byte /\ (bz c = 0 \/ 4 < bz c).
Definition moves (p : press) : Prop :=
  match p with Up | Down => True | Other c => meaningless c | _ => False end.
Definition chooses (p : press) : Prop :=
  match p with Return c => line_end c = true | Leave c => leaves c | _ => False end.

Definition key_of (p : press) : Z :=
  match p with
  | Up => KEY_UP
  | Down => KEY_DOWN
  | Return _ => KEY_ENTER
  | Leave [_] => bz "q"%byte
  | Leave _ => KEY_ESC
  | Other c => bz c
  end.

(** The terminal in which the next keys are [p]. *)
Definition typing (bs : list byte) (rest : list Os.read_result) (t : term) : Prop :=
  t.(keys) = each_byte bs ++ rest.

Lemma read_byte_typing b bs rest t : typing (b :: bs) rest t ->
  read_byte t = Done (Some b) (t <| keys := each_byte bs ++ rest |>).
Proof. unfold typing, read_byte. by intros ->. Qed.

Lemma line_end_spec b : line_end b = true <-> b = x0a \/ b = x0d.
Proof. unfold line_end. rewrite orb_true_iff, !bool_decide_eq_true. done. Qed.

Lemma getkey_typing p bs rest t : moves p \/ chooses p -> typing (struck p ++ bs) rest t ->
  term_getkey t = Done (key_of p) (t <| keys := each_byte bs ++ rest |>).
Proof.
  intros Hp Ht. unfold term_getkey, mbind, U_bind. destruct p as [| |c|c|c]; cbn [struck app esc lit] in Ht.
  1,2: rewrite (read_byte_typing _ _ _ _ Ht), decide_True by done; reflexivity.
  - destruct Hp as [[]|Hc]. cbn in Hc. rewrite (read_byte_typing _ _ _ _ Ht).
    apply line_end_spec in Hc. rewrite decide_False by (destruct Hc as [-> | ->]; done). by rewrite decide_True.
  - destruct Hp as [[]|[->|(c1 & c2 & -> & Hc)]].
    + by rewrite (read_byte_typing _ _ _ _ Ht).
    + cbn in Ht. rewrite (read_byte_typing _ _ _ _ Ht), decide_True by done. cbn.
      case_decide as H1; [|done]. destruct (Hc H1) as [H2 H3]. by rewrite !decide_False.
  - destruct Hp as [(H1 & H2 & _)|[]]. rewrite (read_byte_typing _ _ _ _ Ht), decide_False by done.
    rewrite decide_False; [done|]. intros Hl%line_end_spec. congruence.
Qed.

(** Whatever was typed, a key takes some of it and nothing else changes. *)
Lemma rule_getkey (W X : term -> Prop) Q t :
  (forall k ks, (length ks < length t.(keys))%nat -> Q k (t <| keys := ks |>)) ->
  W (t <| keys := [] |>) -> wp W X term_getkey Q t.
Proof.
  intros HQ HW. unfold wp, term_getkey, mbind, U_bind, read_byte. destruct (keys t) as [|k1 ks1] eqn:E1.
  { destruct t; cbn in *; by subst. }
  assert (Hin : forall k ks, (length ks <= length ks1)%nat -> Q k (t <| keys := ks |>)).
  { intros k ks Hks. apply HQ. cbn. lia. }
  destruct k1 as [[|c l]|e]; try (by apply Hin). case_decide; [|by case_decide; apply Hin].
  cbn. destruct ks1 as [|k2 ks2]; [done|]. destruct k2 as [[|c2 l2]|e]; try (apply Hin; cbn; lia). cbn.
  destruct ks2 as [|k3 ks3]; [done|]. destruct k3 as [[|c3 l3]|e]; apply Hin; cbn; lia.
Qed.

(** * Menus *)

Section Menu.
Variables (items : list cstring) (quit_label : cstring).
Abbreviation count := (Z.of_nat (length items)).

(** Where a key moves the mark. *)
Definition moved (sel : Z) (p : press) : Z :=
  match p with Up => (sel - 1) mod count | Down => (sel + 1) mod count | _ => sel end.

(** What is drawn meanwhile. *)
Fixpoint drawn (sel : Z) (ps : list press) : list byte :=
  match ps with
  | [] => []
  | p :: ps =>
    match p with Up | Down => redrawn items quit_label (Z.to_nat (moved sel p)) | _ => [] end ++ drawn (moved sel p) ps
  end.

Definition chosen (sel : Z) (p : press) : Z := match p with Return _ => sel | _ => count - 1 end.

(** The mark after some keys. *)
Definition steps (ps : list press) : Z :=
  Z.of_nat (Prelude.count (fun p => match p with Down => true | _ => false end) ps) -
  Z.of_nat (Prelude.count (fun p => match p with Up => true | _ => false end) ps).

Lemma wrap_up sel : 0 <= sel < count -> Z.rem (sel - 1 + count) count = (sel - 1) mod count.
Proof. intros Hs. rewrite Z.rem_mod_nonneg by lia. rewrite <- (Z.mod_add (sel - 1) 1 count) by lia. f_equal. lia. Qed.
Lemma wrap_down sel : 0 <= sel < count -> Z.rem (sel + 1) count = (sel + 1) mod count.
Proof. intros Hs. by rewrite Z.rem_mod_nonneg by lia. Qed.

Lemma moved_range sel p : 0 <= sel < count -> 0 <= moved sel p < count.
Proof. intros Hs. destruct p; cbn; try done; apply Z.mod_pos_bound; lia. Qed.

Lemma moved_steps ps : forall sel, 0 <= sel < count -> foldl moved sel ps = (sel + steps ps) mod count.
Proof.
  unfold steps, Prelude.count. induction ps as [|p ps IH]; intros sel Hs; cbn [foldl List.filter].
  { rewrite Z.mod_small; cbn; lia. }
  rewrite IH by (by apply moved_range).
  destruct p; cbn [moved length]; rewrite ?Zplus_mod_idemp_l; f_equal; lia.
Qed.

(** The keys read before the loop ends leave fuel enough for the rest. *)
Lemma menu_loop_typing ps : forall fuel sel last rest t, 0 <= sel < count -> Forall moves ps -> chooses last ->
  typing (concat (struck <$> ps) ++ struck last) rest t -> (length ps < fuel)%nat ->
  menu_loop fuel items quit_label sel t =
    (term_exit_raw ;; mret (chosen (foldl moved sel ps) last))
      (t <| keys := rest |> <| out ::= (.++ drawn sel ps) |>).
Proof.
  induction ps as [|p ps IH]; intros fuel sel fin rest t Hs Hps Hl Ht Hf;
    (destruct fuel as [|fuel]; [cbn in Hf; lia|]); cbn [menu_loop]; unfold mbind at 1, U_bind at 1.
  - cbn in Ht. rewrite <- (app_nil_r (struck fin)) in Ht. rewrite (getkey_typing _ _ _ _ (or_intror Hl) Ht).
    cbn [each_byte fmap list_fmap app foldl drawn]. destruct fin as [| |c|c|c]; try done.
    + rewrite !decide_False, decide_True by done. cbn [chosen]. by rewrite printed_nothing.
    + assert (Hk : key_of (Leave c) = KEY_ESC \/ key_of (Leave c) = bz "q"%byte).
      { destruct Hl as [->|(c1 & c2 & -> & _)]; [by right|by left]. }
      rewrite (decide_False (P := key_of (Leave c) = KEY_UP)) by (destruct Hk as [-> | ->]; done).
      rewrite (decide_False (P := key_of (Leave c) = KEY_DOWN)) by (destruct Hk as [-> | ->]; done).
      rewrite (decide_False (P := key_of (Leave c) = KEY_ENTER)) by (destruct Hk as [-> | ->]; done).
      rewrite decide_True by done. by rewrite printed_nothing.
  - apply Forall_cons in Hps as [Hp Hps]. cbn [fmap list_fmap concat] in Ht. rewrite <- app_assoc in Ht.
    rewrite (getkey_typing _ _ _ _ (or_introl Hp) Ht). cbn [foldl drawn].
    cbn [length] in Hf.
    destruct p as [| |c|c|c]; try done; cbn [key_of moved].
    + rewrite decide_True by done. rewrite wrap_up by done. rewrite print_then.
      rewrite (IH fuel _ fin rest); [|by apply (moved_range sel Up)|done|done|done|lia].
      by rewrite printed_more.
    + rewrite decide_False, decide_True by done. rewrite wrap_down by done. rewrite print_then.
      rewrite (IH fuel _ fin rest); [|by apply (moved_range sel Down)|done|done|done|lia].
      by rewrite printed_more.
    + destruct Hp as (H1 & H2 & H3 & H4). unfold KEY_UP, KEY_DOWN, KEY_ENTER, KEY_ESC.
      rewrite !decide_False; try lia.
      * by rewrite (IH fuel _ fin rest) by (done || lia).
      * intros [Hx|Hx]; [lia|]. by apply bz_inj in Hx.
Qed.

(** Whatever was typed a menu answers with the number of an item and gives the
    terminal back as it was, or waits for a key. *)
Lemma rule_menu_loop (W X : term -> Prop) lf n Q : (0 < length items)%nat ->
  (forall v t, 0 <= v < count -> t.(c_lflag) = lf -> t.(raw_active) = false -> (length t.(keys) < n)%nat -> Q v t) ->
  (forall t, t.(keys) = [] -> W t) ->
  forall fuel sel t, 0 <= sel < count -> t.(saved_term) = lf -> t.(raw_active) = true ->
    (length t.(keys) <= n)%nat -> (length t.(keys) <= fuel)%nat ->
    wp W X (menu_loop fuel items quit_label sel) Q t.
Proof.
  intros Hi HQ HW. induction fuel as [|fuel IH]; intros sel t Hs Hsv Hr Hn Hf; cbn [menu_loop]; apply wps_bind;
    (apply rule_getkey; [|by apply HW]); intros k ks Hks; [lia|].
  assert (Hgo : forall v t', 0 <= v < count -> t'.(saved_term) = lf -> t'.(raw_active) = true -> t'.(keys) = ks ->
    wp W X (menu_loop fuel items quit_label v) Q t').
  { intros v t' Hv Hsv' Hr' Hk'. apply IH; rewrite ?Hk'; [done|done|done|lia|lia]. }
  case_decide.
  { apply wps_bind, wps_print, Hgo; try done. rewrite wrap_up by done. by apply (moved_range sel Up). }
  case_decide.
  { apply wps_bind, wps_print, Hgo; try done. rewrite wrap_down by done. by apply (moved_range sel Down). }
  case_decide; [|case_decide; [|by apply Hgo]]; apply wps_bind, wps_upd; cbn; rewrite Hr;
    apply HQ; cbn; try done; lia.
Qed.

Lemma rule_select_menu (W X : term -> Prop) Q t : (0 < length items)%nat ->
  (forall v t', 0 <= v < count -> t'.(c_lflag) = t.(c_lflag) -> t'.(raw_active) = false ->
     (length t'.(keys) < length t.(keys))%nat -> Q v t') ->
  (forall t', t'.(keys) = [] -> W t') -> wp W X (select_menu items quit_label) Q t.
Proof.
  intros Hi HQ HW. unfold select_menu. apply wps_bind, wps_print, wps_bind, wps_upd, wps_bounded.
  apply (rule_menu_loop W X t.(c_lflag) (length t.(keys))); try done; lia.
Qed.

End Menu.

(** C28. The keys typed at a menu choose: arrows move the mark around the items,
    other keys do nothing, a line end answers with the item under the mark, q
    and the escape key with the last item; the keys that follow are left, the
    menu is drawn anew at each move, and the terminal is as it was before. *)
Theorem menu_selects items quit_label ps last rest t : (0 < length items)%nat -> Forall moves ps -> chooses last ->
  typing (concat (struck <$> ps) ++ struck last) rest t ->
  select_menu items quit_label t =
    Done (match last with Return _ => steps ps mod Z.of_nat (length items) | _ => Z.of_nat (length items) - 1 end)
      (t <| keys := rest |> <| saved_term := t.(c_lflag) |> <| raw_active := false |>
         <| out ::= (.++ first_picture items quit_label ++ drawn items quit_label 0 ps) |>).
Proof.
  intros Hi Hps Hl Ht. unfold select_menu, mbind at 1 2, U_bind at 1 2, print, term_enter_raw, upd, bounded.
  cbn [keys]. erewrite menu_loop_typing; [|lia|exact Hps|exact Hl|exact Ht|].
  2:{ unfold set; cbn [keys]. rewrite Ht. unfold each_byte. rewrite length_app, length_fmap, length_app.
      assert (Hlen : (length ps <= length (concat (struck <$> ps)))%nat).
      { clear -Hps. induction Hps as [|p ps Hp _ IH]; [done|]. cbn. rewrite length_app.
        destruct p; cbn in *; try done; lia. }
      destruct last as [| |c|c|c]; cbn in *; try done; [lia|].
      destruct Hl as [->|(c1 & c2 & -> & _)]; cbn; lia. }
  rewrite moved_steps by lia. rewrite Z.add_0_l. generalize (first_picture items quit_label) (drawn items quit_label 0 ps).
  intros a b. destruct t, last; unfold term_exit_raw, mbind, U_bind, upd, set; cbn; by rewrite <- app_assoc.
Qed.

Lemma menu_selects_witness :
  let items := [lit "Stats"; lit "Users"; lit "Quit"] in
  let ps := [Down; Other "x"%byte; Up; Up] in
  let t := mk_term (each_byte (concat (struck <$> ps) ++ struck (Return x0d)) ++ []) [] false 10 0 false [] in
  select_menu items (lit "Quit") t =
    Done (steps ps mod 3) (t <| keys := [] |> <| saved_term := 10 |> <| raw_active := false |>
         <| out ::= (.++ first_picture items (lit "Quit") ++ drawn items (lit "Quit") 0 ps) |>).
Proof.
  cbv zeta. apply (menu_selects [lit "Stats"; lit "Users"; lit "Quit"] (lit "Quit")
    [Down; Other "x"%byte; Up; Up] (Return x0d) []); [vm_compute; lia| |reflexivity|reflexivity].
  repeat (apply Forall_cons; split); try done. split; [done|]. split; [done|]. split; [done|]. right. vm_compute. done.
Defined.

End ClientKeys.
