(* ===== verification/ClientAnswers.v ===== *)
(** What is made of the lines typed at the client's prompts: [fgets], lines,
    passwords and numbers of src/client/ui.c. *)
From S2P Require Import Prelude Os MonCommands MonText Client ClientWire ClientUi ClientKeys.
Import Client ClientWire ClientUi ClientKeys.
Local Open Scope Z_scope.

Module ClientAnswers.

(** * What is waiting to be read *)

(** The terminal's reads deliver [bs] first, in any pieces. *)
Inductive arrives : list Os.read_result -> list byte -> Prop :=
| arrives_nothing ks : arrives ks []
| arrives_chunk c ks bs : c <> [] -> arrives ks bs -> arrives (Os.RData c :: ks) (c ++ bs).

Definition pending (s : list byte) (t : term) : Prop :=
  t.(at_eof) = false /\ exists bs, t.(ahead) ++ bs = s /\ arrives t.(keys) bs.

(** [t'] is [t] after some reading by stdio. *)
Definition read_on (t t' : term) : Prop :=
  t' = t <| keys := t'.(keys) |> <| ahead := t'.(ahead) |> <| at_eof := t'.(at_eof) |>.

Lemma cut_spec room : forall s bs line rest p s' full, cut room s = (p, s', full) ->
  s ++ bs = line ++ x0a :: rest -> x0a ∉ line ->
  if full then p = take room (line ++ [x0a]) /\ s' ++ bs = drop room (line ++ [x0a]) ++ rest
  else p = s /\ s' = [] /\ (length s < room)%nat /\ exists l', line = s ++ l' /\ bs = l' ++ x0a :: rest.
Proof.
  induction room as [|room IH]; intros s bs line rest p s' full Hc Hs Hl.
  { injection Hc as <- <- <-. rewrite drop_0, <- app_assoc. by rewrite take_0. }
  destruct s as [|c s]; cbn [cut] in Hc.
  { injection Hc as <- <- <-. split_and!; [done|done|cbn; lia|]. by exists line. }
  destruct line as [|c0 line]; cbn [app] in Hs; injection Hs as -> Hs.
  - rewrite decide_True in Hc by done. injection Hc as <- <- <-. rewrite Hs. cbn [app take drop].
    by rewrite take_nil, drop_nil.
  - apply not_elem_of_cons in Hl as [Hc0 Hl]. rewrite decide_False in Hc by congruence.
    destruct (cut room s) as [[p1 s1] f1] eqn:E. injection Hc as <- <- <-.
    specialize (IH s bs line rest p1 s1 f1 E Hs Hl). destruct f1; cbn [app take drop].
    + destruct IH as [-> ->]. done.
    + destruct IH as (-> & -> & Hn & l' & -> & ->). split_and!; [done|done|cbn; lia|]. by exists l'.
Qed.

Lemma fgets_loop_pending ks bs : arrives ks bs -> forall line rest acc s room t,
  s ++ bs = line ++ x0a :: rest -> x0a ∉ line ->
  exists t', fgets_loop ks acc s room t = Done (Some (acc ++ take room (line ++ [x0a]))) t' /\
    (exists bs', t'.(ahead) ++ bs' = drop room (line ++ [x0a]) ++ rest /\ arrives t'.(keys) bs') /\
    t'.(at_eof) = t.(at_eof) /\ read_on t t'.
Proof.
  induction 1 as [ks|c ks bs Hc Ha IH]; intros line rest acc s room t Hs Hl;
    [destruct ks as [|k ks]|]; cbn [fgets_loop]; destruct (cut room s) as [[p s'] full] eqn:E;
    pose proof (cut_spec _ _ _ _ _ _ _ _ E Hs Hl) as Hcut; destruct full; cbn iota in Hcut.
  1,3: destruct Hcut as [-> Hr]; eexists; split; [done|]; split; [eexists; by split; [exact Hr|constructor]|done].
  1,2: by destruct Hcut as (_ & _ & _ & l' & _ & Hn); destruct l'.
  - destruct Hcut as [-> Hr]. eexists; split; [done|]. split; [|done].
    eexists; split; [exact Hr|]. by constructor.
  - destruct Hcut as (-> & -> & Hn & l' & -> & Hb). destruct c as [|b c]; [done|].
    apply not_elem_of_app in Hl as [_ Hl].
    destruct (IH l' rest (acc ++ s) (b :: c) (room - length s)%nat t Hb Hl) as (t' & -> & Hp & He & Ho).
    exists t'. rewrite <- !app_assoc, (take_app_ge s), (drop_app_ge s) by lia. done.
Qed.

Lemma fgets_pending max line rest t : pending (line ++ x0a :: rest) t -> x0a ∉ line ->
  exists t', fgets max t = Done (Some (take (max - 1) (line ++ [x0a]))) t' /\
    pending (drop (max - 1) (line ++ [x0a]) ++ rest) t' /\ read_on t t'.
Proof.
  intros [He (bs & Hs & Ha)] Hl. unfold fgets. rewrite He.
  destruct (fgets_loop_pending _ _ Ha line rest [] _ (max - 1) t Hs Hl) as (t' & -> & Hp & He' & Ho).
  exists t'. split; [done|]. split; [|done]. split; [by rewrite He'|done].
Qed.

(** * Line ends are taken off *)

Lemma chop_prefix n buf : chop_ends n buf `prefix_of` take n buf.
Proof.
  induction n as [|n IH]; cbn [chop_ends]; [apply prefix_nil|].
  destruct (buf !! n) as [c|]; [|done]. destruct (line_end c); [|done]. etrans; [exact IH|].
  replace (take n buf) with (take n (take (S n) buf)) by (rewrite take_take; f_equal; lia). apply prefix_take.
Qed.

Lemma chop_end n buf : forall c, (n <= length buf)%nat -> last (chop_ends n buf) = Some c -> line_end c = false.
Proof.
  induction n as [|n IH]; intros c Hn; cbn [chop_ends]; [done|].
  destruct (lookup_lt_is_Some_2 buf n) as [c0 Hc]; [lia|]. rewrite Hc.
  destruct (line_end c0) eqn:Hce; [apply IH; lia|]. rewrite (take_S_r _ _ _ Hc), last_snoc. by intros [= <-].
Qed.

(** A text keeps its bytes when it does not end in a line end itself. *)
Lemma chop_line buf tail : Forall (fun c => line_end c = true) tail ->
  match last buf with Some c => line_end c = false | None => True end ->
  chop_ends (length (buf ++ tail)) (buf ++ tail) = buf.
Proof.
  intros Ht Hb. induction tail as [|c tail IH] using rev_ind.
  - rewrite app_nil_r. destruct buf as [|b buf _] using rev_ind; [done|].
    rewrite length_app, Nat.add_1_r. cbn [chop_ends]. rewrite lookup_app_r, Nat.sub_diag by done. cbn [lookup list_lookup].
    rewrite last_snoc in Hb. rewrite Hb. rewrite take_ge; [done|]. rewrite length_app. cbn. lia.
  - apply Forall_app in Ht as [Ht Hc]. apply Forall_inv in Hc. cbn beta in Hc.
    rewrite app_assoc, (length_app (buf ++ tail)), Nat.add_1_r. cbn [chop_ends].
    rewrite lookup_app_r, Nat.sub_diag by done. cbn [lookup list_lookup]. rewrite Hc.
    etrans; [|exact (IH Ht)]. clear IH. generalize (buf ++ tail) as l. intros l.
    assert (Hgen : forall n, (n <= length l)%nat -> chop_ends n (l ++ [c]) = chop_ends n l).
    { induction n as [|n IHn]; intros Hn; [done|]. cbn [chop_ends]. rewrite lookup_app_l by lia.
      destruct (l !! n) as [x|]; [destruct (line_end x)|]; [apply IHn; lia|..]; by rewrite take_app_le by lia. }
    by apply Hgen.
Qed.

(** What may be typed as an answer and comes out as it was typed. *)
Record plain_answer (s : cstring) : Prop := {
  pa_nl : x0a ∉ s;
  pa_nul : nul_free s;
  pa_end : last s <> Some x0d;
}.

Lemma plain_last s : plain_answer s -> match last s with Some c => line_end c = false | None => True end.
Proof.
  intros [H1 _ H3]. destruct (last s) as [c|] eqn:E; [|done]. destruct (line_end c) eqn:Hc; [|done].
  apply line_end_spec in Hc as [-> | ->]; [|done]. apply last_Some in E as [l ->]. set_solver.
Qed.

Lemma answer_plain s tail : plain_answer s -> Forall (fun c => line_end c = true) tail ->
  answer (Some (s ++ tail)) = s.
Proof.
  intros Hp Ht. unfold answer. rewrite c_str_id.
  - apply chop_line; [done|by apply plain_last].
  - apply nul_free_app. split; [apply Hp|]. intros Hin. rewrite Forall_forall in Ht. by apply Ht in Hin.
Qed.

(** * Answers of any kind *)

(** An answer as the rest of the program gets it. *)
Record clean (max : nat) (s : cstring) : Prop := {
  cl_plain : plain_answer s;
  cl_len : (length s <= max - 1)%nat;
}.

(** What [fgets] may store: line ends only at its end. *)
Definition stored (max : nat) (l : list byte) : Prop :=
  (length l <= max - 1)%nat /\ exists p, x0a ∉ p /\ (l = p \/ l = p ++ [x0a]).

Lemma clean_nil max : clean max [].
Proof. split; [split|cbn; lia]; [apply not_elem_of_nil|apply not_elem_of_nil|done]. Qed.

Lemma plain_prefix p s : p `prefix_of` s -> x0a ∉ s -> x0a ∉ p.
Proof. intros [k ->]. set_solver. Qed.

Lemma answer_clean max o : (forall l, o = Some l -> stored max l) -> clean max (answer o).
Proof.
  intros Ho. destruct o as [l|]; [|apply clean_nil]. destruct (Ho l eq_refl) as [Hl (p & Hp & Hcase)].
  unfold answer. pose proof (chop_prefix (length (c_str l)) (c_str l)) as Hpre. rewrite take_ge in Hpre by done.
  pose proof (c_str_length l) as Hcl. pose proof (prefix_length _ _ Hpre) as Hlen.
  assert (Hnul : nul_free (chop_ends (length (c_str l)) (c_str l))).
  { pose proof (c_str_nul_free l) as Hn. intros Hin. apply Hn. destruct Hpre as [k Hk]. rewrite Hk. set_solver. }
  split; [|lia]. split; [|done|].
  - destruct Hcase as [-> | ->].
    + apply (plain_prefix _ _ Hpre). intros Hin. apply Hp. revert Hin. clear. induction p as [|c p IH]; cbn; [done|].
      case_decide; set_solver.
    + destruct (decide (x00 ∈ p)) as [Hin|Hn].
      * apply list_elem_of_split in Hin as (l1 & l2 & ->). rewrite <- app_assoc in Hpre |- *. cbn [app] in *.
        rewrite c_str_stops in Hpre |- *. apply (plain_prefix _ _ Hpre). intros Hx. apply Hp.
        apply elem_of_app. left. revert Hx. clear. induction l1 as [|c l1 IH]; cbn; [done|]. case_decide; set_solver.
      * rewrite c_str_id by (apply nul_free_app; split; [done|by_decision]). rewrite length_app, Nat.add_1_r.
        cbn [chop_ends]. rewrite lookup_app_r, Nat.sub_diag by done. cbn.
        apply (plain_prefix _ p); [|done]. etrans; [apply chop_prefix|]. rewrite take_app_le by done. by rewrite take_ge.
  - intros Hlast. by apply (chop_end _ _ _ (le_n _)) in Hlast.
Qed.

Lemma cut_any room : forall s p s' full, cut room s = (p, s', full) ->
  s = p ++ s' /\ (length p <= room)%nat /\
  (if full then ((0 < room)%nat -> p <> []) /\ exists q, x0a ∉ q /\ (p = q \/ p = q ++ [x0a])
   else x0a ∉ p /\ s' = [] /\ (length p < room)%nat).
Proof.
  induction room as [|room IH]; intros s p s' full Hc.
  { injection Hc as <- <- <-. split_and!; [done|done|lia|]. exists []. split; [apply not_elem_of_nil|by left]. }
  destruct s as [|c s]; cbn [cut] in Hc.
  { injection Hc as <- <- <-. split_and!; [done|cbn; lia|apply not_elem_of_nil|done|cbn; lia]. }
  case_decide as Hn.
  - injection Hc as <- <- <-. split_and!; [done|cbn; lia|done|]. exists []. subst. split; [apply not_elem_of_nil|by right].
  - destruct (cut room s) as [[p1 s1] f1] eqn:E. injection Hc as <- <- <-.
    destruct (IH _ _ _ _ E) as (-> & Hl & Hf). split_and!; [done|cbn; lia|].
    destruct f1; [|destruct Hf as (H1 & H2 & H3); split_and!; [set_solver|done|cbn; lia]].
    destruct Hf as (_ & q & Hq & Hp). split; [done|]. exists (c :: q). split; [set_solver|].
    destruct Hp as [-> | ->]; [by left|by right].
Qed.

(** * Reading, whatever was typed *)

Definition size (s : list byte) (ks : list Os.read_result) : nat :=
  (length s + length (concat (data_of <$> ks)) + length ks)%nat.

(** What a call of [fgets] does to the terminal: it takes something or sees the
    end, and hands out a line or fails. *)
Definition got (max : nat) (s : list byte) (ks : list Os.read_result) (t : term) (o : option (list byte)) (t' : term)
  : Prop :=
  exists ks' s' e, t' = t <| keys := ks' |> <| ahead := s' |> <| at_eof := e |> /\
    (length ks' <= length ks)%nat /\ (forall l, o = Some l -> stored max l) /\
    (size s' ks' < size s ks)%nat.

Lemma got_chunk max s k p ks t o t' : got max k ks t o t' -> (length k <= length (data_of p))%nat ->
  got max s (p :: ks) t o t'.
Proof.
  intros (ks' & s' & e & -> & Hk & Hst & Hsz) Hp. exists ks', s', e. split_and!; [done|cbn; lia|done|].
  unfold size in *. cbn. rewrite length_app. lia.
Qed.

Lemma fgets_loop_got max ks : forall acc s room t, (0 < room)%nat -> x0a ∉ acc -> (length acc + room <= max - 1)%nat ->
  wp (fun t' => t' = t <| keys := [] |> <| ahead := [] |>) (fun _ => False)
    (fgets_loop ks acc s room) (got max s ks t) t.
Proof.
  induction ks as [|k ks IH]; intros acc s room t Hr Ha Hlen; unfold wp;
    cbn [fgets_loop]; destruct (cut room s) as [[p s'] full] eqn:E;
    pose proof (cut_any _ _ _ _ _ E) as (-> & Hp & Hf); destruct full.
  1,3: destruct Hf as (Hne & q & Hq & Hcase); eexists _, s', t.(at_eof); (split; [reflexivity|]);
    (split; [done|]); (split; [|unfold size; rewrite !length_app; destruct p; [by destruct (Hne Hr)|cbn; lia]]);
    intros l [= <-]; (split; [rewrite length_app; lia|]); exists (acc ++ q); (split; [set_solver|]);
    destruct Hcase as [-> | ->]; [by left|right; by rewrite app_assoc].
  - done.
  - destruct Hf as (Hnp & -> & Hpl). destruct k as [[|b c]|e].
    + exists ks, [], true. split; [reflexivity|]. split; [cbn; lia|]. split; [|unfold size; cbn; rewrite length_app; lia].
      intros l Hl. case_decide; [done|]. injection Hl as <-. split; [rewrite length_app; lia|].
      exists (acc ++ p). split; [set_solver|by left].
    + specialize (IH (acc ++ p) (b :: c) (room - length p)%nat t). unfold wp in IH.
      destruct (fgets_loop ks (acc ++ p) (b :: c) (room - length p)%nat t) as [o t1|t1|t1].
      all: rewrite length_app in IH; try (apply IH; [lia|set_solver|lia]).
      eapply got_chunk; [apply IH; [lia|set_solver|lia]|done].
    + exists ks, [], t.(at_eof). split; [reflexivity|]. split; [cbn; lia|]. split; [done|].
      unfold size. cbn. rewrite length_app. lia.
Qed.

(** Once the end has been seen every call fails at once. *)
Lemma rule_fgets (W X : term -> Prop) max Q t : (1 < max)%nat ->
  (t.(at_eof) = true -> Q None t) ->
  (t.(at_eof) = false -> forall o t', got max t.(ahead) t.(keys) t o t' -> Q o t') ->
  (t.(at_eof) = false -> W (t <| keys := [] |> <| ahead := [] |>)) -> wp W X (fgets max) Q t.
Proof.
  intros Hm HE HQ HW. unfold wp, fgets. destruct (at_eof t) eqn:He; [by apply HE|].
  pose proof (fgets_loop_got max t.(keys) [] t.(ahead) (max - 1) t) as Hg. unfold wp in Hg.
  assert (Hp : (0 < max - 1)%nat /\ x0a ∉ ([] : list byte) /\ (length ([] : list byte) + (max - 1) <= max - 1)%nat)
    by (split_and!; [lia|apply not_elem_of_nil|cbn; lia]).
  destruct Hp as (H1 & H2 & H3). specialize (Hg H1 H2 H3).
  destruct (fgets_loop _ _ _ _ _) as [o t1|t1|t1]; [by apply HQ|subst; by apply HW|done].
Qed.

(** The rest of the program sees of a terminal: its modes and how many reads
    are left. *)
Record kept (t t' : term) : Prop := {
  kp_modes : t'.(c_lflag) = t.(c_lflag);
  kp_raw : t'.(raw_active) = t.(raw_active);
  kp_keys : (length t'.(keys) <= length t.(keys))%nat;
}.

Lemma kept_refl t : kept t t.
Proof. by split. Qed.
Lemma kept_trans t1 t2 t3 : kept t1 t2 -> kept t2 t3 -> kept t1 t3.
Proof. intros [H1 H2 H3] [H4 H5 H6]. split; [congruence|congruence|lia]. Qed.

Lemma got_kept max t o t' : got max t.(ahead) t.(keys) t o t' -> kept t t'.
Proof. by intros (ks' & s' & e & -> & Hk & _). Qed.

Lemma rule_line (W X : term -> Prop) prompt max Q t : (1 < max)%nat ->
  (forall s t', clean max s -> kept t t' -> Q s t') ->
  (forall t', t'.(keys) = [] -> W t') -> wp W X (input_line prompt max) Q t.
Proof.
  intros Hm HQ HW. unfold input_line. apply wps_bind, wps_print, wps_bind, rule_fgets; [done| | |by intros; apply HW].
  - intros _. apply wps_ret, HQ; [by apply answer_clean|by split].
  - intros _ o t' Hg. apply wps_ret, HQ; [by apply answer_clean; destruct Hg as (? & ? & ? & _ & _ & Hs & _)|].
    eapply kept_trans; [|by eapply got_kept]. by split.
Qed.

Lemma rule_password (W X : term -> Prop) prompt max Q t : (1 < max)%nat ->
  (forall s t', clean max s -> kept t t' -> Q s t') ->
  (forall t', t'.(keys) = [] -> Z.land t'.(c_lflag) ECHO = 0 -> W t') -> wp W X (input_password prompt max) Q t.
Proof.
  intros Hm HQ HW. unfold input_password.
  apply (wps_bind W X (upd _)), wps_upd, wps_bind, wps_print, wps_bind, rule_fgets; [done| | |].
  - intros _. apply wps_bind, wps_upd, wps_bind, wps_print, wps_ret, HQ; [by apply answer_clean|by split].
  - intros _ o t' Hg. apply wps_bind, wps_upd, wps_bind, wps_print, wps_ret, HQ.
    + apply answer_clean. by destruct Hg as (? & ? & ? & _ & _ & Hs & _).
    + apply got_kept in Hg as [_ Hr Hk]. by split.
  - intros _. apply HW; [done|]. cbn. unfold ECHO. rewrite <- Z.land_assoc. apply Z.land_0_r.
Qed.

Lemma rule_enter (W X : term -> Prop) Q t : (forall t', kept t t' -> Q tt t') ->
  (forall t', t'.(keys) = [] -> W t') -> wp W X wait_enter Q t.
Proof.
  intros HQ HW. unfold wait_enter. apply wps_bind, wps_print, wps_bind, rule_fgets; [lia| | |by intros; apply HW].
  - intros _. apply wps_ret, HQ. by split.
  - intros _ o t' Hg. apply wps_ret, HQ. eapply kept_trans; [|by eapply got_kept]. by split.
Qed.

(** * Prompts *)

Definition ask (secret : bool) : cstring -> nat -> U term cstring :=
  if secret then input_password else input_line.

(** What is taken of a line too long for the program's array. *)
Definition first_part (max : nat) (typed : list byte) : cstring := answer (Some (take (max - 1) typed)).

Lemma ask_pending secret prompt max typed rest t : pending (typed ++ x0a :: rest) t -> x0a ∉ typed ->
  exists t', ask secret prompt max t = Done (answer (Some (take (max - 1) (typed ++ [x0a])))) t' /\
    pending (drop (max - 1) (typed ++ [x0a]) ++ rest) t' /\ t'.(c_lflag) = t.(c_lflag) /\
    t'.(out) = t.(out) ++ prompt ++ (if secret then [x0a] else []).
Proof.
  intros Hp Hn.
  assert (Hf : forall t0, t0.(at_eof) = t.(at_eof) -> t0.(ahead) = t.(ahead) -> t0.(keys) = t.(keys) ->
    exists t', fgets max t0 = Done (Some (take (max - 1) (typed ++ [x0a]))) t' /\
      pending (drop (max - 1) (typed ++ [x0a]) ++ rest) t' /\ read_on t0 t').
  { intros t0 H1 H2 H3. apply (fgets_pending max typed rest t0); [|done]. unfold pending. by rewrite H1, H2, H3. }
  destruct secret; unfold ask, input_password, input_line, mbind, U_bind, print, upd; cbn beta iota zeta.
  - edestruct Hf as (t' & -> & Hpend & Ho); [..|eexists; split; [reflexivity|]]; [done|done|done|].
    rewrite Ho. split; [exact Hpend|]. split; [done|]. cbn. by rewrite <- app_assoc.
  - edestruct Hf as (t' & -> & Hpend & Ho); [..|eexists; split; [reflexivity|]]; [done|done|done|].
    rewrite Ho. split; [by rewrite Ho in Hpend|]. split; [done|]. cbn. by rewrite app_nil_r.
Qed.

(** C29. What is typed at a prompt, in whatever pieces the terminal hands it
    over, is what the program gets: the line without its ends when it fits the
    array, and then the next line is next; of a longer one the bytes that fit,
    and the others are the answer to the next question.  The prompt is printed
    and the terminal's modes are what they were, for a password too. *)
Theorem answers_read secret prompt max line cr rest t : plain_answer line -> Forall (fun c => c = x0d) cr ->
  pending (line ++ cr ++ x0a :: rest) t ->
  let fits := bool_decide (length (line ++ cr) < max - 1)%nat in
  exists t', ask secret prompt max t = Done (if fits then line else first_part max (line ++ cr)) t' /\
    pending (if fits then rest else drop (max - 1) (line ++ cr) ++ x0a :: rest) t' /\
    t'.(c_lflag) = t.(c_lflag) /\ t'.(out) = t.(out) ++ prompt ++ (if secret then [x0a] else []).
Proof.
  intros Hl Hcr Hp fits. rewrite app_assoc in Hp.
  assert (Hn : x0a ∉ line ++ cr).
  { apply not_elem_of_app. split; [apply Hl|]. intros Hin. rewrite Forall_forall in Hcr. by apply Hcr in Hin. }
  destruct (ask_pending secret prompt max _ _ _ Hp Hn) as (t' & E & Hp' & Hm & Ho). exists t'.
  unfold fits. case_bool_decide as Hlen.
  - rewrite take_ge in E by (rewrite length_app; cbn; lia). rewrite drop_ge in Hp' by (rewrite length_app; cbn; lia).
    rewrite E, <- app_assoc, answer_plain; [done|done|]. apply Forall_app. split; [|by apply Forall_singleton].
    eapply Forall_impl; [exact Hcr|]. by intros c ->.
  - rewrite take_app_le in E by lia. rewrite drop_app_le, <- app_assoc in Hp' by lia. done.
Qed.

Lemma answers_read_witness :
  let t := mk_term [Os.RData (lit "cret" ++ [x0d]); Os.RData [x0a; x41]] (lit "se") false 10 0 false [] in
  let fits := bool_decide (length (lit "secret" ++ [x0d]) < 200 - 1)%nat in
  exists t', ask true (lit "Password: ") 200 t = Done (if fits then lit "secret" else first_part 200 (lit "secret" ++ [x0d])) t' /\
    pending (if fits then [x41] else drop (200 - 1) (lit "secret" ++ [x0d]) ++ [x0a; x41]) t' /\
    t'.(c_lflag) = t.(c_lflag) /\ t'.(out) = t.(out) ++ lit "Password: " ++ [x0a].
Proof.
  cbv zeta. apply (answers_read true).
  - split; [by_decision|by_decision|done].
  - by repeat constructor.
  - split; [done|]. exists (lit "cret" ++ [x0d; x0a; x41]). split; [done|].
    apply (arrives_chunk (lit "cret" ++ [x0d])); [done|]. apply (arrives_chunk [x0a; x41]); [done|]. constructor.
Defined.

(** * Numbers *)

Section Number.
Variables (prompt : cstring) (min max : Z).

Lemma number_of_ended : number_of [] = (0, true).
Proof. done. Qed.

Lemma line_ended max' t : t.(at_eof) = true ->
  input_line prompt max' t = Done [] (t <| out ::= (.++ prompt) |>).
Proof.
  intros He. unfold input_line. rewrite print_then. unfold mbind, U_bind, fgets.
  change (at_eof (t <| out ::= (.++ prompt) |>)) with (at_eof t). by rewrite He.
Qed.

(** At the end of input a number out of whose range 0 is is asked for ever. *)
Lemma number_loop_ended fuel : forall t, t.(at_eof) = true -> ~ (min <= 0 <= max) ->
  exists t', number_loop fuel prompt min max t = Spins t' /\ kept t t' /\ t'.(at_eof) = true.
Proof.
  induction fuel as [|fuel IH]; intros t He Hr; cbn [number_loop]; unfold mbind at 1, U_bind at 1;
    rewrite line_ended by done; rewrite number_of_ended; rewrite decide_False by tauto; rewrite print_then.
  - eexists. split; [reflexivity|]. by split.
  - edestruct IH as (t' & -> & Hk & He'); [..|exists t'; split; [reflexivity|]]; [done|done|].
    split; [|done]. eapply kept_trans; [|exact Hk]. by split.
Qed.

Lemma rule_number_loop (W X : term -> Prop) t0 Q :
  (forall v t, min <= v <= max -> kept t0 t -> Q v t) ->
  (forall t, t.(keys) = [] -> W t) ->
  (forall t, t.(at_eof) = true -> ~ (min <= 0 <= max) -> kept t0 t -> X t) ->
  forall fuel t, kept t0 t -> t.(at_eof) = true \/ (left_to_read t <= fuel)%nat ->
    wp W X (number_loop fuel prompt min max) Q t.
Proof.
  intros HQ HW HX. induction fuel as [|fuel IH]; intros t Hk Hf.
  all: destruct (at_eof t) eqn:He.
  1,3: destruct (decide (min <= 0 <= max)) as [Hr|Hr];
    [cbn [number_loop]; apply wps_bind; unfold input_line; apply wps_bind, wps_print, wps_bind, rule_fgets;
       [lia| |by (intros Hx; cbn in Hx; congruence)|by (intros Hx; cbn in Hx; congruence)]; intros _; apply wps_ret; change (answer None) with ([] : cstring); rewrite number_of_ended; cbn beta iota;
       rewrite decide_True by done; apply wps_ret, HQ; [done|]; eapply kept_trans; [exact Hk|by split]
    |edestruct number_loop_ended as (t' & E & Hk' & He'); [exact He|exact Hr|]; unfold wp; rewrite E;
       apply HX; [done|done|by eapply kept_trans]].
  all: destruct Hf as [|Hf]; [done|]; cbn [number_loop]; apply wps_bind; unfold input_line;
    apply wps_bind, wps_print, wps_bind, rule_fgets; [lia|by (intros Hx; cbn in Hx; congruence)| |by intros; apply HW];
    intros _ o t' Hg; pose proof (got_kept _ _ _ _ Hg) as Hk'; apply wps_ret.
  - destruct Hg as (ks' & s' & e & _ & _ & _ & Hsz). unfold left_to_read in Hf. unfold size in Hsz. cbn in Hsz. lia.
  - destruct (number_of (answer o)) as [v whole]. case_decide as Hd.
    + apply wps_ret, HQ; [by apply Hd|]. eapply kept_trans; [exact Hk|]. eapply kept_trans; [|exact Hk']. by split.
    + apply wps_bind, wps_print, IH.
      * eapply kept_trans; [exact Hk|]. eapply kept_trans; [|eapply kept_trans; [exact Hk'|]]; by split.
      * right. destruct Hg as (ks' & s' & e & -> & _ & _ & Hsz). unfold left_to_read in *. unfold size in Hsz.
        cbn in *. lia.
Qed.

Lemma rule_number (W X : term -> Prop) Q t :
  (forall v t', min <= v <= max -> kept t t' -> Q v t') ->
  (forall t', t'.(keys) = [] -> W t') ->
  (forall t', t'.(at_eof) = true -> ~ (min <= 0 <= max) -> kept t t' -> X t') ->
  wp W X (input_number prompt min max) Q t.
Proof.
  intros HQ HW HX. apply wps_bounded, (rule_number_loop W X t); [done|done|done|apply kept_refl|by right].
Qed.

End Number.

(** C30. [input_number] answers with a number of the range whatever is typed, a
    number of the range that is typed is its answer, and it ends unless the
    input does: it then waits for more, or, when the end of input was seen and 0
    is out of the range, asks for ever, however long it is let run. *)
Theorem number_asked prompt min max t :
  match input_number prompt min max t with
  | Done v t' => min <= v <= max /\ kept t t'
  | Waits t' => t'.(keys) = []
  | Spins t' => t'.(at_eof) = true /\ ~ (min <= 0 <= max) /\
      forall fuel, exists t2, number_loop fuel prompt min max t' = Spins t2
  end /\
  (forall v rest, min <= v <= max -> 0 <= v <= MonCommands.LONG_MAX -> pending (dec v ++ x0a :: rest) t ->
     exists t', input_number prompt min max t = Done v t' /\ pending rest t').
Proof.
  split.
  - apply (rule_number prompt min max (fun t' => t'.(keys) = []) (fun t' => t'.(at_eof) = true /\ ~ (min <= 0 <= max) /\
      forall fuel, exists t2, number_loop fuel prompt min max t' = Spins t2)); [done|done|].
    intros t' He Hr _. split; [done|]. split; [done|]. intros fuel.
    destruct (number_loop_ended prompt min max fuel t' He Hr) as (t2 & -> & _). by exists t2.
  - intros v rest Hv Hl Hp. unfold input_number, bounded.
    assert (Hd : plain_answer (dec v)).
    { split; [apply dec_free; [lia|done]|apply dec_nul_free; lia|]. intros Hlast. apply last_Some in Hlast as [l Hlast].
      apply (dec_free x0d v); [lia|done|]. rewrite Hlast. set_solver. }
    destruct (ask_pending false prompt 64 (dec v) rest t Hp (pa_nl _ Hd)) as (t' & E & Hp' & _).
    pose proof (dec_length v) as Hdl. rewrite take_ge in E by (rewrite length_app; cbn; lia).
    rewrite drop_ge in Hp' by (rewrite length_app; cbn; lia). rewrite (answer_plain _ [x0a] Hd) in E by by apply Forall_singleton.
    exists t'. split; [|done]. unfold ask in E.
    destruct (left_to_read t); cbn [number_loop]; unfold mbind at 1, U_bind at 1; rewrite E; unfold number_of;
      rewrite MonText.strtol_dec by lia; by rewrite decide_True.
Qed.

Lemma number_asked_witness :
  let t := mk_term [Os.RData (dec 12 ++ [x0a; x41])] [] false 10 0 false [] in
  exists t', input_number (lit "  New value: ") 1 16384 t = Done 12 t' /\ pending [x41] t'.
Proof.
  cbv zeta. apply number_asked; [lia|unfold MonCommands.LONG_MAX; lia|].
  split; [done|]. exists (dec 12 ++ [x0a; x41] ++ []). split; [done|].
  apply (arrives_chunk (dec 12 ++ [x0a; x41])); [done|constructor].
Defined.

End ClientAnswers.
