(* ===== verification/ClientRuns.v ===== *)
(** Runs of the administration client, src/client/main.c: what it says to the
    server whatever is typed and answered, that it ends, and how it leaves the
    terminal. *)
From S2P Require Import Prelude CBuffer Request Selector Os Inet Trace Store Users Acl StoreInv.
From S2P Require Import MonCommands MonProtocol MonText Flags.
From S2P Require Import Client ClientWire ClientUi ClientMain ClientKeys ClientAnswers.
Import MonCommands MonProtocol MonText Client ClientWire ClientUi ClientMain ClientKeys ClientAnswers.
Local Open Scope Z_scope.

Module ClientRuns.

(** * Commands on the wire *)

Definition request (a : admin_command) : list byte := line_of (words a) ++ Client.nl.

(** The client's function [f] asks for [a], whatever the answer. *)
Definition asks {A} (a : admin_command) (f : conn -> A * conn) : Prop :=
  forall c, Forall patient c.(takes) ->
    (f c).2.(sent) = c.(sent) ++ request a /\ Forall patient (f c).2.(takes).

Lemma write_loop_takes ts : Forall patient ts -> forall s d, Forall patient (write_loop ts s d).1.2.
Proof.
  induction 1 as [|t ts Ht Hts IH]; intros s d; destruct d as [|b d]; cbn [write_loop fst snd];
    [by constructor..|by constructor|]. destruct t as [n|errno]; [apply IH|]. case_decide; [apply IH|done].
Qed.

Lemma read_line_takes n c : (read_line n c).2.(takes) = c.(takes).
Proof. unfold read_line. by destruct (read_loop _ _ _). Qed.

Lemma read_response_takes n : forall c, (read_response n c).2.(takes) = c.(takes).
Proof.
  induction n as [|n IH]; intros c; cbn [read_response]; [done|].
  pose proof (read_line_takes LINE_BUF_SIZE c) as Hs. destruct (read_line _ c) as [[l|] c1]; [|done].
  case_decide; [done|]. specialize (IH c1). destruct (read_response n c1). cbn in *. congruence.
Qed.

Lemma quit_loop_takes fuel : forall c c', quit_loop fuel c = Ok c' -> c'.(takes) = c.(takes).
Proof.
  induction fuel as [|fuel IH]; intros c c'; cbn [quit_loop]; pose proof (read_line_takes LINE_BUF_SIZE c) as Hs;
    destruct (read_line _ c) as [[l|] c1]; cbn [snd] in Hs; try (by intros [= <-]);
    (case_decide; [by intros [= <-]|]); [done|]. intros E%IH. congruence.
Qed.

(** Every function writes its text and then only reads. *)
Lemma written text c : Forall patient c.(takes) ->
  exists c', write_all text c = (true, c') /\ c'.(sent) = c.(sent) ++ text /\ Forall patient c'.(takes).
Proof.
  intros Hp. unfold write_all. pose proof (write_loop_takes _ Hp c.(sent) text) as Ht.
  destruct (write_loop_patient _ Hp c.(sent) text) as [t E]. rewrite E in *. by eexists.
Qed.

Definition reads_only {A} (f : conn -> A * conn) : Prop :=
  forall c, (f c).2.(sent) = c.(sent) /\ (f c).2.(takes) = c.(takes).

Lemma written_then {A} text (f : conn -> A * conn) (no : conn -> A * conn) c : Forall patient c.(takes) -> reads_only f ->
  let r := (let '(ok, c) := write_all text c in if negb ok then no c else f c) in
  r.2.(sent) = c.(sent) ++ text /\ Forall patient r.2.(takes).
Proof.
  intros Hp Hf. cbv zeta. destruct (written text c Hp) as (c' & -> & Hs & Ht). cbn [negb].
  destruct (Hf c') as [-> ->]. done.
Qed.

Lemma response_reads n {A} (f : list cstring -> A) (g : A) :
  reads_only (fun c => match read_response n c with (Some ls, c) => (f ls, c) | (None, c) => (g, c) end).
Proof.
  intros c. pose proof (read_response_sent n c) as Hs. pose proof (read_response_takes n c) as Ht.
  destruct (read_response n c) as [[ls|] c']; done.
Qed.

Lemma simple_asks a text err_sz : text = request a -> (length text < LINE_BUF_SIZE)%nat ->
  asks a (cmd_simple (command text) err_sz).
Proof.
  intros -> Hl c Hp. rewrite command_whole by done. apply (written_then (request a)
    (fun c => match read_response 2 c with
      | (Some (line :: _), c) => match error_of line with Some msg => (inl (snprintf err_sz msg), c) | None => (inr tt, c) end
      | (_, c) => (inl (snprintf err_sz (lit "Conexion perdida")), c) end)
    (fun c => (inl (snprintf err_sz (lit "Error de escritura")), c))); [done|].
  intros c1. pose proof (read_response_sent 2 c1) as Hs. pose proof (read_response_takes 2 c1) as Ht.
  destruct (read_response 2 c1) as [[[|line ls]|] c2]; try done. by destruct (error_of line).
Qed.

Lemma list_asks a text n : text = request a -> asks a (cmd_list text n).
Proof.
  intros -> c Hp. apply (written_then (request a) (read_response n) (fun c => (None, c))); [done|].
  intros c1. split; [apply read_response_sent|apply read_response_takes].
Qed.

Lemma stats_asks : asks Stats cmd_stats.
Proof.
  intros c Hp. apply (written_then (request Stats)
    (fun c => match read_response 2 c with
      | (Some (line :: _), c) => if decide (head line = Some "-"%byte) then (None, c) else (Some (scan stats_format line), c)
      | (_, c) => (None, c) end) (fun c => (None, c))); [done|].
  intros c1. pose proof (read_response_sent 2 c1) as Hs. pose proof (read_response_takes 2 c1) as Ht.
  destruct (read_response 2 c1) as [[[|line ls]|] c2]; try done. by case_decide.
Qed.

Lemma get_asks param err_sz : (length (request (ConfigGet param)) < LINE_BUF_SIZE)%nat ->
  asks (ConfigGet param) (cmd_config_get param err_sz).
Proof.
  intros Hl c Hp. unfold cmd_config_get.
  assert (E : command (lit "CONFIG " ++ param ++ Client.nl) = request (ConfigGet param)).
  { assert (Hr : request (ConfigGet param) = lit "CONFIG " ++ param ++ Client.nl).
    { unfold request. cbn. by rewrite app_nil_r. }
    rewrite Hr in *. by apply command_whole. }
  rewrite E. apply (written_then (request (ConfigGet param))
    (fun c => match read_response 2 c with
      | (Some (line :: _), c) =>
        match error_of line with
        | Some msg => (inl (snprintf err_sz msg), c)
        | None => match scan (format (lit "+OK ") ++ [DNum 32]) line with
                  | [parsed] => (inr parsed, c) | _ => (inl (snprintf err_sz (lit "respuesta invalida")), c) end
        end
      | (_, c) => (inl (snprintf err_sz (lit "Conexion perdida")), c) end)
    (fun c => (inl (snprintf err_sz (lit "Error de escritura")), c))); [done|].
  intros c1. pose proof (read_response_sent 2 c1) as Hs. pose proof (read_response_takes 2 c1) as Ht.
  destruct (read_response 2 c1) as [[[|line ls]|] c2]; try done. destruct (error_of line); [done|].
  by destruct (scan _ _) as [|v [|v2 vs]].
Qed.

(** * Commands as lines *)

Lemma plain_space s w : plain_answer s -> plain_answer w -> plain_answer (s ++ " "%byte :: w).
Proof.
  intros [H1 H2 H3] [H4 H5 H6]. split.
  - set_solver.
  - apply nul_free_app. split; [done|]. unfold nul_free in *. set_solver.
  - rewrite last_app. destruct w as [|b w]; [cbn; congruence|]. rewrite last_cons_cons. by destruct (last (b :: w)).
Qed.

Lemma spaced_snoc args w : spaced (args ++ [w]) = spaced args ++ spaced [w].
Proof.
  induction args as [|[n x] args IH]; [done|]. cbn [app]. cbn [spaced] in *. rewrite IH. by rewrite !app_assoc.
Qed.

Lemma line_plain cmd args : plain_answer cmd -> Forall plain_answer args -> plain_answer (line_of (cmd :: args)).
Proof.
  intros Hc Ha. induction args as [|w args IH] using rev_ind; cbn [line_of].
  - cbn. by rewrite app_nil_r.
  - apply Forall_app in Ha as [Ha Hw]. apply Forall_inv in Hw. rewrite fmap_app. cbn [fmap list_fmap].
    rewrite spaced_snoc, app_assoc. replace (spaced [(0%nat, w)]) with (" "%byte :: w) by (cbn; by rewrite ?app_nil_r).
    by apply plain_space; [apply IH|].
Qed.

(** What the client asks for once logged in, what it tries before. *)
Definition in_range (p : cstring) (v : Z) : Prop :=
  exists q, q ∈ params_initial /\ q.(name) = p /\ q.(min) <= v <= q.(max).
Definition body (a : admin_command) : Prop :=
  match a with
  | Auth _ _ | Quit => False
  | ConfigGet p => exists q, q ∈ params_initial /\ q.(name) = p
  | ConfigSet p v => in_range p v
  | AccessLog u => u = None
  | _ => True
  end.
Definition login (a : admin_command) : Prop := match a with Auth _ _ => True | _ => False end.

(** A command whose arguments are answers of the terminal. *)
Definition typed (a : admin_command) : Prop :=
  Forall (fun w => plain_answer w /\ (length w < MAX_INPUT_LEN)%nat) (words a).

Lemma typed_text a : typed a -> text_line (line_of (words a)).
Proof.
  intros Ht. assert (Hp : plain_answer (line_of (words a))).
  { unfold typed in Ht. destruct (words a) as [|cmd args] eqn:E; [by destruct a|].
    apply Forall_cons in Ht as [[Hc _] Ha]. apply line_plain; [done|]. eapply Forall_impl; [exact Ha|]. by intros w []. }
  destruct Hp as [H1 H2 H3]. split; [done|done|done|]. unfold typed in Ht.
  assert (Hl : (length (line_of (words a)) < 500)%nat).
  { assert (Hb : Forall (fun w : cstring => length w < 200)%nat (words a)).
    { eapply Forall_impl; [exact Ht|]. by intros w []. }
    destruct a; try destruct user; try destruct admin; cbn in Hb |- *; repeat (apply Forall_cons in Hb as [? Hb]);
      repeat (rewrite ?length_app, ?app_nil_r; cbn [length app]); cbn [length] in *; lia. }
  unfold MONITOR_LINE_MAX. lia.
Qed.

Lemma request_short a : typed a -> (length (request a) < LINE_BUF_SIZE)%nat.
Proof.
  intros Ha. pose proof (tl_len _ (typed_text a Ha)) as Hl. unfold request. rewrite length_app. cbn [length Client.nl].
  unfold MONITOR_LINE_MAX in Hl. assert (512 < LINE_BUF_SIZE)%nat by (vm_compute; lia). lia.
Qed.

Lemma requests_snoc cs a : concat (request <$> cs ++ [a]) = concat (request <$> cs) ++ request a.
Proof. rewrite fmap_app, concat_app. cbn [fmap list_fmap concat]. by rewrite app_nil_r. Qed.

(** The server takes requests for the lines they are. *)
Lemma requests_frame cs : Forall typed cs ->
  frames [] (concat (request <$> cs)) = ((fun a => Line (line_of (words a))) <$> cs, []).
Proof.
  induction 1 as [|a cs Ha _ IH]; [done|]. cbn [fmap list_fmap concat]. rewrite frames_app.
  assert (E : frames [] (request a) = ([Line (line_of (words a))], [])).
  { exact (frames_line (line_of (words a), false) (typed_text a Ha)). }
  rewrite E. cbn [fst snd]. by rewrite IH.
Qed.

(** * The state of a session *)

Section Session.
(** What was sent before, and the terminal's modes. *)
Variables (before : list byte) (modes : Z).

Definition shape (ps : list config_param) : list (cstring * Z * Z) :=
  (fun p => (p.(name), p.(min), p.(max))) <$> ps.

(** The requests so far: attempts to log in, then, once [logged], others. *)
Record dialogue (logged : bool) (tries rest : list admin_command) : Prop := {
  dg_tries : Forall login tries;
  dg_rest : Forall body rest;
  dg_typed : Forall typed (tries ++ rest);
  dg_first : logged = false -> rest = [];
}.

Record spoken (logged : bool) (a : client) : Prop := {
  sk_said : exists tries rest, dialogue logged tries rest /\
    a.(fd).(sent) = before ++ concat (request <$> tries ++ rest);
  sk_takes : Forall patient a.(fd).(takes);
  sk_params : shape a.(params) = shape params_initial;
}.

(** Between two actions: with at most [n] reads of the terminal left. *)
Record settled (logged : bool) (n : nat) (a : client) : Prop := {
  sd_spoken : spoken logged a;
  sd_modes : a.(tty).(c_lflag) = modes;
  sd_raw : a.(tty).(raw_active) = false;
  sd_keys : (answers a <= n)%nat;
}.

(** Waiting for what is not typed, and asking at the end of input. *)
Definition waiting (a : client) : Prop := a.(tty).(keys) = [] /\ exists logged, spoken logged a.
Definition asking (a : client) : Prop := a.(tty).(at_eof) = true /\ exists logged, spoken logged a.

Abbreviation wp := (ClientKeys.wp waiting asking).

Lemma spoken_frame logged a b : spoken logged a -> b.(fd) = a.(fd) -> b.(params) = a.(params) -> spoken logged b.
Proof. intros [H1 H2 H3] E1 E2. split; by rewrite ?E1, ?E2. Qed.

Lemma settled_le logged n m a : settled logged n a -> (n <= m)%nat -> settled logged m a.
Proof. intros [H1 H2 H3 H4] Hn. split; try done. lia. Qed.

Lemma settled_frame logged n a b : settled logged n a -> b.(fd) = a.(fd) -> b.(params) = a.(params) ->
  kept a.(tty) b.(tty) -> settled logged n b.
Proof.
  intros [H1 H2 H3 H4] E1 E2 [K1 K2 K3]. split; [by eapply spoken_frame|congruence|congruence|]. unfold answers in *. lia.
Qed.

(** ** Rules for the actions of the screens *)

Lemma rule_term {A} (m : U term A) Q logged a : spoken logged a ->
  ClientKeys.wp (fun t => t.(keys) = []) (fun t => t.(at_eof) = true) m (fun x t => Q x (a <| tty := t |>)) a.(tty) ->
  wp (term_do m) Q a.
Proof.
  intros Hs. unfold ClientKeys.wp, term_do. destruct (m (tty a)); [done|..]; intros H; (split; [done|]);
    exists logged; by eapply spoken_frame.
Qed.

Lemma rule_say text Q a : Q tt (a <| tty ::= set out (.++ text) |>) -> wp (say text) Q a.
Proof. done. Qed.

Lemma rule_said logged n text Q a : settled logged n a -> (forall a', settled logged n a' -> Q tt a') ->
  wp (say text) Q a.
Proof. intros Hs HQ. apply rule_say, HQ. eapply settled_frame; [exact Hs|done|done|]. by split. Qed.

Lemma rule_ask secret prompt max logged n Q a : (1 < max)%nat -> settled logged n a ->
  (forall s a', clean max s -> settled logged n a' -> Q s a') -> wp (term_do (ask secret prompt max)) Q a.
Proof.
  intros Hm Hs HQ. apply (rule_term _ _ logged); [apply Hs|].
  destruct secret; [apply rule_password|apply rule_line]; try done;
    intros s t' Hc Hk; (apply HQ; [done|]); by eapply settled_frame.
Qed.

Lemma rule_wait logged n Q a : settled logged n a -> (forall a', settled logged n a' -> Q tt a') ->
  wp (term_do wait_enter) Q a.
Proof.
  intros Hs HQ. apply (rule_term _ _ logged); [apply Hs|]. apply rule_enter; [|done].
  intros t' Hk. apply HQ. by eapply settled_frame.
Qed.

Lemma rule_menu items quit_label logged n Q a : (0 < length items)%nat -> settled logged n a ->
  (forall v a', 0 <= v < Z.of_nat (length items) -> settled logged n a' -> (answers a' < answers a)%nat -> Q v a') ->
  wp (term_do (select_menu items quit_label)) Q a.
Proof.
  intros Hi Hs HQ. apply (rule_term _ _ logged); [apply Hs|]. apply rule_select_menu; [done| |done].
  intros v t' Hv Hm Hr Hk. apply HQ; [done| |done]. destruct Hs as [H1 H2 H3 H4].
  split; [by eapply spoken_frame|cbn; congruence|done|]. unfold answers in *. cbn. lia.
Qed.

(** A request, with an answer of any kind. *)
Lemma rule_request {A} (cmd : admin_command) (f : conn -> A * conn) logged n Q a : asks cmd f -> typed cmd ->
  settled logged n a -> (if logged : bool then body cmd else login cmd) ->
  (forall x a', settled logged n a' -> Q x a') -> wp (server f) Q a.
Proof.
  intros Hf Ht [[(tries & rest & [D1 D2 D3 D4] & Hsent) Htk Hps] H2 H3 H4] Hc HQ. unfold ClientKeys.wp, server.
  pose proof (Hf a.(fd) Htk) as [Hs Ht']. destruct (f (fd a)) as [x c] eqn:E. cbn [snd] in *.
  apply HQ. split; [|done|done|done]. split; [|done|done]. destruct logged.
  - exists tries, (rest ++ [cmd]). split.
    + split; [done|by apply Forall_app; split; [|apply Forall_singleton]| |done].
      rewrite app_assoc. apply Forall_app. split; [done|by apply Forall_singleton].
    + change (c.(sent) = before ++ concat (request <$> tries ++ rest ++ [cmd])).
      by rewrite Hs, Hsent, (app_assoc tries), requests_snoc, app_assoc.
  - rewrite (D4 eq_refl), app_nil_r in *. exists (tries ++ [cmd]), []. rewrite app_nil_r. split.
    + split; [by apply Forall_app; split; [|apply Forall_singleton]|constructor| |done]. rewrite app_nil_r.
      apply Forall_app. split; [done|by apply Forall_singleton].
    + change (c.(sent) = before ++ concat (request <$> tries ++ [cmd])).
      by rewrite Hs, Hsent, requests_snoc, app_assoc.
Qed.

Lemma rule_simple (cmd : admin_command) text err_sz logged n Q a : text = request cmd -> typed cmd ->
  settled logged n a -> (if logged : bool then body cmd else login cmd) ->
  (forall x a', settled logged n a' -> Q x a') -> wp (server (cmd_simple (command text) err_sz)) Q a.
Proof.
  intros Hr Ht. apply (rule_request cmd); [|done]. apply simple_asks; [done|]. rewrite Hr. by apply request_short.
Qed.

(** ** Parameters *)

Lemma param_initial logged a i p : spoken logged a -> a.(params) !! i = Some p ->
  exists q, q ∈ params_initial /\ q.(name) = p.(name) /\ q.(min) = p.(min) /\ q.(max) = p.(max).
Proof.
  intros [_ _ Hsh] Hp. pose proof (f_equal (.!! i) Hsh) as E. unfold shape in E. rewrite !list_lookup_fmap, Hp in E.
  cbn [fmap option_fmap option_map] in E. destruct (params_initial !! i) as [q|] eqn:Hq; [|done].
  injection E as E1 E2 E3. exists q. split; [by eapply list_elem_of_lookup_2|done].
Qed.

Lemma param_ok q : q ∈ params_initial ->
  plain_answer q.(name) /\ (length q.(name) < MAX_INPUT_LEN)%nat /\ 0 <= q.(min) /\ q.(max) < 2 ^ 32.
Proof.
  intros Hq. unfold params_initial in Hq.
  repeat (apply elem_of_cons in Hq as [-> | Hq]; [split_and!;
    [split; [by_decision|by_decision|done]|vm_compute; lia|cbn; lia|cbn; lia]|]). by apply not_elem_of_nil in Hq.
Qed.

Lemma set_value logged n i v a : settled logged n a ->
  settled logged n (a <| params ::= alter (set value (fun _ => v)) i |>).
Proof.
  intros [[H1 H2 H3] H4 H5 H6]. split; [|done|done|done]. split; [done|done|].
  etrans; [|exact H3]. change (shape (alter (set value (fun _ => v)) i a.(params)) = shape a.(params)). unfold shape. apply list_eq. intros j. rewrite !list_lookup_fmap.
  destruct (decide (j = i)) as [->|Hj].
  - rewrite list_lookup_alter_eq. by destruct (params a !! i).
  - by rewrite list_lookup_alter_ne.
Qed.

Lemma word_typed w : plain_answer w -> (length w < MAX_INPUT_LEN)%nat ->
  plain_answer w /\ (length w < MAX_INPUT_LEN)%nat.
Proof. done. Qed.

Lemma clean_typed s : clean MAX_INPUT_LEN s -> plain_answer s /\ (length s < MAX_INPUT_LEN)%nat.
Proof. intros [H1 H2]. split; [done|]. unfold MAX_INPUT_LEN in *. lia. Qed.

Lemma dec_typed v : 0 <= v -> plain_answer (dec v) /\ (length (dec v) < MAX_INPUT_LEN)%nat.
Proof.
  intros Hv. split; [|pose proof (dec_length v); unfold MAX_INPUT_LEN; lia].
  split; [by apply dec_free|by apply dec_nul_free|]. intros Hlast. apply last_Some in Hlast as [l Hl].
  apply (dec_free x0d v); [done|done|]. rewrite Hl. set_solver.
Qed.

Ltac literal := split; [split; [by_decision|by_decision|done]|vm_compute; lia].
Ltac by_words := repeat (apply Forall_cons; split); try apply Forall_nil;
  first [by apply clean_typed|apply dec_typed; lia|literal|done].

Lemma rule_fetch todo i n Q a : settled true n a ->
  (forall ok a', settled true n a' -> Q ok a') -> wp (fetch_loop todo i) Q a.
Proof.
  revert i a. induction todo as [|todo IH]; intros i a Hs HQ; cbn [fetch_loop]; [by apply wps_ret, HQ|].
  apply wps_bind. unfold gets, ClientKeys.wp at 1. destruct (params a !! i) as [p|] eqn:Hp; [|by apply wps_ret, HQ].
  destruct (param_initial _ _ _ _ (sd_spoken _ _ _ Hs) Hp) as (q & Hq & Hn & _).
  destruct (param_ok q Hq) as (Hpl & Hl & _). rewrite Hn in Hpl, Hl.
  assert (Ht : typed (ConfigGet (name p))) by by_words.
  apply wps_bind, (rule_request (ConfigGet (name p)) _ true n); [by apply get_asks, request_short|done|done|by exists q|].
  intros x a1 H1. destruct x as [err|v]; [by apply wps_ret, HQ|].
  apply wps_bind. unfold modify, ClientKeys.wp at 1. apply IH; [by apply set_value|done].
Qed.

(** ** The screens *)

Variable stale : leftover.

(** One action of a screen: whatever is not a request or a question. *)
Ltac talk :=
  match goal with
  | |- wp (_ ≫= _) _ _ => apply wps_bind
  | Hs : settled ?b ?n ?a |- wp (say _) _ ?a => apply (rule_said b n); [exact Hs|]; clear Hs; intros ? Hs
  | Hs : settled ?b ?n ?a |- wp (report _ _) _ ?a => apply (rule_said b n); [exact Hs|]; clear Hs; intros ? Hs
  | Hs : settled ?b ?n ?a |- wp (term_do (show_lines _ _ _)) _ ?a => apply (rule_said b n); [exact Hs|]; clear Hs; intros ? Hs
  | Hs : settled ?b ?n ?a |- wp (term_do wait_enter) _ ?a => apply (rule_wait b n); [exact Hs|]; clear Hs; intros ? Hs
  | Hs : settled ?b ?n ?a |- wp (term_do (input_line _ _)) _ ?a =>
    apply (rule_ask false _ _ b n); [vm_compute; lia|exact Hs|]; clear Hs; intros ? ? ? Hs
  | Hs : settled ?b ?n ?a |- wp (term_do (input_password _ _)) _ ?a =>
    apply (rule_ask true _ _ b n); [vm_compute; lia|exact Hs|]; clear Hs; intros ? ? ? Hs
  | |- wp (if decide (_ = []) then _ else _) _ _ => case_decide
  | |- wp (mret _) _ _ => apply wps_ret
  end.

(** A screen keeps the session going. *)
Definition keeps_on (screen : U client unit) : Prop :=
  forall n Q a, settled true n a -> (forall a', settled true n a' -> Q tt a') -> wp screen Q a.

Ltac request_text := unfold request; cbn; rewrite ?app_nil_r, <- ?app_assoc; cbn; by rewrite ?app_nil_r, <- ?app_assoc.

Lemma listing_keeps (cmd : admin_command) (f : conn -> option (list cstring) * conn) (shown : option (list cstring) -> U client unit) :
  asks cmd f -> typed cmd -> body cmd ->
  (forall ls n Q a, settled true n a -> (forall a', settled true n a' -> Q tt a') -> wp (shown ls) Q a) ->
  keeps_on (count ← server f; shown count ;; term_do wait_enter).
Proof.
  intros Hf Ht Hb Hsh n Q a Hs HQ. apply wps_bind, (rule_request cmd _ true n); [done|done|done|done|].
  intros x a1 H1. apply wps_bind, (Hsh x n); [done|]. intros a2 H2. by apply (rule_wait true n).
Qed.

Lemma connections_keeps : keeps_on screen_connections.
Proof.
  apply (listing_keeps Connections); [by apply list_asks|by_words|done|].
  intros [ls|] n Q a Hs HQ; [case_decide|]; talk; by apply HQ.
Qed.

Lemma users_keeps : keeps_on screen_users.
Proof.
  apply (listing_keeps ListUsers); [by apply list_asks|by_words|done|].
  intros [ls|] n Q a Hs HQ; talk; by apply HQ.
Qed.

Lemma access_log_keeps : keeps_on screen_access_log.
Proof.
  apply (listing_keeps (AccessLog None)); [|by_words|done|].
  - unfold cmd_access_log. rewrite command_whole by (vm_compute; lia). by apply list_asks.
  - intros [ls|] n Q a Hs HQ; talk; by apply HQ.
Qed.

Lemma deny_list_keeps : keeps_on screen_deny_list.
Proof.
  apply (listing_keeps DenyList); [by apply list_asks|by_words|done|].
  intros [ls|] n Q a Hs HQ; talk; by apply HQ.
Qed.

Lemma stats_keeps : keeps_on screen_stats.
Proof.
  intros n Q a Hs HQ. unfold screen_stats. do 2 talk. talk.
  apply (rule_request Stats _ true n); [apply stats_asks|by_words|done|done|]. clear Hs. intros x a1 Hs.
  talk. destruct x as [vs|]; repeat talk; by apply HQ.
Qed.

(** The questions with one answer, and the command made of it. *)
Lemma question_keeps title prompt done_text (cmd : cstring -> admin_command) (f : cstring -> conn -> result * conn) :
  (forall s, clean MAX_INPUT_LEN s -> asks (cmd s) (f s) /\ typed (cmd s) /\ body (cmd s)) ->
  keeps_on (say title ;;
    x ← term_do (input_line prompt MAX_INPUT_LEN);
    if decide (x = []) then mret tt else
    say Client.nl ;;
    r ← server (f x);
    report done_text r ;;
    term_do wait_enter).
Proof.
  intros Hf n Q a Hs HQ. do 5 talk; [talk; by apply HQ|]. destruct (Hf _ ltac:(eassumption)) as (H1 & H2 & H3).
  do 3 talk. apply (rule_request _ _ true n _ _ H1 H2 Hs H3). clear Hs. intros x a3 Hs. repeat talk. by apply HQ.
Qed.

(** A command whose text is its request. *)
Lemma command_asks cmd text err_sz : text = request cmd -> typed cmd -> asks cmd (cmd_simple (command text) err_sz).
Proof. intros Hr Ht. apply simple_asks; [done|]. rewrite Hr. by apply request_short. Qed.

Ltac by_command cmd := split_and!; [apply (command_asks cmd); [request_text|by_words]|by_words|done].

Lemma deny_host_keeps : keeps_on screen_deny_host.
Proof. apply (question_keeps _ _ _ DenyHost). intros s Hc. by_command (DenyHost s). Qed.
Lemma deny_ip_keeps : keeps_on screen_deny_ip.
Proof. apply (question_keeps _ _ _ DenyIp). intros s Hc. by_command (DenyIp s). Qed.
Lemma undeny_keeps : keeps_on screen_undeny.
Proof. apply (question_keeps _ _ _ Undeny). intros s Hc. by_command (Undeny s). Qed.

Lemma add_user_keeps : keeps_on screen_add_user.
Proof.
  intros n Q a Hs HQ. unfold screen_add_user. do 5 talk; [talk; by apply HQ|]. do 3 talk; [talk; by apply HQ|].
  do 5 talk. rename s into user, s0 into pass. set (admin := bool_decide _).
  assert (Ht : typed (AddUser user pass admin)) by (destruct admin; by_words).
  apply (rule_request (AddUser user pass admin) _ true n); [|done|done|done|].
  - apply command_asks; [|done]. destruct admin; request_text.
  - clear Hs. intros r a4 Hs. repeat talk. by apply HQ.
Qed.

Lemma set_password_keeps : keeps_on screen_set_password.
Proof.
  intros n Q a Hs HQ. unfold screen_set_password. do 5 talk; [talk; by apply HQ|]. do 3 talk; [talk; by apply HQ|].
  do 3 talk. rename s into user, s0 into pass.
  apply (rule_request (SetPassword user pass) _ true n); [|by_words|done|done|].
  - apply command_asks; [request_text|by_words].
  - clear Hs. intros r a4 Hs. repeat talk. by apply HQ.
Qed.

Lemma rule_confirm logged n Q a : settled logged n a -> (forall o a', settled logged n a' -> Q o a') ->
  wp (term_do (fgets 64)) Q a.
Proof.
  intros Hs HQ. apply (rule_term _ _ logged); [apply Hs|]. apply rule_fgets; [lia| | |done].
  - intros _. apply HQ. eapply settled_frame; [exact Hs|done|done|]. apply kept_refl.
  - intros _ o t' Hg. apply HQ. eapply settled_frame; [exact Hs|done|done|]. by eapply got_kept.
Qed.

Lemma del_user_keeps : keeps_on (screen_del_user stale).
Proof.
  intros n Q a Hs HQ. unfold screen_del_user. do 5 talk; [talk; by apply HQ|]. do 3 talk. rename s into user.
  apply (rule_confirm true n); [exact Hs|]. clear Hs. intros o a3 Hs.
  case_decide; [talk; by apply HQ|]. do 3 talk.
  apply (rule_request (DelUser user) _ true n); [|by_words|done|done|].
  - apply command_asks; [request_text|by_words].
  - clear Hs. intros r a4 Hs. repeat talk. by apply HQ.
Qed.

(** *** Configuration *)

Lemma rule_ask_number prompt lo hi logged n Q a : settled logged n a ->
  (forall v a', lo <= v <= hi -> settled logged n a' -> Q v a') -> wp (term_do (input_number prompt lo hi)) Q a.
Proof.
  intros Hs HQ. apply (rule_term _ _ logged); [apply Hs|]. apply rule_number; [|done|done].
  intros v t' Hv Hk. apply HQ; [done|]. by eapply settled_frame.
Qed.

Lemma change_keeps sel p n Q a : settled true n a -> a.(params) !! sel = Some p ->
  (forall a', settled true n a' -> Q tt a') -> wp (change_param sel p) Q a.
Proof.
  intros Hs Hp HQ. destruct (param_initial _ _ _ _ (sd_spoken _ _ _ Hs) Hp) as (q & Hq & En & Emin & Emax).
  destruct (param_ok q Hq) as (Hpl & Hl & Hmin & Hmax). unfold change_param. do 5 talk.
  apply (rule_ask_number _ _ _ true n); [exact Hs|]. clear Hs. intros v a2 Hv Hs. do 3 talk. rewrite u32_small by lia. rewrite En in Hpl, Hl.
  assert (Ht : typed (ConfigSet (name p) v)) by by_words.
  apply (rule_request (ConfigSet (name p) v) _ true n); [|done|done|exists q; split_and!; [done|done|lia|lia]|].
  - apply command_asks; [request_text|done].
  - clear Hs. intros r a3 Hs. talk. destruct r as [err|u].
    + repeat talk. by apply HQ.
    + talk. unfold modify. unfold ClientKeys.wp at 1. apply (set_value _ _ sel v) in Hs. repeat talk. by apply HQ.
Qed.

(** The menu loops: each turn takes a key, so the bound is never reached. *)
Lemma config_loop_keeps fuel : forall n Q a, settled true n a -> (answers a <= fuel)%nat ->
  (forall a', settled true n a' -> Q tt a') -> wp (config_loop fuel) Q a.
Proof.
  induction fuel as [|fuel IH]; intros n Q a Hs Hf HQ; cbn [config_loop]; apply wps_bind; unfold gets, ClientKeys.wp at 1;
    apply wps_bind, rule_say;
    (assert (Hs1 : settled true n (a <| tty ::= set out (.++ save_cursor) |>)) by (eapply settled_frame; [exact Hs|done|done|by split]));
    apply wps_bind, (rule_menu _ _ true n);
      [rewrite length_app, Nat.add_comm; cbn; lia|done| |rewrite length_app, Nat.add_comm; cbn; lia|done|];
    intros v a2 _ H2 Hlt; unfold answers in *; cbn in Hlt; [lia|]; clear Hs Hs1; apply wps_bind; unfold ClientKeys.wp at 1;
    (destruct (if decide _ then _ else _) as [p|] eqn:Hp; [|repeat talk; by apply HQ]).
  case_decide; [|done]. talk. apply (change_keeps _ _ (answers a2)); [|done|].
  - destruct H2. by split.
  - intros a3 H3. apply (IH n); [|unfold answers in *; destruct H3 as [_ _ _ H3]; unfold answers in H3; lia|done].
    eapply settled_le; [exact H3|]. apply H2.
Qed.

Lemma config_keeps : keeps_on screen_config.
Proof.
  intros n Q a Hs HQ. unfold screen_config. talk. apply (rule_fetch _ _ n); [done|]. clear Hs. intros ok a1 Hs.
  destruct ok; [by apply wps_bounded, (config_loop_keeps _ n)|]. repeat talk. by apply HQ.
Qed.

Lemma menu_keeps i name screen : main_menu stale !! i = Some (name, Some screen) -> keeps_on screen.
Proof.
  intros Hi. unfold main_menu in Hi.
  destruct i as [|[|[|[|[|[|[|[|[|[|[|[|[|i]]]]]]]]]]]]]; try (injection Hi as <- <-); try done.
  - apply stats_keeps.
  - apply connections_keeps.
  - apply users_keeps.
  - apply config_keeps.
  - apply add_user_keeps.
  - apply del_user_keeps.
  - apply set_password_keeps.
  - apply access_log_keeps.
  - apply deny_host_keeps.
  - apply deny_ip_keeps.
  - apply undeny_keeps.
  - apply deny_list_keeps.
Qed.

Lemma main_menu_loop_keeps fuel : forall n Q a, settled true n a -> (answers a <= fuel)%nat ->
  (forall a', settled true n a' -> Q tt a') -> wp (main_menu_loop stale fuel) Q a.
Proof.
  induction fuel as [|fuel IH]; intros n Q a Hs Hf HQ; cbn [main_menu_loop];
    apply wps_bind, rule_say;
    (assert (Hs1 : settled true n (a <| tty ::= set out (.++ save_cursor) |>)) by (eapply settled_frame; [exact Hs|done|done|by split]));
    apply wps_bind, (rule_menu _ _ true n);
      [cbn; lia|done| |cbn; lia|done|];
    intros v a2 _ H2 Hlt; unfold answers in *; cbn in Hlt; [lia|]; clear Hs Hs1.
  case_decide; [by apply wps_ret, HQ|]. destruct (main_menu stale !! Z.to_nat v) as [[nm [screen|]]|] eqn:Hm;
    [|by apply wps_ret, HQ|by apply wps_ret, HQ].
  apply wps_bind, (rule_said true (answers a2)); [destruct H2; by split|]. intros a3 H3.
  apply wps_bind, (menu_keeps _ _ _ Hm (answers a2)); [done|]. intros a4 H4.
  apply wps_bind, (rule_said true (answers a2)); [done|]. intros a5 H5.
  apply (IH n); [|destruct H5 as [_ _ _ H5]; unfold answers in *; lia|done].
  eapply settled_le; [exact H5|]. apply H2.
Qed.

(** *** From the first prompt to the last *)

Lemma settled_login logged n a : settled false n a -> settled logged n a.
Proof.
  intros [[(tries & rest & [D1 D2 D3 D4] & Hsent) Htk Hps] H2 H3 H4]. split; [|done|done|done]. split; [|done|done].
  exists tries, rest. split; [|done]. split; [done|done|done|]. intros _. by apply D4.
Qed.

Lemma rule_key {A} (f : Z -> U client A) logged n Q a : settled logged n a ->
  (forall k a', settled logged n a' -> (answers a' < answers a)%nat -> wp (f k) Q a') ->
  wp (term_do term_enter_raw ;; key ← term_do term_getkey; term_do term_exit_raw ;; f key) Q a.
Proof.
  intros Hs HQ. apply wps_bind. unfold ClientKeys.wp at 1. cbn.
  apply wps_bind, (rule_term _ _ logged); [eapply spoken_frame; [apply Hs|done|done]|].
  apply rule_getkey; [|done]. intros k ks Hks. apply wps_bind. unfold ClientKeys.wp at 1. cbn. cbn in Hks.
  apply HQ; [|unfold answers; cbn; lia].
  destruct Hs as [H1 H2 H3 H4]. split; [by eapply spoken_frame|done|done|]. unfold answers in *. cbn in *. lia.
Qed.

Lemma settled_here logged n a : settled logged n a -> settled logged (answers a) a.
Proof. by intros [H1 H2 H3 H4]. Qed.

Lemma login_loop_keeps fuel : forall n Q a, settled false n a -> (answers a <= fuel)%nat ->
  (forall ok a', settled ok n a' -> Q ok a') -> wp (login_loop fuel) Q a.
Proof.
  induction fuel as [|fuel IH]; intros n Q a Hs Hf HQ; cbn [login_loop].
  all: assert (Hn : (answers a <= n)%nat) by apply Hs; apply settled_here in Hs; set (m := answers a) in *; clearbody m.
  all: do 5 talk; [do 3 talk; apply HQ; by eapply settled_le|]; do 5 talk; rename s into user, s0 into pass.
  all: apply (rule_request (Auth user pass) _ false m);
    [apply (command_asks (Auth user pass)); [request_text|by_words]|by_words|done|done|].
  all: clear Hs; intros r a4 Hs; destruct r as [err|u]; [|do 4 talk; talk; apply HQ, settled_login; by eapply settled_le].
  all: do 4 talk; apply (rule_key _ false m); [done|]; intros k a7 H7 Hlt.
  all: pose proof (sd_keys _ _ _ Hs) as Hkeys; clear Hs.
  1: lia.
  case_decide; [apply wps_ret, HQ; by eapply settled_le|].
  apply wps_bind, (rule_said false (answers a7)); [by apply settled_here in H7|]. intros a8 H8.
  apply (IH n); [eapply settled_le; [exact H8|]; lia| |done]. pose proof (sd_keys _ _ _ H8). lia.
Qed.

(** What was said in the end: the last request of a session that was logged in
    is to quit. *)
Record ended (a : client) : Prop := {
  en_said : exists tries rest, Forall login tries /\ Forall body rest /\ Forall typed (tries ++ rest) /\
    (a.(fd).(sent) = before ++ concat (request <$> tries) \/
     a.(fd).(sent) = before ++ concat (request <$> tries ++ rest ++ [Quit]));
  en_modes : a.(tty).(c_lflag) = modes;
  en_raw : a.(tty).(raw_active) = false;
}.

Lemma rule_greeting n Q a : settled false n a -> (forall a', settled false n a' -> Q tt a') -> wp skip_greeting Q a.
Proof.
  intros [[H1 H2 H3] H4 H5 H6] HQ. unfold ClientKeys.wp, skip_greeting.
  destruct (quit_loop_ends (length (inp (fd a))) (fd a) (le_n _)) as [c E]. rewrite E. apply HQ.
  split; [|done|done|done]. split; cbn; [by rewrite (quit_loop_sent _ _ _ E)|by rewrite (quit_loop_takes _ _ _ E)|done].
Qed.

Lemma rule_quit n Q a : settled true n a -> (forall a', ended a' -> Q tt a') -> wp quit Q a.
Proof.
  intros [[(tries & rest & [D1 D2 D3 D4] & Hsent) H2 H3] H4 H5 H6] HQ. unfold ClientKeys.wp, quit.
  destruct (quit_writes a.(fd) H2) as (c & -> & Hw). apply HQ. split; [|done|done].
  exists tries, rest. split_and!; [done|done|done|]. right. cbn. rewrite Hw, Hsent, !app_assoc, requests_snoc.
  by rewrite <- !app_assoc.
Qed.

Lemma session_keeps port n Q a : settled false n a -> (forall a', ended a' -> Q tt a') -> wp (session stale port) Q a.
Proof.
  intros Hs HQ. unfold session. talk. apply (rule_greeting n); [done|]. clear Hs. intros a1 Hs. do 6 talk.
  talk. unfold screen_login. do 2 talk. apply wps_bounded, (login_loop_keeps _ n); [done|done|]. clear Hs. intros ok a5 Hs.
  destruct ok; cbn [negb].
  - talk. apply (rule_fetch _ _ n); [done|]. clear Hs. intros fetched a6 Hs. talk.
    assert (Hw : wp (if fetched : bool then mret tt else complain (lit "Warning: could not load server configuration" ++ Client.nl))
      (fun _ a7 => settled true n a7) a6).
    { destruct fetched; [done|]. destruct Hs as [[H1 H2 H3] H4 H5 H6]. by repeat split. }
    eapply wps_mono; [exact Hw|]. clear Hs Hw. intros [] a7 Hs. talk.
    apply wps_bounded, (main_menu_loop_keeps _ n); [done|done|]. clear Hs. intros a8 Hs. do 2 talk.
    by apply (rule_quit n).
  - apply wps_ret, HQ. destruct Hs as [[(tries & rest & [D1 D2 D3 D4] & Hsent) _ _] H2 H3 _].
    rewrite (D4 eq_refl), app_nil_r in *. split; [|done|done]. exists tries, []. rewrite app_nil_r. split_and!; try done.
    by left.
Qed.

End Session.

End ClientRuns.
