(* ===== verification/ClientSafe.v ===== *)
(** What the administration client promises as a whole, with sample runs. *)
From S2P Require Import Prelude CBuffer Request Selector Os Inet Trace Scripted Store Users Acl StoreInv.
From S2P Require Import MonCommands MonProtocol MonText Flags.
From S2P Require Import Client Blocking ClientWire ClientUi ClientMain ClientKeys ClientAnswers ClientRuns.
Import Trace Blocking MonCommands MonProtocol MonText Client ClientWire ClientUi ClientMain ClientKeys ClientAnswers ClientRuns.
Local Open Scope Z_scope.

Module ClientSafe.

(** A client before its session: nobody has used its terminal or its
    parameters, and its socket fails only by interruption. *)
Record fresh_client (a : client) : Prop := {
  fc_takes : Forall patient a.(fd).(takes);
  fc_params : shape a.(params) = shape params_initial;
  fc_raw : a.(tty).(raw_active) = false;
}.

Lemma fresh_settled a : fresh_client a -> settled a.(fd).(sent) a.(tty).(c_lflag) false (answers a) a.
Proof.
  intros [H1 H2 H3]. split; [|done|done|done]. split; [|done|done]. exists [], []. split; [|by rewrite app_nil_r].
  split; constructor.
Qed.

(** What is sent between two states: requests, which the server reads as one
    line each. *)
Definition requested (cs : list admin_command) (a a' : client) : Prop :=
  a'.(fd).(sent) = a.(fd).(sent) ++ concat (request <$> cs) /\
  frames [] (concat (request <$> cs)) = ((fun c => Line (line_of (words c))) <$> cs, []).

Definition state_of {A} (o : outcome client A) : client :=
  match o with Done _ a | Waits a | Spins a => a end.
Definition is_done {A} (o : outcome client A) : bool := match o with Done _ _ => true | _ => false end.

Lemma session_outcome stale port a : fresh_client a ->
  ClientKeys.wp (waiting a.(fd).(sent)) (asking a.(fd).(sent)) (session stale port)
    (fun _ => ended a.(fd).(sent) a.(tty).(c_lflag)) a.
Proof. intros Hf. eapply session_keeps; [by apply fresh_settled|done]. Qed.

Lemma typed_quit : typed Quit.
Proof. apply Forall_singleton. split; [split; [by_decision|by_decision|done]|vm_compute; lia]. Qed.

(** C26. Whatever is typed and whatever the server answers, a session of the
    client sends requests and nothing else, each of which the server reads as
    the one line it is: attempts to log in; after one that was accepted, the
    commands of the screens, which set only known parameters and only to numbers
    of their ranges; and, when the session ends, the command to quit. *)
Theorem client_speaks stale port a : fresh_client a ->
  let o := session stale port a in
  exists tries rest fin, requested (tries ++ rest ++ fin) a (state_of o) /\
    Forall login tries /\ Forall body rest /\ (fin = [] \/ fin = [Quit]) /\
    (is_done o = true -> fin = [Quit] \/ rest = []) /\ (is_done o = false -> fin = []).
Proof.
  intros Hf o. pose proof (session_outcome stale port a Hf) as H. unfold ClientKeys.wp in H.
  assert (Hopen : forall a', (exists logged, spoken a.(fd).(sent) logged a') -> exists tries rest fin,
    requested (tries ++ rest ++ fin) a a' /\ Forall login tries /\ Forall body rest /\ fin = []).
  { intros a' [logged [(tries & rest & [D1 D2 D3 _] & Hs) _ _]]. exists tries, rest, []. rewrite app_nil_r.
    split; [|done]. split; [done|by apply requests_frame]. }
  unfold o. clear o. destruct (session stale port a) as [u a'|a'|a']; cbn [state_of is_done].
  - destruct H as [(tries & rest & D1 & D2 & D3 & Hs) _ _]. destruct Hs as [Hs|Hs].
    + exists tries, [], []. rewrite !app_nil_r. split; [|split_and!; [done|constructor|by left|by right|done]].
      split; [done|]. apply requests_frame. by apply Forall_app in D3 as [D3 _].
    + exists tries, rest, [Quit]. split; [|split_and!; [done|done|by right|by left|done]].
      split; [done|]. apply requests_frame. rewrite app_assoc. apply Forall_app. split; [done|].
      apply Forall_singleton, typed_quit.
  - destruct H as [_ H]. destruct (Hopen _ H) as (tries & rest & fin & H1 & H2 & H3 & ->). exists tries, rest, [].
    split; [done|]. split_and!; try done. by left.
  - destruct H as [_ H]. destruct (Hopen _ H) as (tries & rest & fin & H1 & H2 & H3 & ->). exists tries, rest, [].
    split; [done|]. split_and!; try done. by left.
Qed.

(** An administrator logs in, sets [max_connections], and quits. *)
Definition typed_keys : list Os.read_result :=
  [Os.RData (lit "root" ++ [x0a]); Os.RData (lit "pw" ++ [x0a])] ++
  each_byte (concat (struck <$> [Down; Down; Down; Return x0a; Down; Return x0a])) ++
  [Os.RData (lit "0" ++ [x0a]); Os.RData (lit "12" ++ [x0a]); Os.RData [x0a]] ++ each_byte (lit "qq").
Definition answered : list byte :=
  concat (response <$> [[lit "+OK ready"]; [lit "+OK"]; [lit "+OK 0"]; [lit "+OK 5"]; [lit "+OK 4096"];
    [lit "+OK 0"]; [lit "+OK 5"]; [lit "+OK 4096"]; [lit "+OK"]; [lit "+OK bye"]]).
Definition sample_client : client :=
  mk_client (mk_term typed_keys [] false 10 0 false []) (mk_conn (each_byte answered) [] []) params_initial [].

Lemma sample_fresh : fresh_client sample_client.
Proof. split; [constructor|done|done]. Qed.

Example sample_requests :
  let o := session (Leftover x00) 8080 sample_client in
  is_done o = true /\ (state_of o).(fd).(sent) = concat (request <$>
    [Auth (lit "root") (lit "pw"); ConfigGet (lit "timeout"); ConfigGet (lit "max_connections");
     ConfigGet (lit "io_buffer_size"); ConfigGet (lit "timeout"); ConfigGet (lit "max_connections");
     ConfigGet (lit "io_buffer_size"); ConfigSet (lit "max_connections") 12; Quit]).
Proof. split; vm_compute; reflexivity. Qed.

Lemma client_speaks_witness :
  let o := session (Leftover x00) 8080 sample_client in
  exists tries rest fin, requested (tries ++ rest ++ fin) sample_client (state_of o) /\
    Forall login tries /\ Forall body rest /\ (fin = [] \/ fin = [Quit]) /\
    (is_done o = true -> fin = [Quit] \/ rest = []) /\ (is_done o = false -> fin = []).
Proof. exact (client_speaks (Leftover x00) 8080 sample_client sample_fresh). Defined.

(** * The program *)

Section Program.
Context {H D P E : Type} {OS : Os.Os E}.
Abbreviation st := (Os.st H D P E).
Implicit Types (w : st).

Abbreviation tr w := (Os.trace (Selector.user w)).

Lemma connect_server_holds host port w : lists_addresses ->
  Os.wp (connect_server host port : Os.M H D P E Z) (fun fd w' =>
    if decide (fd < 0) then held (tr w') = held (tr w) else held (tr w') = fd :: held (tr w)) w.
Proof.
  intros Hl. eapply Os.wp_mono; [by apply connect_server_opens|]. intros fd w' [Hh _ _ _]. rewrite Hh.
  by case_decide.
Qed.

(** C27. The client ends: it returns a status, with the sockets it opened closed
    and the terminal in the modes it found it in, whatever is typed and
    answered; or it waits for more to be typed, connected; or the end of the
    input was seen while it asked for a number. *)
Theorem client_returns stale argv0 why opts a w : lists_addresses -> fresh_client a ->
  Os.wp (main stale argv0 why opts a : Os.M H D P E (outcome client Z)) (fun o w' =>
    match o with
    | Done status a' => (status = EXIT_SUCCESS \/ status = EXIT_FAILURE) /\ held (tr w') = held (tr w) /\
        a'.(tty).(c_lflag) = a.(tty).(c_lflag) /\ a'.(tty).(raw_active) = false
    | Waits a' => a'.(tty).(keys) = [] /\ exists sock, held (tr w') = sock :: held (tr w)
    | Spins a' => a'.(tty).(at_eof) = true /\ exists sock, held (tr w') = sock :: held (tr w)
    end) w.
Proof.
  intros Hl Hf. pose proof (fc_raw _ Hf) as Hraw. unfold main. destruct (launch_of opts) as [| |port].
  - apply Os.wp_ret. split; [by right|]. split; [done|]. split; [done|exact Hraw].
  - apply Os.wp_ret. split; [by left|]. split; [done|]. split; [done|exact Hraw].
  - set (a0 := a <| tty ::= _ |>). assert (Hf0 : fresh_client a0) by (destruct Hf; by split).
    apply Os.wp_bind. eapply Os.wp_mono; [by apply connect_server_holds|]. intros sock w1 Hw1.
    cbn beta in Hw1. destruct (decide (sock < 0)) as [Hneg|Hneg].
    { apply Os.wp_ret. split; [by right|]. split; [exact Hw1|]. split; [done|exact Hraw]. }
    pose proof (session_outcome stale port a0 Hf0) as Ho. unfold ClientKeys.wp in Ho.
    destruct (session stale port a0) as [u a1|a1|a1].
    + apply Os.wp_bind. unfold Os.close. apply Os.wp_emit, Os.wp_ret. destruct Ho as [_ H1 H2].
      split; [by left|]. split; [|done]. cbn. rewrite Hw1. cbn. by rewrite decide_True.
    + apply Os.wp_ret. destruct Ho as [Hk _]. split; [done|]. by exists sock.
    + apply Os.wp_ret. destruct Ho as [Hk _]. split; [done|]. by exists sock.
Qed.

End Program.

(** The sample client connects on descriptor 3. *)
#[local] Instance sample_os : Os.Os Scripted.script := Scripted.tame 17.

Lemma sample_lists : lists_addresses (E := Scripted.script).
Proof. apply tame_lists. Qed.

Definition sample_script : Scripted.script :=
  Scripted.mk_script [] [] [] [3] [None] []
    [(0, [Os.mk_addrinfo (Some Request.sockaddr_zero) 16])] 0.
Definition sample_world : Os.st unit unit unit Scripted.script :=
  Selector.mk_state (Selector.mk_selector None 0 0 false [] 0 0 0 0 []) (Os.mk_sys tt sample_script []).

Lemma client_returns_witness :
  Os.wp (main (Leftover x00) (lit "client") [] [("p"%byte, Some (lit "9090"))] sample_client) (fun o w' =>
    match o with
    | Done status a' => (status = EXIT_SUCCESS \/ status = EXIT_FAILURE) /\
        held (Os.trace (Selector.user w')) = held (Os.trace (Selector.user sample_world)) /\
        a'.(tty).(c_lflag) = sample_client.(tty).(c_lflag) /\ a'.(tty).(raw_active) = false
    | Waits a' => a'.(tty).(keys) = [] /\
        exists sock, held (Os.trace (Selector.user w')) = sock :: held (Os.trace (Selector.user sample_world))
    | Spins a' => a'.(tty).(at_eof) = true /\
        exists sock, held (Os.trace (Selector.user w')) = sock :: held (Os.trace (Selector.user sample_world))
    end) sample_world.
Proof. exact (client_returns (Leftover x00) (lit "client") [] _ sample_client sample_world sample_lists sample_fresh). Defined.

End ClientSafe.
