(* ===== verification/Echo.v ===== *)
(** The echo server of src/server/echo/echo.c: its callbacks, its state and its
    life.  It is a program of its own on the same selector. *)
From S2P Require Import Prelude CBuffer Selector Os.
Local Open Scope Z_scope.

Module Echo.

Definition ECHO_BUFFER_SIZE : nat := Z.to_nat 4096.

Abbreviation loc := positive.

(** The constant handlers, and what [key->data] points to. *)
Inductive handler := EchoClient | EchoPassive.
Inductive data := Client (l : loc) | Server.

(** [srv] is the one server there is; the backing array is the buffer's. *)
Record echo_client := mk_echo_client { rb : CBuffer.buffer }.
#[export] Instance eta_client : Eta echo_client := fun c => mk_echo_client c.(rb).

Record echo_server := mk_echo_server {
  listen_fd : Z;
  port : Z;
  active_clients : Z;
}.
#[export] Instance eta_server : Eta echo_server := fun v =>
  mk_echo_server v.(listen_fd) v.(port) v.(active_clients).

(** The process: the heap of clients, the server, and the flag [stop] points
    to ([None]: a null pointer). *)
Record program := mk_program {
  clients : gmap loc echo_client;
  next_client : loc;
  server : option echo_server;
  stop : option bool;
}.
#[export] Instance eta_program : Eta program := fun p =>
  mk_program p.(clients) p.(next_client) p.(server) p.(stop).

Definition echo_client_interest (c : echo_client) : Z :=
  let interest := Selector.OP_NOOP in
  let interest := if CBuffer.buffer_can_write c.(rb) then Z.lor interest Selector.OP_READ else interest in
  if CBuffer.buffer_can_read c.(rb) then Z.lor interest Selector.OP_WRITE else interest.

(** What [calloc] and [buffer_init] leave. *)
Definition new_echo_client : echo_client :=
  mk_echo_client (CBuffer.buffer_init ECHO_BUFFER_SIZE (replicate ECHO_BUFFER_SIZE x00)).

Section Echo.
Context {E : Type} {OS : Os.Os E}.
Abbreviation M := (Os.M handler data program E).
Abbreviation fd_handler := (@Selector.fd_handler handler data (Os.sys program E)).
Abbreviation item := (@Selector.item handler data).
Abbreviation key := (@Selector.selector_key data).
Variable garbage : item.

(** * Access through pointers *)

Definition client_of (k : key) : option loc :=
  match k.(Selector.key_data) with Some (Client l) => Some l | _ => None end.
Definition the_client (k : key) : M loc := Os.lift (or_fault NullDeref (client_of k)).

Definition get_client (l : loc) : M echo_client :=
  o ← Os.gets (fun p => p.(clients) !! l); Os.lift (or_fault UseAfterFree o).
Definition set_client (l : loc) (c : echo_client) : M unit :=
  _ ← get_client l; Os.modify (fun p => p <| clients ::= (<[l := c]>) |>).
Definition free_client (l : loc) : M unit :=
  _ ← get_client l; Os.modify (fun p => p <| clients ::= delete l |>).

Definition get_server : M echo_server :=
  o ← Os.gets server; Os.lift (or_fault UseAfterFree o).
Definition upd_server (f : echo_server -> echo_server) : M unit :=
  v ← get_server; Os.modify (fun p => p <| server := Some (f v) |>).

(** * The callbacks *)

Section Callbacks.
Variable impl : handler -> fd_handler.

Definition echo_unregister_client (k : key) : M unit := Os.unregister_fd impl k.(Selector.key_fd).

Definition echo_client_read (k : key) : M unit :=
  l ← the_client k;
  c ← get_client l;
  '(_, available) ← Os.lift (CBuffer.buffer_write_ptr c.(rb));
  if decide (available = 0)%nat then Os.set_interest_key k (echo_client_interest c) else
  r ← Os.read k.(Selector.key_fd) available;
  match r with
  | Os.RData [] => echo_unregister_client k
  | Os.RError errno =>
    if Os.would_block errno then Os.set_interest_key k (echo_client_interest c)
    else echo_unregister_client k
  | Os.RData bs =>
    b ← Os.lift (CBuffer.buffer_store c.(rb) bs);
    b ← Os.lift (CBuffer.buffer_write_adv b (Z.of_nat (length bs)));
    let c := c <| rb := b |> in
    set_client l c ;;
    Os.set_interest_key k (echo_client_interest c)
  end.

Definition echo_client_write (k : key) : M unit :=
  l ← the_client k;
  c ← get_client l;
  '(_, pending) ← Os.lift (CBuffer.buffer_read_ptr c.(rb));
  if decide (pending = 0)%nat then Os.set_interest_key k (echo_client_interest c) else
  bs ← Os.lift (CBuffer.buffer_peek c.(rb) pending);
  r ← Os.write k.(Selector.key_fd) bs;
  match r with
  | Os.WError errno =>
    if Os.would_block errno then Os.set_interest_key k (echo_client_interest c)
    else echo_unregister_client k
  | Os.WDone n =>
    b ← Os.lift (CBuffer.buffer_read_adv c.(rb) (Z.of_nat n));
    b ← Os.lift (CBuffer.buffer_compact b);
    let c := c <| rb := b |> in
    set_client l c ;;
    Os.set_interest_key k (echo_client_interest c)
  end.

Definition echo_client_close (k : key) : M unit :=
  match client_of k with
  | Some l =>
    _ ← get_client l;
    upd_server (fun v => v <| active_clients ::= (fun n => if decide (n > 0) then n - 1 else n) |>)
  | None => mret tt
  end ;;
  (if decide (k.(Selector.key_fd) >= 0) then Os.close k.(Selector.key_fd) else mret tt) ;;
  match client_of k with Some l => free_client l | None => mret tt end.

(** [calloc] for a client: a new address. *)
Definition new_client : M (option loc) :=
  ok ← Os.os Os.os_alloc;
  if negb ok then mret None else
  l ← Os.gets next_client;
  Os.modify (fun p => p <| clients ::= (<[l := new_echo_client]>) |> <| next_client ::= Pos.succ |>) ;;
  mret (Some l).

(** One turn of the accept loop. *)
Definition echo_accept_one (fd : Z) : M unit :=
  rc ← Os.set_nio fd;
  if decide (rc < 0) then Os.close fd else
  o ← new_client;
  match o with
  | None => Os.close fd
  | Some l =>
    status ← Os.register garbage fd EchoClient Selector.OP_READ (Client l);
    if decide (status <> Selector.SELECTOR_SUCCESS) then free_client l ;; Os.close fd
    else upd_server (fun v => v <| active_clients ::= Z.add 1 |>)
  end.

(** [fuel]: a bound on the connections that wait. *)
Fixpoint accept_loop (fuel : nat) (listen : Z) : M unit :=
  fd ← Os.accept listen;
  if decide (fd < 0) then mret tt else
  match fuel with
  | O => Os.fail OutOfFuel
  | S fuel => echo_accept_one fd ;; accept_loop fuel listen
  end.

Definition echo_passive_read (k : key) : M unit := fun w =>
  accept_loop (Os.os_backlog w.(Selector.user).(Os.env)) k.(Selector.key_fd) w.

Definition echo_passive_close (k : key) : M unit :=
  upd_server (fun v => v <| listen_fd := -1 |>) ;;
  if decide (k.(Selector.key_fd) >= 0) then Os.close k.(Selector.key_fd) else mret tt.

(** * The server's life *)

Definition create_listen_socket (wanted : Z) : M (option (Z * Z)) := Os.create_listen_socket wanted.

Definition echo_server_init (wanted : Z) : M Selector.selector_status :=
  ok ← Os.os Os.os_alloc;
  if negb ok then mret Selector.SELECTOR_ENOMEM else
  o ← create_listen_socket wanted;
  match o with
  | None => mret Selector.SELECTOR_IO
  | Some (fd, bound) =>
    status ← Os.register garbage fd EchoPassive Selector.OP_READ Server;
    if decide (status <> Selector.SELECTOR_SUCCESS) then Os.close fd ;; mret status else
    Os.modify (fun p => p <| server := Some (mk_echo_server fd bound 0) |>) ;;
    mret Selector.SELECTOR_SUCCESS
  end.

Definition echo_server_stop_accepting : M unit :=
  v ← get_server;
  if decide (v.(listen_fd) < 0) then mret tt else
  Os.unregister_fd impl v.(listen_fd) ;;
  upd_server (fun v => v <| listen_fd := -1 |>).

Definition echo_server_destroy : M unit :=
  v ← get_server;
  (if decide (v.(listen_fd) >= 0) then
     Os.unregister_fd impl v.(listen_fd) ;;
     upd_server (fun v => v <| listen_fd := -1 |>)
   else mret tt) ;;
  _ ← get_server;
  Os.modify (fun p => p <| server := None |>).

Definition echo_server_run_once (ready : Selector.epoll_result) : M Selector.selector_status :=
  v ← get_server;
  flag ← Os.gets stop;
  (if bool_decide (flag = Some true) && bool_decide (v.(listen_fd) >= 0) then echo_server_stop_accepting
   else mret tt) ;;
  (Selector.selector_select impl ready : M Selector.selector_status).

Definition echo_server_is_empty : M bool :=
  v ← get_server;
  mret (bool_decide (v.(listen_fd) < 0) && bool_decide (v.(active_clients) = 0)).

Definition echo_server_port : M Z := v ← get_server; mret v.(port).

End Callbacks.

(** * The constant handlers *)

Definition echo_client_handler (impl : handler -> fd_handler) : fd_handler :=
  Selector.mk_handler (Some (Os.callback (echo_client_read impl))) (Some (Os.callback (echo_client_write impl)))
    None (Some (Os.callback echo_client_close)).
Definition echo_passive_handler : fd_handler :=
  Selector.mk_handler (Some (Os.callback echo_passive_read)) None None (Some (Os.callback echo_passive_close)).

Definition handlers (impl : handler -> fd_handler) (h : handler) : fd_handler :=
  match h with EchoClient => echo_client_handler impl | EchoPassive => echo_passive_handler end.

(** Callbacks may unregister their own descriptor, no close callback does. *)
Definition closing : handler -> fd_handler :=
  handlers (fun _ => Selector.mk_handler None None None (Some (fun _ _ => Fault OutOfFuel))).
Definition echo : handler -> fd_handler := handlers closing.

(** Rounds of the server's loop. *)
Fixpoint rounds (rs : list Selector.epoll_result) : M unit :=
  match rs with [] => mret tt | r :: rs => _ ← echo_server_run_once echo r; rounds rs end.

End Echo.

End Echo.
