(* ===== verification/EchoSafe.v ===== *)
(** The echo server's invariant, that its callbacks keep it, and that it echoes. *)
From S2P Require Import Prelude CBuffer Selector Os Trace SelectorRules Scripted Echo.
Import Trace SelectorRules Echo.
Local Open Scope Z_scope.

Module EchoSafe.

Abbreviation selector := (@Selector.selector handler data).
Abbreviation item := (@Selector.item handler data).

(** An entry is the listening descriptor's or a client's. *)
Definition listening (it : item) : Prop :=
  it.(Selector.handler) = Some EchoPassive /\ it.(Selector.data) = Some Server /\
  it.(Selector.interest) = Selector.OP_READ.
Definition seat (l : loc) (it : item) : Prop :=
  it.(Selector.handler) = Some EchoClient /\ it.(Selector.data) = Some (Client l).

Record client_ok (c : echo_client) : Prop := {
  co_wf : CBuffer.wf c.(rb);
  co_limit : c.(rb).(CBuffer.limit) = ECHO_BUFFER_SIZE;
}.

(** What was sent to a connection is what came from it, less what waits. *)
Record streams (sl : selector) (p : program) (tr : list Os.io) : Prop := {
  ss_held : forall k, k ∈ held tr <-> is_Some (Selector.entry sl k);
  ss_said : forall k, said k tr `prefix_of` heard k tr;
  ss_waits : forall k it l c, Selector.entry sl k = Some it -> seat l it -> p.(clients) !! l = Some c ->
    heard k tr = said k tr ++ CBuffer.contents c.(rb);
}.

(** The invariant; the interest of the entry [x] is not settled. *)
Record inv (G : nat * Z) (N : Z) (x : option Z) (sl : selector) (p : program) (tr : list Os.io) : Prop := {
  in_wf : Selector.wf sl;
  in_quiet : quiet sl;
  in_size : Selector.fd_size sl = N /\ Selector.resolution_mutex sl = false /\ Selector.resolution_jobs sl = [] /\
    Selector.gen sl = G.1 /\ Selector.event_fd sl = G.2;
  in_entry : forall k it, Selector.entry sl k = Some it -> listening it \/ exists l, seat l it /\ is_Some (p.(clients) !! l);
  in_clients : map_Forall (fun _ => client_ok) p.(clients);
  in_armed : forall k it l c, Some k <> x -> Selector.entry sl k = Some it -> seat l it -> p.(clients) !! l = Some c ->
    it.(Selector.interest) = echo_client_interest c;
  in_inj : forall l j k it jt, Selector.entry sl j = Some it -> Selector.entry sl k = Some jt ->
    seat l it -> seat l jt -> j = k;
  in_next : forall l, is_Some (p.(clients) !! l) -> (l < p.(next_client))%positive;
  in_server : exists v, p.(server) = Some v /\ v.(active_clients) = Z.of_nat (size p.(clients)) /\
    (forall k it, Selector.entry sl k = Some it -> listening it -> k = v.(listen_fd)) /\
    (0 <= v.(listen_fd) -> exists it, Selector.entry sl v.(listen_fd) = Some it /\ listening it);
  in_streams : handed_out tr -> streams sl p tr;
  in_seats : forall l, is_Some (p.(clients) !! l) -> exists k it, Selector.entry sl k = Some it /\ seat l it;
}.

Lemma seat_listening l it : seat l it -> listening it -> False.
Proof. intros [H _] [H' _]. congruence. Qed.
Lemma seat_inj l l' it : seat l it -> seat l' it -> l = l'.
Proof. intros [_ H] [_ H']. congruence. Qed.

(** ** Traces of one descriptor *)

(** What a step did to the descriptor [k] and its client's buffer. *)
Inductive traffic (k : Z) : list Os.io -> list Os.io -> list byte -> list byte -> Prop :=
| nothing tr bs : traffic k tr tr bs bs
| came tr bs b : traffic k tr (Os.IoRead k b :: tr) bs (bs ++ b)
| went tr b bs : traffic k tr (Os.IoWrite k b :: tr) (b ++ bs) bs.

Lemma traffic_held k tr tr' b b' : traffic k tr tr' b b' -> held tr' = held tr /\ (handed_out tr' -> handed_out tr).
Proof. by destruct 1. Qed.

Lemma traffic_same k tr tr' b b' : traffic k tr tr' b b' -> heard k tr = said k tr ++ b ->
  heard k tr' = said k tr' ++ b'.
Proof. destruct 1; cbn; intros Hh; [done|..]; rewrite decide_True by done; rewrite Hh; by rewrite ?app_nil_r, app_assoc. Qed.

Lemma traffic_other k j tr tr' b b' : traffic k tr tr' b b' -> j <> k ->
  heard j tr' = heard j tr /\ said j tr' = said j tr.
Proof. destruct 1; cbn; intros Hne; [done|..]; rewrite decide_False by done; by rewrite app_nil_r. Qed.

(** ** A client goes on *)

Section Update.
Context {G : nat * Z} {N : Z}.
Implicit Types (sl : selector) (p : program).

Lemma inv_update x x' sl sl' p p' tr tr' k it it' l c c' : inv G N x sl p tr ->
  Selector.entry sl k = Some it -> seat l it -> p.(clients) !! l = Some c ->
  entries_set sl sl' k (Some it') -> seat l it' ->
  p'.(clients) = <[l:=c']> p.(clients) -> p'.(next_client) = p.(next_client) -> p'.(server) = p.(server) ->
  client_ok c' -> traffic k tr tr' (CBuffer.contents c.(rb)) (CBuffer.contents c'.(rb)) ->
  (forall j, Some j <> x' -> j <> k -> Some j <> x) ->
  (Some k <> x' -> it'.(Selector.interest) = echo_client_interest c') -> inv G N x' sl' p' tr'.
Proof.
  intros [I1 I2 I3 I4 I5 I6 I7 I8 (v & V1 & V2 & V3 & V4) I10 I11] He Hs Hc [S1 S2 S3 S4] Hs' P1 P2 P3 Hok Ht Hx Hi.
  assert (Hcl : forall l', is_Some (clients p' !! l') <-> is_Some (clients p !! l')).
  { intros l'. rewrite P1. destruct (decide (l' = l)) as [->|Hne]; [rewrite lookup_insert_eq, Hc; by split|by rewrite lookup_insert_ne]. }
  assert (Hseat : forall j jt l', Selector.entry sl' j = Some jt -> seat l' jt ->
    exists jt0, Selector.entry sl j = Some jt0 /\ seat l' jt0 /\ (j <> k -> jt = jt0)).
  { intros j jt l' Hj Hsj. rewrite S3 in Hj. case_decide as Hjk; [|by exists jt]. subst j. injection Hj as <-.
    exists it. by rewrite (seat_inj _ _ _ Hsj Hs'). }
  split; [done|auto| |..].
  - unfold frame in S2. injection S2 as E0 E1 E2 E3 E4. by rewrite E0, E1, E2, E3, E4.
  - intros j jt. rewrite S3. case_decide as Hj.
    + intros [= <-]. right. exists l. split; [done|]. by apply Hcl.
    + intros Hj2. destruct (I4 j jt Hj2) as [Hl|(l' & Hl & Hc')]; [by left|right]. exists l'. by rewrite Hcl.
  - rewrite P1. by apply map_Forall_insert_2.
  - intros j jt l' c2 Hj Hjt Hl' Hc2. destruct (Hseat j jt l' Hjt Hl') as (jt0 & Hj0 & Hsj & Heq).
    destruct (decide (j = k)) as [->|Hne].
    + rewrite S3, decide_True in Hjt by done. injection Hjt as <-. rewrite (seat_inj _ _ _ Hl' Hs') in Hc2.
      rewrite P1, lookup_insert_eq in Hc2. injection Hc2 as <-. by apply Hi.
    + rewrite (Heq Hne). apply (I6 j jt0 l'); [auto|done|done|]. rewrite P1, lookup_insert_ne in Hc2; [done|].
      intros ->. apply Hne. by apply (I7 l' j k jt0 it).
  - intros l' j1 j2 jt1 jt2 H1 H2 Hs1 Hs2. destruct (Hseat _ _ _ H1 Hs1) as (a & A1 & A2 & _).
    destruct (Hseat _ _ _ H2 Hs2) as (b & B1 & B2 & _). by apply (I7 l' j1 j2 a b).
  - intros l'. rewrite Hcl, P2. apply I8.
  - exists v. rewrite P3. split; [done|]. split; [|split].
    + rewrite V2, P1. by rewrite map_size_insert_Some by by exists c.
    + intros j jt. rewrite S3. case_decide; [|apply V3]. intros [= <-] Hli. by destruct (seat_listening _ _ Hs' Hli).
    + intros H0. destruct (V4 H0) as (jt & Hj & Hli). exists jt. split; [|done]. rewrite S3, decide_False; [done|].
      intros Hk. rewrite Hk, He in Hj. injection Hj as <-. by destruct (seat_listening _ _ Hs Hli).
  - intros Hh. destruct (traffic_held _ _ _ _ _ Ht) as [Hheld Hho]. destruct (I10 (Hho Hh)) as [T1 T2 T3].
    pose proof (traffic_same _ _ _ _ _ Ht (T3 k it l c He Hs Hc)) as Hk. split.
    + intros j. rewrite Hheld, T1, S3. case_decide as Hj; [subst j; rewrite He; by split|done].
    + intros j. destruct (decide (j = k)) as [->|Hne]; [rewrite Hk; by apply prefix_app_r|].
      destruct (traffic_other _ j _ _ _ _ Ht Hne) as [-> ->]. apply T2.
    + intros j jt l' c2 Hjt Hl' Hc2. destruct (Hseat j jt l' Hjt Hl') as (jt0 & Hj0 & Hsj & Heq).
      destruct (decide (j = k)) as [->|Hne].
      * rewrite S3, decide_True in Hjt by done. injection Hjt as <-. rewrite (seat_inj _ _ _ Hl' Hs') in Hc2.
        rewrite P1, lookup_insert_eq in Hc2. by injection Hc2 as <-.
      * destruct (traffic_other _ j _ _ _ _ Ht Hne) as [-> ->]. apply (T3 j jt0 l'); [done|done|].
        rewrite P1, lookup_insert_ne in Hc2; [done|]. intros ->. apply Hne. by apply (I7 l' j k jt0 it).
  - intros l' Hl'. apply Hcl in Hl'. destruct (I11 l' Hl') as (j & jt & Hj & Hsj). destruct (decide (j = k)) as [->|Hne].
    + exists k, it'. rewrite S3, decide_True by done. split; [done|]. rewrite He in Hj. injection Hj as <-.
      by rewrite (seat_inj _ _ _ Hsj Hs).
    + exists j, jt. by rewrite S3, decide_False.
Qed.

(** ** Descriptors come and go *)

(** Only the entry [k] is gone, and its descriptor is closed. *)
Lemma streams_close sl sl' p p' tr k : streams sl p tr -> NoDup (held tr) ->
  (forall j, Selector.entry sl' j = if decide (j = k) then None else Selector.entry sl j) ->
  (forall j it l c, Selector.entry sl' j = Some it -> seat l it -> p'.(clients) !! l = Some c ->
     p.(clients) !! l = Some c) ->
  streams sl' p' (Os.IoClose k :: tr).
Proof.
  intros [T1 T2 T3] Hn He Hp. split; cbn [held heard said]; [|done|].
  - intros j. rewrite drop_one_elem, T1, He by done. case_decide; [|naive_solver].
    split; [naive_solver|by intros [? ?]].
  - intros j it l c Hj Hs Hc. eapply T3; [|done|by eapply Hp]. rewrite He in Hj. by case_decide.
Qed.

Lemma inv_close_client x sl sl' p p' v tr k it l : inv G N x sl p tr ->
  (forall j, j <> k -> Some j <> x) ->
  Selector.entry sl k = Some it -> seat l it -> entries_set sl sl' k None ->
  p'.(clients) = delete l p.(clients) -> p'.(next_client) = p.(next_client) -> p.(server) = Some v ->
  p'.(server) = Some (v <| active_clients := v.(active_clients) - 1 |>) ->
  inv G N None sl' p' (Os.IoClose k :: tr).
Proof.
  intros [I1 I2 I3 I4 I5 I6 I7 I8 (v' & V1 & V2 & V3 & V4) I10 I11] Hx He Hs [S1 S2 S3 S4] P1 P2 P3 P4.
  replace v' with v in * by congruence.
  assert (Hcl : is_Some (clients p !! l)).
  { destruct (I4 k it He) as [Hl|(l' & Hl & Hc')]; [by destruct (seat_listening _ _ Hs Hl)|].
    by rewrite (seat_inj _ _ _ Hs Hl). }
  assert (Hold : forall j jt, Selector.entry sl' j = Some jt -> Selector.entry sl j = Some jt /\ j <> k).
  { intros j jt. rewrite S3. by case_decide. }
  assert (Hother : forall j jt l', Selector.entry sl' j = Some jt -> seat l' jt -> l' <> l).
  { intros j jt l' Hj Hsj ->. destruct (Hold j jt Hj) as [Hj' Hne]. apply Hne. by apply (I7 l j k jt it). }
  split; [done|auto| |..].
  - unfold frame in S2. injection S2 as E0 E1 E2 E3 E4. by rewrite E0, E1, E2, E3, E4.
  - intros j jt Hj. destruct (Hold j jt Hj) as [Hj' _]. destruct (I4 j jt Hj') as [Hl|(l' & Hl & Hc')]; [by left|right].
    exists l'. split; [done|]. rewrite P1, lookup_delete_ne; [done|]. intros E. by apply (Hother j jt l' Hj Hl).
  - rewrite P1. by apply map_Forall_delete.
  - intros j jt l' c2 _ Hj Hl Hc2. destruct (Hold j jt Hj) as [Hj' Hne]. apply (I6 j jt l'); auto.
    rewrite P1 in Hc2. by apply lookup_delete_Some in Hc2 as [_ Hc2].
  - intros l' j1 j2 jt1 jt2 H1 H2. apply (I7 l' j1 j2 jt1 jt2); by apply Hold.
  - intros l' Hl. rewrite P2. apply I8. rewrite P1 in Hl. destruct Hl as [c2 Hc2].
    apply lookup_delete_Some in Hc2 as [_ Hc2]. by exists c2.
  - eexists. split; [done|]. cbn. split; [|split].
    + rewrite V2, P1. destruct Hcl as [c Hc]. rewrite map_size_delete_Some by by exists c.
      assert (0 < size (clients p))%nat; [|lia]. destruct (size (clients p)) eqn:Hz; [|lia].
      apply map_size_empty_inv in Hz. by rewrite Hz in Hc.
    + intros j jt Hj. apply V3. by apply Hold.
    + intros H0. destruct (V4 H0) as (jt & Hj & Hli). exists jt. split; [|done]. rewrite S3, decide_False; [done|].
      intros Hk. rewrite Hk, He in Hj. injection Hj as <-. by destruct (seat_listening _ _ Hs Hli).
  - cbn [handed_out]. intros Hh. apply (streams_close sl sl' p p'); [by apply I10|by apply handed_out_NoDup|done|].
    intros j jt l' c Hj Hl Hc. rewrite P1 in Hc. by apply lookup_delete_Some in Hc as [_ Hc].
  - intros l' [c2 Hc2]. rewrite P1 in Hc2. apply lookup_delete_Some in Hc2 as [Hne Hc2].
    destruct (I11 l') as (j & jt & Hj & Hsj); [by exists c2|]. exists j, jt. split; [|done]. rewrite S3, decide_False; [done|].
    intros ->. apply Hne. rewrite He in Hj. injection Hj as <-. by apply (seat_inj _ _ it).
Qed.

(** The listening descriptor goes. *)
Lemma inv_unlisten sl sl' p v tr : inv G N None sl p tr -> p.(server) = Some v -> 0 <= v.(listen_fd) ->
  entries_set sl sl' v.(listen_fd) None ->
  inv G N None sl' (p <| server := Some (v <| listen_fd := -1 |>) |>) (Os.IoClose v.(listen_fd) :: tr).
Proof.
  intros [I1 I2 I3 I4 I5 I6 I7 I8 (v' & V1 & V2 & V3 & V4) I10 I11] Hv H0 [S1 S2 S3 S4].
  replace v' with v in * by congruence.
  assert (Hold : forall j jt, Selector.entry sl' j = Some jt -> Selector.entry sl j = Some jt /\ j <> v.(listen_fd)).
  { intros j jt. rewrite S3. by case_decide. }
  split; [done|auto| |..]; cbn.
  - unfold frame in S2. injection S2 as E0 E1 E2 E3 E4. by rewrite E0, E1, E2, E3, E4.
  - intros j jt Hj. apply (I4 j). by apply Hold.
  - done.
  - intros j jt l' c2 _ Hj Hl Hc2. by apply (I6 j jt l'); [|apply Hold|..].
  - intros l' j1 j2 jt1 jt2 H1 H2. apply (I7 l' j1 j2 jt1 jt2); by apply Hold.
  - done.
  - eexists. split; [done|]. cbn. split; [done|]. split; [|lia].
    intros j jt Hj Hli. destruct (Hold j jt Hj) as [Hj' Hne]. by destruct (Hne (V3 j jt Hj' Hli)).
  - intros Hh. by apply (streams_close sl sl' p _); [apply I10|apply handed_out_NoDup|..].
  - intros l' Hl'. destruct (I11 l' Hl') as (j & jt & Hj & Hsj). exists j, jt. split; [|done].
    rewrite S3, decide_False; [done|]. intros ->. destruct (V4 H0) as (it & Hit & Hli). rewrite Hit in Hj. injection Hj as <-.
    by destruct (seat_listening _ _ Hsj Hli).
Qed.

(** A connection that is turned away. *)
Lemma inv_refuse sl p p' tr k : inv G N None sl p tr -> p'.(clients) = p.(clients) -> p'.(server) = p.(server) ->
  (p.(next_client) <= p'.(next_client))%positive -> inv G N None sl p' (Os.IoClose k :: Os.IoOpen k :: tr).
Proof.
  intros [I1 I2 I3 I4 I5 I6 I7 I8 I9 I10 I11] P1 P3 P2. split; rewrite ?P1, ?P3; try done.
  - intros l Hl. specialize (I8 l Hl). lia.
  - cbn [handed_out]. intros [Hk Hh]. destruct (I10 Hh) as [T1 T2 T3].
    assert (Hnone : Selector.entry sl k = None) by (apply eq_None_not_Some; by rewrite <- T1).
    split; cbn [held drop_one heard said]; rewrite ?decide_True by done.
    + done.
    + intros j. by case_decide.
    + intros j it l c Hj. destruct (decide (k = j)) as [->|Hne]; [congruence|]. rewrite P1. by apply T3.
Qed.

Definition new_item (k : Z) (l : loc) : item := Selector.mk_item k Selector.OP_READ (Some EchoClient) (Some (Client l)).

Lemma new_client_ok : client_ok new_echo_client.
Proof. split; [|done]. apply CBuffer.init_wf. apply length_replicate. Qed.

Lemma new_client_contents : CBuffer.contents new_echo_client.(rb) = [].
Proof. apply CBuffer.init_contents. Qed.

Lemma new_client_interest : echo_client_interest new_echo_client = Selector.OP_READ.
Proof. vm_compute. reflexivity. Qed.

(** A connection that is let in. *)
Lemma inv_add sl sl' p p' v tr k l : inv G N None sl p tr -> Selector.entry sl k = None ->
  entries_set sl sl' k (Some (new_item k l)) -> p.(clients) !! l = None ->
  p'.(clients) = <[l:=new_echo_client]> p.(clients) -> (l < p'.(next_client))%positive ->
  (p.(next_client) <= p'.(next_client))%positive ->
  p.(server) = Some v -> p'.(server) = Some (v <| active_clients := 1 + v.(active_clients) |>) ->
  inv G N None sl' p' (Os.IoOpen k :: tr).
Proof.
  intros [I1 I2 I3 I4 I5 I6 I7 I8 (v' & V1 & V2 & V3 & V4) I10 I11] He [S1 S2 S3 S4] Hl P1 P2 P3 P4 P5.
  replace v' with v in * by congruence.
  assert (Hseat : forall j jt l', Selector.entry sl' j = Some jt -> seat l' jt ->
    j = k /\ l' = l \/ Selector.entry sl j = Some jt /\ l' <> l /\ j <> k).
  { intros j jt l'. rewrite S3. case_decide as Hj; intros Hjt Hs.
    - injection Hjt as <-. left. split; [done|]. by destruct Hs as [_ [= <-]].
    - right. split; [done|]. split; [|done]. intros ->. destruct (I4 j jt Hjt) as [Hli|(l2 & Hs2 & [c Hc])].
      + by destruct (seat_listening _ _ Hs Hli).
      + rewrite (seat_inj _ _ _ Hs2 Hs) in Hc. congruence. }
  split; [done|auto| |..].
  - unfold frame in S2. injection S2 as E0 E1 E2 E3 E4. by rewrite E0, E1, E2, E3, E4.
  - intros j jt. rewrite S3. case_decide as Hj.
    + intros [= <-]. right. exists l. split; [done|]. rewrite P1, lookup_insert_eq. by eexists.
    + intros Hj2. destruct (I4 j jt Hj2) as [Hli|(l' & Hs & Hc)]; [by left|right]. exists l'. split; [done|].
      rewrite P1. apply lookup_insert_is_Some'. by right.
  - rewrite P1. apply map_Forall_insert_2; [exact new_client_ok|done].
  - intros j jt l' c _ Hj Hs. destruct (Hseat j jt l' Hj Hs) as [[-> ->]|(Hj' & Hne & _)].
    + rewrite P1, lookup_insert_eq. intros [= <-]. rewrite S3, decide_True in Hj by done. injection Hj as <-.
      symmetry. exact new_client_interest.
    + rewrite P1, lookup_insert_ne by done. by apply (I6 j jt l').
  - intros l' j1 j2 jt1 jt2 H1 H2 Hs1 Hs2.
    destruct (Hseat _ _ _ H1 Hs1) as [[-> ->]|(A1 & A2 & A3)], (Hseat _ _ _ H2 Hs2) as [[-> B0]|(B1 & B2 & B3)]; try done.
    by apply (I7 l' j1 j2 jt1 jt2).
  - intros l'. rewrite P1. destruct (decide (l' = l)) as [->|Hne]; [done|]. rewrite lookup_insert_ne by done.
    intros Hl'. specialize (I8 l' Hl'). lia.
  - eexists. split; [done|]. cbn. split; [|split].
    + rewrite P1, map_size_insert_None by done. lia.
    + intros j jt. rewrite S3. case_decide; [|apply V3]. by intros [= <-] [? _].
    + intros H0. destruct (V4 H0) as (jt & Hj & Hli). exists jt. split; [|done]. rewrite S3, decide_False; [done|].
      intros Hk. rewrite Hk, He in Hj. done.
  - cbn [handed_out]. intros [Hk Hh]. destruct (I10 Hh) as [T1 T2 T3]. split; cbn [held heard said].
    + intros j. rewrite elem_of_cons, T1, S3. case_decide as Hj; [|naive_solver]. split; [by eexists|by left].
    + intros j. by case_decide.
    + intros j jt l' c Hj Hs. destruct (Hseat j jt l' Hj Hs) as [[-> ->]|(Hj' & Hne & Hnk)].
      * rewrite P1, lookup_insert_eq, !decide_True by done. intros [= <-]. by rewrite new_client_contents.
      * rewrite P1, lookup_insert_ne, !decide_False by done. by apply (T3 j jt l').
  - intros l'. rewrite P1. destruct (decide (l' = l)) as [->|Hne].
    + intros _. exists k, (new_item k l). by rewrite S3, decide_True.
    + rewrite lookup_insert_ne by done. intros Hl'. destruct (I11 l' Hl') as (j & jt & Hj & Hsj). exists j, jt. split; [|done].
      rewrite S3, decide_False; [done|]. intros ->. congruence.
Qed.

(** The selector's own bookkeeping. *)
Lemma inv_table x sl sl' p tr : inv G N x sl p tr -> Selector.wf sl' -> quiet sl' ->
  Selector.fd_size sl' = Selector.fd_size sl -> Selector.resolution_mutex sl' = false ->
  Selector.resolution_jobs sl' = [] ->
  Selector.gen sl' = Selector.gen sl -> Selector.event_fd sl' = Selector.event_fd sl ->
  (forall k, Selector.entry sl' k = Selector.entry sl k) -> inv G N x sl' p tr.
Proof.
  intros [I1 I2 (I3 & _ & _ & I3' & I3'') I4 I5 I6 I7 I8 (v & V1 & V2 & V3 & V4) I10 I11] W Q Hs Hm Hj Hg Hv He. split; try done.
  - by rewrite Hs, Hg, Hv.
  - intros k it. rewrite He. apply I4.
  - intros k it l c. rewrite He. apply I6.
  - intros l j k it jt. rewrite !He. apply I7.
  - exists v. split; [done|]. split; [done|]. split; [intros k it; rewrite He; apply V3|by rewrite He].
  - intros Hh. destruct (I10 Hh) as [T1 T2 T3]. split; [intros k; by rewrite He|done|].
    intros k it l c. rewrite He. apply T3.
  - intros l Hl. destruct (I11 l Hl) as (k & it & Hk & Hs'). exists k, it. by rewrite He.
Qed.

End Update.

(** * The callbacks *)

Section Rules.
Context {E : Type} {OS : Os.Os E} {OL : Os.OsLaws E}.
Abbreviation st := (Os.st handler data program E).
Abbreviation M := (Os.M handler data program E).
Abbreviation fd_handler := (@Selector.fd_handler handler data (Os.sys program E)).
Abbreviation key := (@Selector.selector_key data).
Variables (garbage : item) (G : nat * Z) (N : Z).
Hypothesis Hsize : N <= 65536.
Implicit Types (w : st).

Definition prog w : program := w.(Selector.user).(Os.prog).
Definition trace w : list Os.io := w.(Selector.user).(Os.trace).

Definition env w : E := w.(Selector.user).(Os.env).

Definition state_inv (x : option Z) w : Prop := inv G N x w.(Selector.sel) (prog w) (trace w).

(** The client [l] is served on the descriptor [k]. *)
Definition serving (x : option Z) (k : Z) (l : loc) (c : echo_client) w : Prop :=
  state_inv x w /\ (x = None \/ x = Some k) /\ (prog w).(clients) !! l = Some c /\
  exists it, Selector.entry w.(Selector.sel) k = Some it /\ seat l it.

(** It was, and goes on being served or is gone. *)
Definition served (k : Z) (l : loc) w : Prop := state_inv None w /\
  forall it, Selector.entry w.(Selector.sel) k = Some it -> seat l it.

Lemma serving_range x k l c w : serving x k l c w -> 0 <= k < Selector.fd_size w.(Selector.sel) /\ k < 65536.
Proof.
  intros (Hi & _ & _ & it & He & _). destruct (Selector.entry_used _ _ _ (in_wf _ _ _ _ _ _ Hi) He) as (_ & _ & _ & _ & Hr).
  pose proof (proj1 (in_size _ _ _ _ _ _ Hi)). lia.
Qed.

Lemma echo_serving_ok x k l c w : serving x k l c w -> client_ok c.
Proof. intros (Hi & _ & Hc & _). exact (in_clients _ _ _ _ _ _ Hi l c Hc). Qed.

Lemma echo_wp_get_client l c Q w : (prog w).(clients) !! l = Some c -> Q c w -> Os.wp (get_client l) Q w.
Proof.
  intros Hl HQ. apply Os.wp_bind, Os.wp_gets. unfold prog in Hl. rewrite Hl. by apply (Os.wp_lift _ c).
Qed.

Lemma wp_get_server v Q w : (prog w).(server) = Some v -> Q v w -> Os.wp get_server Q w.
Proof.
  intros Hv HQ. apply Os.wp_bind, Os.wp_gets. unfold prog in Hv. rewrite Hv. by apply (Os.wp_lift _ v).
Qed.

Lemma wp_upd_server f v Q w : (prog w).(server) = Some v ->
  Q tt (Os.on_prog (fun p => p <| server := Some (f v) |>) w) -> Os.wp (upd_server f) Q w.
Proof. intros Hv HQ. apply Os.wp_bind, (wp_get_server v); [done|]. exact HQ. Qed.

Lemma echo_wp_the_client (k : key) l Q w : k.(Selector.key_data) = Some (Client l) -> Q l w -> Os.wp (the_client k) Q w.
Proof. intros Hk HQ. unfold the_client, client_of. rewrite Hk. by apply (Os.wp_lift _ l). Qed.

(** Its interest is settled. *)
Lemma echo_rule_interest x k l c (key : key) w : serving x k l c w -> key.(Selector.key_fd) = k ->
  Os.wp (Os.set_interest_key key (echo_client_interest c)) (fun _ => served k l) w.
Proof.
  intros Hs Hk. destruct (serving_range _ _ _ _ _ Hs) as [Hr Hm]. destruct Hs as (Hi & Hx & Hc & it & He & Hse).
  destruct (set_interest_entry w.(Selector.sel) k (echo_client_interest c) (in_wf _ _ _ _ _ _ Hi) Hr Hm) as (r & sl' & Heq & Hset).
  rewrite He in Hset. apply Os.wp_bind. eapply Os.wp_selector; [cbn; rewrite Hk, (in_range_valid w.(Selector.sel) k (in_wf _ _ _ _ _ _ Hi) Hr Hm); exact Heq|]. apply Os.wp_ret. split.
  - apply (inv_update x None w.(Selector.sel) sl' (prog w) (prog w) (trace w) (trace w) k it
      (it <| Selector.interest := echo_client_interest c |>) l c c Hi); try done.
    + by rewrite insert_id.
    + exact (in_clients _ _ _ _ _ _ Hi l c Hc).
    + constructor.
    + intros j _ Hj. destruct Hx as [-> | ->]; congruence.
  - intros jt. change (Selector.entry sl' k = Some jt -> seat l jt). rewrite (es_entry _ _ _ _ Hset), decide_True by done.
    by intros [= <-].
Qed.

(** Its connection is closed. *)
Lemma echo_rule_close impl x k l c w : Selector.handle_close (impl EchoClient) = Some (Os.callback echo_client_close) ->
  serving x k l c w -> Os.wp (Os.unregister_fd impl k) (fun _ => served k l) w.
Proof.
  intros Hcl Hs. destruct (serving_range _ _ _ _ _ Hs) as [Hr Hm]. destruct Hs as (Hi & Hx & Hc & it & He & [Hh Hd]).
  destruct (in_server _ _ _ _ _ _ Hi) as (v & Hv & Hn & _).
  eapply (wp_unregister impl k it EchoClient); [apply Hi|done|done|done|exact Hcl|]. intros sl1 Hset1. rewrite Hd.
  unfold echo_client_close. cbn [client_of Selector.key_data Selector.key_fd].
  apply Os.wp_bind, Os.wp_bind, (echo_wp_get_client l c); [exact Hc|]. apply (wp_upd_server _ v); [exact Hv|].
  rewrite (decide_True (P := k >= 0)) by lia. apply Os.wp_bind, Os.wp_emit.
  apply Os.wp_bind, (echo_wp_get_client l c); [exact Hc|]. apply Os.wp_modify.
  split; [apply Hset1|]. split; [apply Hset1|]. intros sl3 Hset3.
  pose proof (entries_set_two _ _ _ _ _ _ Hset1 Hset3) as Hset. split.
  - apply (inv_close_client x w.(Selector.sel) sl3 (prog w) _ v (trace w) k it l Hi); try done.
    + intros j Hj. destruct Hx as [-> | ->]; congruence.
    + assert (Hpos : size (clients (prog w)) <> 0%nat) by (intros Hz%map_size_empty_inv; by rewrite Hz in Hc).
      assert (Hdec : (if decide (v.(active_clients) > 0) then v.(active_clients) - 1 else v.(active_clients)) =
        v.(active_clients) - 1) by (apply decide_True; lia).
      exact (f_equal (fun n => Some (v <| active_clients := n |>)) Hdec).
  - intros jt. change (Selector.entry sl3 k = Some jt -> seat l jt). by rewrite (es_entry _ _ _ _ Hset), decide_True.
Qed.

(** ** A connection's callbacks *)

Section Connection.
Variable impl : handler -> fd_handler.
Hypothesis Hcl : Selector.handle_close (impl EchoClient) = Some (Os.callback echo_client_close).

(** What was read is in the buffer, what was sent is out of it. *)
Lemma serving_traffic k l c c' tr' w w' : serving None k l c w -> client_ok c' ->
  traffic k (trace w) tr' (CBuffer.contents c.(rb)) (CBuffer.contents c'.(rb)) ->
  w'.(Selector.sel) = w.(Selector.sel) -> (prog w').(clients) = <[l:=c']> (prog w).(clients) ->
  (prog w').(next_client) = (prog w).(next_client) -> (prog w').(server) = (prog w).(server) -> trace w' = tr' ->
  serving (Some k) k l c' w'.
Proof.
  intros (Hi & _ & Hc & it & He & Hse) Hok Ht S P1 P2 P3 T. unfold serving, state_inv. rewrite S, T.
  split; [|split; [by right|split; [by rewrite P1, lookup_insert_eq|by exists it]]].
  apply (inv_update None (Some k) w.(Selector.sel) w.(Selector.sel) (prog w) _ (trace w) tr' k it it l c c'); try done.
  split; [apply Hi|done| |done]. intros j. case_decide; [by subst j|done].
Qed.

Lemma served_still k l c w : serving None k l c w -> served k l w.
Proof. intros (Hi & _ & _ & it & He & Hse). split; [done|]. intros jt Hj. by replace jt with it by congruence. Qed.

Lemma echo_rule_client_read k l c w : serving None k l c w ->
  Os.wp (echo_client_read impl (Selector.mk_key k (Some (Client l)))) (fun _ => served k l) w.
Proof.
  intros Hs. pose proof (echo_serving_ok _ _ _ _ _ Hs) as [Hwf Hlim]. pose proof Hs as (_ & _ & Hc & _).
  apply Os.wp_bind, (echo_wp_the_client _ l); [done|]. apply Os.wp_bind, (echo_wp_get_client l c); [done|].
  apply Os.wp_bind, (Os.wp_lift _ _ _ _ (CBuffer.write_ptr_wf _ Hwf)). case_decide as Hav; [by apply (echo_rule_interest None k l c)|].
  apply Os.wp_bind, Os.wp_bind, Os.wp_os. intros r e Hr.
  destruct r as [[|b bs]|errno]; apply Os.wp_bind; [apply Os.wp_emit|apply Os.wp_emit|apply Os.wp_ret]; apply Os.wp_ret.
  - apply (echo_rule_close impl (Some k) k l c); [done|].
    apply (serving_traffic k l c c (Os.IoRead k [] :: trace w) w); try done.
    + rewrite <- (app_nil_r (CBuffer.contents c.(rb))) at 2. constructor.
    + by apply symmetry, insert_id.
  - pose proof (Os.read_fits _ _ _ _ _ Hr) as Hfit.
    destruct (CBuffer.append_spec c.(rb) (b :: bs) Hwf Hfit) as (b2 & Hap & Hwf2 & Hcon & _ & _ & Hlim2).
    apply bind_ok in Hap as (b1 & Hst & Hadv). apply Os.wp_bind, (Os.wp_lift _ _ _ _ Hst).
    apply Os.wp_bind, (Os.wp_lift _ _ _ _ Hadv). apply Os.wp_bind, Os.wp_bind, (echo_wp_get_client l c); [exact Hc|]. apply Os.wp_modify.
    apply (echo_rule_interest (Some k) k l (c <| rb := b2 |>)); [|done].
    apply (serving_traffic k l c _ (Os.IoRead k (b :: bs) :: trace w) w); try done.
    + split; [done|cbn; congruence].
    + cbn [rb set]. change (rb (c <| rb := b2 |>)) with b2. rewrite Hcon. constructor.
  - destruct (Os.would_block errno); [by apply (echo_rule_interest None k l c)|by apply (echo_rule_close impl None k l c)].
Qed.

Lemma echo_rule_client_write k l c w : serving None k l c w ->
  Os.wp (echo_client_write impl (Selector.mk_key k (Some (Client l)))) (fun _ => served k l) w.
Proof.
  intros Hs. pose proof (echo_serving_ok _ _ _ _ _ Hs) as [Hwf Hlim]. pose proof Hs as (_ & _ & Hc & _).
  apply Os.wp_bind, (echo_wp_the_client _ l); [done|]. apply Os.wp_bind, (echo_wp_get_client l c); [done|].
  apply Os.wp_bind, (Os.wp_lift _ _ _ _ (CBuffer.read_ptr_wf _ Hwf)). case_decide as Hp; [by apply (echo_rule_interest None k l c)|].
  pose proof (CBuffer.peek_spec _ _ Hwf (Nat.le_refl _)) as Hpeek. rewrite firstn_all in Hpeek.
  apply Os.wp_bind, (Os.wp_lift _ _ _ _ Hpeek). apply Os.wp_bind, Os.wp_bind, Os.wp_os. intros r e Hr.
  destruct r as [n|errno]; apply Os.wp_bind; [apply Os.wp_emit|apply Os.wp_ret]; apply Os.wp_ret.
  - pose proof (Os.write_fits _ _ _ _ _ Hr) as Hfit.
    destruct (CBuffer.read_adv_spec c.(rb) n Hwf Hfit) as (b1 & Hadv & Hwf1 & Hc1 & Hl1 & _).
    destruct (CBuffer.compact_spec b1 Hwf1) as (b2 & Hco & Hwf2 & Hc2 & _ & _ & Hl2).
    apply Os.wp_bind, (Os.wp_lift _ _ _ _ Hadv). apply Os.wp_bind, (Os.wp_lift _ _ _ _ Hco).
    apply Os.wp_bind, Os.wp_bind, (echo_wp_get_client l c); [exact Hc|]. apply Os.wp_modify.
    apply (echo_rule_interest (Some k) k l (c <| rb := b2 |>)); [|done].
    apply (serving_traffic k l c _ (Os.IoWrite k (take n (CBuffer.contents c.(rb))) :: trace w) w); try done.
    + split; [done|cbn; congruence].
    + change (rb (c <| rb := b2 |>)) with b2. rewrite Hc2, Hc1.
      rewrite <- (take_drop n (CBuffer.contents c.(rb))) at 2. constructor.
  - destruct (Os.would_block errno); [by apply (echo_rule_interest None k l c)|by apply (echo_rule_close impl None k l c)].
Qed.

End Connection.

(** ** The listening descriptor's callbacks *)

(** Entries stay as they were. *)
Definition keeps w w' : Prop := forall j it,
  Selector.entry w.(Selector.sel) j = Some it -> Selector.entry w'.(Selector.sel) j = Some it.

Lemma refused w0 w k : state_inv None w0 -> w.(Selector.sel) = w0.(Selector.sel) ->
  (prog w).(clients) = (prog w0).(clients) -> (prog w).(server) = (prog w0).(server) ->
  ((prog w0).(next_client) <= (prog w).(next_client))%positive ->
  trace w = Os.IoClose k :: Os.IoOpen k :: trace w0 -> state_inv None w /\ keeps w0 w.
Proof.
  intros Hi S P1 P2 P3 T. split; [|by intros j it; rewrite S].
  unfold state_inv. rewrite S, T. by apply (inv_refuse _ (prog w0)).
Qed.

(** No connection more waits. *)
Definition fewer w w' : Prop := (Os.os_backlog (env w') <= Os.os_backlog (env w))%nat.

Lemma echo_rule_accept_one k w0 w : state_inv None w0 -> 0 <= k < N -> w.(Selector.sel) = w0.(Selector.sel) ->
  prog w = prog w0 -> trace w = Os.IoOpen k :: trace w0 ->
  Os.wp (echo_accept_one garbage k) (fun _ w' => (state_inv None w' /\ keeps w0 w') /\ fewer w w') w.
Proof.
  intros Hi Hk S P T. unfold echo_accept_one.
  assert (Hturned : forall w2, w2.(Selector.sel) = w.(Selector.sel) -> prog w2 = prog w -> trace w2 = trace w ->
    fewer w w2 -> Os.wp (Os.close k : M unit) (fun _ w' => (state_inv None w' /\ keeps w0 w') /\ fewer w w') w2).
  { intros w2 S2 P2 T2 B2. apply Os.wp_emit. split; [|exact B2]. apply (refused w0 _ k); [done|by rewrite <- S, <- S2|..].
    - change (clients (prog w2) = clients (prog w0)). by rewrite P2, P.
    - change (server (prog w2) = server (prog w0)). by rewrite P2, P.
    - change (next_client (prog w0) <= next_client (prog w2))%positive. rewrite P2, P. lia.
    - change (Os.IoClose k :: trace w2 = Os.IoClose k :: Os.IoOpen k :: trace w0). by rewrite T2, T. }
  apply Os.wp_bind, Os.wp_bind, Os.wp_os. intros [getfl setfl] e1 He1.
  pose proof (Os.fcntl_backlog k (env w)) as B1. change (Os.env (Selector.user w)) with (env w) in He1. rewrite He1 in B1. cbn in B1.
  apply Os.wp_ret. case_decide; [by apply Hturned|].
  apply Os.wp_bind, Os.wp_bind, Os.wp_os. intros ok e2 He2.
  pose proof (Os.alloc_backlog e1) as B2. change (Os.os_alloc e1 = (ok, e2)) in He2. rewrite He2 in B2. cbn in B2.
  destruct ok; cbn [negb]; [|apply Os.wp_ret, Hturned; try done; unfold fewer; cbn; lia].
  set (w1 := Os.on_env e2 _). assert (P1 : prog w1 = prog w0) by exact P.
  assert (S1 : w1.(Selector.sel) = w0.(Selector.sel)) by exact S.
  assert (T1 : trace w1 = Os.IoOpen k :: trace w0) by exact T.
  assert (B3 : fewer w w1) by (unfold fewer; cbn; lia). clearbody w1. clear B1 B2.
  apply Os.wp_bind, Os.wp_gets. change (next_client (Os.prog (Selector.user w1))) with (next_client (prog w1)). rewrite P1.
  set (l := next_client (prog w0)). apply Os.wp_bind, Os.wp_modify, Os.wp_ret.
  assert (Hl : clients (prog w0) !! l = None).
  { apply eq_None_not_Some. intros Hl. pose proof (in_next _ _ _ _ _ _ Hi l Hl). subst l. lia. }
  apply Os.wp_bind, Os.wp_bind, Os.wp_os. intros ok3 e3 He3.
  pose proof (Os.alloc_backlog (env w1)) as B4. change (Os.os_alloc (env w1) = (ok3, e3)) in He3. rewrite He3 in B4. cbn in B4.
  set (w3 := Os.on_env e3 _).
  assert (P3 : prog w3 = (prog w0) <| clients ::= (<[l := new_echo_client]>) |> <| next_client ::= Pos.succ |>).
  { change (prog w3) with ((prog w1) <| clients ::= (<[l := new_echo_client]>) |> <| next_client ::= Pos.succ |>). by rewrite P1. }
  assert (S3 : w3.(Selector.sel) = w0.(Selector.sel)) by exact S1.
  assert (T3 : trace w3 = Os.IoOpen k :: trace w0) by exact T1.
  assert (B5 : fewer w w3) by (unfold fewer in *; cbn; lia). clearbody w3.
  pose proof (in_wf _ _ _ _ _ _ Hi) as Hwf. destruct (in_size _ _ _ _ _ _ Hi) as (Hsz & _).
  destruct (register_entry ok3 garbage w0.(Selector.sel) k EchoClient Selector.OP_READ (Client l) Hwf)
    as (r & sl' & Heq & Hr); [lia|lia|].
  eapply Os.wp_selector; [cbn; rewrite S3; exact Heq|]. destruct (decide (r = Selector.SELECTOR_SUCCESS)) as [->|Hne].
  - rewrite decide_False by (intros Hx; by apply Hx). destruct Hr as [Hnone Hset].
    destruct (in_server _ _ _ _ _ _ Hi) as (v & Hv & _). apply (wp_upd_server _ v); [by change (server (prog w3) = Some v); rewrite P3|].
    split; [split|exact B5].
    + unfold state_inv. change (inv G N None sl' ((prog w3) <| server := Some (v <| active_clients ::= Z.add 1 |>) |>) (trace w3)).
      rewrite T3, P3. by apply (inv_add w0.(Selector.sel) sl' (prog w0) _ v (trace w0) k l Hi); try done; cbn; lia.
    + intros j it Hj. change (Selector.entry sl' j = Some it). rewrite (es_entry _ _ _ _ Hset).
      case_decide; [|done]. subst j. congruence.
  - rewrite decide_True by done. subst sl'. apply Os.wp_bind, Os.wp_bind, (echo_wp_get_client l new_echo_client).
    { change (clients (prog w3) !! l = Some new_echo_client). rewrite P3. apply lookup_insert_eq. }
    apply Os.wp_modify, Os.wp_emit. split; [|exact B5]. apply (refused w0 _ k); [done|done|..].
    + change (delete l (clients (prog w3)) = clients (prog w0)). rewrite P3. cbn. by rewrite delete_insert_id.
    + change (server (prog w3) = server (prog w0)). by rewrite P3.
    + change (next_client (prog w0) <= next_client (prog w3))%positive. rewrite P3. cbn. lia.
    + change (Os.IoClose k :: trace w3 = Os.IoClose k :: Os.IoOpen k :: trace w0). by rewrite T3.
Qed.

Hypothesis Hbelow : descriptors_below (E := E) N.

Lemma echo_rule_accept_loop fuel : forall listen w, state_inv None w -> (Os.os_backlog (env w) <= fuel)%nat ->
  Os.wp (accept_loop garbage fuel listen) (fun _ w' => state_inv None w' /\ keeps w w') w.
Proof.
  induction fuel as [|fuel IH]; intros listen w Hi Hf; cbn [accept_loop]; apply Os.wp_bind, Os.wp_bind, Os.wp_os;
    intros fd e Hacc; pose proof (proj2 Hbelow _ _ _ _ Hacc) as Hlt; apply Os.wp_bind;
    (case_decide as Hneg; [apply Os.wp_ret, Os.wp_ret; rewrite decide_True by done; apply Os.wp_ret; split; [exact Hi|by intros j it]|]).
  - pose proof (Os.accept_backlog _ _ _ _ Hacc ltac:(lia)). unfold env in Hf. lia.
  - pose proof (Os.accept_backlog _ _ _ _ Hacc ltac:(lia)) as Hb. apply Os.wp_emit, Os.wp_ret. rewrite decide_False by done.
    set (w1 := Os.on_trace _ _). apply Os.wp_bind.
    pose proof (echo_rule_accept_one fd w w1 Hi ltac:(lia) eq_refl eq_refl eq_refl) as Hone.
    apply Os.wp_ok in Hone as ([] & w2 & H2 & [Hi2 Hk2] & Hb1).
    apply Os.wp_ok. exists tt, w2. split; [done|]. unfold fewer in Hb1. change (env w1) with e in Hb1.
    eapply Os.wp_mono; [apply (IH listen w2 Hi2); unfold env in *; lia|]. intros ? w3 [Hi3 Hk3]. split; [done|].
    intros j it Hj. by apply Hk3, Hk2.
Qed.

Lemma echo_rule_passive_read k w : state_inv None w ->
  Os.wp (echo_passive_read garbage k) (fun _ w' => state_inv None w' /\ keeps w w') w.
Proof. intros Hi. unfold Os.wp, echo_passive_read. by apply echo_rule_accept_loop. Qed.

(** * Rounds of the selector *)

Abbreviation server_handlers := (echo garbage).

Lemma inner_close : Selector.handle_close (closing garbage EchoClient) = Some (Os.callback echo_client_close).
Proof. done. Qed.

Lemma echo_wp_callback (f : key -> M unit) k w (Q : st -> Prop) : Os.wp (f k) (fun _ => Q) w ->
  exists w', Os.callback f k w = Ok w' /\ Q w'.
Proof. unfold Os.wp, Os.callback. destruct (f k w) as [[[] w']|]; [|done]. intros HQ. by exists w'. Qed.

(** What is at a place of the table: the entry, or nothing of interest. *)
Lemma echo_inv_load w fd : state_inv None w -> 0 <= fd < N -> exists it,
  Selector.load (Selector.item_at w.(Selector.sel) fd) w.(Selector.sel) = Ok it /\
  if Selector.ITEM_USED it then Selector.entry w.(Selector.sel) fd = Some it
  else Selector.entry w.(Selector.sel) fd = None /\ it.(Selector.interest) = Selector.OP_NOOP.
Proof.
  intros Hi Hr. destruct (in_size _ _ _ _ _ _ Hi) as (Hsz & _).
  destruct (Selector.load_wf w.(Selector.sel) fd (in_wf _ _ _ _ _ _ Hi)) as (x & it & _ & _ & Hld); [lia|].
  exists it. split; [done|]. unfold Selector.entry. rewrite Hld. destruct (Selector.ITEM_USED it) eqn:Hu; [done|].
  split; [done|]. by apply (in_quiet _ _ _ _ _ _ Hi fd).
Qed.

(** One direction of a client's descriptor, which may be gone by now. *)
Lemma client_dispatch get op (f : key -> M unit) k l w :
  get (server_handlers EchoClient) = Some (Os.callback f) ->
  (forall c w', serving None k l c w' -> Os.wp (f (Selector.mk_key k (Some (Client l)))) (fun _ => served k l) w') ->
  Selector.has op Selector.OP_NOOP = false -> served k l w -> 0 <= k < N ->
  exists w', Selector.dispatch server_handlers get op (G.1, k) (Selector.mk_key k (Some (Client l))) w = Ok w' /\ served k l w'.
Proof.
  intros Hget Hf Hop Hs Hr. pose proof Hs as [Hi Hse]. destruct (echo_inv_load w k Hi Hr) as (it & Hld & Hu).
  destruct (in_size _ _ _ _ _ _ Hi) as (_ & _ & _ & Hg & _). unfold Selector.item_at in Hld. rewrite Hg in Hld.
  unfold Selector.dispatch. rewrite Hld, ok_bind. destruct (Selector.ITEM_USED it).
  - pose proof (Hse it Hu) as Hseat. pose proof Hseat as [Hh Hd].
    destruct (Selector.has op (Selector.interest it)); [|by exists w].
    rewrite Hh. cbn [or_fault]. rewrite ok_bind, Hget. apply echo_wp_callback.
    destruct (in_entry _ _ _ _ _ _ Hi k it Hu) as [[Hl _]|(l' & Hs' & [c Hc])]; [congruence|].
    replace l' with l in * by by apply (seat_inj l l' it). apply (Hf c). split; [done|]. split; [by left|]. split; [done|]. by exists it.
  - destruct Hu as [_ ->]. rewrite Hop. by exists w.
Qed.

Lemma client_event ev fd l it w : state_inv None w -> 0 <= fd < N -> fd <> Selector.event_fd w.(Selector.sel) ->
  Selector.entry w.(Selector.sel) fd = Some it -> seat l it ->
  exists w', Selector.handle_event server_handlers ev fd w = Ok w' /\ state_inv None w'.
Proof.
  intros Hi Hr Hne He Hse. destruct (Selector.entry_used _ _ _ (in_wf _ _ _ _ _ _ Hi) He) as (Hld & Hu & _).
  unfold Selector.handle_event. rewrite decide_False by done. rewrite Hld, ok_bind, Hu. cbv zeta. cbn [negb].
  pose proof Hse as [Hh Hd]. rewrite Hd.
  assert (Hs : served fd l w) by (split; [done|]; intros jt Hj; by replace jt with it by congruence).
  unfold Selector.item_at. destruct (in_size _ _ _ _ _ _ Hi) as (_ & _ & _ & -> & _).
  assert (Hread : exists w1, (if Selector.has ev Selector.READ_EVENTS then
      Selector.dispatch server_handlers Selector.handle_read Selector.OP_READ (G.1, fd) (Selector.mk_key fd (Some (Client l))) w
      else Ok w) = Ok w1 /\ served fd l w1).
  { destruct (Selector.has ev _); [|by exists w].
    apply (client_dispatch _ _ (echo_client_read (closing garbage))); try done.
    intros c w' Hw'. by apply (echo_rule_client_read _ inner_close fd l c). }
  destruct Hread as (w1 & H1 & Hs1). eapply (res_step _ w1); [exact H1|].
  destruct (Selector.has ev Selector.WRITE_EVENTS); [|exists w1; split; [done|apply Hs1]].
  destruct (client_dispatch Selector.handle_write Selector.OP_WRITE (echo_client_write (closing garbage)) fd l w1) as (w2 & H2 & Hs2);
    try done.
  { intros c w' Hw'. by apply (echo_rule_client_write _ inner_close fd l c). }
  exists w2. split; [done|apply Hs2].
Qed.

(** The listening descriptor. *)
Lemma echo_listening_event ev fd it w : state_inv None w -> 0 <= fd < N -> fd <> Selector.event_fd w.(Selector.sel) ->
  Selector.entry w.(Selector.sel) fd = Some it -> listening it ->
  exists w', Selector.handle_event server_handlers ev fd w = Ok w' /\ state_inv None w'.
Proof.
  intros Hi Hr Hne He (Hh & Hd & Hint). destruct (Selector.entry_used _ _ _ (in_wf _ _ _ _ _ _ Hi) He) as (Hld & Hu & _).
  unfold Selector.handle_event. rewrite decide_False by done. rewrite Hld, ok_bind, Hu. cbv zeta. cbn [negb].
  assert (Hread : exists w1, (if Selector.has ev Selector.READ_EVENTS then
      Selector.dispatch server_handlers Selector.handle_read Selector.OP_READ (Selector.item_at w.(Selector.sel) fd)
        (Selector.mk_key fd it.(Selector.data)) w else Ok w) = Ok w1 /\ state_inv None w1 /\ keeps w w1).
  { destruct (Selector.has ev _); [|exists w; split; [done|]; split; [done|by intros j jt]].
    unfold Selector.dispatch. rewrite Hld, ok_bind, Hint, Hh. cbn [or_fault]. rewrite ok_bind.
    change (Selector.has Selector.OP_READ Selector.OP_READ) with true. cbn iota.
    apply (echo_wp_callback (echo_passive_read garbage)). by apply echo_rule_passive_read. }
  destruct Hread as (w1 & H1 & Hi1 & Hk). eapply (res_step _ w1); [exact H1|].
  destruct (Selector.has ev Selector.WRITE_EVENTS); [|by exists w1].
  pose proof (Hk fd it He) as He1. destruct (Selector.entry_used _ _ _ (in_wf _ _ _ _ _ _ Hi1) He1) as (Hld1 & _).
  unfold Selector.item_at in *. rewrite (proj1 (proj2 (proj2 (proj2 (in_size _ _ _ _ _ _ Hi))))) in *.
  rewrite (proj1 (proj2 (proj2 (proj2 (in_size _ _ _ _ _ _ Hi1))))) in *.
  unfold Selector.dispatch. rewrite Hld1, ok_bind, Hint.
  change (Selector.has Selector.OP_WRITE Selector.OP_READ) with false. by exists w1.
Qed.

(** The selector's books, the table as it was. *)
Lemma inv_books w sl' : state_inv None w -> Selector.fds sl' = Selector.fds w.(Selector.sel) ->
  Selector.fd_size sl' = Selector.fd_size w.(Selector.sel) -> Selector.gen sl' = Selector.gen w.(Selector.sel) ->
  Selector.event_fd sl' = Selector.event_fd w.(Selector.sel) -> Selector.resolution_mutex sl' = false -> Selector.resolution_jobs sl' = [] ->
  state_inv None (Os.on_sel sl' w).
Proof.
  intros Hi Hf Hs Hg Hv Hm Hj. apply (inv_table None w.(Selector.sel)); try done.
  - apply (Selector.wf_fds_eq w.(Selector.sel)); [done|done|apply Hi].
  - intros k it. rewrite (load_fds w.(Selector.sel)) by done. by apply (in_quiet _ _ _ _ _ _ Hi).
  - intros k. by apply Selector.entry_fds.
Qed.

(** [epoll_wait] reports the event counter or descriptors of the table. *)
Definition reported (ev : Z * Z) : Prop := ev.2 = G.2 \/ 0 <= ev.2 < N.
Definition round_fits (r : Selector.epoll_result) : Prop :=
  match r with Selector.Ready evs => Forall reported evs | _ => True end.

Lemma event_ok ev w : state_inv None w -> reported ev ->
  exists w', Selector.handle_event server_handlers ev.1 ev.2 w = Ok w' /\ state_inv None w'.
Proof.
  intros Hi Hr. destruct ev as [ev fd]. unfold reported in Hr. cbn [fst snd] in *.
  destruct (in_size _ _ _ _ _ _ Hi) as (_ & Hm & Hj & _ & Hv). rewrite <- Hv in Hr.
  destruct (decide (fd = Selector.event_fd w.(Selector.sel))) as [->|Hne].
  { unfold Selector.handle_event. rewrite decide_True by done. eexists. split; [done|]. by apply (inv_books w _ Hi). }
  destruct Hr as [Hr|Hr]; [done|]. destruct (echo_inv_load w fd Hi Hr) as (it & Hld & Hu).
  destruct (Selector.ITEM_USED it) eqn:Hused.
  - destruct (in_entry _ _ _ _ _ _ Hi fd it Hu) as [Hl|(l & Hs & _)];
      [by apply (echo_listening_event ev fd it)|by apply (client_event ev fd l it)].
  - unfold Selector.handle_event. rewrite decide_False by done. rewrite Hld, ok_bind, Hused. by exists w.
Qed.

Lemma iteration_ok evs : forall w, state_inv None w -> Forall reported evs ->
  exists w', Selector.handle_iteration server_handlers evs w = Ok w' /\ state_inv None w'.
Proof.
  induction evs as [|ev evs IH]; intros w Hi Hr; [by exists w|]. apply Forall_cons in Hr as [H1 H2].
  destruct (event_ok ev w Hi H1) as (w1 & E1 & Hi1). destruct ev as [ev fd].
  cbn [Selector.handle_iteration]. eapply (res_step _ w1); [exact E1|]. by apply IH.
Qed.

Lemma notifications_ok w : state_inv None w ->
  exists w', Selector.handle_block_notifications server_handlers w = Ok w' /\ state_inv None w'.
Proof.
  intros Hi. destruct (in_size _ _ _ _ _ _ Hi) as (_ & Hm & Hj & _).
  unfold Selector.handle_block_notifications, Selector.lock. rewrite Hm, ok_bind.
  change (Selector.resolution_jobs (_ <| Selector.resolution_mutex := true |>)) with
    (Selector.resolution_jobs (Selector.sel w)). rewrite Hj. cbn [Selector.run_jobs]. rewrite ok_bind.
  eexists. split; [done|]. by apply (inv_books w _ Hi).
Qed.

Lemma wp_run {A} (m : M A) (Q : A -> st -> Prop) w : (exists b, m w = Ok b /\ Q b.1 b.2) -> Os.wp m Q w.
Proof. intros ([a w'] & Hm & HQ). apply Os.wp_ok. by exists a, w'. Qed.

Lemma select_ok r w : state_inv None w -> round_fits r ->
  Os.wp (Selector.selector_select server_handlers r : M Selector.selector_status) (fun _ => state_inv None) w.
Proof.
  intros Hi Hr. apply wp_run. destruct r as [evs| | |]; cbn [Selector.selector_select]; [| |by eexists..].
  - destruct (iteration_ok evs w Hi Hr) as (w1 & E1 & Hi1). eapply (res_step _ w1); [exact E1|].
    destruct (notifications_ok w1 Hi1) as (w2 & E2 & Hi2). eapply (res_step _ w2); [exact E2|]. by eexists.
  - destruct (notifications_ok w Hi) as (w2 & E2 & Hi2). eapply (res_step _ w2); [exact E2|]. by eexists.
Qed.

(** ** The end of listening *)

Definition deaf w : Prop := exists v, (prog w).(server) = Some v /\ v.(listen_fd) < 0.

Lemma rule_stop w : state_inv None w ->
  Os.wp (echo_server_stop_accepting server_handlers) (fun _ w' => state_inv None w' /\ deaf w' /\
    (prog w').(clients) = (prog w).(clients)) w.
Proof.
  intros Hi. destruct (in_server _ _ _ _ _ _ Hi) as (v & Hv & Hn & _ & Hl).
  unfold echo_server_stop_accepting. apply Os.wp_bind, (wp_get_server v); [done|].
  case_decide as Hneg; [apply Os.wp_ret; split; [done|]; split; [by exists v|done]|].
  destruct (Hl ltac:(lia)) as (it & He & Hh & Hd & Hint).
  destruct (Selector.entry_used _ _ _ (in_wf _ _ _ _ _ _ Hi) He) as (_ & _ & _ & _ & Hr).
  destruct (in_size _ _ _ _ _ _ Hi) as (Hsz & _).
  apply Os.wp_bind. eapply (wp_unregister server_handlers v.(listen_fd) it EchoPassive); [apply Hi|lia|done|done|done|].
  intros sl1 Hset1. rewrite Hd. unfold echo_passive_close. cbn [Selector.key_fd].
  apply Os.wp_bind, (wp_upd_server _ v); [exact Hv|]. rewrite decide_True by lia. apply Os.wp_emit.
  split; [apply Hset1|]. split; [apply Hset1|]. intros sl3 Hset3.
  pose proof (entries_set_two _ _ _ _ _ _ Hset1 Hset3) as Hset.
  apply (wp_upd_server _ (v <| listen_fd := -1 |>)); [done|]. split; [|split; [by eexists|done]].
  apply (inv_unlisten w.(Selector.sel) sl3 (prog w) v (trace w) Hi Hv); [lia|exact Hset].
Qed.

Lemma rule_run_once r w : state_inv None w -> round_fits r ->
  Os.wp (echo_server_run_once server_handlers r) (fun _ => state_inv None) w.
Proof.
  intros Hi Hr. destruct (in_server _ _ _ _ _ _ Hi) as (v & Hv & _).
  unfold echo_server_run_once. apply Os.wp_bind, (wp_get_server v); [done|]. apply Os.wp_bind, Os.wp_gets, Os.wp_bind.
  destruct (_ && _); [|apply Os.wp_ret; by apply select_ok].
  eapply Os.wp_mono; [by apply rule_stop|]. intros ? w1 [Hi1 _]. by apply select_ok.
Qed.

Lemma rounds_ok rs : forall w, state_inv None w -> Forall round_fits rs ->
  Os.wp (rounds garbage rs) (fun _ => state_inv None) w.
Proof.
  induction rs as [|r rs IH]; intros w Hi Hr; cbn [rounds]; [by apply Os.wp_ret|]. apply Forall_cons in Hr as [H1 H2].
  apply Os.wp_bind. eapply Os.wp_mono; [by apply rule_run_once|]. intros ? w1 Hi1. by apply IH.
Qed.

(** * The start and the end *)

(** A process without a server, on a selector without entries. *)
Record fresh_process w : Prop := {
  fp_vacant : vacant w.(Selector.sel);
  fp_quiet : quiet w.(Selector.sel);
  fp_size : Selector.fd_size w.(Selector.sel) = N /\ Selector.resolution_mutex w.(Selector.sel) = false /\
    Selector.resolution_jobs w.(Selector.sel) = [] /\ Selector.gen w.(Selector.sel) = G.1 /\
    Selector.event_fd w.(Selector.sel) = G.2;
  fp_clients : (prog w).(clients) = ∅;
  fp_trace : trace w = [];
}.

Lemma started w sl' fd bound : fresh_process w -> 0 <= fd < N ->
  entries_set w.(Selector.sel) sl' fd (Some (Selector.mk_item fd Selector.OP_READ (Some EchoPassive) (Some Server))) ->
  inv G N None sl' ((prog w) <| server := Some (mk_echo_server fd bound 0) |>) [Os.IoOpen fd].
Proof.
  intros [[F1 F2] F3 F4 F5 F6] Hfd [S1 S2 S3 S4].
  assert (Hent : forall k it, Selector.entry sl' k = Some it -> k = fd /\
    it = Selector.mk_item fd Selector.OP_READ (Some EchoPassive) (Some Server)).
  { intros k it. rewrite S3. case_decide; [by intros [= <-]|by rewrite F2]. }
  assert (Hnoseat : forall k it l, Selector.entry sl' k = Some it -> seat l it -> False).
  { intros k it l Hk [Hh _]. destruct (Hent k it Hk) as [_ ->]. done. }
  split; [done|auto| |..]; cbn; rewrite ?F5.
  - unfold frame in S2. injection S2 as E0 E1 E2 E3 E4. by rewrite E0, E1, E2, E3, E4.
  - intros k it Hk. left. by destruct (Hent k it Hk) as [_ ->].
  - apply map_Forall_empty.
  - intros k it l c _ Hk Hs. by destruct (Hnoseat k it l Hk Hs).
  - intros l j k it jt Hj _ Hs. by destruct (Hnoseat j it l Hj Hs).
  - intros l [c Hc]. by rewrite lookup_empty in Hc.
  - eexists. split; [done|]. cbn. rewrite map_size_empty. split; [done|]. split; [intros k it Hk _; by destruct (Hent k it Hk)|].
    intros _. eexists. rewrite S3, decide_True by done. by split.
  - intros _. split; cbn [held heard said].
    + intros k. rewrite list_elem_of_singleton, S3. case_decide; [by split|]. rewrite F2. split; [done|by intros []].
    + intros k. by case_decide.
    + intros k it l c Hk Hs. by destruct (Hnoseat k it l Hk Hs).
  - intros l [c Hc]. by rewrite lookup_empty in Hc.
Qed.

Lemma init_ok wanted w : fresh_process w ->
  Os.wp (echo_server_init garbage wanted) (fun r w' =>
    if decide (r = Selector.SELECTOR_SUCCESS) then state_inv None w'
    else w'.(Selector.sel) = w.(Selector.sel) /\ prog w' = prog w /\ held (trace w') = []) w.
Proof.
  intros Hf. unfold echo_server_init. pose proof (fp_trace _ Hf) as T0.
  apply Os.wp_bind, Os.wp_os. intros ok e1 _. destruct ok; cbn [negb].
  2:{ apply Os.wp_ret. rewrite decide_False by done. split; [done|]. split; [done|].
      change (held (trace w) = []). by rewrite T0. }
  apply Os.wp_bind. eapply Os.wp_mono; [apply (listen_socket_spec N Hbelow)|].
  intros [[fd bound]|] w2 [[Hsel Hprog] Htr].
  2:{ apply Os.wp_ret. rewrite decide_False by done. split; [exact Hsel|]. split; [exact Hprog|].
      change (held (trace w2) = held (trace w)) in Htr. by rewrite Htr, T0. }
  destruct Htr as [Hfd Htr]. change (Selector.sel w2 = Selector.sel w) in Hsel. change (prog w2 = prog w) in Hprog.
  change (trace w2 = Os.IoOpen fd :: trace w) in Htr. rewrite T0 in Htr.
  apply Os.wp_bind, Os.wp_bind, Os.wp_os. intros ok2 e3 _. destruct (fp_vacant _ Hf) as [Hwf _].
  destruct (register_entry ok2 garbage w.(Selector.sel) fd EchoPassive Selector.OP_READ Server Hwf)
    as (r & s' & Heq & Hr); [rewrite (proj1 (fp_size _ Hf)); lia|lia|].
  eapply Os.wp_selector; [cbn; rewrite Hsel; exact Heq|]. destruct (decide (r = Selector.SELECTOR_SUCCESS)) as [->|Hne].
  - rewrite decide_False by (intros Hx; by apply Hx). destruct Hr as [_ Hset].
    apply Os.wp_bind, Os.wp_modify, Os.wp_ret. rewrite decide_True by done. unfold state_inv.
    change (inv G N None s' ((prog w2) <| server := Some (mk_echo_server fd bound 0) |>) (trace w2)).
    rewrite Htr, Hprog. by apply (started w).
  - rewrite decide_True by done. subst s'. apply Os.wp_bind, Os.wp_emit, Os.wp_ret. rewrite decide_False by done.
    split; [done|]. split; [exact Hprog|]. change (drop_one fd (held (trace w2)) = []). rewrite Htr. cbn.
    by rewrite decide_True.
Qed.

Lemma empty_spec w : state_inv None w -> handed_out (trace w) -> exists b,
  (echo_server_is_empty : M bool) w = Ok (b, w) /\ (b = true <-> held (trace w) = []).
Proof.
  intros Hi Hh. destruct (in_server _ _ _ _ _ _ Hi) as (v & Hv & Hn & Hp & Hl).
  pose proof (ss_held _ _ _ (in_streams _ _ _ _ _ _ Hi Hh)) as Hheld.
  exists (bool_decide (v.(listen_fd) < 0) && bool_decide (v.(active_clients) = 0)). split.
  { assert (Hw : Os.wp (echo_server_is_empty : M bool) (fun b w' => w' = w /\
      b = bool_decide (v.(listen_fd) < 0) && bool_decide (v.(active_clients) = 0)) w)
      by (apply Os.wp_bind, (wp_get_server v); [done|]; by apply Os.wp_ret).
    by apply Os.wp_ok in Hw as (b & w' & -> & -> & ->). }
  rewrite andb_true_iff, !bool_decide_eq_true. split.
  - intros [Hneg Hz]. assert (Hcl : clients (prog w) = ∅) by (apply map_size_empty_iff; lia).
    destruct (held (trace w)) as [|k ks] eqn:Hks; [done|]. exfalso.
    destruct (proj1 (Hheld k)) as [it Hk]; [by left|].
    destruct (Selector.entry_used _ _ _ (in_wf _ _ _ _ _ _ Hi) Hk) as (_ & _ & _ & _ & Hr).
    destruct (in_entry _ _ _ _ _ _ Hi k it Hk) as [Hli|(l & _ & [c Hc])]; [|by rewrite Hcl in Hc].
    pose proof (Hp k it Hk Hli). lia.
  - intros Hks. assert (Hnone : forall k it, Selector.entry w.(Selector.sel) k = Some it -> False).
    { intros k it Hk. assert (Hin : k ∈ held (trace w)) by (apply Hheld; by eexists). rewrite Hks in Hin. by apply not_elem_of_nil in Hin. }
    split.
    + destruct (decide (v.(listen_fd) < 0)) as [|Hge]; [done|]. destruct (Hl ltac:(lia)) as (it & Hk & _). by destruct (Hnone _ _ Hk).
    + assert (Hcl : clients (prog w) = ∅); [|rewrite Hn, Hcl; by rewrite map_size_empty].
      apply map_eq. intros l. rewrite lookup_empty. apply eq_None_not_Some. intros Hl'.
      destruct (in_seats _ _ _ _ _ _ Hi l Hl') as (k & it & Hk & _). by destruct (Hnone _ _ Hk).
Qed.

End Rules.

End EchoSafe.
