(* ===== verification/EchoRuns.v ===== *)
(** What the echo server promises, with a sample run. *)
From S2P Require Import Prelude CBuffer Selector Os Trace SelectorRules Scripted Echo EchoSafe.
Import Trace SelectorRules Echo EchoSafe.
Local Open Scope Z_scope.

Module EchoRuns.

Section Server.
Context {E : Type} {OS : Os.Os E} {OL : Os.OsLaws E}.
Abbreviation st := (Os.st handler data program E).
Abbreviation M := (Os.M handler data program E).
Variables (garbage : item) (G : nat * Z) (N : Z).
Implicit Types (w : st).

(** C34. The echo server echoes: from a state of its invariant any rounds of its
    loop, whatever [epoll_wait] reports, run to their end without a fault, and
    afterwards what was sent on each connection is a beginning of what came
    from it; of a connection that is still served the rest is what waits in its
    buffer.  The descriptors the server holds are those of its table, none is
    lost.  Assumed are that descriptors stay below the table's size and that
    the system hands out none that is open. *)
Theorem echo_serves rs w : descriptors_below (E := E) N -> N <= 65536 ->
  state_inv G N None w -> Forall (round_fits G N) rs ->
  Os.wp (rounds garbage rs) (fun _ w' => state_inv G N None w' /\ (handed_out (trace w') ->
    (forall k, said k (trace w') `prefix_of` heard k (trace w')) /\
    (forall k, k ∈ held (trace w') <-> is_Some (Selector.entry w'.(Selector.sel) k)) /\
    (forall l c, (prog w').(clients) !! l = Some c -> exists k it,
       Selector.entry w'.(Selector.sel) k = Some it /\ seat l it /\
       heard k (trace w') = said k (trace w') ++ CBuffer.contents c.(rb)))) w.
Proof.
  intros Hb HN Hi Hr. eapply Os.wp_mono; [by apply (rounds_ok garbage G N)|]. intros ? w' Hi'. split; [done|].
  intros Hh. destruct (in_streams _ _ _ _ _ _ Hi' Hh) as [T1 T2 T3]. split; [done|]. split; [done|].
  intros l c Hc. destruct (in_seats _ _ _ _ _ _ Hi' l) as (k & it & Hk & Hs); [by exists c|].
  exists k, it. split; [done|]. split; [done|]. by apply (T3 k it l).
Qed.

(** A server's life: its start, rounds of its loop, and the question whether
    it is empty. *)
Definition echo_life (wanted : Z) (rs : list Selector.epoll_result) : M (option bool) :=
  status ← echo_server_init garbage wanted;
  if decide (status <> Selector.SELECTOR_SUCCESS) then mret None else
  rounds garbage rs ;;
  b ← echo_server_is_empty;
  mret (Some b).

(** C35. No descriptor is leaked: a start that fails leaves every descriptor
    closed, and after any rounds the server says it is empty exactly when every
    descriptor it opened is closed. *)
Theorem echo_accounts wanted rs w : descriptors_below (E := E) N -> N <= 65536 ->
  fresh_process G N w -> Forall (round_fits G N) rs ->
  Os.wp (echo_life wanted rs) (fun r w' => handed_out (trace w') ->
    match r with
    | Some b => b = true <-> held (trace w') = []
    | None => held (trace w') = []
    end) w.
Proof.
  intros Hb HN Hf Hr. apply Os.wp_bind. eapply Os.wp_mono; [by apply (init_ok garbage G N)|].
  intros r w1 H1. cbn beta in H1. destruct (decide (r = Selector.SELECTOR_SUCCESS)) as [->|Hne].
  2:{ rewrite decide_True by done. apply Os.wp_ret. intros _. apply H1. }
  rewrite decide_False by (intros Hx; by apply Hx). apply Os.wp_bind.
  eapply Os.wp_mono; [by apply (rounds_ok garbage G N)|]. intros ? w2 Hi2. apply Os.wp_bind.
  destruct (in_server _ _ _ _ _ _ Hi2) as (v & Hv & _). apply Os.wp_bind, (wp_get_server v); [done|].
  apply Os.wp_ret, Os.wp_ret. intros Hh. destruct (empty_spec G N w2 Hi2 Hh) as (b & Hb2 & Heq).
  rewrite <- Heq. assert (Hval : (echo_server_is_empty : M bool) w2 =
    Ok (bool_decide (v.(listen_fd) < 0) && bool_decide (v.(active_clients) = 0), w2)).
  { unfold echo_server_is_empty, get_server, mbind, Os.M_bind, Os.gets. cbn.
    change (server (Os.prog (Selector.user w2))) with (server (prog w2)). by rewrite Hv. }
  rewrite Hval in Hb2. by injection Hb2 as ->.
Qed.

End Server.

#[export] Instance round_fits_dec G N r : Decision (round_fits G N r).
Proof. destruct r; cbn; unfold reported; apply _. Defined.

(** * A sample run *)

#[local] Instance sample_os : Os.Os Scripted.script := Scripted.tame 17.
#[local] Instance sample_laws : Os.OsLaws Scripted.script := Scripted.tame_laws 17.

Lemma echo_sample_below : descriptors_below (E := Scripted.script) 17.
Proof. by apply Scripted.tame_below. Qed.

Definition zero : item := Selector.zero_item.
Definition no_selector : selector := Selector.mk_selector None 0 0 false [] 0 0 0 0 [].
Definition new_selector : selector :=
  match Selector.selector_new 100 101 true true true zero 8 with Ok (Some s) => s | _ => no_selector end.
Definition books : nat * Z := (Selector.gen new_selector, Selector.event_fd new_selector).
Definition boot (e : Scripted.script) : Os.st handler data program Scripted.script :=
  Selector.mk_state new_selector (Os.mk_sys (mk_program ∅ 1%positive None (Some false)) e []).

Lemma echo_boot_fresh e : fresh_process books 17 (boot e).
Proof.
  assert (Hnew : Selector.selector_new 100 101 true true true zero 8 = Ok (Some new_selector)) by (vm_compute; reflexivity).
  destruct (new_quiet _ _ _ _ _ _ _ _ (ltac:(lia) : 0 <= 8) Hnew) as [Hq Hmx].
  destruct (Selector.new_inv _ _ _ _ _ _ _ _ (ltac:(lia) : 0 <= 8) Hnew) as ([Hwf _ _] & _ & Hnone).
  by split.
Qed.

(** Two clients, of which one is slow. *)
Definition echo_script : Scripted.script :=
  Scripted.mk_script [Os.RData (lit "hello"); Os.RData (lit "you"); Os.RData []] [Os.WDone 2; Os.WDone 9]
    [7; 8; -1] [3] [] [] [] 0.
Definition on (events fd : Z) : Selector.epoll_result := Selector.Ready [(events, fd)].
Definition echo_rounds : list Selector.epoll_result :=
  [on Selector.EPOLLIN 3; on Selector.EPOLLIN 7; on Selector.EPOLLOUT 7; on Selector.EPOLLIN 8;
   Selector.Ready [(Selector.EPOLLOUT, 7); (Selector.EPOLLIN, 8)]].

Definition listening_server : Os.st handler data program Scripted.script :=
  match echo_server_init zero 7000 (boot echo_script) with Ok (_, w) => w | Fault _ => boot echo_script end.

Example echo_trace :
  match rounds zero echo_rounds listening_server with Ok (_, w) => rev (trace w) | Fault _ => [] end =
  [Os.IoOpen 3; Os.IoOpen 7; Os.IoOpen 8; Os.IoRead 7 (lit "hello"); Os.IoWrite 7 (lit "he"); Os.IoRead 8 (lit "you");
   Os.IoWrite 7 (lit "llo"); Os.IoRead 8 []; Os.IoClose 8].
Proof. vm_compute. reflexivity. Qed.

Lemma listening_inv : state_inv books 17 None listening_server.
Proof.
  pose proof (init_ok zero books 17 ltac:(lia) echo_sample_below 7000 (boot echo_script) (echo_boot_fresh _)) as Hw.
  unfold Os.wp in Hw.
  assert (Ht : match echo_server_init zero 7000 (boot echo_script) with Ok (r, _) => r | Fault _ => Selector.SELECTOR_IO end
    = Selector.SELECTOR_SUCCESS) by (vm_compute; reflexivity).
  unfold listening_server. destruct (echo_server_init zero 7000 (boot echo_script)) as [[r w]|]; [|done].
  subst r. by rewrite decide_True in Hw.
Qed.

Lemma echo_serves_witness :
  Os.wp (rounds zero echo_rounds) (fun _ w' => state_inv books 17 None w' /\ (handed_out (trace w') ->
    (forall k, said k (trace w') `prefix_of` heard k (trace w')) /\
    (forall k, k ∈ held (trace w') <-> is_Some (Selector.entry w'.(Selector.sel) k)) /\
    (forall l c, (prog w').(clients) !! l = Some c -> exists k it,
       Selector.entry w'.(Selector.sel) k = Some it /\ seat l it /\
       heard k (trace w') = said k (trace w') ++ CBuffer.contents c.(rb)))) listening_server.
Proof.
  apply (echo_serves zero books 17 echo_rounds).
  - exact echo_sample_below.
  - lia.
  - exact listening_inv.
  - by_decision.
Defined.

Lemma echo_accounts_witness :
  Os.wp (echo_life zero 7000 echo_rounds) (fun r w' => handed_out (trace w') ->
    match r with
    | Some b => b = true <-> held (trace w') = []
    | None => held (trace w') = []
    end) (boot echo_script).
Proof.
  apply (echo_accounts zero books 17).
  - exact echo_sample_below.
  - lia.
  - apply echo_boot_fresh.
  - by_decision.
Defined.

End EchoRuns.
