(* ===== verification/Stress.v ===== *)
(** The load generator of src/stress/stress_client.c: its SOCKS5 client, its
    query of the monitor, its transfers, its threads and its command line. *)
From S2P Require Import Prelude Request Selector Os Inet MonCommands Flags Client Blocking.
Import Blocking.
Local Open Scope Z_scope.

Module Stress.

Definition LINE_BUF_SIZE : nat := Z.to_nat 4096.

Inductive stress_mode := STRESS_MODE_CONNECTIONS | STRESS_MODE_THROUGHPUT | STRESS_MODE_LIVE.
#[export] Instance mode_eq_dec : EqDecision stress_mode.
Proof. solve_decision. Defined.

Record stress_config := mk_config {
  proxy_host : cstring;
  proxy_port : Z;
  username : cstring;
  password : cstring;
  dest_host : cstring;
  dest_port : Z;
  monitor_host : cstring;
  monitor_port : Z;
  admin : option (cstring * cstring);    (* admin_user, admin_pass; [None]: NULL *)
  mode : stress_mode;
  clients : Z;
  bytes_per_client : Z;
  hold_seconds : Z;
  query_monitor : bool;
}.
#[export] Instance eta_config : Eta stress_config := fun c =>
  mk_config c.(proxy_host) c.(proxy_port) c.(username) c.(password) c.(dest_host) c.(dest_port)
    c.(monitor_host) c.(monitor_port) c.(admin) c.(mode) c.(clients) c.(bytes_per_client)
    c.(hold_seconds) c.(query_monitor).

Record monitor_metrics := mk_metrics {
  total_connections : Z;
  concurrent_connections : Z;
  bytes_up : Z;
  bytes_down : Z;
}.

(** * The command line *)

(** [strchr(s, ':')]: what is before the colon, and what is behind it. *)
Fixpoint at_colon (s : cstring) : option (cstring * cstring) :=
  match s with
  | [] => None
  | c :: s => if decide (c = ":"%byte) then Some ([], s)
              else '(a, b) ← at_colon s; Some (c :: a, b)
  end.

(** [strrchr(s, ':')]. *)
Fixpoint at_last_colon (s : cstring) : option (cstring * cstring) :=
  match s with
  | [] => None
  | c :: s =>
    match at_last_colon s with
    | Some (a, b) => Some (c :: a, b)
    | None => if decide (c = ":"%byte) then Some ([], s) else None
    end
  end.

Definition parse_user_pass (input : cstring) (user_len pass_len : nat) : option (cstring * cstring) :=
  match at_colon input with
  | None => None
  | Some (user, pass) =>
    if decide (user = [] \/ pass = []) then None else
    if decide (user_len <= length user \/ pass_len <= length pass)%nat then None else Some (user, pass)
  end.

Definition parse_host_port (input : cstring) (host_len : nat) : option (cstring * Z) :=
  match at_last_colon input with
  | None => None
  | Some (host, port) =>
    if decide (host = [] \/ port = []) then None else
    if decide (host_len <= length host)%nat then None else
    let '(value, any, _) := MonCommands.strtol port in
    if decide (any = false \/ value <= 0 \/ value > 65535) then None else Some (host, u16 value)
  end.

(** An argument through its buffer of 300 bytes. *)
Definition through_buffer (arg : option cstring) : cstring := strncpy_nul 299 (default [] arg).

Definition config_initial : stress_config :=
  mk_config (lit "127.0.0.1") 1080 [] [] [] 0 (lit "127.0.0.1") 8080 None STRESS_MODE_CONNECTIONS 10 65536 0 false.

Definition mode_of (name : cstring) : option stress_mode :=
  if decide (name = lit "connections") then Some STRESS_MODE_CONNECTIONS
  else if decide (name = lit "throughput") then Some STRESS_MODE_THROUGHPUT
  else if decide (name = lit "live") then Some STRESS_MODE_LIVE else None.

(** [(int)value]. *)
Definition to_int (z : Z) : Z := (z + 2 ^ 31) mod 2 ^ 32 - 2 ^ 31.

Inductive launch := Usage | Help | Run (cfg : stress_config).

(** [main] up to the first query; the guards in the order of the code. *)
Section CommandLine.
Variable f : Flags.flags.
Abbreviation flag c := (Flags.has_flag f c).

Definition optional (c : byte) (set : stress_config -> option stress_config) (cfg : stress_config)
  : option stress_config := if flag c then set cfg else Some cfg.

Definition set_port (c : byte) (put : Z -> stress_config -> stress_config) (cfg : stress_config) : option stress_config :=
  let value := Flags.get_flag_long f c in
  if decide (value <= 0 \/ value > 65535) then None else Some (put (u16 value) cfg).

Definition configure : option stress_config :=
  let cfg := if flag "H"%byte then config_initial <| proxy_host := default [] (Flags.get_flag_str f "H"%byte) |>
             else config_initial in
  cfg ← optional "p"%byte (set_port "p"%byte (fun v c => c <| proxy_port := v |>)) cfg;
  if negb (flag "u"%byte) || negb (flag "d"%byte) then None else
  '(user, pass) ← parse_user_pass (through_buffer (Flags.get_flag_str f "u"%byte)) 256 256;
  let cfg := cfg <| username := user |> <| password := pass |> in
  '(host, port) ← parse_host_port (through_buffer (Flags.get_flag_str f "d"%byte)) 256;
  let cfg := cfg <| dest_host := host |> <| dest_port := port |> in
  cfg ← optional "n"%byte (fun c =>
    let n := to_int (Flags.get_flag_long f "n"%byte) in
    if decide (n <= 0) then None else Some (c <| clients := n |>)) cfg;
  cfg ← optional "b"%byte (fun c =>
    let value := Flags.get_flag_long f "b"%byte in
    if decide (value < 0) then None else Some (c <| bytes_per_client := value |>)) cfg;
  cfg ← optional "k"%byte (fun c =>
    let k := to_int (Flags.get_flag_long f "k"%byte) in
    if decide (k < 0) then None else Some (c <| hold_seconds := k |>)) cfg;
  cfg ← optional "M"%byte (fun c =>
    m ← mode_of (default [] (Flags.get_flag_str f "M"%byte)); Some (c <| mode := m |>)) cfg;
  cfg ← optional "m"%byte (set_port "m"%byte (fun v c => c <| monitor_port := v |>)) cfg;
  cfg ← optional "A"%byte (fun c =>
    up ← parse_user_pass (through_buffer (Flags.get_flag_str f "A"%byte)) 256 256;
    Some (c <| admin := Some up |>)) cfg;
  let cfg := if flag "q"%byte then cfg <| query_monitor := true |> else cfg in
  Some (if decide (cfg.(mode) = STRESS_MODE_LIVE)
        then let cfg := cfg <| query_monitor := false |> in
             if flag "k"%byte then cfg else cfg <| hold_seconds := 0 |>
        else cfg).

End CommandLine.

Definition launch_of (opts : list (byte * option cstring)) : launch :=
  let '(rc, f) := Flags.setup_flags (lit "H:p:u:d:n:b:k:M:m:A:qh") opts Flags.zero_flags in
  if decide (rc <> 0) then Usage else
  if Flags.has_flag f "h"%byte then Help else
  match configure f with Some cfg => Run cfg | None => Usage end.

(** * Blocking input and output *)

Section Network.
Context {H D P E : Type} {OS : Os.Os E} {FE : Finite E} {IN : Inet}.
Abbreviation M := (Os.M H D P E).

(** [while (total < len)]: [data] is what is still to be written, and [fuel]
    bounds the turns. *)
Fixpoint write_loop (fuel : nat) (fd : Z) (data : list byte) : M bool :=
  match data with
  | [] => mret true
  | _ =>
    n ← Os.write fd data;
    let again (data : list byte) : M bool :=
      match fuel with O => Os.fail OutOfFuel | S fuel => write_loop fuel fd data end in
    match n with
    | Os.WError errno => if decide (errno = Client.EINTR) then again data else mret false
    | Os.WDone O => mret false
    | Os.WDone n => again (drop n data)
    end
  end.

(** An action whose bound is computed from the state it starts in. *)
Definition bounded {A} (size : nat) (m : nat -> M A) : M A := fun w => m (size + coming w)%nat w.

Definition write_all (fd : Z) (data : list byte) : M bool :=
  bounded (length data) (fun fuel => write_loop fuel fd data).

(** [got] is what was read so far of [len] bytes. *)
Fixpoint read_loop (fuel : nat) (fd : Z) (len : nat) (got : list byte) : M (option (list byte)) :=
  if decide (len <= length got)%nat then mret (Some got) else
  n ← Os.read fd (len - length got);
  let again (got : list byte) : M (option (list byte)) :=
    match fuel with O => Os.fail OutOfFuel | S fuel => read_loop fuel fd len got end in
  match n with
  | Os.RError errno => if decide (errno = Client.EINTR) then again got else mret None
  | Os.RData [] => mret None
  | Os.RData bs => again (got ++ bs)
  end.

Definition read_all (fd : Z) (len : nat) : M (option (list byte)) :=
  bounded len (fun fuel => read_loop fuel fd len []).

Definition tcp_connect (host : cstring) (port : Z) : M Z := Client.connect_server host port.

(** * The SOCKS5 client *)

(** [close(fd); return -1]. *)
Definition refused (fd : Z) : M Z := Os.close fd ;; mret (-1).

Definition byte_at (bs : list byte) (i : nat) : byte := nth i bs x00.

Definition connect_request (addr : list byte) (port : Z) : list byte :=
  [x05; x01; x00; x01] ++ addr ++ [zb (Z.shiftr port 8); zb (Z.land port 255)].

(** The writes of the credentials, each only after the one before. *)
Fixpoint write_each (fd : Z) (parts : list (list byte)) : M bool :=
  match parts with
  | [] => mret true
  | p :: parts => ok ← write_all fd p; if ok : bool then write_each fd parts else mret false
  end.

Definition socks5_connect (cfg : stress_config) : M Z :=
  fd ← tcp_connect cfg.(proxy_host) cfg.(proxy_port);
  if decide (fd < 0) then mret (-1) else
  ok ← write_all fd [x05; x01; x02];
  if negb ok then refused fd else
  method_resp ← read_all fd 2;
  match method_resp with
  | None => refused fd
  | Some method_resp =>
    if decide (byte_at method_resp 0 <> x05 \/ byte_at method_resp 1 <> x02) then refused fd else
    let ulen := u8 (Z.of_nat (length cfg.(username))) in
    let plen := u8 (Z.of_nat (length cfg.(password))) in
    ok ← write_each fd [[x01; zb ulen]; take (Z.to_nat ulen) cfg.(username); [zb plen];
                        take (Z.to_nat plen) cfg.(password)];
    if negb ok then refused fd else
    auth_resp ← read_all fd 2;
    match auth_resp with
    | None => refused fd
    | Some auth_resp =>
      if decide (byte_at auth_resp 0 <> x01 \/ byte_at auth_resp 1 <> x00) then refused fd else
      match inet_pton4 cfg.(dest_host) with
      | None => refused fd
      | Some dest_ipv4 =>
        ok ← write_all fd (connect_request dest_ipv4 cfg.(dest_port));
        if negb ok then refused fd else
        connect_resp ← read_all fd 10;
        match connect_resp with
        | None => refused fd
        | Some connect_resp =>
          if decide (byte_at connect_resp 0 <> x05 \/ byte_at connect_resp 1 <> x00) then refused fd
          else mret fd
        end
      end
    end
  end.

(** * The monitor *)

(** [room]: the bytes [buf] still takes besides the terminator. *)
Fixpoint line_loop (room : nat) (fd : Z) (buf : list byte) : M (option cstring) :=
  match room with
  | O => mret None
  | S room =>
    n ← Os.read fd 1;
    match n with
    | Os.RError _ | Os.RData [] => mret None
    | Os.RData (b :: _) =>
      if decide (b = x0a) then mret (Some (c_str (Client.chop_cr buf)))
      else line_loop room fd (buf ++ [b])
    end
  end.

Definition read_line (fd : Z) : M (option cstring) := line_loop (LINE_BUF_SIZE - 1) fd [].

Fixpoint dot_loop (fuel : nat) (fd : Z) : M bool :=
  line ← read_line fd;
  match line with
  | None => mret false
  | Some line =>
    if decide (line = lit ".") then mret true
    else match fuel with O => Os.fail OutOfFuel | S fuel => dot_loop fuel fd end
  end.

Definition read_until_dot (fd : Z) : M bool := bounded 0 (fun fuel => dot_loop fuel fd).

(** [close(fd); return false]. *)
Definition no_stats (fd : Z) : M (option monitor_metrics) := Os.close fd ;; mret None.

(** [None]: false, [valid] stays false. *)
Definition monitor_fetch_stats (cfg : stress_config) : M (option monitor_metrics) :=
  match cfg.(query_monitor), cfg.(admin) with
  | true, Some (admin_user, admin_pass) =>
    fd ← tcp_connect cfg.(monitor_host) cfg.(monitor_port);
    if decide (fd < 0) then mret None else
    ok ← read_until_dot fd;
    if negb ok then no_stats fd else
    let auth_cmd := Client.snprintf LINE_BUF_SIZE (lit "AUTH " ++ admin_user ++ lit " " ++ admin_pass ++ [x0a]) in
    ok ← write_all fd auth_cmd;
    if negb ok then no_stats fd else
    ok ← read_until_dot fd;
    if negb ok then no_stats fd else
    ok ← write_all fd (lit "STATS" ++ [x0a]);
    if negb ok then no_stats fd else
    line ← read_line fd;
    match line with
    | None => no_stats fd
    | Some line =>
      _ ← read_until_dot fd;
      Os.close fd ;;
      mret match Client.scan Client.stats_format line with
           | [total; concurrent; up; down] => Some (mk_metrics total concurrent up down)
           | _ => None
           end
    end
  | _, _ => mret None
  end.

(** * Transfers *)

(** [remaining] bytes in chunks of at most 4096; [buf] is what the first bytes of
    the array hold: 0xA5, then what the last chunk brought back. *)
Fixpoint transfer_loop (fuel : nat) (fd : Z) (remaining : nat) (buf : list byte) : M bool :=
  if decide (remaining = 0)%nat then mret true else
  let chunk := Nat.min remaining 4096 in
  ok ← write_all fd (take chunk buf);
  if negb ok then mret false else
  got ← read_all fd chunk;
  match got with
  | None => mret false
  | Some got =>
    match fuel with
    | O => Os.fail OutOfFuel
    | S fuel => transfer_loop fuel fd (remaining - chunk) (got ++ drop chunk buf)
    end
  end.

Definition transfer_payload (fd : Z) (bytes : nat) : M bool :=
  transfer_loop bytes fd bytes (replicate 4096 xa5).

End Network.

(** * Workers

    A worker's effects on what it shares with the others are atomic additions;
    they and the closing of its socket follow the input and output of a client,
    which is on a socket of its own. *)
Inductive effect :=
| AddSuccess
| AddFailure
| AddSent (n : Z)
| AddReceived (n : Z)
| Close (fd : Z).

Record worker_result := mk_result {
  successes : Z;
  failures : Z;
  bytes_sent : Z;
  bytes_received : Z;
}.
#[export] Instance eta_result : Eta worker_result := fun r =>
  mk_result r.(successes) r.(failures) r.(bytes_sent) r.(bytes_received).

Record worker := mk_worker {
  clients_for_worker : nat;      (* still to be run *)
  effects : list effect;         (* of the client being run, still to happen *)
}.

(** The process: the shares of the workers the main thread has still to start,
    whether it failed to start one, the workers, and their counters. *)
Record pool := mk_pool {
  shares : list nat;
  incomplete : bool;
  workers : list worker;
  result : worker_result;
}.
#[export] Instance eta_pool : Eta pool := fun p =>
  mk_pool p.(shares) p.(incomplete) p.(workers) p.(result).

(** [base + (i < extra ? 1 : 0)] for each of the threads, of which there are at
    most as many as the array has room for. *)
Definition thread_count (clients : Z) : Z := if decide (clients < 64) then clients else 64.
Definition shares_of (clients : Z) : list nat :=
  let base := Z.quot clients (thread_count clients) in
  let extra := Z.rem clients (thread_count clients) in
  (fun i => Z.to_nat (base + if decide (Z.of_nat i < extra) then 1 else 0)) <$> seq 0 (Z.to_nat (thread_count clients)).

(** [run_stress_spawn] before its loop: the return value -1, or the shares. *)
Definition pool_initial (clients : Z) : pool :=
  let zero := mk_result 0 0 0 0 in
  if decide (clients <= 0) then mk_pool [] true [] zero else mk_pool (shares_of clients) false [] zero.

Section Workers.
Context {H D E : Type} {OS : Os.Os E} {FE : Finite E} {IN : Inet}.
Abbreviation M := (Os.M H D pool E).
Variable cfg : stress_config.

(** [run_single_client] up to its first effect on shared state. *)
Definition run_single_client : M (list effect) :=
  fd ← socks5_connect cfg;
  if decide (fd < 0) then mret [AddFailure] else
  if decide (cfg.(mode) = STRESS_MODE_CONNECTIONS \/ cfg.(mode) = STRESS_MODE_LIVE)
  then mret [Close fd; AddSuccess] else
  if decide (cfg.(bytes_per_client) = 0) then mret [Close fd; AddSuccess] else
  ok ← transfer_payload fd (Z.to_nat cfg.(bytes_per_client));
  if negb ok then mret [Close fd; AddFailure] else
  mret [AddSent cfg.(bytes_per_client); AddReceived cfg.(bytes_per_client); Close fd; AddSuccess].

Definition add_to (e : effect) (r : worker_result) : worker_result :=
  match e with
  | AddSuccess => r <| successes ::= Z.add 1 |>
  | AddFailure => r <| failures ::= Z.add 1 |>
  | AddSent n => r <| bytes_sent ::= fun b => u64 (b + n) |>
  | AddReceived n => r <| bytes_received ::= fun b => u64 (b + n) |>
  | Close _ => r
  end.

Definition happen (e : effect) : M unit :=
  match e with
  | Close fd => Os.close fd
  | e => Os.modify (fun p => p <| result ::= add_to e |>)
  end.

(** One turn of the loop of [run_stress_spawn]. *)
Definition spawn_one : M unit :=
  p ← Os.gets (fun p => p);
  match p.(shares) with
  | [] => mret tt
  | n :: rest =>
    let fail := Os.modify (fun p => p <| shares := [] |> <| incomplete := true |>) in
    ok ← Os.os Os.os_alloc;
    if negb ok then fail else
    created ← Os.os Os.os_thread;
    if negb created then fail else
    Os.modify (fun p => p <| shares := rest |> <| workers ::= (.++ [mk_worker n []]) |>)
  end.

(** What worker [i] does next, [worker_thread]. *)
Definition work (i : nat) : M unit :=
  o ← Os.gets (fun p => p.(workers) !! i);
  match o with
  | Some (mk_worker n (e :: rest)) =>
    happen e ;; Os.modify (fun p => p <| workers ::= <[i := mk_worker n rest]> |>)
  | Some (mk_worker (S n) []) =>
    es ← run_single_client;
    Os.modify (fun p => p <| workers ::= <[i := mk_worker n es]> |>)
  | _ => mret tt
  end.

(** A schedule of the threads: [None] is the main thread. *)
Definition act : Type := option nat.
Definition step (a : act) : M unit := match a with None => spawn_one | Some i => work i end.
Fixpoint run_stress (schedule : list act) : M unit :=
  match schedule with [] => mret tt | a :: schedule => step a ;; run_stress schedule end.

End Workers.

(** All workers can be joined. *)
Definition idle (k : worker) : bool :=
  match k with mk_worker O [] => true | _ => false end.
Definition joined (p : pool) : bool := bool_decide (p.(shares) = []) && forallb idle p.(workers).

Definition EXIT_SUCCESS : Z := 0.
Definition EXIT_FAILURE : Z := 1.
Definition exit_status (p : pool) : Z :=
  if decide (p.(result).(failures) > 0) then EXIT_FAILURE else EXIT_SUCCESS.

(** * The program *)

(** What is printed at the end, but for the elapsed time. *)
Record report := mk_report {
  counted : worker_result;
  monitor_delta : option (Z * Z * Z);      (* bytes up, bytes down, connections *)
  spawn_incomplete : bool;
}.

Definition monitor_difference (before after : option monitor_metrics) : option (Z * Z * Z) :=
  match before, after with
  | Some before, Some after => Some (u64 (after.(bytes_up) - before.(bytes_up)),
      u64 (after.(bytes_down) - before.(bytes_down)), after.(concurrent_connections))
  | _, _ => None
  end.

(** Where the program is: it has returned a status, having printed a report
    unless it refused its command line, or its threads are still at work. *)
Inductive program := Exited (status : Z) (printed : option report) | Working.

Section Main.
Context {H D E : Type} {OS : Os.Os E} {FE : Finite E} {IN : Inet}.
Abbreviation M := (Os.M H D pool E).

(** [main] with its threads scheduled by [schedule]. *)
Definition run_main (cfg : stress_config) (schedule : list act) : M program :=
  before ← monitor_fetch_stats cfg;
  Os.modify (fun _ => pool_initial cfg.(clients)) ;;
  run_stress cfg schedule ;;
  p ← Os.gets (fun p => p);
  if negb (joined p) then mret Working else
  after ← monitor_fetch_stats cfg;
  mret (Exited (exit_status p) (Some (mk_report p.(result) (monitor_difference before after) p.(incomplete)))).

Definition main (opts : list (byte * option cstring)) (schedule : list act) : M program :=
  match launch_of opts with
  | Usage => mret (Exited EXIT_FAILURE None)
  | Help => mret (Exited EXIT_SUCCESS None)
  | Run cfg => run_main cfg schedule
  end.

End Main.

End Stress.
