(* ===== verification/StressSafe.v ===== *)
(** What the load generator promises: what its SOCKS5 client says to the proxy,
    and that its counters and its sockets are accounted for under every schedule
    of its threads. *)
From S2P Require Import Prelude ByteParser Greeting Auth Request Selector Os Trace Scripted Inet.
From S2P Require Import MonCommands Flags Client Blocking Stress.
Import Trace Blocking Stress.
Local Open Scope Z_scope.

Module StressSafe.

(** * Conversations on one socket *)

Section Sockets.
Context {H D P E : Type} {OS : Os.Os E} {OL : Os.OsLaws E} {FE : Finite E} {IN : Inet}.
Abbreviation st := (Os.st H D P E).
Abbreviation M := (Os.M H D P E).
Implicit Types (w : st).
Abbreviation tr w := (Os.trace (Selector.user w)).

Lemma rule_write_loop fuel : forall fd data (Q : bool -> st -> Prop) w,
  (length data + coming w <= fuel)%nat ->
  (forall ok out w', talked fd out [] w w' -> out `prefix_of` data -> (ok = true -> out = data) -> Q ok w') ->
  Os.wp (write_loop fuel fd data : M bool) Q w.
Proof.
  induction fuel as [|fuel IH]; intros fd data Q w Hf HQ; (destruct data as [|b data]; cbn [write_loop];
    [apply Os.wp_ret; apply (HQ true []); auto with talk|]); [cbn in Hf; lia|].
  set (d := b :: data) in *. apply Os.wp_bind, rule_blocking_write.
  - intros n w1 Ht Hn Hc. destruct n as [|n].
    + apply Os.wp_ret. by apply (HQ false []); auto with talk.
    + apply IH.
      * rewrite length_drop. destruct (decide _); unfold d in *; cbn [length] in *; lia.
      * intros ok out w2 Ht2 Hp Hok. apply (HQ ok (take (S n) d ++ out)).
        -- exact (talked_trans fd _ [] _ [] _ w1 _ Ht Ht2).
        -- rewrite <- (take_drop (S n) d) at 2. by apply prefix_app.
        -- intros Hx. by rewrite (Hok Hx), take_drop.
  - intros errno w1 Ht Hc. case_decide; [|apply Os.wp_ret; by apply (HQ false []); auto with talk].
    apply IH; [lia|]. intros ok out w2 Ht2 Hp Hok. apply (HQ ok out); [|done|done].
    exact (talked_trans fd [] [] _ [] _ w1 _ Ht Ht2).
Qed.

Lemma rule_write_all fd data (Q : bool -> st -> Prop) w :
  (forall ok out w', talked fd out [] w w' -> out `prefix_of` data -> (ok = true -> out = data) -> Q ok w') ->
  Os.wp (write_all fd data : M bool) Q w.
Proof. apply rule_write_loop. lia. Qed.

Lemma rule_read_loop fuel : forall fd len got (Q : option (list byte) -> st -> Prop) w, (length got <= len)%nat ->
  (len - length got + coming w <= fuel)%nat ->
  (forall o inp w', talked fd [] inp w w' -> (forall bs, o = Some bs -> bs = got ++ inp /\ length bs = len) -> Q o w') ->
  Os.wp (read_loop fuel fd len got : M (option (list byte))) Q w.
Proof.
  induction fuel as [|fuel IH]; intros fd len got Q w Hg Hf HQ; cbn [read_loop].
  all: case_decide as Hl; [apply Os.wp_ret; apply (HQ (Some got) []); [apply talked_refl|intros bs [= <-]; rewrite app_nil_r; split; [done|lia]]|].
  { lia. }
  apply Os.wp_bind, rule_blocking_read. intros r w1 Ht Hr Hc. destruct r as [[|b bs]|errno]; cbn [read_data interrupted length] in *.
  - apply Os.wp_ret. (apply (HQ None []); [exact Ht|intros ? [=]]).
  - apply IH; [rewrite length_app; cbn; lia|rewrite length_app; cbn [length]; lia|].
    intros o inp w2 Ht2 Ho. apply (HQ o ((b :: bs) ++ inp)); [exact (talked_trans fd [] _ [] _ _ w1 _ Ht Ht2)|].
    intros xs Hx. destruct (Ho xs Hx) as [-> Hlen]. split; [by rewrite <- app_assoc|done].
  - case_decide; [|apply Os.wp_ret; (apply (HQ None []); [exact Ht|intros ? [=]])].
    apply IH; [done|lia|]. intros o inp w2 Ht2 Ho. apply (HQ o inp); [|done].
    exact (talked_trans fd [] [] [] _ _ w1 _ Ht Ht2).
Qed.

Lemma rule_read_all fd len (Q : option (list byte) -> st -> Prop) w :
  (forall o inp w', talked fd [] inp w w' -> (forall bs, o = Some bs -> bs = inp /\ length bs = len) -> Q o w') ->
  Os.wp (read_all fd len : M (option (list byte))) Q w.
Proof. intros HQ. apply rule_read_loop; [cbn; lia|cbn [length]; lia|exact HQ]. Qed.

Lemma rule_write_each fd parts : forall (Q : bool -> st -> Prop) w,
  (forall ok out w', talked fd out [] w w' -> (ok = true -> out = concat parts) -> Q ok w') ->
  Os.wp (write_each fd parts : M bool) Q w.
Proof.
  induction parts as [|p parts IH]; intros Q w HQ; cbn [write_each].
  { apply Os.wp_ret. by apply (HQ true []); auto with talk. }
  apply Os.wp_bind, rule_write_all. intros ok out w1 Ht _ Hok. destruct ok.
  - rewrite (Hok eq_refl) in *. apply IH. intros ok2 out2 w2 Ht2 Hok2. apply (HQ ok2 (p ++ out2)).
    + exact (talked_trans fd _ [] _ [] _ w1 _ Ht Ht2).
    + intros Hx. cbn. by rewrite (Hok2 Hx).
  - apply Os.wp_ret. by apply (HQ false out).
Qed.

(** Closing the socket that was opened last. *)
Lemma rule_refused fd w0 w1 w (Q : Z -> st -> Prop) out inp : opened fd w0 w1 -> 0 <= fd -> talked fd out inp w1 w ->
  (forall w', held (tr w') = held (tr w0) -> Os.prog (Selector.user w') = Os.prog (Selector.user w0) -> Q (-1) w') ->
  Os.wp (refused fd : M Z) Q w.
Proof.
  intros [O1 O2 O3 O4] Hfd [T1 T2 T3 T4 T5 T6] HQ. unfold refused, Os.close.
  apply Os.wp_bind, Os.wp_emit, Os.wp_ret, HQ; cbn; [|congruence].
  rewrite T4, O1. rewrite decide_False by lia. cbn. by rewrite decide_True.
Qed.

(** ** The handshake *)

Definition user_fits (cfg : stress_config) : Prop :=
  (0 < length cfg.(username) < 256)%nat /\ (0 < length cfg.(password) < 256)%nat /\ 0 < cfg.(dest_port) <= 65535.

(** What is said on a tunnel before its traffic. *)
Definition handshake (cfg : stress_config) (addr : list byte) : list byte :=
  Greeting.encode [x02] ++ Auth.encode cfg.(username) cfg.(password) ++ connect_request addr cfg.(dest_port).

(** What the proxy has answered: the method, the credentials accepted, the reply
    of success. *)
Definition accepted (inp : list byte) : Prop :=
  exists reply, inp = [x05; x02] ++ [x01; x00] ++ [x05; x00] ++ reply /\ length reply = 8%nat.

Record tunnel (cfg : stress_config) (fd : Z) w0 w : Prop := {
  tn_fd : 0 <= fd;
  tn_held : held (tr w) = fd :: held (tr w0);
  tn_said : exists addr, inet_pton4 cfg.(dest_host) = Some addr /\ said fd (tr w) = handshake cfg addr;
  tn_heard : accepted (heard fd (tr w));
  tn_prog : Os.prog (Selector.user w) = Os.prog (Selector.user w0);
}.

Lemma two_bytes bs a b : length bs = 2%nat -> ~ (byte_at bs 0 <> a \/ byte_at bs 1 <> b) -> bs = [a; b].
Proof.
  intros Hl Hb. destruct bs as [|x [|y [|z bs]]]; cbn in *; try done.
  destruct (decide (x = a)) as [->|]; [|tauto]. destruct (decide (y = b)) as [->|]; [done|tauto].
Qed.

Lemma first_two bs a b n : length bs = S (S n) -> ~ (byte_at bs 0 <> a \/ byte_at bs 1 <> b) ->
  exists rest, bs = [a; b] ++ rest /\ length rest = n.
Proof.
  intros Hl Hb. destruct bs as [|x [|y bs]]; cbn in *; try done.
  destruct (decide (x = a)) as [->|]; [|tauto]. destruct (decide (y = b)) as [->|]; [|tauto].
  exists bs. split; [done|lia].
Qed.

Lemma credentials_parts cfg : user_fits cfg ->
  concat [[x01; zb (u8 (Z.of_nat (length cfg.(username))))];
    take (Z.to_nat (u8 (Z.of_nat (length cfg.(username))))) cfg.(username);
    [zb (u8 (Z.of_nat (length cfg.(password))))];
    take (Z.to_nat (u8 (Z.of_nat (length cfg.(password))))) cfg.(password)] = Auth.encode cfg.(username) cfg.(password).
Proof.
  intros (Hu & Hp & _). rewrite !u8_small, !Nat2Z.id, !firstn_all by lia. cbn. by rewrite app_nil_r.
Qed.

(** Every way out that is not a tunnel closes the socket. *)
Lemma rule_socks5_connect cfg (Q : Z -> st -> Prop) w : lists_addresses (E := E) -> user_fits cfg ->
  (forall fd w', tunnel cfg fd w w' -> Q fd w') ->
  (forall w', held (tr w') = held (tr w) -> Os.prog (Selector.user w') = Os.prog (Selector.user w) -> Q (-1) w') ->
  Os.wp (socks5_connect cfg : M Z) Q w.
Proof.
  intros Hla Hfits HQ HF. unfold socks5_connect, tcp_connect. apply Os.wp_bind.
  eapply Os.wp_mono; [by apply connect_server_opens|]. intros fd w1 Ho. cbn beta.
  destruct (decide (fd < 0)) as [Hneg|Hfd].
  { apply Os.wp_ret. destruct Ho as [O1 _ _ O4]. apply HF; [|done]. by rewrite O1, decide_True. }
  assert (Hfd' : 0 <= fd) by lia. clear Hfd.
  assert (Hgive : forall out inp w', talked fd out inp w1 w' -> Os.wp (refused fd : M Z) Q w')
    by (intros out inp w' Ht; eapply rule_refused; [exact Ho|done|exact Ht|done]).
  apply Os.wp_bind, rule_write_all. intros ok out1 w2 T1 _ Hok1. destruct ok; cbn [negb]; [|by eapply Hgive].
  rewrite (Hok1 eq_refl) in T1. clear Hok1.
  apply Os.wp_bind, rule_read_all. intros o inp1 w3 T2 Ho1.
  chain T1 T2 as T.
  destruct o as [r1|]; [|by eapply Hgive]. destruct (Ho1 _ eq_refl) as [-> Hl1]. clear Ho1.
  destruct (decide (byte_at inp1 0 <> x05 \/ byte_at inp1 1 <> x02)) as [|Hb1]; [by eapply Hgive|].
  apply (two_bytes _ _ _ Hl1) in Hb1 as ->. clear Hl1.
  apply Os.wp_bind, rule_write_each. intros ok out2 w4 T2 Hok2.
  chain T T2 as T'.
  destruct ok; cbn [negb]; [|by eapply Hgive]. rewrite (Hok2 eq_refl), credentials_parts in T' by done. clear Hok2.
  apply Os.wp_bind, rule_read_all. intros o inp2 w5 T2 Ho2.
  chain T' T2 as T.
  destruct o as [r2|]; [|by eapply Hgive]. destruct (Ho2 _ eq_refl) as [-> Hl2]. clear Ho2.
  destruct (decide (byte_at inp2 0 <> x01 \/ byte_at inp2 1 <> x00)) as [|Hb2]; [by eapply Hgive|].
  apply (two_bytes _ _ _ Hl2) in Hb2 as ->. clear Hl2.
  destruct (inet_pton4 (dest_host cfg)) as [addr|] eqn:Ha; [|by eapply Hgive].
  apply Os.wp_bind, rule_write_all. intros ok out3 w6 T2 _ Hok3.
  chain T T2 as T'.
  destruct ok; cbn [negb]; [|by eapply Hgive]. rewrite (Hok3 eq_refl) in T'. clear Hok3.
  apply Os.wp_bind, rule_read_all. intros o inp3 w7 T2 Ho3.
  chain T' T2 as T.
  destruct o as [r3|]; [|by eapply Hgive]. destruct (Ho3 _ eq_refl) as [-> Hl3]. clear Ho3.
  destruct (decide (byte_at inp3 0 <> x05 \/ byte_at inp3 1 <> x00)) as [|Hb3]; [by eapply Hgive|].
  destruct (first_two _ _ _ 8 Hl3 Hb3) as (reply & -> & Hreply).
  apply Os.wp_ret, HQ. destruct Ho as [O1 O2 O3 O4], T as [T1 T2 T3 T4 T5 T6]. destruct (O2 Hfd') as [S1 S2].
  split; [done| | | |congruence].
  - rewrite T4, O1. by rewrite decide_False by lia.
  - exists addr. split; [done|]. rewrite T1, S1. unfold handshake. cbn [app]. by rewrite ?app_nil_r, <- ?app_assoc.
  - exists reply. split; [|done]. rewrite T2, S2. by rewrite ?app_nil_r, <- ?app_assoc.
Qed.

(** ** Transfers *)

Lemma rule_transfer fuel : forall fd remaining buf (Q : bool -> st -> Prop) w, (remaining <= fuel)%nat ->
  length buf = 4096%nat ->
  (forall ok out inp w', talked fd out inp w w' ->
     (ok = true -> length out = remaining /\ length inp = remaining) -> Q ok w') ->
  Os.wp (transfer_loop fuel fd remaining buf : M bool) Q w.
Proof.
  induction fuel as [|fuel IH]; intros fd remaining buf Q w Hf Hb HQ; cbn [transfer_loop];
    (destruct (decide (remaining = 0)%nat) as [->|Hr];
      [apply Os.wp_ret; by apply (HQ true [] []); auto with talk|]); [lia|].
  set (chunk := Nat.min remaining 4096). assert (Hc : (0 < chunk <= 4096 /\ chunk <= remaining)%nat) by (unfold chunk; lia).
  apply Os.wp_bind, rule_write_all. intros ok out w1 T1 _ Hok. destruct ok; cbn [negb].
  2:{ apply Os.wp_ret. by apply (HQ false out []). }
  rewrite (Hok eq_refl) in T1. clear Hok. apply Os.wp_bind, rule_read_all. intros o inp w2 T2 Ho.
  chain T1 T2 as T. destruct o as [got|].
  2:{ apply Os.wp_ret. by eapply (HQ false). }
  destruct (Ho _ eq_refl) as [-> Hl]. apply IH; [lia|rewrite length_app, length_drop; lia|].
  intros ok out2 inp2 w3 T3 Hok2. eapply HQ; [exact (talked_trans _ _ _ _ _ _ _ _ T T3)|].
  intros Hx. destruct (Hok2 Hx) as [Ho2 Hi2]. rewrite !length_app, length_take, Ho2, Hi2, Hl. cbn [length]. lia.
Qed.

End Sockets.

(** * The workers *)

Definition closes (es : list effect) : list Z := omap (fun e => match e with Close fd => Some fd | _ => None end) es.
Fixpoint sum (l : list Z) : Z := match l with [] => 0 | z :: l => z + sum l end.
Definition of_success (e : effect) : Z := match e with AddSuccess => 1 | _ => 0 end.
Definition of_failure (e : effect) : Z := match e with AddFailure => 1 | _ => 0 end.
Definition of_sent (e : effect) : Z := match e with AddSent n => n | _ => 0 end.
Definition of_received (e : effect) : Z := match e with AddReceived n => n | _ => 0 end.
Definition total (f : effect -> Z) (es : list effect) : Z := sum (f <$> es).

Lemma sum_app l k : sum (l ++ k) = sum l + sum k.
Proof. induction l as [|z l IH]; cbn; [done|]. rewrite IH. lia. Qed.

Lemma closes_app l k : closes (l ++ k) = closes l ++ closes k.
Proof. apply omap_app. Qed.

#[export] Instance closes_proper : Proper (Permutation ==> Permutation) closes.
Proof. intros l k Hp. by apply omap_Permutation. Qed.

Lemma sum_perm l k : l ≡ₚ k -> sum l = sum k.
Proof. induction 1; cbn; lia. Qed.

Lemma total_cons f e es : total f (e :: es) = f e + total f es.
Proof. done. Qed.
Lemma total_app f l k : total f (l ++ k) = total f l + total f k.
Proof. unfold total. by rewrite fmap_app, sum_app. Qed.
Lemma total_perm f l k : l ≡ₚ k -> total f l = total f k.
Proof. intros Hp. apply sum_perm. by rewrite Hp. Qed.

Lemma u64_add a b : u64 (u64 a + b) = u64 (a + b).
Proof. unfold u64. by rewrite Zplus_mod_idemp_l. Qed.

Lemma worker_split (ks : list worker) i k : ks !! i = Some k ->
  exists l1 l2, ks = l1 ++ k :: l2 /\ forall k', <[i := k']> ks = l1 ++ k' :: l2.
Proof.
  intros Hi. exists (take i ks), (drop (S i) ks). split; [by rewrite take_drop_middle|].
  intros k'. apply insert_take_drop. by eapply lookup_lt_Some.
Qed.

Section Ledger.
Variable cfg : stress_config.

(** What a client that succeeds transfers. *)
Definition payload : Z := if decide (cfg.(mode) = STRESS_MODE_THROUGHPUT) then cfg.(bytes_per_client) else 0.

(** One client has one outcome, closes what it opened, and counts what it
    transferred. *)
Record client_done (es : list effect) (h h' : list Z) : Prop := {
  cd_held : h' = closes es ++ h;
  cd_one : total of_success es + total of_failure es = 1;
  cd_sent : total of_sent es = payload * total of_success es;
  cd_received : total of_received es = payload * total of_success es;
  cd_size : (length es <= 4)%nat;
}.

(** The invariant: what was given out is done, being done, or still to do. *)
Record ledger (given : Z) (open : list Z) (r : worker_result) (short : bool) (todo : Z) (es : list effect)
  (h : list Z) : Prop := {
  lg_held : h ≡ₚ closes es ++ open;
  lg_given : exists lost, 0 <= lost /\ (short = false -> lost = 0) /\
    r.(successes) + r.(failures) + total of_success es + total of_failure es + todo + lost = given;
  lg_sign : 0 <= r.(successes) /\ 0 <= r.(failures);
  lg_sent : exists sent, r.(bytes_sent) = u64 sent /\
    sent + total of_sent es = payload * (r.(successes) + total of_success es);
  lg_received : exists received, r.(bytes_received) = u64 received /\
    received + total of_received es = payload * (r.(successes) + total of_success es);
}.

Lemma ledger_perm given open r short todo es es' h : es ≡ₚ es' ->
  ledger given open r short todo es h -> ledger given open r short todo es' h.
Proof.
  intros Hp [A1 A2 A3 A4 A5]. split; [by rewrite <- Hp| |done| |]; by rewrite <- !(total_perm _ _ _ Hp).
Qed.

(** An effect happens. *)
Definition held_after (e : effect) (h : list Z) : list Z := match e with Close fd => drop_one fd h | _ => h end.

Lemma ledger_effect given open r short todo e es h : ledger given open r short todo (e :: es) h ->
  ledger given open (add_to e r) short todo es (held_after e h).
Proof.
  intros [A1 (lost & L1 & L2 & L3) A3 (snt & B1 & B2) (rcv & C1 & C2)]. rewrite !total_cons in *.
  destruct e as [| |n|n|fd]; cbn in *; (split; [first [exact A1|by apply drop_one_perm]|exists lost; split_and!; cbn; [lia|done|lia]|cbn; lia| |]).
  all: first [exists snt; split; cbn; [done|lia]|exists rcv; split; cbn; [done|lia]|
    exists (snt + n); cbn; rewrite B1, u64_add; split; [done|lia]|
    exists (rcv + n); cbn; rewrite C1, u64_add; split; [done|lia]].
Qed.

(** A client is run. *)
Lemma ledger_client given open r short todo es new h h' : ledger given open r short (todo + 1) es h ->
  client_done new h h' -> ledger given open r short todo (new ++ es) h'.
Proof.
  intros [A1 (lost & L1 & L2 & L3) A3 (snt & B1 & B2) (rcv & C1 & C2)] [D1 D2 D4 D5 D6].
  split; [|exists lost; split_and!; [lia|done|rewrite !total_app; lia]|done| |].
  - by rewrite D1, closes_app, A1, app_assoc.
  - exists snt. split; [done|]. rewrite !total_app. lia.
  - exists rcv. split; [done|]. rewrite !total_app. lia.
Qed.

(** What is not handed to a thread is lost. *)
Lemma ledger_lost given open r short todo gone es h : 0 <= gone -> ledger given open r short (todo + gone) es h ->
  ledger given open r true todo es h.
Proof.
  intros Hg [A1 (lost & L1 & L2 & L3) A3 A4 A5]. split; try done. exists (lost + gone). split_and!; [lia|done|lia].
Qed.

End Ledger.

(** The effects and the clients that are left, of all workers. *)
Definition to_happen (p : pool) : list effect := concat (effects <$> p.(workers)).
Definition to_run (p : pool) : Z := sum ((fun k => Z.of_nat k.(clients_for_worker)) <$> p.(workers)).
Definition to_share (p : pool) : Z := sum (Z.of_nat <$> p.(shares)).

Lemma sum_nonneg (l : list nat) : 0 <= sum (Z.of_nat <$> l).
Proof. induction l as [|n l IH]; cbn; lia. Qed.
Lemma run_nonneg (ks : list worker) : 0 <= sum ((fun k => Z.of_nat k.(clients_for_worker)) <$> ks).
Proof. induction ks as [|k ks IH]; cbn; lia. Qed.

(** What changes in the totals when worker [i] does. *)
Lemma one_worker p i k k' : p.(workers) !! i = Some k -> let p' := p <| workers ::= <[i := k']> |> in
  exists others, to_happen p ≡ₚ effects k ++ others /\ to_happen p' ≡ₚ effects k' ++ others /\
    to_run p' = to_run p - Z.of_nat k.(clients_for_worker) + Z.of_nat k'.(clients_for_worker) /\
    Z.of_nat k.(clients_for_worker) <= to_run p.
Proof.
  intros Hi p'. destruct (worker_split _ _ _ Hi) as (l1 & l2 & E0 & E1). specialize (E1 k').
  exists (concat (effects <$> l1) ++ concat (effects <$> l2)). unfold p', to_happen, to_run. cbn [workers set].
  cbn. rewrite E1, E0, !fmap_app, !concat_app, !sum_app. cbn. split_and!.
  - by rewrite Permutation_app_swap_app.
  - by rewrite Permutation_app_swap_app.
  - lia.
  - pose proof (run_nonneg l1). pose proof (run_nonneg l2). lia.
Qed.

Section Workers.
Context {H D E : Type} {OS : Os.Os E} {OL : Os.OsLaws E} {FE : Finite E} {IN : Inet}.
Abbreviation st := (Os.st H D pool E).
Abbreviation M := (Os.M H D pool E).
Implicit Types (w : st).
Abbreviation tr w := (Os.trace (Selector.user w)).
Abbreviation prog w := (Os.prog (Selector.user w)).
Variable cfg : stress_config.
Hypothesis Haddrs : lists_addresses (E := E).
Hypothesis Hfits : user_fits cfg.

Lemma rule_single_client (Q : list effect -> st -> Prop) w :
  (forall es w', client_done cfg es (held (tr w)) (held (tr w')) -> prog w' = prog w -> Q es w') ->
  Os.wp (run_single_client cfg : M (list effect)) Q w.
Proof.
  intros HQ. unfold run_single_client. apply Os.wp_bind, (rule_socks5_connect cfg); [done|done| |].
  2:{ intros w1 Hh Hp. cbn beta. rewrite decide_True by lia. apply Os.wp_ret, HQ; [split; cbn; try done; lia|done]. }
  intros fd w1 [T1 T2 T3 T4 T5]. rewrite decide_False by lia.
  destruct (decide (mode cfg = STRESS_MODE_CONNECTIONS \/ mode cfg = STRESS_MODE_LIVE)) as [Hm|Hm].
  { assert (Hpay : payload cfg = 0) by (unfold payload; rewrite decide_False; [done|destruct Hm as [-> | ->]; done]).
    apply Os.wp_ret, HQ; [|done]. split; cbn; try done; try lia; by rewrite Hpay. }
  assert (Hpay : payload cfg = bytes_per_client cfg).
  { unfold payload. rewrite decide_True; [done|]. destruct (mode cfg); [tauto|done|tauto]. }
  case_decide as Hz.
  { apply Os.wp_ret, HQ; [|done]. split; cbn; try done; try lia. }
  apply Os.wp_bind, rule_transfer; [done|apply length_replicate|]. intros ok out inp w2 [U1 U2 U3 U4 U5 U6] _.
  destruct ok; cbn [negb]; apply Os.wp_ret, HQ; first [split; cbn; try lia; congruence|congruence].
Qed.

Definition accounts (given : Z) (open : list Z) w : Prop :=
  ledger cfg given open (prog w).(result) (prog w).(incomplete) (to_run (prog w) + to_share (prog w))
    (to_happen (prog w)) (held (tr w)).

(** The work that is left. *)
Definition measure (p : pool) : nat :=
  (Z.to_nat (5 * (to_run p + to_share p)) + length (to_happen p) + length p.(shares))%nat.

(** The threads started and to be started. *)
Definition threads (p : pool) : nat := (length p.(workers) + length p.(shares))%nat.

(** A step keeps the accounts, and takes from the work unless there is nothing
    to do for its thread. *)
Record progress (given : Z) (open : list Z) (busy : bool) w w' : Prop := {
  pg_accounts : accounts given open w';
  pg_busy : busy = true -> (measure (prog w') < measure (prog w))%nat;
  pg_idle : busy = false -> prog w' = prog w;
  pg_threads : (threads (prog w') <= threads (prog w))%nat;
}.

Definition busy (p : pool) (a : act) : bool :=
  match a with
  | None => negb (bool_decide (p.(shares) = []))
  | Some i => match p.(workers) !! i with Some k => negb (idle k) | None => false end
  end.

Lemma rule_spawn given open w : accounts given open w ->
  Os.wp (spawn_one : M unit) (fun _ => progress given open (busy (prog w) None) w) w.
Proof.
  intros Ha. unfold spawn_one. apply Os.wp_bind, Os.wp_gets. unfold busy.
  destruct (shares (prog w)) as [|n rest] eqn:Es; [by apply Os.wp_ret|].
  pose proof (run_nonneg (workers (prog w))) as Hr0. pose proof (sum_nonneg rest) as Hs0. fold (to_run (prog w)) in Hr0.
  assert (Es' : to_share (prog w) = Z.of_nat n + sum (Z.of_nat <$> rest)) by (unfold to_share; by rewrite Es).
  assert (Hfail : forall w0, prog w0 = prog w -> tr w0 = tr w ->
    Os.wp (Os.modify (fun p => p <| shares := [] |> <| incomplete := true |>) : M unit)
      (fun _ => progress given open true w) w0).
  { intros w0 Ep Et. apply Os.wp_modify. split; [|intros _|done|unfold threads; cbn; rewrite Ep, Es; cbn; lia].
    - change (accounts given open (Os.on_prog (fun p => p <| shares := [] |> <| incomplete := true |>) w0)).
      unfold accounts. cbn [Os.on_prog]. set (p' := Os.prog _).
      assert (E1 : p' = (prog w) <| shares := [] |> <| incomplete := true |>) by (unfold p'; cbn; by rewrite Ep).
      change (held _) with (held (tr w0)). rewrite E1, Et. unfold accounts in Ha.
      apply (ledger_lost _ _ _ _ (incomplete (prog w)) _ (to_share (prog w))); [lia|].
      replace (_ + to_share (prog w)) with (to_run (prog w) + to_share (prog w)); [exact Ha|].
      unfold to_run, to_share. cbn. lia.
    - cbn. rewrite Ep. unfold measure. rewrite Es, Es'. unfold to_run, to_happen, to_share in *. cbn. lia. }
  apply Os.wp_bind, Os.wp_os. intros ok e _. destruct ok; cbn [negb]; [|by apply Hfail].
  apply Os.wp_bind, Os.wp_os. intros created e' _. destruct created; cbn [negb]; [|by apply Hfail].
  apply Os.wp_modify. set (p' := (prog w) <| shares := rest |> <| workers ::= (.++ [mk_worker n []]) |>).
  assert (E1 : to_happen p' = to_happen (prog w)).
  { unfold to_happen, p'. cbn. rewrite fmap_app, concat_app. cbn. by rewrite !app_nil_r. }
  assert (E2 : to_run p' = to_run (prog w) + Z.of_nat n).
  { unfold to_run, p'. cbn. rewrite fmap_app, sum_app. cbn. lia. }
  assert (E3 : to_share p' = sum (Z.of_nat <$> rest)) by done.
  split; [|intros _|done|unfold threads; cbn; rewrite Es, length_app; cbn; lia].
  - change (ledger cfg given open (result (prog w)) (incomplete (prog w)) (to_run p' + to_share p') (to_happen p') (held (tr w))).
    rewrite E1. replace (_ + _) with (to_run (prog w) + to_share (prog w)) by lia. exact Ha.
  - change (measure p' < measure (prog w))%nat. unfold measure. rewrite E1, E2, E3, Es, Es'. cbn. lia.
Qed.

Lemma rule_work i given open w : accounts given open w ->
  Os.wp (work cfg i : M unit) (fun _ => progress given open (busy (prog w) (Some i)) w) w.
Proof.
  intros Ha. unfold work. apply Os.wp_bind, Os.wp_gets. unfold busy.
  destruct (workers (prog w) !! i) as [[n [|e rest]]|] eqn:Ei; [destruct n as [|n]| |by apply Os.wp_ret].
  - by apply Os.wp_ret.
  - apply Os.wp_bind, rule_single_client. intros es w1 Hd Hp. apply Os.wp_modify.
    destruct (one_worker _ _ _ (mk_worker n es) Ei) as (others & H1 & H2 & H3 & H4).
    set (p' := (prog w) <| workers ::= <[i:=mk_worker n es]> |>) in *. cbn [effects clients_for_worker app] in *.
    split; [|intros _|done|cbn; rewrite Hp; unfold threads; cbn; by rewrite length_insert].
    + unfold accounts. cbn. rewrite Hp.
      change (ledger cfg given open (result (prog w)) (incomplete (prog w)) (to_run p' + to_share (prog w)) (to_happen p') (held (tr w1))).
      eapply ledger_perm; [symmetry; exact H2|]. eapply ledger_client; [|exact Hd].
      eapply ledger_perm; [exact H1|]. replace (_ + 1) with (to_run (prog w) + to_share (prog w)) by lia. exact Ha.
    + cbn. rewrite Hp. change (measure p' < measure (prog w))%nat. unfold measure.
      rewrite H1, H2, H3, length_app. change (shares p') with (shares (prog w)). change (to_share p') with (to_share (prog w)).
      pose proof (sum_nonneg (shares (prog w))) as Hs. fold (to_share (prog w)) in Hs. destruct Hd as [_ _ _ _ Hlen]. lia.
  - replace (match n with O => _ | S _ => _ end) with (happen e ;; Os.modify (fun p => p <| workers ::= <[i := mk_worker n rest]> |>) : M unit)
      by (by destruct n).
    destruct (one_worker _ _ _ (mk_worker n rest) Ei) as (others & H1 & H2 & H3 & H4).
    set (p' := (prog w) <| workers ::= <[i:=mk_worker n rest]> |>) in *. cbn [effects clients_for_worker app] in *.
    assert (Hl : ledger cfg given open (add_to e (result (prog w))) (incomplete (prog w)) (to_run p' + to_share (prog w))
      (to_happen p') (held_after e (held (tr w)))).
    { eapply ledger_perm; [symmetry; exact H2|]. apply ledger_effect. eapply ledger_perm; [exact H1|].
      replace (to_run p') with (to_run (prog w)) by lia. exact Ha. }
    assert (Hm : (measure p' < measure (prog w))%nat).
    { unfold measure. rewrite H1, H2, H3. change (shares p') with (shares (prog w)).
      change (to_share p') with (to_share (prog w)). cbn [length]. rewrite ?length_app. cbn [length]. lia. }
    apply Os.wp_bind. destruct e; cbn [happen];
      [apply Os.wp_modify, Os.wp_modify..|unfold Os.close; apply Os.wp_emit, Os.wp_modify];
      (split; [exact Hl|intros _; exact Hm|destruct n; done|unfold threads; cbn; by rewrite length_insert]).
Qed.

Lemma rule_step a given open w : accounts given open w ->
  Os.wp (step cfg a : M unit) (fun _ => progress given open (busy (prog w) a) w) w.
Proof. destruct a as [i|]; [apply rule_work|apply rule_spawn]. Qed.

(** Any schedule keeps the accounts. *)
Lemma rule_run schedule : forall given open w, accounts given open w ->
  Os.wp (run_stress cfg schedule : M unit) (fun _ => accounts given open) w.
Proof.
  induction schedule as [|a schedule IH]; intros given open w Ha; cbn [run_stress]; [by apply Os.wp_ret|].
  apply Os.wp_bind. eapply Os.wp_mono; [by apply rule_step|]. intros [] w' [Hw _ _]. by apply IH.
Qed.

End Workers.

End StressSafe.
