(* ===== verification/StressRun.v ===== *)
(** What a run of the load generator promises: a proxy reads in its tunnels what
    it was told on its command line, every client is counted under every schedule
    of its threads, and a fair schedule ends it. *)
From S2P Require Import Prelude ByteParser Greeting Auth Request Selector Os Trace Scripted Inet.
From S2P Require Import MonCommands Flags Client Socks Blocking Stress StressSafe.
Import Trace Blocking Stress StressSafe.
Local Open Scope Z_scope.

Module StressRun.

(** * The command line *)

Lemma at_colon_split s a b : at_colon s = Some (a, b) -> s = a ++ ":"%byte :: b.
Proof.
  revert a. induction s as [|c s IH]; intros a; [done|]. cbn. case_decide as Hc.
  - intros [= <- <-]. by subst.
  - destruct (at_colon s) as [[a0 b0]|]; [|done]. intros [= <- <-]. cbn. f_equal. by apply IH.
Qed.

Lemma parse_user_pass_fits s n m a b : parse_user_pass s n m = Some (a, b) ->
  s = a ++ ":"%byte :: b /\ (0 < length a < n)%nat /\ (0 < length b < m)%nat.
Proof.
  unfold parse_user_pass. destruct (at_colon s) as [[a0 b0]|] eqn:Ec; [|done]. do 2 (case_decide; [done|]).
  intros [= -> ->]. split; [by apply at_colon_split|]. destruct a, b; naive_solver lia.
Qed.

Lemma parse_host_port_fits s n a v : parse_host_port s n = Some (a, v) -> (0 < length a < n)%nat /\ 0 < v <= 65535.
Proof.
  unfold parse_host_port. destruct (at_last_colon s) as [[a0 b0]|]; [|done]. do 2 (case_decide; [done|]).
  destruct (MonCommands.strtol b0) as [[value any] rest]. case_decide; [done|]. intros [= -> <-].
  rewrite u16_small by lia. destruct a; naive_solver lia.
Qed.

(** What a run needs of its configuration. *)
Definition runnable (cfg : stress_config) : Prop := user_fits cfg /\ 0 < cfg.(clients) /\ 0 <= cfg.(bytes_per_client).

Lemma optional_keeps (I : stress_config -> Prop) f c set cfg cfg' : optional f c set cfg = Some cfg' -> I cfg ->
  (forall a b, set a = Some b -> I a -> I b) -> I cfg'.
Proof. unfold optional. destruct (Flags.has_flag f c); [eauto|by intros [= <-]]. Qed.

Lemma set_port_keeps (I : stress_config -> Prop) f c put a b : set_port f c put a = Some b ->
  (forall v, I a -> I (put v a)) -> I a -> I b.
Proof. unfold set_port. case_decide; [done|]. intros [= <-]. eauto. Qed.

Lemma configure_runnable f cfg : configure f = Some cfg -> runnable cfg.
Proof.
  unfold configure. set (c0 := if Flags.has_flag f "H"%byte then _ else _). intros Hc.
  pose (sane := fun c => 0 < c.(clients) /\ 0 <= c.(bytes_per_client)).
  assert (H0 : sane c0) by (unfold c0; destruct (Flags.has_flag f "H"%byte); by split).
  apply bind_Some in Hc as (c1 & H1 & Hc).
  apply (optional_keeps sane) in H1; [|done|intros a b Hs; by apply (set_port_keeps sane _ _ _ _ _ Hs)].
  destruct (_ || _); [done|].
  apply bind_Some in Hc as ([user pass] & Hup & Hc). apply parse_user_pass_fits in Hup as (_ & Hu & Hp).
  apply bind_Some in Hc as ([host port] & Hhp & Hc). apply parse_host_port_fits in Hhp as [_ Hport].
  match type of Hc with ?m ≫= _ = _ => match m with optional _ _ _ ?c => set (c2 := c) in Hc end end.
  assert (H2 : runnable c2) by (split; [done|exact H1]). clearbody c2. clear - H2 Hc.
  apply bind_Some in Hc as (c3 & H3 & Hc).
  apply (optional_keeps runnable) in H3; [|done|intros a b; cbv zeta; destruct (decide _); [done|]; intros [= <-] (A & B & C); split; [done|cbn; lia]].
  apply bind_Some in Hc as (c4 & H4 & Hc).
  apply (optional_keeps runnable) in H4; [|done|intros a b; cbv zeta; destruct (decide _); [done|]; intros [= <-] (A & B & C); split; [done|cbn; lia]].
  apply bind_Some in Hc as (c5 & H5 & Hc).
  apply (optional_keeps runnable) in H5; [|done|intros a b; cbv zeta; destruct (decide _); [done|]; by intros [= <-]].
  apply bind_Some in Hc as (c6 & H6 & Hc).
  apply (optional_keeps runnable) in H6; [|done|intros a b (m & _ & [= <-])%bind_Some; done].
  apply bind_Some in Hc as (c7 & H7 & Hc).
  apply (optional_keeps runnable) in H7; [|done|intros a b Hs; by apply (set_port_keeps runnable _ _ _ _ _ Hs)].
  apply bind_Some in Hc as (c8 & H8 & Hc).
  apply (optional_keeps runnable) in H8; [|done|intros a b (up & _ & [= <-])%bind_Some; done].
  injection Hc as <-. repeat case_match; done.
Qed.

Lemma launch_runnable opts cfg : launch_of opts = Run cfg -> runnable cfg.
Proof.
  unfold launch_of. destruct (Flags.setup_flags _ _ _) as [rc f]. case_decide; [done|]. case_match; [done|].
  destruct (configure f) eqn:Hc; [|done]. intros [= <-]. by eapply configure_runnable.
Qed.

(** * What the proxy reads in a tunnel *)

Lemma port_bytes port : 0 < port <= 65535 ->
  Request.port_value (zb (Z.shiftr port 8)) (zb (Z.land port 255)) = port.
Proof.
  intros Hp. unfold Request.port_value. rewrite !bz_zb. change 255 with (Z.ones 8).
  rewrite Z.land_ones, Z.shiftr_div_pow2 by lia. change (2 ^ 8) with 256. rewrite !u8_small.
  - pose proof (Z.div_mod port 256). lia.
  - by apply Z.mod_pos_bound.
  - split; [by apply Z.div_pos; lia|apply Z.div_lt_upper_bound; lia].
Qed.

(** The three messages, by the decoders of the RFCs, with nothing behind. *)
Definition understood `{Inet} (cfg : stress_config) (bs : list byte) : Prop :=
  exists addr rest1 rest2, inet_pton4 cfg.(dest_host) = Some addr /\
    Greeting.negotiate bs = (Greeting.SOCKS_GREETING_ACCEPT, Some Greeting.SOCKS_METHOD_USERPASS, rest1) /\
    Auth.decode rest1 = (Auth.SOCKS_AUTH_PARSED, Some (cfg.(username), cfg.(password)), rest2) /\
    Request.decode rest2 = (Request.SOCKS_REQUEST_PARSED_ADDR, Some (Request.T_ipv4 addr, cfg.(dest_port)), []).

Lemma handshake_understood `{IL : InetLaws} cfg addr : user_fits cfg -> inet_pton4 cfg.(dest_host) = Some addr ->
  understood cfg (handshake cfg addr).
Proof.
  intros (Hu & Hp & Hport) Ha. pose proof (pton4_length _ _ Ha) as Hl.
  destruct addr as [|a0 [|a1 [|a2 [|a3 [|? ?]]]]]; try discriminate Hl.
  exists [a0; a1; a2; a3], (Auth.encode cfg.(username) cfg.(password) ++ connect_request [a0; a1; a2; a3] cfg.(dest_port)),
    (connect_request [a0; a1; a2; a3] cfg.(dest_port)). split_and!; [done|reflexivity| |].
  - apply Auth.decode_encode; [by destruct (username cfg); cbn in *; [lia|]|by destruct (password cfg); cbn in *; [lia|]|lia|lia].
  - transitivity (Request.SOCKS_REQUEST_PARSED_ADDR, Some (Request.T_ipv4 [a0; a1; a2; a3],
      Request.port_value (zb (Z.shiftr cfg.(dest_port) 8)) (zb (Z.land cfg.(dest_port) 255))), @nil byte);
      [reflexivity|by rewrite port_bytes].
Qed.

(** What the proxy answers to these messages when it lets the client through is
    what the client takes for success, to the byte. *)
Example proxy_accepts :
  accepted ([x05; Greeting.SOCKS_METHOD_USERPASS] ++ [x01; x00] ++ Socks.connect_reply Socks.SOCKS_REP_SUCCEEDED).
Proof. exists [x00; x01; x00; x00; x00; x00; x00; x00]. done. Qed.

(** * The monitor *)

Section Monitor.
Context {H D P E : Type} {OS : Os.Os E} {OL : Os.OsLaws E} {FE : Finite E}.
Abbreviation st := (Os.st H D P E).
Abbreviation M := (Os.M H D P E).
Implicit Types (w : st).
Abbreviation tr w := (Os.trace (Selector.user w)).
Abbreviation prog w := (Os.prog (Selector.user w)).

(** A line that was read has taken from what is still to come. *)
Lemma rule_line_loop room : forall fd buf (Q : option cstring -> st -> Prop) w,
  (forall o inp w', talked fd [] inp w w' -> (coming w' <= coming w)%nat ->
     (o <> None -> (coming w' < coming w)%nat) -> Q o w') ->
  Os.wp (line_loop room fd buf : M (option cstring)) Q w.
Proof.
  induction room as [|room IH]; intros fd buf Q w HQ; cbn [line_loop].
  { apply Os.wp_ret. by apply (HQ None []); auto with talk. }
  apply Os.wp_bind, rule_blocking_read. intros r w1 Ht Hr Hc.
  destruct r as [[|b bs]|errno]; [apply Os.wp_ret; (eapply (HQ None); [exact Ht|lia|done])| |
    apply Os.wp_ret; (eapply (HQ None); [exact Ht|lia|done])].
  cbn [read_data length] in *. destruct (decide _).
  { apply Os.wp_ret. eapply HQ; [exact Ht|lia|intros _; lia]. }
  apply IH. intros o inp w2 Ht2 Hc2 Ho. eapply HQ; [exact (talked_trans _ [] _ [] _ _ _ _ Ht Ht2)|lia|].
  intros Hne. specialize (Ho Hne). lia.
Qed.

Lemma rule_dot_loop fuel : forall fd (Q : bool -> st -> Prop) w, (coming w <= fuel)%nat ->
  (forall ok inp w', talked fd [] inp w w' -> Q ok w') -> Os.wp (dot_loop fuel fd : M bool) Q w.
Proof.
  induction fuel as [|fuel IH]; intros fd Q w Hf HQ; cbn [dot_loop]; apply Os.wp_bind, rule_line_loop;
    (intros [line|] inp w1 Ht Hc Ho; [|apply Os.wp_ret; by eapply HQ]); specialize (Ho ltac:(done)); [lia|].
  destruct (decide _); [apply Os.wp_ret; by eapply HQ|]. apply IH; [lia|]. intros ok inp2 w2 Ht2.
  eapply HQ. exact (talked_trans _ [] _ [] _ _ _ _ Ht Ht2).
Qed.

Lemma rule_read_until_dot fd (Q : bool -> st -> Prop) w :
  (forall ok inp w', talked fd [] inp w w' -> Q ok w') -> Os.wp (read_until_dot fd : M bool) Q w.
Proof. apply rule_dot_loop. lia. Qed.

Lemma rule_no_stats fd out inp w0 w1 w (Q : option monitor_metrics -> st -> Prop) : opened fd w0 w1 -> 0 <= fd ->
  talked fd out inp w1 w -> (forall w', held (tr w') = held (tr w0) -> prog w' = prog w0 -> Q None w') ->
  Os.wp (no_stats fd : M (option monitor_metrics)) Q w.
Proof.
  intros Ho Hfd Ht HQ. pose proof (rule_refused fd w0 w1 w (fun _ w' => Q None w') out inp Ho Hfd Ht HQ) as Hg.
  exact Hg.
Qed.

(** The query of the monitor ends and leaves nothing open. *)
Lemma rule_monitor cfg (Q : option monitor_metrics -> st -> Prop) w : lists_addresses (E := E) ->
  (forall o w', held (tr w') = held (tr w) -> prog w' = prog w -> Q o w') ->
  Os.wp (monitor_fetch_stats cfg : M (option monitor_metrics)) Q w.
Proof.
  intros Hla HQ. unfold monitor_fetch_stats, tcp_connect.
  destruct (query_monitor cfg); [|by apply Os.wp_ret, HQ]. destruct (admin cfg) as [[user pass]|]; [|by apply Os.wp_ret, HQ].
  apply Os.wp_bind. eapply Os.wp_mono; [by apply connect_server_opens|]. intros fd w1 Ho. cbn beta.
  destruct (decide (fd < 0)) as [Hneg|Hfd].
  { apply Os.wp_ret. destruct Ho as [O1 _ _ O4]. apply HQ; [|done]. by rewrite O1, decide_True. }
  assert (Hfd' : 0 <= fd) by lia. clear Hfd.
  assert (Hno : forall out inp w', talked fd out inp w1 w' -> Os.wp (no_stats fd : M (option monitor_metrics)) Q w')
    by (intros out inp w' Ht; eapply rule_no_stats; [exact Ho|done|exact Ht|by intros w2 ? ?; apply HQ]).
  apply Os.wp_bind, rule_read_until_dot. intros ok i1 w2 T. destruct ok; cbn [negb]; [|by eapply Hno].
  apply Os.wp_bind, rule_write_all. intros ok o2 w3 T2 _ _. chain T T2 as T'.
  destruct ok; cbn [negb]; [|by eapply Hno].
  apply Os.wp_bind, rule_read_until_dot. intros ok i3 w4 T2. chain T' T2 as T.
  destruct ok; cbn [negb]; [|by eapply Hno].
  apply Os.wp_bind, rule_write_all. intros ok o4 w5 T2 _ _. chain T T2 as T'.
  destruct ok; cbn [negb]; [|by eapply Hno].
  apply Os.wp_bind, rule_line_loop. intros line i5 w6 T2 _ _. chain T' T2 as T.
  destruct line as [line|]; [|by eapply Hno].
  apply Os.wp_bind, rule_read_until_dot. intros ok2 i6 w7 T2. chain T T2 as T'.
  eapply (rule_refused fd w w1 w7 (fun _ w' => Q _ w') _ _ Ho Hfd' T'). intros w8 Hh Hp. by apply HQ.
Qed.

End Monitor.

(** * The shares of the threads *)

Lemma shares_sum base extra n : 0 <= base ->
  sum (Z.of_nat <$> ((fun i => Z.to_nat (base + if decide (Z.of_nat i < extra) then 1 else 0)) <$> seq 0 n)) =
    Z.of_nat n * base + Z.min (Z.max 0 extra) (Z.of_nat n).
Proof.
  intros Hb. induction n as [|n IH]; [cbn; lia|]. rewrite seq_S, !fmap_app, sum_app, IH. cbn [fmap list_fmap sum].
  rewrite Z2Nat.id by (case_decide; lia). cbn [Nat.add]. case_decide; lia.
Qed.

Lemma shares_of_sum clients : 0 < clients ->
  sum (Z.of_nat <$> shares_of clients) = clients /\ (length (shares_of clients) <= 64)%nat.
Proof.
  intros Hc. assert (Ht : 0 < thread_count clients <= 64 /\ thread_count clients <= clients)
    by (unfold thread_count; case_decide; lia).
  unfold shares_of. split.
  - rewrite shares_sum by (apply Z.quot_pos; lia). rewrite Z2Nat.id by lia.
    pose proof (Z.quot_rem' clients (thread_count clients)) as Hq.
    pose proof (Z.rem_bound_pos clients (thread_count clients)). lia.
  - rewrite length_fmap, length_seq. lia.
Qed.

(** * Runs *)

Section Runs.
Context {H D E : Type} {OS : Os.Os E} {OL : Os.OsLaws E} {FE : Finite E} {IN : Inet}.
Abbreviation st := (Os.st H D pool E).
Abbreviation M := (Os.M H D pool E).
Implicit Types (w : st).
Abbreviation tr w := (Os.trace (Selector.user w)).
Abbreviation prog w := (Os.prog (Selector.user w)).
Variable cfg : stress_config.
Hypothesis Haddrs : lists_addresses (E := E).
Hypothesis Hfits : user_fits cfg.

(** Steps by any of [l]: if one of them has something to do, the work shrinks. *)
Lemma rule_turns l : forall given open w, accounts cfg given open w ->
  Os.wp (run_stress cfg l : M unit) (fun _ w' => accounts cfg given open w' /\
    (measure (prog w') <= measure (prog w))%nat /\ (threads (prog w') <= threads (prog w))%nat /\
    ((exists a, a ∈ l /\ busy (prog w) a = true) -> (measure (prog w') < measure (prog w))%nat)) w.
Proof.
  induction l as [|a l IH]; intros given open w Ha; cbn [run_stress].
  { apply Os.wp_ret. split_and!; [done|done|done|]. intros (a & Hin & _). by apply not_elem_of_nil in Hin. }
  apply Os.wp_bind. eapply Os.wp_mono; [by apply (rule_step cfg Haddrs Hfits a given open)|].
  intros [] w1 [P1 P2 P3 P4]. eapply Os.wp_mono; [by apply IH|]. intros [] w2 (Q1 & Q2 & Q3 & Q4).
  destruct (busy (prog w) a) eqn:Hb.
  - specialize (P2 eq_refl). split_and!; [done|lia|lia|]. intros _. lia.
  - rewrite (P3 eq_refl) in Q2, Q3, Q4. split_and!; [done|done|done|]. intros (b & Hin & Hbusy). apply Q4.
    exists b. split; [|done]. apply elem_of_cons in Hin as [->|Hin]; [congruence|done].
Qed.

(** A turn of every thread. *)
Definition fair (l : list act) : Prop := None ∈ l /\ forall i, (i < 64)%nat -> Some i ∈ l.

Lemma someone_busy p l : fair l -> (threads p <= 64)%nat -> joined p = false -> exists a, a ∈ l /\ busy p a = true.
Proof.
  intros [Hn Hs] Ht Hj. unfold joined in Hj. apply andb_false_iff in Hj as [Hj|Hj].
  - exists None. split; [done|]. cbn. by rewrite Hj.
  - assert (Hx : exists i k, p.(workers) !! i = Some k /\ idle k = false).
    { clear -Hj. induction (workers p) as [|k ks IH]; cbn in Hj; [done|]. apply andb_false_iff in Hj as [Hk|Hks].
      - by exists 0%nat, k.
      - destruct (IH Hks) as (i & k0 & Hi & Hk0). by exists (S i), k0. }
    destruct Hx as (i & k & Hi & Hk). exists (Some i). split.
    + apply Hs. apply lookup_lt_Some in Hi. unfold threads in Ht. lia.
    + cbn. by rewrite Hi, Hk.
Qed.

Lemma nobody_busy p a : joined p = true -> busy p a = false.
Proof.
  unfold joined. intros [Hs Hw]%andb_true_iff. destruct a as [i|]; cbn; [|by rewrite Hs].
  destruct (workers p !! i) as [k|] eqn:Hi; [|done]. rewrite forallb_forall in Hw.
  apply negb_false_iff, Hw, list_elem_of_In. by eapply list_elem_of_lookup_2.
Qed.

Lemma rule_idle l : forall given open w, accounts cfg given open w -> joined (prog w) = true ->
  Os.wp (run_stress cfg l : M unit) (fun _ w' => accounts cfg given open w' /\ prog w' = prog w) w.
Proof.
  induction l as [|a l IH]; intros given open w Ha Hj; cbn [run_stress]; [by apply Os.wp_ret|].
  apply Os.wp_bind. eapply Os.wp_mono; [by apply (rule_step cfg Haddrs Hfits a given open)|].
  intros [] w1 [P1 P2 P3 P4]. specialize (P3 (nobody_busy _ _ Hj)).
  eapply Os.wp_mono; [apply (IH given open w1 P1); by rewrite P3|]. intros [] w2 [Q1 Q2]. split; [done|congruence].
Qed.

Lemma bound_by {A B} (m : M A) (f : A -> M B) Q w : Os.wp (m ≫= f) Q w -> Os.wp m (fun a => Os.wp (f a) Q) w.
Proof. unfold Os.wp, mbind, Os.M_bind. by destruct (m w) as [[a w']|]. Qed.

Lemma turns_app l k Q w : Os.wp (run_stress cfg l : M unit) (fun _ => Os.wp (run_stress cfg k : M unit) Q) w ->
  Os.wp (run_stress cfg (l ++ k) : M unit) Q w.
Proof.
  revert w. induction l as [|a l IH]; intros w Hw; cbn [app run_stress] in *; [exact Hw|].
  apply Os.wp_bind. apply bound_by in Hw. eapply Os.wp_mono; [exact Hw|]. intros [] w1 H1. by apply IH.
Qed.

(** As many turns of every thread as there is work. *)
Lemma rule_rounds rounds : forall given open w, Forall fair rounds -> accounts cfg given open w ->
  (threads (prog w) <= 64)%nat -> (measure (prog w) <= length rounds)%nat ->
  Os.wp (run_stress cfg (concat rounds) : M unit) (fun _ w' => accounts cfg given open w' /\ joined (prog w') = true) w.
Proof.
  induction rounds as [|l rounds IH]; intros given open w Hf Ha Ht Hm; destruct (joined (prog w)) eqn:Hj.
  - by apply Os.wp_ret.
  - apply Forall_nil in Hf. exfalso.
    destruct (someone_busy (prog w) (None :: (Some <$> seq 0 64))) as (a & _ & Hb); [|done..|].
    { split; [apply elem_of_cons; by left|]. intros i Hi. apply elem_of_cons. right. apply list_elem_of_fmap_2, elem_of_seq. lia. }
    pose proof (rule_step cfg Haddrs Hfits a given open w Ha) as Hs. apply Os.wp_ok in Hs as (u & w1 & _ & [_ P2 _ _]).
    specialize (P2 Hb). cbn in Hm. lia.
  - eapply Os.wp_mono; [by apply rule_idle|]. intros [] w' [H1 H2]. split; [done|congruence].
  - apply Forall_cons in Hf as [Hl Hf]. cbn [concat]. apply turns_app. eapply Os.wp_mono; [by apply rule_turns|].
    intros [] w1 (Q1 & Q2 & Q3 & Q4). specialize (Q4 (someone_busy _ _ Hl Ht Hj)). cbn in Hm. apply IH; [done|done|lia|lia].
Qed.

(** ** The program *)

Lemma accounts_initial w : 0 < cfg.(clients) -> prog w = pool_initial cfg.(clients) ->
  accounts cfg cfg.(clients) (held (tr w)) w /\ (measure (prog w) <= Z.to_nat (5 * cfg.(clients)) + 64)%nat /\
  (threads (prog w) <= 64)%nat.
Proof.
  intros Hc Ep. destruct (shares_of_sum _ Hc) as [Hs Hl].
  assert (E0 : prog w = mk_pool (shares_of cfg.(clients)) false [] (mk_result 0 0 0 0))
    by (rewrite Ep; unfold pool_initial; by rewrite decide_False by lia).
  assert (E1 : to_share (prog w) = cfg.(clients)) by (rewrite E0; exact Hs).
  assert (E2 : to_run (prog w) = 0) by (by rewrite E0).
  assert (E3 : to_happen (prog w) = []) by (by rewrite E0).
  split_and!.
  - unfold accounts. rewrite E1, E2, E3, E0. cbn [result incomplete].
    split; cbn [closes omap list_omap total fmap list_fmap sum successes failures bytes_sent bytes_received app]; [done|exists 0; split_and!; [lia|done|unfold total; cbn; lia]|lia| |];
      (exists 0; split; [done|unfold total; cbn; lia]).
  - unfold measure. rewrite E1, E2, E3, E0. cbn [shares length]. lia.
  - unfold threads. rewrite E0. cbn [workers shares length]. lia.
Qed.

(** What the report of a run says, and the status with it. *)
Record settled (status : Z) (r : report) : Prop := {
  st_status : status = EXIT_SUCCESS <-> r.(counted).(failures) = 0;
  st_sign : 0 <= r.(counted).(successes) /\ 0 <= r.(counted).(failures);
  st_most : r.(counted).(successes) + r.(counted).(failures) <= cfg.(clients);
  st_all : r.(spawn_incomplete) = false -> r.(counted).(successes) + r.(counted).(failures) = cfg.(clients);
  st_sent : r.(counted).(bytes_sent) = u64 (payload cfg * r.(counted).(successes));
  st_received : r.(counted).(bytes_received) = u64 (payload cfg * r.(counted).(successes));
}.

Lemma joined_totals p : joined p = true -> to_happen p = [] /\ to_run p = 0 /\ to_share p = 0.
Proof.
  unfold joined. intros [Hs%bool_decide_eq_true Hw]%andb_true_iff. unfold to_happen, to_run, to_share.
  rewrite Hs. split_and!; [| |done]; clear Hs; induction (workers p) as [|[[|n] [|e es]] ks IH]; cbn in *; try done; auto.
Qed.

Lemma settled_joined w open delta : accounts cfg cfg.(clients) open w -> joined (prog w) = true ->
  held (tr w) ≡ₚ open /\
  settled (exit_status (prog w)) (mk_report (prog w).(result) delta (prog w).(incomplete)).
Proof.
  intros Ha Hj. destruct (joined_totals _ Hj) as (E1 & E2 & E3). unfold accounts in Ha. rewrite E1, E2, E3 in Ha.
  destruct Ha as [A1 (lost & L1 & L2 & L3) A3 (snt & B1 & B2) (rcv & C1 & C2)].
  unfold total in *. cbn [fmap list_fmap sum closes omap list_omap app] in *. split; [exact A1|]. split; cbn [counted spawn_incomplete].
  - unfold exit_status, EXIT_SUCCESS, EXIT_FAILURE. case_decide; split; lia.
  - exact A3.
  - lia.
  - intros Hi. specialize (L2 Hi). lia.
  - rewrite B1. f_equal. rewrite Z.add_0_r in B2. rewrite Z.add_0_r in B2. exact B2.
  - rewrite C1. f_equal. rewrite Z.add_0_r in C2. rewrite Z.add_0_r in C2. exact C2.
Qed.

(** The program around the run of its threads. *)
Lemma rule_run_main schedule (Q : program -> st -> Prop) w : 0 < cfg.(clients) ->
  (forall w1, accounts cfg cfg.(clients) (held (tr w)) w1 -> (measure (prog w1) <= Z.to_nat (5 * cfg.(clients)) + 64)%nat ->
     (threads (prog w1) <= 64)%nat ->
     Os.wp (run_stress cfg schedule : M unit) (fun _ w2 => accounts cfg cfg.(clients) (held (tr w)) w2 /\
       (joined (prog w2) = false -> Q Working w2) /\
       (joined (prog w2) = true -> forall delta w3, held (tr w3) ≡ₚ held (tr w) ->
          let r := mk_report (prog w2).(result) delta (prog w2).(incomplete) in
          settled (exit_status (prog w2)) r -> Q (Exited (exit_status (prog w2)) (Some r)) w3)) w1) ->
  Os.wp (run_main cfg schedule : M program) Q w.
Proof.
  intros Hc HQ. unfold run_main. apply Os.wp_bind, rule_monitor; [done|]. intros before w1 H1 P1.
  apply Os.wp_bind, Os.wp_modify. set (w2 := Os.on_prog _ w1).
  destruct (accounts_initial w2 Hc eq_refl) as (Ha & Hm & Ht). change (held (tr w2)) with (held (tr w1)) in Ha. rewrite H1 in Ha.
  apply Os.wp_bind. eapply Os.wp_mono; [by apply HQ|]. intros [] w3 (A3 & Q1 & Q2).
  apply Os.wp_bind, Os.wp_gets. destruct (joined (prog w3)) eqn:Hj; cbn [negb]; [|by apply Os.wp_ret, Q1].
  destruct (settled_joined w3 _ None A3 Hj) as [Hh _].
  apply Os.wp_bind, rule_monitor; [done|]. intros after w4 H4 P4. apply Os.wp_ret, (Q2 eq_refl); [by rewrite H4|].
  by apply (settled_joined w3 _ _ A3).
Qed.

End Runs.

(** * What the program promises *)

Section Promises.
Context {H D E : Type} {OS : Os.Os E} {OL : Os.OsLaws E} {FE : Finite E} {IN : Inet} {IL : InetLaws}.
Abbreviation st := (Os.st H D pool E).
Abbreviation M := (Os.M H D pool E).
Implicit Types (w : st).
Abbreviation tr w := (Os.trace (Selector.user w)).
Abbreviation prog w := (Os.prog (Selector.user w)).

(** C36. Whatever its system does, the load generator's client ends with a socket
    closed again, or with a tunnel: the one socket it opened, on which it has
    said a greeting that the proxy's reference decoder answers with
    username/password, then credentials that decode to the ones of the command
    line, then a request that decodes to its destination and port, and nothing
    more; and on which it has heard the three answers of success. *)
Theorem stress_tunnels opts cfg w : lists_addresses (E := E) -> launch_of opts = Run cfg ->
  Os.wp (socks5_connect cfg : M Z) (fun fd w' =>
    if decide (fd < 0) then held (tr w') = held (tr w)
    else held (tr w') = fd :: held (tr w) /\ understood cfg (said fd (tr w')) /\ accepted (heard fd (tr w'))) w.
Proof.
  intros Hla Hl. destruct (launch_runnable _ _ Hl) as (Hfits & _ & _). apply (rule_socks5_connect cfg); [done|done| |].
  - intros fd w' [T1 T2 (addr & T3 & T4) T5 T6]. rewrite decide_False by lia. split; [done|]. split; [|done].
    rewrite T4. by apply handshake_understood.
  - intros w' Hh _. by rewrite decide_True by lia.
Qed.

(** C37. However its threads are scheduled and whatever its system does, a run of
    the load generator that exits has closed every socket it opened, has counted
    each client once, a success or a failure (or says that a thread could not be
    started), counts as sent and as received what its successes transfer, modulo
    2^64, and exits with success exactly when no client failed; while it works,
    what it holds are sockets it is about to close. *)
Theorem stress_accounts opts cfg schedule w : lists_addresses (E := E) -> launch_of opts = Run cfg ->
  Os.wp (main opts schedule : M program) (fun o w' =>
    match o with
    | Exited status (Some r) => held (tr w') ≡ₚ held (tr w) /\ settled cfg status r
    | Exited _ None => False
    | Working => held (tr w') ≡ₚ closes (to_happen (prog w')) ++ held (tr w)
    end) w.
Proof.
  intros Hla Hl. destruct (launch_runnable _ _ Hl) as (Hfits & Hc & _). unfold main. rewrite Hl.
  apply (rule_run_main cfg Hla); [done|]. intros w1 Ha _ _. eapply Os.wp_mono; [by apply rule_run|].
  intros [] w2 A2. split; [done|]. split; [|by intros _ delta w3 Hh r Hs]. intros _. by destruct A2.
Qed.


End Promises.

(** * A sample run

    Two clients of one transfer each; the first is answered by the proxy, with an
    interrupted read and a short write, the second is refused its method. *)

#[local] Existing Instances SampleInet.sample_inet SampleInet.sample_laws.
#[local] Instance sample_os : Os.Os Scripted.script := Scripted.tame 17.
#[local] Instance sample_laws : Os.OsLaws Scripted.script := Scripted.tame_laws 17.

Definition sample_opts : list (byte * option cstring) :=
  [("u"%byte, Some (lit "ana:secreto")); ("d"%byte, Some (lit "10.0.0.9:9000")); ("n"%byte, Some (lit "2"));
   ("M"%byte, Some (lit "throughput")); ("b"%byte, Some (lit "5"))].
Definition sample_cfg : stress_config :=
  mk_config (lit "127.0.0.1") 1080 (lit "ana") (lit "secreto") (lit "10.0.0.9") 9000 (lit "127.0.0.1") 8080 None
    STRESS_MODE_THROUGHPUT 2 5 0 false.

Lemma sample_launch : launch_of sample_opts = Run sample_cfg.
Proof. reflexivity. Qed.

Definition sample_address : Os.addrinfo := Os.mk_addrinfo (Some Request.sockaddr_zero) 16.
Definition sample_script : Scripted.script :=
  Scripted.mk_script
    [Os.RData [x05; x02]; Os.RError Client.EINTR; Os.RData [x01; x00]; Os.RData ([x05; x00] ++ replicate 8 x00);
     Os.RData [x61; x62]; Os.RData [x63; x64; x65]; Os.RData [x05; xff]]
    [Os.WDone 2] [] [3; 4] [None; None] [] [(0, [sample_address]); (0, [sample_address])] 0.
Definition sample_world : Os.st unit unit pool Scripted.script :=
  Selector.mk_state (Selector.mk_selector None 0 0 false [] 0 0 0 0 []) (Os.mk_sys (pool_initial 0) sample_script []).

(** Both workers at once. *)
Definition sample_turn : list act := [Some 1%nat; None; Some 0%nat].

Example sample_load :
  match main sample_opts (concat (replicate 8 sample_turn)) sample_world with
  | Ok (o, w') => o = Exited EXIT_FAILURE (Some (mk_report (mk_result 1 1 5 5) None false)) /\
      held (Os.trace (Selector.user w')) = []
  | Fault _ => False
  end.
Proof. vm_compute. done. Qed.

Definition full_turn : list act := None :: (Some <$> seq 0 64).
Lemma full_turn_fair : fair full_turn.
Proof.
  split; [apply elem_of_cons; by left|]. intros i Hi. apply elem_of_cons. right.
  apply list_elem_of_fmap_2, elem_of_seq. lia.
Qed.

Lemma stress_tunnels_witness :
  Os.wp (socks5_connect sample_cfg : Os.M unit unit pool Scripted.script Z) (fun fd w' =>
    if decide (fd < 0) then held (Os.trace (Selector.user w')) = held (Os.trace (Selector.user sample_world))
    else held (Os.trace (Selector.user w')) = fd :: held (Os.trace (Selector.user sample_world)) /\
      understood sample_cfg (said fd (Os.trace (Selector.user w'))) /\
      accepted (heard fd (Os.trace (Selector.user w')))) sample_world.
Proof. exact (stress_tunnels sample_opts sample_cfg sample_world (tame_lists 17) sample_launch). Defined.

Lemma stress_accounts_witness :
  Os.wp (main sample_opts (concat (replicate 8 sample_turn)) : Os.M unit unit pool Scripted.script program) (fun o w' =>
    match o with
    | Exited status (Some r) =>
        held (Os.trace (Selector.user w')) ≡ₚ held (Os.trace (Selector.user sample_world)) /\ settled sample_cfg status r
    | Exited _ None => False
    | Working => held (Os.trace (Selector.user w')) ≡ₚ
        closes (to_happen (Os.prog (Selector.user w'))) ++ held (Os.trace (Selector.user sample_world))
    end) sample_world.
Proof. exact (stress_accounts sample_opts sample_cfg _ sample_world (tame_lists 17) sample_launch). Defined.

Lemma enough_turns : (Z.to_nat (5 * sample_cfg.(clients)) + 64 <= length (replicate 74 full_turn))%nat.
Proof. by vm_compute. Qed.

Lemma turns_fair : Forall fair (replicate 74 full_turn).
Proof. apply Forall_replicate, full_turn_fair. Qed.


End StressRun.
