(* ===== verification/Backend.v ===== *)
(** The echo back end of src/stress/echo_backend.c: a thread for each connection,
    under every schedule of the threads. *)
From S2P Require Import Prelude Request Selector Os Trace Scripted Flags Client Stress.
Import Trace.
Local Open Scope Z_scope.

Module Backend.

Definition ECHO_BUF_SIZE : nat := Z.to_nat 65536.
Abbreviation EXIT_SUCCESS := Stress.EXIT_SUCCESS.
Abbreviation EXIT_FAILURE := Stress.EXIT_FAILURE.

(** A thread in [read_write_loop]: the [n] bytes in its array, how many of them
    it has [sent], its [total], and what the loop returned. *)
Record thread := mk_thread {
  fd : Z;
  buf : list byte;
  sent : nat;
  total : Z;
  returned : option Z;
}.
#[export] Instance eta_thread : Eta thread := fun t => mk_thread t.(fd) t.(buf) t.(sent) t.(total) t.(returned).

(** Where [main] is: in its loop, with its listening socket, or back. *)
Inductive main_thread := Accepting (listen_fd : Z) | Returned (status : Z).

Record backend := mk_backend {
  keep_running : bool;
  main_at : main_thread;
  threads : list thread;
}.
#[export] Instance eta_backend : Eta backend := fun p => mk_backend p.(keep_running) p.(main_at) p.(threads).

(** The actions of its schedules: a signal arrives; [main] does a turn of its loop,
    where [errno] is what a failing [accept] leaves; a thread makes one call. *)
Inductive act := Signal | Turn (errno : Z) | Work (i : nat).

(** [port], when the command line is one the program runs with. *)
Inductive launch := Usage | Help | Run (port : Z).
Definition launch_of (opts : list (byte * option cstring)) : launch :=
  let '(rc, f) := Flags.setup_flags (lit "p:h") opts Flags.zero_flags in
  if decide (rc <> 0) then Usage else
  if Flags.has_flag f "h"%byte then Help else
  if Flags.has_flag f "p"%byte then
    let value := Flags.get_flag_long f "p"%byte in
    if decide (value <= 0 \/ value > 65535) then Usage else Run (u16 value)
  else Run 9999.

Section Backend.
Context {H D E : Type} {OS : Os.Os E}.
Abbreviation M := (Os.M H D backend E).

Definition on_signal : M unit := Os.modify (fun p => p <| keep_running := false |>).

Definition upd_thread (i : nat) (f : thread -> thread) : M unit :=
  Os.modify (fun p => p <| threads ::= alter f i |>).

(** [read_write_loop] returns [r], and [client_thread] closes the socket. *)
Definition finish (i : nat) (t : thread) (r : Z) : M unit :=
  Os.close t.(fd) ;; upd_thread i (fun t => t <| returned := Some r |>).

(** The thread up to and with its next call: a write while it has bytes to send,
    a test of [keep_running] and a read otherwise. *)
Definition read_write_loop (i : nat) (t : thread) : M unit :=
  if decide (t.(sent) < length t.(buf))%nat then
    w ← Os.write t.(fd) (drop t.(sent) t.(buf));
    match w with
    | Os.WError errno => if decide (errno = Client.EINTR) then mret tt else finish i t (-1)
    | Os.WDone w =>
      upd_thread i (fun t =>
        let t := t <| sent ::= fun s => (s + w)%nat |> in
        if decide (t.(sent) < length t.(buf))%nat then t
        else t <| total ::= Z.add (Z.of_nat (length t.(buf))) |> <| buf := [] |> <| sent := 0%nat |>)
    end
  else
    keep ← Os.gets keep_running;
    if negb keep then finish i t t.(total) else
    n ← Os.read t.(fd) ECHO_BUF_SIZE;
    match n with
    | Os.RData [] => finish i t t.(total)
    | Os.RError errno => if decide (errno = Client.EINTR) then mret tt else finish i t (-1)
    | Os.RData bs => upd_thread i (fun t => t <| buf := bs |> <| sent := 0%nat |>)
    end.

Definition client_thread (i : nat) : M unit :=
  o ← Os.gets (fun p => p.(threads) !! i);
  match o with
  | Some t => match t.(returned) with None => read_write_loop i t | Some _ => mret tt end
  | None => mret tt
  end.

Definition spawn_client_handler (client_fd : Z) : M Z :=
  ok ← Os.os Os.os_alloc;
  if negb ok then Os.close client_fd ;; mret (-1) else
  created ← Os.os Os.os_thread;
  if negb created then Os.close client_fd ;; mret (-1) else
  Os.modify (fun p => p <| threads ::= (.++ [mk_thread client_fd [] 0 0 None]) |>) ;;
  mret 0.

(** Behind the loop. *)
Definition leave (listen_fd : Z) : M unit :=
  Os.close listen_fd ;; Os.modify (fun p => p <| main_at := Returned EXIT_SUCCESS |>).

Definition main_turn (listen_fd errno : Z) : M unit :=
  keep ← Os.gets keep_running;
  if negb keep then leave listen_fd else
  client_fd ← Os.accept listen_fd;
  if decide (client_fd < 0) then
    (if decide (errno = Client.EINTR) then
       keep ← Os.gets keep_running;
       if negb keep then leave listen_fd else mret tt
     else leave listen_fd)
  else spawn_client_handler client_fd ;; mret tt.

(** When [main] is back the process is gone, its threads with it. *)
Definition step (a : act) : M unit :=
  m ← Os.gets main_at;
  match m with
  | Returned _ => mret tt
  | Accepting listen_fd =>
    match a with Signal => on_signal | Turn errno => main_turn listen_fd errno | Work i => client_thread i end
  end.

Fixpoint run (schedule : list act) : M unit :=
  match schedule with [] => mret tt | a :: schedule => step a ;; run schedule end.

(** [close(listen_fd); return EXIT_FAILURE]. *)
Definition no_listener (listen_fd : Z) : M main_thread := Os.close listen_fd ;; mret (Returned EXIT_FAILURE).

Definition open_listener (port : Z) : M main_thread :=
  listen_fd ← Os.socket Request.AF_INET;
  if decide (listen_fd < 0) then mret (Returned EXIT_FAILURE) else
  rc ← Os.os (Os.os_setup Os.ReuseAddr listen_fd);
  if decide (rc < 0) then no_listener listen_fd else
  rc ← Os.os (Os.os_setup (Os.Bind port) listen_fd);
  if decide (rc < 0) then no_listener listen_fd else
  rc ← Os.os (Os.os_setup Os.Listen listen_fd);
  if decide (rc < 0) then no_listener listen_fd else mret (Accepting listen_fd).

Definition main (opts : list (byte * option cstring)) (schedule : list act) : M unit :=
  m ← match launch_of opts with
      | Usage => mret (Returned EXIT_FAILURE)
      | Help => mret (Returned EXIT_SUCCESS)
      | Run port => open_listener port
      end;
  Os.modify (fun _ => mk_backend true m []) ;; run schedule.

End Backend.

End Backend.
