(* ===== verification/BackendSafe.v ===== *)
(** What the echo back end promises: what each connection sent comes back, and
    its sockets are accounted for, under every schedule of its threads. *)
From S2P Require Import Prelude Request Selector Os Trace Scripted Flags Client Blocking Stress Backend.
Import Trace Blocking Backend.
Local Open Scope Z_scope.

Module BackendSafe.

Definition running (ts : list thread) : list Z :=
  omap (fun t => match t.(returned) with None => Some t.(fd) | Some _ => None end) ts.
Definition listening (p : backend) : list Z := match p.(main_at) with Accepting fd => [fd] | Returned _ => [] end.

(** What a running thread has read is what it has written and what it still has
    to write, and its total counts what it read before. *)
Record echoing (trace : list Os.io) (t : thread) : Prop := {
  eg_echo : said t.(fd) trace ++ drop t.(sent) t.(buf) = heard t.(fd) trace;
  eg_left : t.(buf) = [] \/ (t.(sent) < length t.(buf))%nat;
  eg_total : t.(total) + Z.of_nat (length t.(buf)) = Z.of_nat (length (heard t.(fd) trace));
}.

Lemma running_split l1 t l2 : t.(returned) = None -> running (l1 ++ t :: l2) = running l1 ++ t.(fd) :: running l2.
Proof. intros Hr. unfold running. rewrite omap_app. cbn. by rewrite Hr. Qed.

Lemma running_in t ts : t ∈ ts -> t.(returned) = None -> t.(fd) ∈ running ts.
Proof. intros Hin Hr. apply list_elem_of_omap. exists t. split; [done|]. by rewrite Hr. Qed.

Lemma thread_split (ts : list thread) i t : ts !! i = Some t ->
  exists l1 l2, ts = l1 ++ t :: l2 /\ forall f, alter f i ts = l1 ++ f t :: l2.
Proof.
  intros Hi. exists (take i ts), (drop (S i) ts). split; [by rewrite take_drop_middle|]. intros f.
  rewrite <- (take_drop_middle ts i t Hi) at 1. apply lookup_lt_Some in Hi.
  assert (Hl : length (take i ts) = i) by (rewrite length_take; lia). rewrite <- Hl at 1. clear.
  induction (take i ts) as [|x l IH]; [done|]. cbn. by f_equal.
Qed.

Section Runs.
Context {H D E : Type} {OS : Os.Os E} {OL : Os.OsLaws E}.
Abbreviation st := (Os.st H D backend E).
Abbreviation M := (Os.M H D backend E).
Implicit Types (w : st).
Abbreviation tr w := (Os.trace (Selector.user w)).
Abbreviation prog w := (Os.prog (Selector.user w)).

(** [open] is what was open before the program. *)
Record good (open : list Z) w : Prop := {
  gd_held : held (tr w) ≡ₚ listening (prog w) ++ running (prog w).(threads) ++ open;
  gd_distinct : handed_out (tr w) -> NoDup (held (tr w));
  gd_threads : handed_out (tr w) -> forall t, t ∈ (prog w).(threads) -> t.(returned) = None -> echoing (tr w) t;
}.

(** The other threads do not notice a talk on a socket that is not theirs. *)
Lemma echoing_other k out inp w w' t : talked k out inp w w' -> t.(fd) <> k -> echoing (tr w) t -> echoing (tr w') t.
Proof. intros [_ _ Ho _ _ _] Hk [E1 E2 E3]. destruct (Ho _ Hk) as [Hs Hh]. split; by rewrite ?Hs, ?Hh. Qed.

Lemma others_distinct l1 t l2 u : t.(returned) = None -> NoDup (running (l1 ++ t :: l2)) -> u ∈ l1 ++ l2 ->
  u.(returned) = None -> u.(fd) <> t.(fd).
Proof.
  intros Ht Hn Hu Hr Heq. rewrite running_split in Hn by done. apply NoDup_app in Hn as (_ & Hd & Hn).
  apply NoDup_cons in Hn as [Hn _]. apply elem_of_app in Hu as [Hu|Hu]; apply running_in in Hu; try done; rewrite Heq in Hu.
  - apply (Hd _ Hu), elem_of_cons. by left.
  - done.
Qed.

Lemma good_distinct open w : good open w -> handed_out (tr w) -> NoDup (running (prog w).(threads)).
Proof.
  intros [G1 G2 _] Hh. specialize (G2 Hh). rewrite G1 in G2. apply NoDup_app in G2 as (_ & _ & G2).
  by apply NoDup_app in G2 as (? & _ & _).
Qed.

(** One thread has talked on its socket and goes on as [t']. *)
Lemma good_moves open out inp l1 t t' l2 w w1 w2 : good open w -> (prog w).(threads) = l1 ++ t :: l2 ->
  t.(returned) = None -> t'.(returned) = None -> t'.(fd) = t.(fd) -> talked t.(fd) out inp w w1 ->
  tr w2 = tr w1 -> main_at (prog w2) = main_at (prog w) -> threads (prog w2) = l1 ++ t' :: l2 ->
  (echoing (tr w) t -> echoing (tr w1) t') -> good open w2.
Proof.
  intros Hg Hts Ht Ht' Hfd Hk Etr Em Ets Hstep. pose proof Hg as [G1 G2 G3].
  pose proof (tk_handed _ _ _ _ _ Hk) as Hh. pose proof (tk_held _ _ _ _ _ Hk) as Hheld. split; rewrite Etr.
  - rewrite Hheld, G1, Hts, Ets. unfold listening. rewrite Em, !running_split by done. by rewrite Hfd.
  - rewrite Hheld. intros Hx. by apply G2, Hh.
  - intros Hx u Hu Hr. apply Hh in Hx. pose proof (good_distinct _ _ Hg Hx) as Hn. rewrite Hts in Hn. rewrite Ets in Hu.
    assert (Hcase : u = t' \/ u ∈ l1 ++ l2).
    { rewrite elem_of_app, elem_of_cons in *. tauto. }
    destruct Hcase as [->|Hin].
    + apply Hstep, G3; [done| |done]. rewrite Hts. apply elem_of_app. right. apply elem_of_cons. by left.
    + eapply echoing_other; [exact Hk|by eapply others_distinct|]. apply G3; [done| |done].
      rewrite Hts. rewrite elem_of_app, elem_of_cons in *. tauto.
Qed.

(** It has talked on its socket, closed it and returned. *)
Lemma good_ends open out inp l1 t t' l2 w w1 w2 : good open w -> (prog w).(threads) = l1 ++ t :: l2 ->
  t.(returned) = None -> t'.(returned) <> None -> talked t.(fd) out inp w w1 ->
  tr w2 = Os.IoClose t.(fd) :: tr w1 -> main_at (prog w2) = main_at (prog w) -> threads (prog w2) = l1 ++ t' :: l2 ->
  good open w2.
Proof.
  intros Hg Hts Ht Ht' Hk Etr Em Ets. pose proof Hg as [G1 G2 G3].
  pose proof (tk_handed _ _ _ _ _ Hk) as Hh. pose proof (tk_held _ _ _ _ _ Hk) as Hheld.
  assert (Hrun : running (l1 ++ t' :: l2) = running l1 ++ running l2).
  { unfold running. rewrite omap_app. cbn. by destruct (returned t'). }
  split; rewrite Etr; cbn [held handed_out].
  - apply drop_one_perm. rewrite Hheld, G1, Hts, Ets, Hrun, running_split by done. unfold listening. rewrite Em.
    solve_Permutation.
  - rewrite Hheld. intros Hx. apply drop_one_NoDup, G2, Hh, Hx.
  - intros Hx u Hu Hr. apply Hh in Hx. pose proof (good_distinct _ _ Hg Hx) as Hn. rewrite Hts in Hn. rewrite Ets in Hu.
    assert (Hin : u ∈ l1 ++ l2).
    { rewrite elem_of_app, elem_of_cons in *. destruct Hu as [Hu|[->|Hu]]; [tauto|done|tauto]. }
    assert (He : echoing (tr w1) u); [|by destruct He; split].
    eapply echoing_other; [exact Hk|by eapply others_distinct|]. apply G3; [done| |done].
    rewrite Hts. rewrite elem_of_app, elem_of_cons in *. tauto.
Qed.

(** A thread that returned a count has sent back all that it counted. *)
Definition served i (t : thread) w : Prop := handed_out (tr w) -> forall t' n, (prog w).(threads) !! i = Some t' ->
  t'.(returned) = Some n -> 0 <= n ->
  t'.(fd) = t.(fd) /\ said t.(fd) (tr w) = heard t.(fd) (tr w) /\ n = Z.of_nat (length (heard t.(fd) (tr w))).

Lemma backend_finish open out inp i t n w w1 : good open w -> (prog w).(threads) !! i = Some t -> t.(returned) = None ->
  talked t.(fd) out inp w w1 ->
  (0 <= n -> out = [] /\ inp = [] /\ n = t.(total) /\ (length t.(buf) <= t.(sent))%nat) ->
  Os.wp (finish i t n : M unit) (fun _ w' => good open w' /\ served i t w') w1.
Proof.
  intros Hg Hi Ht Hk Hn. destruct (thread_split _ _ _ Hi) as (l1 & l2 & Hts & Halter).
  unfold finish, Os.close, upd_thread. apply Os.wp_bind, Os.wp_emit, Os.wp_modify. set (w2 := Os.on_prog _ _).
  assert (Ets : threads (prog w2) = l1 ++ t <| returned := Some n |> :: l2).
  { unfold w2. cbn. by rewrite (tk_prog _ _ _ _ _ Hk), Halter. }
  assert (Em : main_at (prog w2) = main_at (prog w)) by (unfold w2; cbn; by rewrite (tk_prog _ _ _ _ _ Hk)).
  assert (Hret : returned (t <| returned := Some n |>) <> None) by (by destruct t).
  split; [exact (good_ends open out inp l1 t (t <| returned := Some n |>) l2 w w1 w2 Hg Hts Ht Hret Hk eq_refl Em Ets)|].
  intros Hh t' m Ht' Hm H0. assert (Hfd : t' = t <| returned := Some n |>).
  { unfold w2 in Ht'. cbn in Ht'. rewrite (tk_prog _ _ _ _ _ Hk) in Ht'.
    rewrite list_lookup_alter_eq, Hi in Ht'. by injection Ht' as <-. }
  subst t'. cbn in Hm. injection Hm as <-. split; [done|]. destruct (Hn H0) as (-> & -> & -> & Hl).
  change (handed_out (tr w1)) in Hh. apply (tk_handed _ _ _ _ _ Hk) in Hh.
  assert (Hin : t ∈ threads (prog w)) by (by eapply list_elem_of_lookup_2).
  destruct (gd_threads _ _ Hg Hh t Hin Ht) as [E1 [Hb|Hb] E2]; [|lia]. rewrite Hb, drop_nil, app_nil_r in E1. rewrite Hb in E2. cbn in E2.
  change (tr w2) with (Os.IoClose (fd t) :: tr w1). cbn [said heard].
  rewrite (tk_said _ _ _ _ _ Hk), (tk_heard _ _ _ _ _ Hk), !app_nil_r. split; [done|lia].
Qed.

Lemma rule_client_thread open i w : good open w ->
  Os.wp (client_thread i : M unit) (fun _ w' => good open w' /\
    forall t, (prog w).(threads) !! i = Some t -> t.(returned) = None -> served i t w') w.
Proof.
  intros Hg. unfold client_thread. apply Os.wp_bind, Os.wp_gets.
  destruct (threads (prog w) !! i) as [t|] eqn:Hi; [|by apply Os.wp_ret].
  destruct (returned t) as [r|] eqn:Ht; [apply Os.wp_ret; split; [done|by intros ? [= <-]; rewrite Ht]|].
  cut (Os.wp (read_write_loop i t : M unit) (fun _ w' => good open w' /\ served i t w') w).
  { intros Hw. eapply Os.wp_mono; [exact Hw|]. intros [] w' [G S]. split; [done|]. by intros ? [= <-]. }
  destruct (thread_split _ _ _ Hi) as (l1 & l2 & Hts & Halter). unfold read_write_loop.
  (* a turn that leaves the thread running *)
  assert (Hmove : forall out inp f w1, talked (fd t) out inp w w1 -> returned (f t) = None -> fd (f t) = fd t ->
    (echoing (tr w) t -> echoing (tr w1) (f t)) ->
    Os.wp (upd_thread i f : M unit) (fun _ w' => good open w' /\ served i t w') w1).
  { intros out inp f w1 Hk Hr Hfd Hstep. apply Os.wp_modify. set (w2 := Os.on_prog _ _).
    assert (Ets : threads (prog w2) = l1 ++ f t :: l2) by (unfold w2; cbn; by rewrite (tk_prog _ _ _ _ _ Hk), Halter).
    assert (Em : main_at (prog w2) = main_at (prog w)) by (unfold w2; cbn; by rewrite (tk_prog _ _ _ _ _ Hk)).
    split; [exact (good_moves open out inp l1 t (f t) l2 w w1 w2 Hg Hts Ht Hr Hfd Hk eq_refl Em Ets Hstep)|].
    intros _ t' n Ht' Hn. unfold w2 in Ht'. cbn in Ht'.
    rewrite (tk_prog _ _ _ _ _ Hk), list_lookup_alter_eq, Hi in Ht'. injection Ht' as <-. congruence. }
  assert (Hstay : forall w1, talked (fd t) [] [] w w1 -> good open w1 /\ served i t w1).
  { intros w1 Hk. split.
    - apply (good_moves open [] [] l1 t t l2 w w1 w1 Hg Hts Ht Ht eq_refl Hk eq_refl).
      + by rewrite (tk_prog _ _ _ _ _ Hk).
      + by rewrite (tk_prog _ _ _ _ _ Hk).
      + intros [E1 E0 E2]. destruct Hk as [K1 K2 _ _ _ _]. split; by rewrite ?K1, ?K2, ?app_nil_r.
    - intros _ t' n Ht' Hn. rewrite (tk_prog _ _ _ _ _ Hk), Hi in Ht'. injection Ht' as <-. congruence. }
  case_decide as Hs.
  - apply Os.wp_bind. eapply Os.wp_mono; [apply call_write|]. intros r w1 [Hk Hr]. destruct r as [n|errno]; cbn [taken] in Hk.
    + eapply Hmove; [exact Hk|case_decide; done|case_decide; done|]. intros [E1 E0 E2]. destruct Hk as [K1 K2 _ _ _ _].
      pose proof (Os.write_fits _ _ _ _ _ Hr) as Hfit. rewrite length_drop in Hfit.
      rewrite app_nil_r in K2. cbn. case_decide as Hd; cbn in *; split; cbn; rewrite ?K1, ?K2.
      * rewrite <- E1, <- app_assoc. f_equal. rewrite <- (take_drop n (drop (sent t) (buf t))) at 2. by rewrite drop_drop.
      * by right.
      * exact E2.
      * rewrite <- E1, app_nil_r. f_equal. apply take_ge. rewrite length_drop. lia.
      * by left.
      * lia.
    + case_decide; [apply Os.wp_ret, Hstay, Hk|]. eapply backend_finish; [done|done|done|exact Hk|lia].
  - assert (Hend : forall w1, talked (fd t) [] [] w w1 -> Os.wp (finish i t t.(total) : M unit)
      (fun _ w' => good open w' /\ served i t w') w1).
    { intros w1 Hk. eapply backend_finish; [done|done|done|exact Hk|]. intros _. split_and!; [done..|lia]. }
    apply Os.wp_bind, Os.wp_gets. destruct (keep_running (prog w)); cbn [negb]; [|apply Hend, talked_refl].
    apply Os.wp_bind. eapply Os.wp_mono; [apply call_read|]. intros r w1 [Hk _].
    destruct r as [[|b bs]|errno]; cbn [read_data] in Hk.
    + by apply Hend.
    + eapply Hmove; [exact Hk|done|done|]. intros [E1 E0 E2]. destruct Hk as [K1 K2 _ _ _ _].
      assert (Hb : buf t = []) by (destruct E0; [done|lia]). rewrite Hb, drop_nil, app_nil_r in E1. rewrite Hb in E2.
      split; cbn [fd buf sent total]; cbn; rewrite ?K1, ?K2, ?app_nil_r, ?length_app; cbn [length] in *.
      * by rewrite E1.
      * right. lia.
      * lia.
    + case_decide; [apply Os.wp_ret, Hstay, Hk|]. eapply backend_finish; [done|done|done|exact Hk|lia].
Qed.

(** A descriptor that was given out is no other's. *)
Lemma echoing_open k w t open : good open w -> handed_out (tr w) -> k ∉ held (tr w) -> t ∈ (prog w).(threads) ->
  t.(returned) = None -> echoing (tr w) t -> echoing (Os.IoOpen k :: tr w) t.
Proof.
  intros Hg Hh Hk Hin Ht [E1 E0 E2]. assert (Hne : k <> fd t).
  { intros ->. apply Hk. rewrite (gd_held _ _ Hg). rewrite !elem_of_app. right. left. by apply running_in. }
  split; cbn; rewrite ?decide_False by done; done.
Qed.

Lemma backend_spawn open k w w0 : good open w -> 0 <= k -> tr w0 = Os.IoOpen k :: tr w -> prog w0 = prog w ->
  Os.wp (spawn_client_handler k : M Z) (fun _ => good open) w0.
Proof.
  intros Hg Hk Et Ep. unfold spawn_client_handler. pose proof Hg as [G1 G2 G3].
  assert (Hfail : forall w1, tr w1 = tr w0 -> prog w1 = prog w0 ->
    Os.wp (Os.close k ;; mret (-1) : M Z) (fun _ => good open) w1).
  { intros w1 Et1 Ep1. apply Os.wp_bind. unfold Os.close. apply Os.wp_emit, Os.wp_ret.
    split; cbn; rewrite Et1, Et, ?Ep1, ?Ep; cbn; rewrite ?(decide_True (P := k = k)) by done.
    - exact G1.
    - intros [_ Hh]. by apply G2.
    - intros [Hn Hh] u Hu Hr. assert (He : echoing (Os.IoOpen k :: tr w) u) by (eapply echoing_open; eauto).
      by destruct He; split. }
  apply Os.wp_bind, Os.wp_os. intros ok e _. destruct ok; cbn [negb]; [|by apply Hfail].
  apply Os.wp_bind, Os.wp_os. intros created e' _. destruct created; cbn [negb]; [|by apply Hfail].
  apply Os.wp_bind, Os.wp_modify, Os.wp_ret. split; cbn; rewrite Et, ?Ep; cbn.
  - unfold listening, running. rewrite omap_app. cbn. fold (running (threads (prog w))). unfold listening in G1.
    change (main_at _) with (main_at (prog w)). rewrite G1. solve_Permutation.
  - intros [Hn Hh]. apply NoDup_cons. split; [done|by apply G2].
  - intros [Hn Hh] u Hu Hr. apply elem_of_app in Hu as [Hu|Hu]; [|apply list_elem_of_singleton in Hu as ->].
    + eapply echoing_open; eauto.
    + split; cbn; rewrite ?decide_True by done; [done|by left|done].
Qed.

Lemma backend_leave open k w : good open w -> main_at (prog w) = Accepting k ->
  Os.wp (leave k : M unit) (fun _ => good open) w.
Proof.
  intros [G1 G2 G3] Hm. unfold leave, Os.close. apply Os.wp_bind, Os.wp_emit, Os.wp_modify. split; cbn.
  - apply drop_one_perm. unfold listening in *. rewrite Hm in G1. exact G1.
  - intros Hh. apply drop_one_NoDup, G2, Hh.
  - intros Hh u Hu Hr. destruct (G3 Hh u Hu Hr). by split.
Qed.

Lemma good_env open w w' : good open w -> tr w' = tr w -> main_at (prog w') = main_at (prog w) ->
  threads (prog w') = threads (prog w) -> good open w'.
Proof. intros [G1 G2 G3] Et Em Ets. split; unfold listening in *; rewrite ?Et, ?Em, ?Ets; done. Qed.

Lemma rule_main_turn open k errno w : good open w -> main_at (prog w) = Accepting k ->
  Os.wp (main_turn k errno : M unit) (fun _ => good open) w.
Proof.
  intros Hg Hm. unfold main_turn. apply Os.wp_bind, Os.wp_gets.
  destruct (keep_running (prog w)) eqn:Hr; cbn [negb]; [|by apply backend_leave].
  apply Os.wp_bind. unfold Os.accept, Os.open. apply Os.wp_bind, Os.wp_os. intros c e _. apply Os.wp_bind. case_decide as Hc.
  - apply Os.wp_ret, Os.wp_ret. rewrite decide_True by done. case_decide; [|by apply backend_leave; [eapply good_env|]].
    apply Os.wp_bind, Os.wp_gets. destruct (negb _); [by apply backend_leave; [eapply good_env|]|].
    apply Os.wp_ret. by eapply good_env.
  - apply Os.wp_emit, Os.wp_ret. rewrite decide_False by done. apply Os.wp_bind.
    eapply Os.wp_mono; [apply (backend_spawn open c w); [done|lia|done|done]|]. intros z w' Hg'. by apply Os.wp_ret.
Qed.

Lemma backend_step open a w : good open w -> Os.wp (step a : M unit) (fun _ => good open) w.
Proof.
  intros Hg. unfold step. apply Os.wp_bind, Os.wp_gets. destruct (main_at (prog w)) as [k|status] eqn:Hm; [|by apply Os.wp_ret].
  destruct a as [|errno|i].
  - apply Os.wp_modify. by eapply good_env.
  - by apply rule_main_turn.
  - eapply Os.wp_mono; [by apply rule_client_thread|]. by intros [] w' [Hg' _].
Qed.

Lemma backend_run schedule : forall open w, good open w -> Os.wp (run schedule : M unit) (fun _ => good open) w.
Proof.
  induction schedule as [|a schedule IH]; intros open w Hg; cbn [run]; [by apply Os.wp_ret|].
  apply Os.wp_bind. eapply Os.wp_mono; [by apply backend_step|]. intros [] w'. apply IH.
Qed.

(** The start. *)
Lemma rule_open_listener port (Q : main_thread -> st -> Prop) w :
  (forall m w', held (tr w') = match m with Accepting k => [k] | Returned _ => [] end ++ held (tr w) ->
     (handed_out (tr w') -> NoDup (held (tr w)) -> NoDup (held (tr w'))) -> Q m w') ->
  Os.wp (open_listener port : M main_thread) Q w.
Proof.
  intros HQ. unfold open_listener. apply Os.wp_bind. unfold Os.socket, Os.open. apply Os.wp_bind, Os.wp_os. intros k e _.
  apply Os.wp_bind. case_decide as Hk.
  { apply Os.wp_ret, Os.wp_ret. rewrite decide_True by done. apply Os.wp_ret. by apply HQ. }
  apply Os.wp_emit, Os.wp_ret. rewrite decide_False by done.
  assert (Hno : forall w1, tr w1 = Os.IoOpen k :: tr w -> Os.wp (no_listener k : M main_thread) Q w1).
  { intros w1 Et. unfold no_listener, Os.close. apply Os.wp_bind, Os.wp_emit, Os.wp_ret.
    apply HQ; [cbn; rewrite Et; cbn; by rewrite decide_True|].
    cbn. rewrite Et. cbn. by rewrite decide_True. }
  apply Os.wp_bind, Os.wp_os. intros rc1 e1 _. case_decide; [by apply Hno|].
  apply Os.wp_bind, Os.wp_os. intros rc2 e2 _. case_decide; [by apply Hno|].
  apply Os.wp_bind, Os.wp_os. intros rc3 e3 _. case_decide; [by apply Hno|].
  apply Os.wp_ret, HQ; [done|]. cbn. intros [Hn _] Hd. by apply NoDup_cons.
Qed.

Lemma backend_main opts schedule w : NoDup (held (tr w)) ->
  Os.wp (main opts schedule : M unit) (fun _ => good (held (tr w))) w.
Proof.
  intros Hd. unfold main. apply Os.wp_bind.
  assert (Hstart : forall m w1, held (tr w1) = match m with Accepting k => [k] | Returned _ => [] end ++ held (tr w) ->
    (handed_out (tr w1) -> NoDup (held (tr w1))) ->
    Os.wp (Os.modify (fun _ => mk_backend true m []) ;; run schedule : M unit) (fun _ => good (held (tr w))) w1).
  { intros m w1 Hh Hd1. apply Os.wp_bind, Os.wp_modify, backend_run. split; cbn.
    - change (held (tr w1) ≡ₚ match m with Accepting k => [k] | Returned _ => [] end ++ held (tr w)). by rewrite Hh.
    - exact Hd1.
    - intros _ t Ht. by apply not_elem_of_nil in Ht. }
  destruct (launch_of opts) as [| |port].
  - by apply Os.wp_ret, Hstart.
  - by apply Os.wp_ret, Hstart.
  - apply rule_open_listener. intros m w1 Hh Hd1. apply Hstart; [done|]. intros Hx. by apply Hd1.
Qed.

(** C39. Under every schedule of its threads, its connections and its signals, and
    whatever its system does, the back end holds its listening socket while it
    runs, the socket of every thread that has not returned, and nothing else: a
    connection it cannot serve is closed.  If the descriptors it is given are
    free, what each running thread has sent is what it has read but for the bytes
    it is about to send, and a thread that returns a count has sent back all that
    it read, which is that count. *)
Theorem backend_echoes opts schedule i w : NoDup (held (tr w)) ->
  Os.wp (main opts schedule : M unit) (fun _ w1 =>
    held (tr w1) ≡ₚ listening (prog w1) ++ running (prog w1).(threads) ++ held (tr w) /\
    (handed_out (tr w1) -> forall t, t ∈ (prog w1).(threads) -> t.(returned) = None -> echoing (tr w1) t) /\
    Os.wp (client_thread i : M unit) (fun _ w2 => forall t, (prog w1).(threads) !! i = Some t ->
      t.(returned) = None -> served i t w2) w1) w.
Proof.
  intros Hd. eapply Os.wp_mono; [by apply backend_main|]. intros [] w1 Hg. pose proof Hg as [G1 G2 G3].
  split; [exact G1|]. split; [exact G3|]. eapply Os.wp_mono; [by apply (rule_client_thread (held (tr w)))|].
  by intros [] w2 [_ Hs].
Qed.

End Runs.

(** * A sample run

    Two connections; the first is served to its end, with an interrupted read and
    a short write, while the second is being served. *)

Definition sample_script : Scripted.script :=
  Scripted.mk_script [Os.RData (lit "hola"); Os.RError Client.EINTR; Os.RData (lit "otra"); Os.RData []]
    [Os.WDone 3; Os.WError Client.EINTR] [4; 5] [3] [] [] [] 0.
Definition sample_world : Os.st unit unit backend Scripted.script :=
  Selector.mk_state (Selector.mk_selector None 0 0 false [] 0 0 0 0 [])
    (Os.mk_sys (mk_backend false (Returned 0) []) sample_script []).
Definition sample_opts : list (byte * option cstring) := [("p"%byte, Some (lit "9999"))].
Definition sample_schedule : list act :=
  [Turn 0; Work 0; Work 0; Turn 0; Work 0; Work 0; Work 0; Work 1; Work 1].

Example sample_echoes :
  match main sample_opts sample_schedule sample_world with
  | Ok (_, w') => Os.prog (Selector.user w') =
      mk_backend true (Accepting 3) [mk_thread 4 [] 0 4 None; mk_thread 5 [] 0 4 None] /\
      said 4 (Os.trace (Selector.user w')) = lit "hola" /\ said 5 (Os.trace (Selector.user w')) = lit "otra"
  | Fault _ => False
  end.
Proof. vm_compute. done. Qed.

Lemma sample_distinct : NoDup (held (Os.trace (Selector.user sample_world))).
Proof. constructor. Qed.

Lemma backend_echoes_witness :
  Os.wp (main sample_opts sample_schedule : Os.M unit unit backend Scripted.script unit) (fun _ w1 =>
    held (Os.trace (Selector.user w1)) ≡ₚ listening (Os.prog (Selector.user w1)) ++
      running (Os.prog (Selector.user w1)).(threads) ++ held (Os.trace (Selector.user sample_world)) /\
    (handed_out (Os.trace (Selector.user w1)) -> forall t, t ∈ (Os.prog (Selector.user w1)).(threads) ->
      t.(returned) = None -> echoing (Os.trace (Selector.user w1)) t) /\
    Os.wp (client_thread 0 : Os.M unit unit backend Scripted.script unit) (fun _ w2 =>
      forall t, (Os.prog (Selector.user w1)).(threads) !! 0%nat = Some t -> t.(returned) = None -> served 0 t w2) w1)
    sample_world.
Proof. exact (backend_echoes sample_opts sample_schedule 0 sample_world sample_distinct). Defined.

End BackendSafe.
